(* ===== verification/_CoqProject ===== *)
-Q . S2P
Prelude.v
Types.v
Framing.v
Handle.v
Varint.v
Yamux.v
Mplex.v
Accumulator.v
MinaProtocol.v
Multistream.v
Noise.v
Pnet.v
Stack.v
Coding.v
Frames.v
SortedIntersect.v
Params.v
Rocks.v
Families.v
DbCore.v
DbIndex.v
DbSpec.v
DbBlobs.v
DbSearch.v
Decode.v
Facade.v
DbDemo.v
Text.v
RingBuffer.v
BpfEvent.v
Probes.v
Execve.v
Firewall.v
Checksum.v
Meshsub.v
Capnp.v
Ipc.v
BTree.v
PeerTests.v
Registry.v
Topology.v
Verdicts.v
Recorder.v
EventLoop.v
Stats.v
DbStats.v
DbRows.v
DbStatsSpec.v
Views.v
Listing.v
Aggregator.v
Http.v
Server.v
AggregatorServer.v
KeyRecover.v
Mock.v
Chunks.v
System.v
EndToEnd.v
RegistryServer.v
Shown.v
Tools.v
UnitTests.v
Tracing.v
Lifecycle.v
