(* ===== verification/Prelude.v ===== *)
(** * Verification of the Mina network debugger

    The debugger watches the TCP connections of a Mina node with eBPF probes,
    undoes the layers of the libp2p stack, stores every message in a database and
    answers queries about them; an aggregator collects what several debuggers saw.
    This development models the probes and the event loop ([bpf-recorder],
    [bpf-ring-buffer]), the recorder ([mina-recorder]), the aggregator
    ([mina-aggregator]) and the programs that test a network of debuggers
    ([mina-ipc], [simulator], [topology-tool]) as executable functions and proves
    the properties that make them correct.

    ** The program and its model

    A chunk of bytes of one direction of a connection passes through
    [pnet -> multistream -> noise -> multistream -> mux -> multistream -> mina],
    each layer calling the next one through the trait [HandleData]; every layer
    writes to the database through [DbGroup] and [DbStream]. The files follow
    that path (sources under [src/mina-recorder/src/]):

    - [Prelude]: outcomes of Rust code ([Ret], [Panic], [OutOfFuel]), bytes,
      machine integers with explicit wrap-around, slices that panic out of
      range, UTF-8, shared lemmas and tactics.
    - [Types] ([database/types.rs], [event.rs], [decode/mod.rs], [chunk.rs]):
      stream ids, stream kinds, message types with their text forms and tags.
    - [Framing]: reassembly in general: a step function that takes one frame off
      a byte string, and the lemma that the frames of a stream do not depend on
      how it is cut. [Yamux], [Mplex], [Accumulator], [Noise] instantiate it.
    - [Handle] ([connection/mod.rs]): the interfaces between the layers and to
      the database as classes, with a database that records its calls.
    - [Varint]: the unsigned-varint crate as an interface with an instance.
    - [Yamux], [Mplex] ([connection/yamux.rs], [connection/mplex.rs]): header
      codecs, accumulators, stream tables, dispatch to the streams.
    - [Accumulator], [MinaProtocol] ([connection/accumulator.rs],
      [connection/mina_protocol/]): length-prefixed messages, RPC queries and
      responses, gossip streams.
    - [Multistream] ([connection/multistream_select.rs]): protocol negotiation.
    - [Noise] ([connection/noise.rs]): message framing, handshake state machine,
      transport decryption, failure records.
    - [Pnet] ([connection/pnet.rs]): the private network stream cipher.
    - [Stack] ([connection/mux.rs], [recorder.rs]): the layers composed.
    - [Coding] ([custom_coding.rs], [chunk.rs], [database/index.rs], records of
      [database/types.rs]): binary records and index keys.
    - [Frames]: what a layer may do to the world it is run in, as classes with an instance
      for every layer, so that a property of the database is kept by the whole stack.
    - [SortedIntersect], [Params] ([database/sorted_intersect.rs],
      [database/params.rs]): intersection of index scans, query parameters.
    - [Rocks]: the key-value store ([rocksdb] crate) as an interface: ordered
      column families, the prefix extractors chosen by [DbCore::open], and an
      in-memory instance. [Families]: the names of the families, and that each is found.
    - [DbCore] ([database/core.rs]): writing messages and their indexes, raw
      chunks, counters; queries, search by time.
    - [DbIndex], [DbSpec], [DbBlobs], [DbSearch]: the properties of [DbCore]; the
      abstract database is a log of entries ([DbSpec.represents]).
    - [Decode] ([decode/meshsub.rs], [decode/kademlia.rs], the [match] of
      [DbStream::add]): the message types a stored message is filed under.
    - [Facade] ([database/rocksdb.rs]): ids, connections, messages; the
      invariant of the recorder's database; the instance of [Handle.DbGroup].
    - [DbDemo]: a concrete database the theorems are applied to.

    How the chunks get there, and what else is made of them:

    - [Text]: text parsing and printing of the standard library.
    - [Probes] ([bpf-recorder/src/main.rs], [context.rs]): the probes on system
      calls and their tables in the kernel.
    - [Execve] (the same files): the probes on [execve] that choose the processes to
      watch from their arguments and environment.
    - [BpfEvent] ([bpf-recorder/src/lib.rs], [send.rs]): the records the probes send.
    - [RingBuffer] ([bpf-ring-buffer/src/lib.rs]): the reader of the shared buffer,
      with a step relation for the kernel's side.
    - [Firewall] ([disable_connections] of [bpf-recorder/src/main.rs],
      [application.rs]): the packet filter and the server that controls it.
    - [EventLoop] ([main] of [bpf-recorder/src/main.rs]): the loop over the events,
      with [Sock], the life of a descriptor, as its specification.
    - [Recorder] ([recorder.rs], [tester.rs]): the table of connections and the
      threads that run their stacks, as a step relation over all schedules.
    - [Capnp] ([libp2p_helper/mod.rs]): the pipe between the node and its helper.
    - [Checksum] ([mina-ipc/src/message/checksum.rs]): checksums of streams that
      the report of the loop carries.
    - [Meshsub], [Stats] ([decode/meshsub.rs], [stats.rs],
      [decode/meshsub_stats.rs], [meshsub_sink]): gossip messages and the
      statistics of blocks and transactions; [Stats.stats_sink] is the
      instance of the interface [MinaProtocol.MeshsubSink].
    - [DbStats], [DbRows], [DbStatsSpec] ([database/core.rs], [database/types.rs],
      [database/rocksdb.rs]): how the statistics, the helper's gossip and strace lines
      are stored and read; [DbStats] has the instances of [Stats.StatsDb] and
      [Capnp.CapnpDb].
    - [Views] ([decode/], [fetch_full_message]): how stored messages are shown as JSON.
    - [Listing] ([fetch_connections], [fetch_snark_by_hash]): the list of connections
      and the snark works that mention a ledger hash.
    - [Aggregator] ([mina-aggregator/src/database.rs], [rocksdb.rs]): the events of
      all debuggers by block and node.
    - [Http]: the filters of the [warp] crate as an interface, and the lemma that a
      tree of filters is a table of routes.
    - [Server] ([server.rs], the client of [application.rs]): the HTTP interface of the
      recorder over the queries of [DbCore], [DbStats], [Listing] and [Views].
    - [AggregatorServer] ([mina-aggregator/src/routes.rs]): the HTTP interface of the
      aggregator over [Aggregator], with the lock a panic leaves poisoned.
    - [KeyRecover] ([key_recover.rs]): the search for the static keys of a node from
      the randomness it was given.
    - [Chunks] ([chunk.rs], [bin/replay.rs]): the dump of recorded chunks and its
      parser; what a decoder of records can return.
    - [System] ([recorder.rs]): the recorder with everything it shares, the stack of every
      connection, the statistics, the keys, the database and the client of the
      aggregator, as one machine over all schedules of its threads.
    - [EndToEnd]: the machine and the HTTP interface together, and a run of the whole stack.
    - [Lifecycle] ([main] of [bpf-recorder/src/main.rs], [proc.rs], [server::spawn]): the
      threads of the process from its start to its end, and the posting of the reports.
    - [Tracing] ([ptrace.rs], [strace.rs]): the task that suspends processes, with the pipe
      its commands go through, and the recorder of strace lines.
    - [Shown], [Tools] ([database/types.rs], [bin/], [tester/src/main.rs]): texts of values, and
      the small programs.
    - [UnitTests]: the tests of the repository, run on the model.

    How a network of debuggers is tested:

    - [Ipc] ([mina-ipc/src/message/]): the messages between a node and its helper,
      built, read, buffered and summed up.
    - [BTree]: the ordered maps of the standard library.
    - [PeerTests] ([simulator/src/peer/tests.rs]): what a node asks its debugger.
    - [Registry] ([simulator/src/registry/state.rs], [server.rs], [messages.rs]): the
      server the nodes register with and report to, and its split of the network.
    - [Topology] ([topology-tool/src/main.rs]): the tool that splits a network and shows
      its graph; the split of [Registry] is proved here against [Firewall].
    - [Verdicts] ([simulator/src/registry/tests.rs], [peer/tcpflow.rs]): the tests over
      the reports of all nodes.
    - [RegistryServer] ([simulator/src/registry/server.rs], [bin/mina-simulator.rs]): the HTTP
      interface of the registry, and the command that judges its summary.
    - [Mock] ([simulator/src/libp2p_helper.rs], [peer/main_behavior.rs],
      [peer/split_behavior.rs]): the helper process as requests and answers, and the
      runs of a simulated node over it.

    State is passed explicitly. A world [W] stands for what is behind [&Cx] and
    [&Db]; the theorems on single layers use the recording database of [Handle]
    and a layer above that collects what it is given.

    ** What the theorems show

    - Reassembly: for yamux, mplex, RPC and gossip messages, Noise messages and
      negotiation tokens, the frames handed on are those of the byte stream of
      the direction, however it is cut (C2, C8, C11, [Noise.noise_chunks],
      [Mplex.mplex_process_chunks]),
      and each stream receives its own data in order (C4, C7) and has a life of its own:
      opened, half closed, closed or reset by its own frames only (C1,
      [Mplex.mplex_stream_life]).
    - Codecs: yamux headers, database records and text forms round-trip
      ([Yamux.yamux_header_roundtrip], C16); query parameters and mplex control frames
      ([Params.params_validate_spec], [Views.mplex_control_shown]).
    - Cryptographic layers: each direction is decrypted with its own key stream
      or cipher, independently of chunks and of the other direction (C13, C15);
      a failed session stays failed (C14).
    - RPC: responses are stored and shown under the query they answer (C9, C10).
    - Database: writing a message extends the abstract log and a query returns
      exactly the matching entries, in order, within its limits (C19, C20, with
      C17 for the intersection); the recorder as a whole, with all its layers and threads, keeps
      its database consistent and only adds to it (C21), and what it recorded is what the HTTP
      interface shows ([EndToEnd.recorded_is_shown]); chunks are never overwritten
      ([DbBlobs.put_blob_fresh]) and messages are
      read back as they were recorded and shown as their stream's protocol, also
      through the interface of the layers (C23, [Facade.interface_add_records]); what
      is filed under which type (C22); connection statistics
      ([Facade.connection_statistics]); search by time (C26); the readers of the gossip statistics
      and of the helper's gossip give back the history of the writes (C30); whatever the
      bytes, a decoder of records returns values of their type (C24), and a dump of
      chunks is read back ([Chunks.dump_roundtrip]).
    - HTTP: a request for messages answers with the entries of the abstract log that match
      its parameters (C12), the firewall requests become commands
      ([Server.http_enable_filters]), and the aggregator's routes answer from its history
      until a panic poisons the lock ([AggregatorServer.aggregator_service],
      [AggregatorServer.early_event_poisons]).
    - From the kernel to the recorder: a program that is started is watched exactly when
      its arguments and environment say so (C29), the reader of the ring buffer gives out every
      record once and in order whatever the interleaving (C31), events survive
      the buffer (C33), the probes report each socket as a sequence that opens, carries
      data and closes (C34), the loop keeps for every descriptor the connection its
      own events describe and feeds its stack exactly that connection's data
      (C37), and so do the threads of the recorder under every schedule (C36). The process
      ends on Ctrl-C and on nothing else (C28), and posts each report at most sixty times
      ([Lifecycle.report_posts]); the tracer stops no process but those it was told to suspend
      ([Tracing.tracer_stops_only_suspended]), its commands arrive
      ([Tracing.task_commands_arrive]), and strace lines are shown as they were read
      ([Tracing.strace_is_shown]).
    - Around it: the firewall blocks exactly the TCP packets of the listed ports that
      do not come from a listed address (C35); the messages of the helper's pipe do
      not depend on how it is read (C38); the statistics of gossip are those of the log
      of messages (C39); the aggregator's view of a node and a block is a function
      of that node's own events (C40).
    - Testing a network: what is written to the helper's pipe is what is read from it, with the
      same checksum (C27); the registry keeps for each node its own history (C25); the
      whitelists of a split separate the two halves and nothing else (C18); the graph
      has as many components as the network of the nodes (C6); the verdict on the
      checksums of the network means what it says (C5), and the command passes exactly on a good
      verdict ([RegistryServer.network_checksum_ends]); the service answers as the registry does
      ([RegistryServer.registry_service]); a call to the helper gets its own
      answer if nothing was sent to streams before ([Mock.calls_get_their_answers]), else
      that of an earlier request ([Mock.answer_after_stream]), and a run stops what it
      starts ([Mock.runs_stop_what_they_start]).
    - Behaviour that is probably not intended is stated as it is: a loop that
      does not end (C3), a panic (C7), a buffer that is never
      released (C32), ids reused after a restart ([Facade.reopen_reuses_id]), keys that
      are never found again ([KeyRecover.keys_not_reproduced]), a listing
      that ends too early and events that replace others (C30), closing times of open
      connections ([Facade.interface_add_records]), truncated binary search (C26), a
      test that compares a report with itself ([Verdicts.test_ipc_passes]), a process that
      waits for its own server ([Lifecycle.watched_process_gone]).
    - The model against the tests of the repository: each test of the negotiation, of yamux and
      mplex, of the statistics and of the helper's gossip passes when it is run on the
      definitions ([UnitTests]).

    ** Bounds and fuel

    Loops that consume input run on fuel computed from the input (its length
    plus a constant), and the theorems give the result, not only its shape if
    there is one: [process_fuel] of [Yamux], the lengths in [Mplex.process],
    [MinaProtocol.rpc_on_data], [Multistream.dir_poll], [Noise.chunk_handle] and
    [SortedIntersect.sorted_intersect] are enough for the loop to end whenever
    the source's loop ends. [search_timestamp] recurses on the bits of its step.
    Integers are [Z] with [wrap] at the width of the Rust type; hypotheses such
    as [blen _ < 2 ^ 64] only exclude inputs larger than the address space.

    ** Parameters

    Libraries that are not part of the repository are class parameters with
    their documented behaviour as laws, and a concrete instance shows the laws
    can hold: varint ([Varint]), bin_prot headers ([Binprot]), protobuf length
    ([Prost]), XSalsa20 and blake2 ([StreamCipher]), the Noise primitives
    ([NoisePrims]), [radiation]'s primitive codecs ([Radiation]), rocksdb
    ([Rocks]), [itertools::kmerge_by] ([Itertools]), the generated protobuf
    decoders ([Decoders], [GossipLib]), more of [radiation] and the stable encodings
    ([RadiationDerive], [BinprotStable]), what the views use of libraries ([ViewLib],
    [Speed], [LedgerHashText]), capnp ([CapnpLib]), blake2 ([Blake2]), crc64
    ([Crc64]), the maps of the kernel ([BpfMap], [BpfKeys], [BpfMut]) and its helper
    functions ([Kernel], [Env]), the aggregator's column family and codec
    ([BlockCf], [BlockCodec]), capnp trees and gossip of the simulator ([CapnpTree],
    [GossipV2]), petgraph ([PetGraph]), conversion of times ([F64Time]), [warp] ([Warp]),
    the derived parameter decoders and texts of the servers ([ServerLib],
    [AggregatorLib]), Shake256 and the curve ([Shake]), the ranges of [radiation]'s
    integers ([RadiationRanges]), the client of the aggregator ([AggregatorClient]), the tracing
    of processes ([Pete]), the derived decoders of the registry ([RegistryLib]).
    [Connections] is what the recorder uses of the database and of the stack of a
    connection.

    ** What is not modelled

    The memory mapping and epoll of the ring buffer, the loading of the probes, the timers and
    sockets of the simulator and the start of its processes. What a chunk writes before its
    handler panics is not represented ([System] keeps the world of before the chunk); the
    variable [sh_overflow] of [System], which no code has, records whether an id ran out of
    its 64 bits. The layers take a [DbStream] at the start of a call and drop it at the end;
    the model performs the write of [Drop] after each stored message ([Facade.group_db]), and
    not in a call that stores none. Log output and the
    text of errors are left out. *)

From stdpp Require Import base list gmap strings sorting relations.
From Stdlib Require Import ZArith Lia.

#[global] Open Scope Z_scope.

(** * Outcomes of Rust code

    [Ret] is a normal return, [Panic] is an unwinding panic (an [expect], an
    out-of-range slice, an explicit [panic!]), and [OutOfFuel] is the answer of a
    computation that does not return: a fuelled loop that was not given enough fuel,
    or a call that waits for ever. *)

Inductive outcome (A : Type) : Type :=
| Ret (a : A)
| Panic
| OutOfFuel.
Arguments Ret {A} a.
Arguments Panic {A}.
Arguments OutOfFuel {A}.

#[export] Instance outcome_ret : MRet outcome := fun A a => Ret a.
#[export] Instance outcome_bind : MBind outcome := fun A B f m =>
  match m with Ret a => f a | Panic => Panic | OutOfFuel => OutOfFuel end.

(** [Result<A, E>]. *)
Inductive result (A E : Type) : Type :=
| Ok (a : A)
| Err (e : E).
Arguments Ok {A E} a.
Arguments Err {A E} e.

(** [std::task::Poll]. *)
Inductive poll (A : Type) : Type :=
| Ready (a : A)
| Pending.
Arguments Ready {A} a.
Arguments Pending {A}.

(** * Automation *)

Create HintDb mina.
Create Rewrite HintDb mina_len.

(** Split every [match] and [if] of the goal, keeping the equations. *)
Ltac split_matches :=
  repeat match goal with
  | |- context [match ?x with _ => _ end] => destruct x eqn:?
  end.

(** Split every [match] and [if] of a hypothesis. *)
Ltac split_matches_in H :=
  repeat match type of H with
  | context [match ?x with _ => _ end] => destruct x eqn:?
  end.

(** Turn boolean integer tests in the context into propositions. *)
Ltac to_prop :=
  repeat match goal with
  | H : (_ && _)%bool = true |- _ => apply andb_true_iff in H; destruct H
  | H : (_ && _)%bool = false |- _ => apply andb_false_iff in H
  | H : (_ <=? _) = true |- _ => apply Z.leb_le in H
  | H : (_ <=? _) = false |- _ => apply Z.leb_gt in H
  | H : (_ <? _) = true |- _ => apply Z.ltb_lt in H
  | H : (_ <? _) = false |- _ => apply Z.ltb_ge in H
  | H : (_ =? _) = true |- _ => apply Z.eqb_eq in H
  | H : (_ =? _) = false |- _ => apply Z.eqb_neq in H
  end.

(** [Forall P l] for an explicit list. *)
Ltac forall_list :=
  solve [repeat (apply Forall_cons_2; [assumption|]); apply Forall_nil_2].

(** * Runs of a step relation *)

(** What every step preserves holds along a run. *)
Lemma rtc_preserves {S : Type} (R : relation S) (P : S -> Prop) (s s' : S) :
  (forall a b, R a b -> P a -> P b) -> rtc R s s' -> P s -> P s'.
Proof. intros Hstep. induction 1; eauto. Qed.

(** * Bytes and machine integers

    A byte is a [Z] in [0, 256); a [Vec<u8>] or [&[u8]] is a [list Z]. *)

Abbreviation bytes := (list Z).

Definition is_byte (b : Z) : Prop := 0 <= b < 256.
Definition wf_bytes (l : bytes) : Prop := Forall is_byte l.

(** [slice.len()] *)
Definition blen {A} (l : list A) : Z := Z.of_nat (length l).

(** Reduction of an integer to [w] bits (Rust's wrapping arithmetic). *)
Definition wrap (w z : Z) : Z := z mod 2 ^ w.

(** Reinterpretation of a [w]-bit pattern as a two's complement integer
    ([as i32], [as i64]). *)
Definition to_signed (w z : Z) : Z :=
  if z <? 2 ^ (w - 1) then z else z - 2 ^ w.

(** [n]-byte big-endian codec: [to_be_bytes] and [from_be_bytes]. *)
Fixpoint be_encode (n : nat) (z : Z) : bytes :=
  match n with
  | O => []
  | S n' => be_encode n' (z / 256) ++ [z mod 256]
  end.

Definition be_decode (l : bytes) : Z :=
  fold_left (fun acc b => acc * 256 + b mod 256) l 0.

(** [to_le_bytes] and [from_le_bytes]. *)
Definition le_encode (n : nat) (z : Z) : bytes := rev (be_encode n z).
Definition le_decode (l : bytes) : Z := be_decode (rev l).

(** [&l[a..b]], [&l[a..]] and [&l[..b]]: a panic when out of range. *)
Definition slice {A} (a b : Z) (l : list A) : outcome (list A) :=
  if (0 <=? a) && (a <=? b) && (b <=? blen l)
  then Ret (take (Z.to_nat (b - a)) (drop (Z.to_nat a) l)) else Panic.

Definition slice_from {A} (a : Z) (l : list A) : outcome (list A) :=
  if (0 <=? a) && (a <=? blen l) then Ret (drop (Z.to_nat a) l) else Panic.

Definition slice_to {A} (b : Z) (l : list A) : outcome (list A) :=
  if (0 <=? b) && (b <=? blen l) then Ret (take (Z.to_nat b) l) else Panic.

(** A Rust [String] is its list of UTF-8 bytes; [str] makes literals. *)
Definition str (s : string) : bytes :=
  (fun a => Z.of_N (Ascii.N_of_ascii a)) <$> String.list_ascii_of_string s.

(** [s.starts_with(p)] *)
Fixpoint starts_with (p s : bytes) : bool :=
  match p, s with
  | [], _ => true
  | a :: p', b :: s' => (a =? b) && starts_with p' s'
  | _ :: _, [] => false
  end.

(** [str::from_utf8] / [String::from_utf8]: the well-formed UTF-8 sequences of
    the Unicode standard. [n] is fuel; each round consumes a byte. *)
Definition in_range (lo hi b : Z) : bool := (lo <=? b) && (b <=? hi).

Fixpoint utf8_valid_fuel (n : nat) (s : bytes) : bool :=
  match n with
  | O => true
  | S n =>
      match s with
      | [] => true
      | a :: s =>
          if in_range 0 127 a then utf8_valid_fuel n s
          else match s with
          | b :: s2 =>
              if in_range 194 223 a then in_range 128 191 b && utf8_valid_fuel n s2
              else match s2 with
              | c :: s3 =>
                  let lo := if a =? 224 then 160 else 128 in
                  let hi := if a =? 237 then 159 else 191 in
                  if in_range 224 239 a
                  then in_range lo hi b && in_range 128 191 c && utf8_valid_fuel n s3
                  else match s3 with
                  | d :: s4 =>
                      let lo := if a =? 240 then 144 else 128 in
                      let hi := if a =? 244 then 143 else 191 in
                      in_range 240 244 a && in_range lo hi b && in_range 128 191 c &&
                      in_range 128 191 d && utf8_valid_fuel n s4
                  | [] => false
                  end
              | [] => false
              end
          | [] => false
          end
      end
  end.

Definition utf8_valid (s : bytes) : bool := utf8_valid_fuel (length s) s.

(** ** Lemmas on lengths and slices *)

Lemma blen_app {A} (l1 l2 : list A) : blen (l1 ++ l2) = blen l1 + blen l2.
Proof. unfold blen. rewrite length_app. lia. Qed.

Lemma blen_nonneg {A} (l : list A) : 0 <= blen l.
Proof. unfold blen. lia. Qed.

Lemma blen_cons {A} (x : A) (l : list A) : blen (x :: l) = 1 + blen l.
Proof. unfold blen. cbn [length]. lia. Qed.

Lemma blen_nil {A} : blen (A := A) [] = 0.
Proof. reflexivity. Qed.

Lemma blen_0_inv {A} (l : list A) : blen l <= 0 -> l = [].
Proof. destruct l; [done|]. rewrite blen_cons. pose proof (blen_nonneg l). lia. Qed.

Lemma take_app_within {A} (n : Z) (l x : list A) :
  n <= blen l -> take (Z.to_nat n) (l ++ x) = take (Z.to_nat n) l.
Proof. intros H. unfold blen in H. rewrite take_app_le; [done|lia]. Qed.

Lemma drop_app_within {A} (n : Z) (l x : list A) :
  n <= blen l -> drop (Z.to_nat n) (l ++ x) = drop (Z.to_nat n) l ++ x.
Proof. intros H. unfold blen in H. rewrite drop_app_le; [done|lia]. Qed.

Lemma blen_drop {A} (n : Z) (l : list A) :
  0 <= n <= blen l -> blen (drop (Z.to_nat n) l) = blen l - n.
Proof. unfold blen. intros H. rewrite length_drop. lia. Qed.

Lemma blen_take {A} (n : Z) (l : list A) :
  0 <= n <= blen l -> blen (take (Z.to_nat n) l) = n.
Proof. unfold blen. intros H. rewrite length_take. lia. Qed.

Lemma take_blen {A} (l : list A) : take (Z.to_nat (blen l)) l = l.
Proof. apply take_ge. unfold blen. lia. Qed.

Lemma drop_blen {A} (l : list A) : drop (Z.to_nat (blen l)) l = [].
Proof. apply drop_ge. unfold blen. lia. Qed.

Lemma slice_within {A} (a b : Z) (l : list A) :
  0 <= a <= b -> b <= blen l ->
  slice a b l = Ret (take (Z.to_nat (b - a)) (drop (Z.to_nat a) l)).
Proof.
  intros. unfold slice.
  by rewrite !(proj2 (Z.leb_le _ _)) by lia.
Qed.

Lemma slice_from_within {A} (a : Z) (l : list A) :
  0 <= a <= blen l -> slice_from a l = Ret (drop (Z.to_nat a) l).
Proof. intros. unfold slice_from. by rewrite !(proj2 (Z.leb_le _ _)) by lia. Qed.

Lemma slice_to_within {A} (b : Z) (l : list A) :
  0 <= b <= blen l -> slice_to b l = Ret (take (Z.to_nat b) l).
Proof. intros. unfold slice_to. by rewrite !(proj2 (Z.leb_le _ _)) by lia. Qed.

(** ** Lemmas on the integer codecs *)

Lemma length_be_encode (n : nat) (z : Z) : length (be_encode n z) = n.
Proof.
  revert z. induction n as [|n IH]; intros z; [done|].
  cbn [be_encode]. rewrite length_app, IH. cbn. lia.
Qed.

Lemma be_decode_snoc (l : bytes) (b : Z) :
  be_decode (l ++ [b]) = be_decode l * 256 + b mod 256.
Proof. unfold be_decode. by rewrite fold_left_app. Qed.

Lemma be_decode_encode (n : nat) (z : Z) :
  0 <= z < 256 ^ Z.of_nat n -> be_decode (be_encode n z) = z.
Proof.
  revert z. induction n as [|n IH]; intros z Hz.
  - cbn in *. unfold be_decode; cbn. lia.
  - cbn [be_encode]. rewrite be_decode_snoc, Z.mod_mod, IH; [| |lia].
    + pose proof (Z.div_mod z 256). lia.
    + rewrite Nat2Z.inj_succ, Z.pow_succ_r in Hz by lia.
      split; [apply Z.div_pos; lia | apply Z.div_lt_upper_bound; lia].
Qed.

Lemma be_encode_decode (l : bytes) :
  wf_bytes l -> be_encode (length l) (be_decode l) = l.
Proof.
  induction l as [|b l IH] using rev_ind; intros Hl; [done|].
  apply Forall_app in Hl as [Hl Hb]. apply Forall_cons_1 in Hb as [Hb _].
  rewrite length_app, Nat.add_comm, be_decode_snoc. cbn [be_encode length plus].
  unfold is_byte in Hb. rewrite (Z.mod_small b) by lia.
  rewrite Z.div_add_l, Z.div_small, Z.add_0_r, IH by (done || lia).
  rewrite Z.add_comm, Z.mod_add, Z.mod_small by lia. done.
Qed.

Lemma be_decode_bound (l : bytes) : 0 <= be_decode l < 256 ^ blen l.
Proof.
  unfold blen. induction l as [|b l IH] using rev_ind; [cbn; lia|].
  pose proof (Z.mod_pos_bound b 256).
  rewrite be_decode_snoc, length_app, Nat.add_comm. cbn [length plus].
  rewrite Nat2Z.inj_succ, Z.pow_succ_r by lia. lia.
Qed.

Lemma wf_be_encode (n : nat) (z : Z) : wf_bytes (be_encode n z).
Proof.
  revert z. induction n as [|n IH]; intros z; [by constructor|].
  cbn [be_encode]. apply Forall_app. split; [apply IH|].
  constructor; [|constructor]. unfold is_byte. apply Z.mod_pos_bound. lia.
Qed.

Lemma blen_be_encode (n : nat) (z : Z) : blen (be_encode n z) = Z.of_nat n.
Proof. unfold blen. by rewrite length_be_encode. Qed.

Lemma le_decode_encode (n : nat) (z : Z) :
  0 <= z < 256 ^ Z.of_nat n -> le_decode (le_encode n z) = z.
Proof. intros. unfold le_decode, le_encode. rewrite rev_involutive. by apply be_decode_encode. Qed.

Lemma length_le_encode (n : nat) (z : Z) : length (le_encode n z) = n.
Proof. unfold le_encode. by rewrite length_rev, length_be_encode. Qed.

Lemma blen_le_encode (n : nat) (z : Z) : blen (le_encode n z) = Z.of_nat n.
Proof. unfold blen. by rewrite length_le_encode. Qed.

Lemma wrap_small (w z : Z) : 0 <= z < 2 ^ w -> wrap w z = z.
Proof. intros. by apply Z.mod_small. Qed.

Lemma wrap_over (w z : Z) : 2 ^ w <= z < 2 * 2 ^ w -> wrap w z = z - 2 ^ w.
Proof. intros. unfold wrap. symmetry. apply (Z.mod_unique_pos _ _ 1); lia. Qed.

Lemma wrap_bound (w z : Z) : 0 <= w -> 0 <= wrap w z < 2 ^ w.
Proof. intros. apply Z.mod_pos_bound, Z.pow_pos_nonneg; lia. Qed.

Lemma to_signed_wrap (w z : Z) :
  0 < w -> - 2 ^ (w - 1) <= z < 2 ^ (w - 1) -> to_signed w (wrap w z) = z.
Proof.
  intros Hw Hz. unfold to_signed, wrap.
  assert (E : 2 ^ w = 2 * 2 ^ (w - 1)).
  { rewrite <- Z.pow_succ_r by lia. f_equal. lia. }
  destruct (Z.neg_nonneg_cases z).
  - replace (z mod 2 ^ w) with (z + 2 ^ w).
    + destruct (Z.ltb_spec (z + 2 ^ w) (2 ^ (w - 1))); lia.
    + rewrite <- (Z.mod_add z 1) by lia. rewrite Z.mul_1_l, Z.mod_small; lia.
  - rewrite Z.mod_small by lia. destruct (Z.ltb_spec z (2 ^ (w - 1))); lia.
Qed.

Lemma wrap_to_signed (w z : Z) :
  0 < w -> 0 <= z < 2 ^ w -> wrap w (to_signed w z) = z.
Proof.
  intros Hw Hz. unfold to_signed, wrap.
  destruct (Z.ltb_spec z (2 ^ (w - 1))).
  - apply Z.mod_small. lia.
  - replace (z - 2 ^ w) with (z + (-1) * 2 ^ w) by lia.
    rewrite Z.mod_add by lia. apply Z.mod_small. lia.
Qed.

Lemma starts_with_app (p s : bytes) : starts_with p (p ++ s) = true.
Proof. induction p as [|a p IH]; [done|]. cbn. by rewrite Z.eqb_refl, IH. Qed.

Lemma starts_with_true (p s : bytes) :
  starts_with p s = true <-> exists r, s = p ++ r.
Proof.
  split; [|intros [r ->]; apply starts_with_app].
  revert s. induction p as [|a p IH]; intros [|b s] H; cbn in H; try done; eauto.
  to_prop. subst. destruct (IH s) as [r ->]; [done|]. by exists r.
Qed.

#[global] Arguments be_encode : simpl never.
#[global] Arguments be_decode : simpl never.

#[export] Hint Resolve blen_nonneg wf_be_encode : mina.
#[export] Hint Rewrite @blen_app @blen_nil @blen_cons @blen_be_encode @blen_le_encode @length_be_encode : mina_len.

(** [lia] with the length facts of the context. *)
Ltac len_lia :=
  autorewrite with mina_len in *;
  repeat match goal with
  | l : list ?A |- _ =>
      lazymatch goal with
      | _ : 0 <= blen l |- _ => fail
      | _ => pose proof (blen_nonneg l)
      end
  end; lia.
