(* ===== verification/Types.v ===== *)
(** Shared data of the recorder: addresses and event metadata
    ([mina-recorder/src/event.rs]), identifiers and kinds of connections,
    streams and messages ([database/types.rs], [decode/mod.rs]), their textual
    and numeric forms and the round trips between them. *)

From stdpp Require Import base list gmap strings.
From Stdlib Require Import ZArith Lia.
From S2P Require Import Prelude.

(** * Network addresses and event metadata *)

Inductive IpAddr : Type :=
| V4 (octets : bytes)
| V6 (octets : bytes).

Record SocketAddr : Type := mkSocketAddr { ip : IpAddr; port : Z }.

(** The invariants Rust's types give for free. *)
Definition wf_ip (a : IpAddr) : Prop :=
  match a with
  | V4 o => wf_bytes o /\ length o = 4%nat
  | V6 o => wf_bytes o /\ length o = 16%nat
  end.

Definition wf_addr (a : SocketAddr) : Prop := wf_ip (ip a) /\ 0 <= port a < 2 ^ 16.

#[export] Instance IpAddr_eq_dec : EqDecision IpAddr.
Proof. solve_decision. Defined.
#[export] Instance SocketAddr_eq_dec : EqDecision SocketAddr.
Proof. solve_decision. Defined.

#[export] Program Instance IpAddr_countable : Countable IpAddr :=
  inj_countable' (fun a => match a with V4 o => inl o | V6 o => inr o end)
                 (fun s => match s with inl o => V4 o | inr o => V6 o end) _.
Next Obligation. by intros []. Qed.

#[export] Program Instance SocketAddr_countable : Countable SocketAddr :=
  inj_countable' (fun a => (ip a, port a)) (fun p => mkSocketAddr p.1 p.2) _.
Next Obligation. by intros []. Qed.

Record ConnectionInfo : Type := mkConnectionInfo { addr : SocketAddr; pid : Z; fd : Z }.

#[export] Instance ConnectionInfo_eq_dec : EqDecision ConnectionInfo.
Proof. solve_decision. Defined.

(** [SystemTime] is the number of nanoseconds since the Unix epoch, [Duration]
    a number of nanoseconds. *)
Record EventMetadata : Type := mkEventMetadata {
  md_id : ConnectionInfo;
  md_time : Z;
  md_better_time : Z;
  md_duration : Z;
}.

Record DirectedId : Type := mkDirectedId {
  metadata : EventMetadata;
  alias : bytes;
  incoming : bool;
  buffered : Z;
}.

Definition default_metadata : EventMetadata :=
  mkEventMetadata (mkConnectionInfo (mkSocketAddr (V4 [127; 0; 0; 1]) 0) 1 1) 0 0 0.

Definition default_id : DirectedId := mkDirectedId default_metadata [] true 0.

(** * Chunks of raw data *)

Inductive EncryptionStatus : Type := Raw | DecryptedPnet | DecryptedNoise.

(** * Connection statistics: four [u64] counters *)

Record ConnectionStats : Type := mkStats {
  total_bytes : Z;
  decrypted_bytes : Z;
  decrypted_chunks : Z;
  messages : Z;
}.

Definition stats_default : ConnectionStats := mkStats 0 0 0 0.

Definition stats_add_assign (s rhs : ConnectionStats) : ConnectionStats :=
  mkStats (wrap 64 (total_bytes s + total_bytes rhs))
          (wrap 64 (decrypted_bytes s + decrypted_bytes rhs))
          (wrap 64 (decrypted_chunks s + decrypted_chunks rhs))
          (wrap 64 (messages s + messages rhs)).

(** * Stream identifiers *)

Inductive StreamId : Type :=
| SHandshake
| Forward (n : Z)
| Backward (n : Z).

#[export] Instance StreamId_eq_dec : EqDecision StreamId.
Proof. solve_decision. Defined.

#[export] Program Instance StreamId_countable : Countable StreamId :=
  inj_countable'
    (fun s => match s with
              | SHandshake => inl () | Forward n => inr (inl n) | Backward n => inr (inr n) end)
    (fun s => match s with
              | inl _ => SHandshake | inr (inl n) => Forward n | inr (inr n) => Backward n end) _.
Next Obligation. by intros []. Qed.

Definition wf_stream_id (s : StreamId) : Prop :=
  match s with SHandshake => True | Forward n | Backward n => 0 <= n < 2 ^ 64 end.

(** Lower-case hexadecimal digits of a number, most significant first, at
    least [n] of them: the formatter [{:0nx}]. *)
Definition hex_digit (d : Z) : Z := if d <? 10 then 48 + d else 87 + d.

Fixpoint hex_min (n : nat) (z : Z) : bytes :=
  match n with
  | O => []
  | S n' => hex_min n' (z / 16) ++ [hex_digit (z mod 16)]
  end.

(** The number of digits printed: [width] or as many as needed (at most 16
    for a [u64]). *)
Fixpoint hex_width (fuel width : nat) (z : Z) : nat :=
  match fuel with
  | O => width
  | S f => if z <? 16 ^ Z.of_nat width then width else hex_width f (S width) z
  end.

Definition fmt_08x (z : Z) : bytes := hex_min (hex_width 8 8 z) z.

(** [hex::encode] *)
Definition hex_encode (b : bytes) : bytes := b ≫= hex_min 2.

(** [char::to_digit(16)] *)
Definition from_hex_digit (c : Z) : option Z :=
  if (48 <=? c) && (c <=? 57) then Some (c - 48)
  else if (97 <=? c) && (c <=? 102) then Some (c - 87)
  else if (65 <=? c) && (c <=? 70) then Some (c - 55)
  else None.

(** The digit loop of [u64::from_str_radix(_, 16)]: [None] on a bad digit or
    on overflow. *)
Fixpoint parse_hex_from (acc : Z) (s : bytes) : option Z :=
  match s with
  | [] => Some acc
  | c :: s' =>
      match from_hex_digit c with
      | None => None
      | Some d => let acc' := acc * 16 + d in
                  if acc' <? 2 ^ 64 then parse_hex_from acc' s' else None
      end
  end.

(** [u64::from_str_radix(s, 16)]: an optional plus sign, then one digit or
    more. *)
Definition u64_from_str_radix_16 (s : bytes) : option Z :=
  match s with
  | [] => None
  | c :: s' =>
      if c =? 43 then
        match s' with [] => None | _ => parse_hex_from 0 s' end
      else parse_hex_from 0 s
  end.

(** [s.trim_start_matches(p)]: removes every leading occurrence of [p]. *)
Fixpoint trim_start_matches (fuel : nat) (p s : bytes) : bytes :=
  match fuel with
  | O => s
  | S f => if starts_with p s then trim_start_matches f p (drop (length p) s) else s
  end.

Definition StreamId_display (s : StreamId) : bytes :=
  match s with
  | SHandshake => str "handshake"
  | Forward a => str "forward_" ++ fmt_08x a
  | Backward a => str "backward_" ++ fmt_08x a
  end.

Definition StreamId_from_str (s : bytes) : option StreamId :=
  if decide (s = str "handshake") then Some SHandshake
  else if starts_with (str "forward_") s then
    Forward <$> u64_from_str_radix_16 (trim_start_matches (length s) (str "forward_") s)
  else if starts_with (str "backward_") s then
    Backward <$> u64_from_str_radix_16 (trim_start_matches (length s) (str "backward_") s)
  else None.

(** * Stream kinds *)

Inductive StreamKind : Type :=
| KUnknown | KHandshake | Kad | IpfsId | IpfsPush | IpfsDelta | KPeerExchange
| KBitswapExchange | KNodeStatus | Meshsub | Rpc | KSelect | KMplex | KYamux.

#[export] Instance StreamKind_eq_dec : EqDecision StreamKind.
Proof. solve_decision. Defined.

(** [kind as u16] *)
Definition StreamKind_as_u16 (k : StreamKind) : Z :=
  match k with
  | KUnknown => 0xffff
  | KHandshake => 0x0001
  | Kad => 0x0100
  | IpfsId => 0x0200
  | IpfsPush => 0x0201
  | IpfsDelta => 0x0202
  | KPeerExchange => 0x0300
  | KBitswapExchange => 0x0301
  | KNodeStatus => 0x0302
  | Meshsub => 0x0400
  | Rpc => 0x0500
  | KSelect => 0x0600
  | KMplex => 0x0700
  | KYamux => 0x0701
  end.

Definition StreamKind_display (k : StreamKind) : bytes :=
  match k with
  | KHandshake => str "/noise"
  | Kad => str "/coda/kad/1.0.0"
  | IpfsId => str "/ipfs/id/1.0.0"
  | IpfsPush => str "/ipfs/id/push/1.0.0"
  | IpfsDelta => str "/p2p/id/delta/1.0.0"
  | KPeerExchange => str "/mina/peer-exchange"
  | KBitswapExchange => str "/mina/bitswap-exchange"
  | KNodeStatus => str "/mina/node-status"
  | Meshsub => str "/meshsub/1.1.0"
  | Rpc => str "coda/rpcs/0.0.1"
  | KSelect => str "/multistream/1.0.0"
  | KMplex => str "/coda/mplex/1.0.0"
  | KYamux => str "/coda/yamux/1.0.0"
  | KUnknown => str "unknown"
  end.

(** A [match] on string literals: the first equal pattern wins. *)
Fixpoint match_str {A} (table : list (bytes * A)) (s : bytes) : option A :=
  match table with
  | [] => None
  | (p, a) :: t => if decide (p = s) then Some a else match_str t s
  end.

Definition StreamKind_from_str (s : bytes) : StreamKind :=
  default KUnknown (match_str
    [ (str "/noise", KHandshake); (str "/coda/kad/1.0.0", Kad);
      (str "/ipfs/id/1.0.0", IpfsId); (str "/ipfs/id/push/1.0.0", IpfsPush);
      (str "/p2p/id/delta/1.0.0", IpfsDelta); (str "/mina/peer-exchange", KPeerExchange);
      (str "/mina/bitswap-exchange", KBitswapExchange); (str "/mina/node-status", KNodeStatus);
      (str "/meshsub/1.1.0", Meshsub); (str "coda/rpcs/0.0.1", Rpc);
      (str "/multistream/1.0.0", KSelect); (str "/coda/mplex/1.0.0", KMplex);
      (str "/coda/yamux/1.0.0", KYamux) ] s).

Definition StreamKind_iter : list StreamKind :=
  [ KHandshake; Kad; IpfsId; IpfsPush; IpfsDelta; KPeerExchange; KBitswapExchange;
    KNodeStatus; Meshsub; Rpc; KSelect; KMplex; KYamux; KUnknown ].

(** The mapping of [Absorb for StreamKind]: the first kind with that number,
    [Unknown] otherwise. *)
Definition StreamKind_of_u16 (d : Z) : StreamKind :=
  default KUnknown (List.find (fun v => d =? StreamKind_as_u16 v) StreamKind_iter).

(** * Message types *)

Inductive MessageType : Type :=
| Subscribe | Unsubscribe | PublishNewState | PublishSnarkPoolDiff
| PublishTransactionPoolDiff | ControlIHave | ControlIWant | ControlGraft | ControlPrune
| PutValue | GetValue | AddProvider | GetProviders | FindNode | Ping
| HandshakePayload | FailedToDecrypt
| RpcMenu | GetSomeInitialPeers | GetStagedLedgerAuxAndPendingCoinbasesAtHash
| AnswerSyncLedgerQuery | GetAncestry | GetBestTip | GetNodeStatus
| GetTransitionChainProof | GetTransitionChain | GetTransitionKnowledge
| GetEpochLedger | BanNotify
| Identify | IdentifyPush | PeerExchange | BitswapExchange | NodeStatus
| Select | Mplex | Yamux.

#[export] Instance MessageType_eq_dec : EqDecision MessageType.
Proof. solve_decision. Defined.

Definition MessageType_display (t : MessageType) : bytes :=
  match t with
  | Subscribe => str "subscribe"
  | Unsubscribe => str "unsubscribe"
  | PublishNewState => str "publish_new_state"
  | PublishSnarkPoolDiff => str "publish_snark_pool_diff"
  | PublishTransactionPoolDiff => str "publish_transaction_pool_diff"
  | ControlIHave => str "meshsub_ihave"
  | ControlIWant => str "meshsub_iwant"
  | ControlGraft => str "meshsub_graft"
  | ControlPrune => str "meshsub_prune"
  | PutValue => str "put_value"
  | GetValue => str "get_value"
  | AddProvider => str "add_provider"
  | GetProviders => str "get_providers"
  | FindNode => str "find_node"
  | Ping => str "ping"
  | HandshakePayload => str "handshake_payload"
  | FailedToDecrypt => str "failed_to_decrypt"
  | RpcMenu => str "__Versioned_rpc.Menu"
  | GetSomeInitialPeers => str "get_some_initial_peers"
  | GetStagedLedgerAuxAndPendingCoinbasesAtHash =>
      str "get_staged_ledger_aux_and_pending_coinbases_at_hash"
  | AnswerSyncLedgerQuery => str "answer_sync_ledger_query"
  | GetAncestry => str "get_ancestry"
  | GetBestTip => str "get_best_tip"
  | GetNodeStatus => str "get_node_status"
  | GetTransitionChainProof => str "get_transition_chain_proof"
  | GetTransitionChain => str "get_transition_chain"
  | GetTransitionKnowledge => str "get_transition_knowledge"
  | GetEpochLedger => str "get_epoch_ledger"
  | BanNotify => str "ban_notify"
  | Identify => str "identify"
  | IdentifyPush => str "identify_push"
  | PeerExchange => str "peer_exchange"
  | BitswapExchange => str "bitswap_exchange"
  | NodeStatus => str "node_status"
  | Select => str "select"
  | Mplex => str "mplex"
  | Yamux => str "yamux"
  end.

Definition MessageType_from_str (s : bytes) : option MessageType :=
  match_str
    [ (str "subscribe", Subscribe); (str "unsubscribe", Unsubscribe);
      (str "publish_new_state", PublishNewState);
      (str "publish_snark_pool_diff", PublishSnarkPoolDiff);
      (str "publish_transaction_pool_diff", PublishTransactionPoolDiff);
      (str "meshsub_ihave", ControlIHave); (str "meshsub_iwant", ControlIWant);
      (str "meshsub_graft", ControlGraft); (str "meshsub_prune", ControlPrune);
      (str "put_value", PutValue); (str "get_value", GetValue);
      (str "add_provider", AddProvider); (str "get_providers", GetProviders);
      (str "find_node", FindNode); (str "ping", Ping);
      (str "handshake_payload", HandshakePayload);
      (str "failed_to_decrypt", FailedToDecrypt);
      (str "__Versioned_rpc.Menu", RpcMenu);
      (str "get_some_initial_peers", GetSomeInitialPeers);
      (str "get_staged_ledger_aux_and_pending_coinbases_at_hash",
       GetStagedLedgerAuxAndPendingCoinbasesAtHash);
      (str "answer_sync_ledger_query", AnswerSyncLedgerQuery);
      (str "get_ancestry", GetAncestry); (str "get_best_tip", GetBestTip);
      (str "get_node_status", GetNodeStatus);
      (str "get_transition_chain_proof", GetTransitionChainProof);
      (str "get_transition_chain", GetTransitionChain);
      (str "get_transition_knowledge", GetTransitionKnowledge);
      (str "get_epoch_ledger", GetEpochLedger); (str "ban_notify", BanNotify);
      (str "identify", Identify); (str "identify_push", IdentifyPush);
      (str "peer_exchange", PeerExchange); (str "bitswap_exchange", BitswapExchange);
      (str "node_status", NodeStatus); (str "select", Select);
      (str "mplex", Mplex); (str "yamux", Yamux) ] s.

(** The [#[tag(u16)]] numbers: a tag attribute sets the number of a variant,
    each later variant counts up from it. *)
Definition MessageType_tag (t : MessageType) : Z :=
  match t with
  | Subscribe => 0x0100 | Unsubscribe => 0x0101 | PublishNewState => 0x0102
  | PublishSnarkPoolDiff => 0x0103 | PublishTransactionPoolDiff => 0x0104
  | ControlIHave => 0x0105 | ControlIWant => 0x0106 | ControlGraft => 0x0107
  | ControlPrune => 0x0108
  | PutValue => 0x0200 | GetValue => 0x0201 | AddProvider => 0x0202
  | GetProviders => 0x0203 | FindNode => 0x0204 | Ping => 0x0205
  | HandshakePayload => 0x0300 | FailedToDecrypt => 0x0301
  | RpcMenu => 0x0400 | GetSomeInitialPeers => 0x0401
  | GetStagedLedgerAuxAndPendingCoinbasesAtHash => 0x0402
  | AnswerSyncLedgerQuery => 0x0403 | GetAncestry => 0x0404 | GetBestTip => 0x0405
  | GetNodeStatus => 0x0406 | GetTransitionChainProof => 0x0407
  | GetTransitionChain => 0x0408 | GetTransitionKnowledge => 0x0409
  | GetEpochLedger => 0x040a | BanNotify => 0x040b
  | Identify => 0x0500 | IdentifyPush => 0x0501
  | PeerExchange => 0x0600 | BitswapExchange => 0x0700 | NodeStatus => 0x0800
  | Select => 0x0900 | Mplex => 0x0a00 | Yamux => 0x0b00
  end.

Definition MessageType_iter : list MessageType :=
  [ Subscribe; Unsubscribe; PublishNewState; PublishSnarkPoolDiff;
    PublishTransactionPoolDiff; ControlIHave; ControlIWant; ControlGraft; ControlPrune;
    PutValue; GetValue; AddProvider; GetProviders; FindNode; Ping;
    HandshakePayload; FailedToDecrypt;
    RpcMenu; GetSomeInitialPeers; GetStagedLedgerAuxAndPendingCoinbasesAtHash;
    AnswerSyncLedgerQuery; GetAncestry; GetBestTip; GetNodeStatus;
    GetTransitionChainProof; GetTransitionChain; GetTransitionKnowledge;
    GetEpochLedger; BanNotify;
    Identify; IdentifyPush; PeerExchange; BitswapExchange; NodeStatus;
    Select; Mplex; Yamux ].

Definition MessageType_of_tag (d : Z) : option MessageType :=
  List.find (fun t => d =? MessageType_tag t) MessageType_iter.

(** * Lemmas: the textual and numeric forms are faithful *)

Lemma StreamKind_str_roundtrip (k : StreamKind) :
  StreamKind_from_str (StreamKind_display k) = k.
Proof. by destruct k; vm_compute. Qed.

Lemma StreamKind_u16_roundtrip (k : StreamKind) :
  StreamKind_of_u16 (StreamKind_as_u16 k) = k.
Proof. by destruct k; vm_compute. Qed.

Lemma StreamKind_u16_range (k : StreamKind) : 0 <= StreamKind_as_u16 k < 2 ^ 16.
Proof. by destruct k; vm_compute. Qed.

Lemma MessageType_str_roundtrip (t : MessageType) :
  MessageType_from_str (MessageType_display t) = Some t.
Proof. by destruct t; vm_compute. Qed.

Lemma MessageType_tag_roundtrip (t : MessageType) :
  MessageType_of_tag (MessageType_tag t) = Some t.
Proof. by destruct t; vm_compute. Qed.

Lemma MessageType_tag_range (t : MessageType) : 0 <= MessageType_tag t < 2 ^ 16.
Proof. by destruct t; vm_compute. Qed.

Lemma from_hex_digit_digit (d : Z) :
  0 <= d < 16 -> from_hex_digit (hex_digit d) = Some d.
Proof.
  intros H. unfold from_hex_digit, hex_digit.
  destruct (Z.ltb_spec d 10); split_matches; to_prop; f_equal; try lia;
    destruct_or?; to_prop; lia.
Qed.

Lemma parse_hex_from_app (acc : Z) (s t : bytes) :
  parse_hex_from acc (s ++ t) =
  match parse_hex_from acc s with Some a => parse_hex_from a t | None => None end.
Proof.
  revert acc. induction s as [|c s IH]; intros acc; [done|].
  cbn [parse_hex_from app]. destruct (from_hex_digit c); [|done].
  destruct (_ <? _); [apply IH|done].
Qed.

Lemma parse_hex_min (n : nat) (z : Z) :
  0 <= z < 16 ^ Z.of_nat n -> z < 2 ^ 64 -> parse_hex_from 0 (hex_min n z) = Some z.
Proof.
  revert z. induction n as [|n IH]; intros z Hz Hmax.
  - cbn in *. f_equal. lia.
  - cbn [hex_min]. rewrite Nat2Z.inj_succ, Z.pow_succ_r in Hz by lia.
    assert (0 <= z / 16 < 16 ^ Z.of_nat n).
    { split; [apply Z.div_pos; lia|apply Z.div_lt_upper_bound; lia]. }
    pose proof (Z.div_mod z 16). pose proof (Z.mod_pos_bound z 16).
    rewrite parse_hex_from_app, IH by lia. cbn [parse_hex_from].
    rewrite from_hex_digit_digit by lia.
    rewrite (proj2 (Z.ltb_lt _ _)) by lia. f_equal. lia.
Qed.

Lemma hex_width_enough (fuel width : nat) (z : Z) :
  0 <= z < 16 ^ Z.of_nat (fuel + width) -> z < 16 ^ Z.of_nat (hex_width fuel width z).
Proof.
  revert width. induction fuel as [|f IH]; intros width Hz; [cbn [hex_width]; tauto|].
  cbn [hex_width]. destruct (Z.ltb_spec z (16 ^ Z.of_nat width)); [done|].
  apply IH. by replace (f + S width)%nat with (S f + width)%nat by lia.
Qed.

Lemma hex_width_ge (fuel width : nat) (z : Z) : (width <= hex_width fuel width z)%nat.
Proof.
  revert width. induction fuel as [|f IH]; intros width; [done|].
  cbn [hex_width]. split_matches; [lia|]. specialize (IH (S width)). lia.
Qed.

(** Hexadecimal digits are neither signs nor letters past [f]. *)
Definition is_hex_char (c : Z) : Prop := 48 <= c <= 57 \/ 97 <= c <= 102.

Lemma hex_min_chars (n : nat) (z : Z) : Forall is_hex_char (hex_min n z).
Proof.
  revert z. induction n as [|n IH]; intros z; [by constructor|].
  cbn [hex_min]. apply Forall_app. split; [apply IH|]. constructor; [|constructor].
  pose proof (Z.mod_pos_bound z 16). unfold is_hex_char, hex_digit.
  destruct (Z.ltb_spec (z mod 16) 10); lia.
Qed.

Lemma length_hex_min (n : nat) (z : Z) : length (hex_min n z) = n.
Proof.
  revert z. induction n as [|n IH]; intros z; [done|].
  cbn [hex_min]. rewrite length_app, IH. cbn. lia.
Qed.

Lemma u64_from_str_radix_fmt_08x (z : Z) :
  0 <= z < 2 ^ 64 -> u64_from_str_radix_16 (fmt_08x z) = Some z.
Proof.
  intros Hz. unfold fmt_08x.
  assert (P : parse_hex_from 0 (hex_min (hex_width 8 8 z) z) = Some z).
  { apply parse_hex_min; [split; [lia|]|lia]. apply hex_width_enough. cbn. lia. }
  pose proof (hex_min_chars (hex_width 8 8 z) z) as Hc.
  pose proof (length_hex_min (hex_width 8 8 z) z) as Hl.
  pose proof (hex_width_ge 8 8 z).
  destruct (hex_min _ _) as [|c s]; [cbn [length] in Hl; lia|].
  apply Forall_cons_1 in Hc as [Hc _]. unfold is_hex_char in Hc.
  unfold u64_from_str_radix_16. by rewrite (proj2 (Z.eqb_neq c 43)) by lia.
Qed.

Lemma starts_with_hex_false (p s : bytes) :
  Forall is_hex_char s -> ~ Forall is_hex_char p -> starts_with p s = false.
Proof.
  intros Hs Hp. destruct (starts_with p s) eqn:E; [|done].
  apply starts_with_true in E as [r ->]. apply Forall_app in Hs as [? _]. done.
Qed.

Lemma trim_start_matches_hex (fuel : nat) (p : bytes) (z : Z) :
  (0 < fuel)%nat -> ~ Forall is_hex_char p ->
  trim_start_matches fuel p (p ++ fmt_08x z) = fmt_08x z.
Proof.
  intros Hf Hp. destruct fuel as [|f]; [lia|]. cbn [trim_start_matches].
  rewrite starts_with_app, drop_app_length. destruct f as [|f]; [done|].
  cbn [trim_start_matches]. by rewrite starts_with_hex_false by (apply hex_min_chars || done).
Qed.

Lemma not_all_hex (p : bytes) (c : Z) : c ∈ p -> ~ is_hex_char c -> ~ Forall is_hex_char p.
Proof. rewrite Forall_forall. naive_solver. Qed.

(** What the recorder prints for a stream is what its HTTP parameters parse. *)
Lemma StreamId_str_roundtrip (s : StreamId) :
  wf_stream_id s -> StreamId_from_str (StreamId_display s) = Some s.
Proof.
  intros Hs. destruct s as [|n|n]; [reflexivity| |]; cbn in Hs;
  unfold StreamId_from_str, StreamId_display; rewrite decide_False by done.
  - rewrite starts_with_app, trim_start_matches_hex.
    + by rewrite u64_from_str_radix_fmt_08x.
    + rewrite length_app. cbn. lia.
    + apply (not_all_hex _ 111); [apply list_elem_of_In; vm_compute; tauto|unfold is_hex_char; lia].
  - cbn [starts_with]. change (starts_with (str "forward_") _) with false. cbn iota.
    rewrite starts_with_app, trim_start_matches_hex.
    + by rewrite u64_from_str_radix_fmt_08x.
    + rewrite length_app. cbn. lia.
    + apply (not_all_hex _ 107); [apply list_elem_of_In; vm_compute; tauto|unfold is_hex_char; lia].
Qed.
