(* ===== verification/Framing.v ===== *)
(** Reassembly of frames from a byte stream.

    Every protocol layer of the recorder receives a byte stream cut at
    arbitrary places (TCP segments, Noise chunks, mux frames) and has to hand
    complete frames to the layer above.  This file states once what such a
    layer promises: the frames it delivers depend on the bytes received and not
    on where the stream was cut.  A layer instantiates [Framer] with a function
    that looks at the bytes buffered so far, and proves that its buffer code
    implements [parse]. *)

From stdpp Require Import base list.
From Stdlib Require Import ZArith Lia.
From S2P Require Import Prelude.

(** What a framer sees in the bytes buffered so far: too few bytes, a complete
    frame and what follows it, or bytes that cannot start a frame. *)
Inductive verdict (M : Type) : Type :=
| Need
| Frame (m : M) (rest : bytes)
| Bad.
Arguments Need {M}.
Arguments Frame {M} m rest.
Arguments Bad {M}.

(** The abstract contract of a framing function. *)
Class Framer {M : Type} (step : bytes -> verdict M) : Prop := {
  framer_shrinks : forall l m r, step l = Frame m r -> (length r < length l)%nat;
  framer_stable : forall l m r x, step l = Frame m r -> step (l ++ x) = Frame m (r ++ x);
  framer_bad : forall l x, step l = Bad -> step (l ++ x) = Bad;
}.

Section Parse.
Context {M : Type} (step : bytes -> verdict M).

(** All the frames at the front of [l], what is left, and whether what is left
    is malformed. *)
Fixpoint parse_fuel (n : nat) (l : bytes) : list M * bytes * bool :=
  match n with
  | O => ([], l, false)
  | S n' =>
      match step l with
      | Need => ([], l, false)
      | Bad => ([], l, true)
      | Frame m r => let '(ms, rest, bad) := parse_fuel n' r in (m :: ms, rest, bad)
      end
  end.

Definition parse (l : bytes) : list M * bytes * bool := parse_fuel (S (length l)) l.

Context `{!Framer step}.

Lemma parse_fuel_enough (n1 n2 : nat) (l : bytes) :
  (length l < n1)%nat -> (length l < n2)%nat -> parse_fuel n1 l = parse_fuel n2 l.
Proof.
  revert n2 l. induction n1 as [|n1 IH]; intros n2 l H1 H2; [lia|].
  destruct n2 as [|n2]; [lia|]. cbn [parse_fuel].
  destruct (step l) as [|m r|] eqn:E; try done.
  apply framer_shrinks in E. by rewrite (IH n2) by lia.
Qed.

Lemma parse_unfold (l : bytes) :
  parse l = match step l with
            | Need => ([], l, false)
            | Bad => ([], l, true)
            | Frame m r => let '(ms, rest, bad) := parse r in (m :: ms, rest, bad)
            end.
Proof.
  unfold parse. cbn [parse_fuel]. destruct (step l) as [|m r|] eqn:E; try done.
  apply framer_shrinks in E. by rewrite (parse_fuel_enough _ (S (length r))) by lia.
Qed.

(** The first step of a parse, read backwards. *)
Lemma parse_inv (l : bytes) (ms : list M) (r : bytes) (b : bool) :
  parse l = (ms, r, b) ->
  match ms with
  | [] => r = l /\ step l = if b then Bad else Need
  | m :: ms => exists r', step l = Frame m r' /\ parse r' = (ms, r, b)
  end.
Proof.
  rewrite parse_unfold. destruct (step l) as [|m' r'|] eqn:E; try by intros [= <- <- <-].
  destruct (parse r') as [[ms' r''] b'] eqn:Er. intros [= <- <- <-]. eauto.
Qed.

(** No more frames than bytes. *)
Lemma parse_length (l : bytes) (ms : list M) (r : bytes) (b : bool) :
  parse l = (ms, r, b) -> (length ms + length r <= length l)%nat.
Proof.
  revert l. induction ms as [|m ms IH]; intros l H; apply parse_inv in H.
  - destruct H as [-> _]. cbn. lia.
  - destruct H as (r' & Es & Ep). apply IH in Ep. apply framer_shrinks in Es. cbn. lia.
Qed.

Lemma parse_need (l : bytes) : step l = Need -> parse l = ([], l, false).
Proof. intros E. by rewrite parse_unfold, E. Qed.

(** Strong induction over the frames of a stream. *)
Lemma parse_ind (P : bytes -> Prop) :
  (forall l, step l = Need -> P l) ->
  (forall l, step l = Bad -> P l) ->
  (forall l m r, step l = Frame m r -> P r -> P l) ->
  forall l, P l.
Proof.
  intros HN HB HF l. remember (length l) as n eqn:En. revert l En.
  induction (lt_wf n) as [n _ IH]. intros l ->.
  destruct (step l) as [|m r|] eqn:E; [by apply HN| |by apply HB].
  apply (HF _ m r E). apply (IH (length r)); [|done]. by eapply framer_shrinks.
Qed.

(** What is left over is not a complete frame. *)
Lemma parse_rest (l : bytes) (ms : list M) (r : bytes) (b : bool) :
  parse l = (ms, r, b) -> step r = if b then Bad else Need.
Proof.
  revert ms r b. induction l as [l E|l E|l m r' E IH] using parse_ind; intros ms r b;
    rewrite parse_unfold, E; intros H; try by inversion H; subst.
  destruct (parse r') as [[ms' r''] b'] eqn:E'. inversion H; subst. by eapply IH.
Qed.

(** Cutting the stream does not change its frames. *)
Lemma parse_app (l x : bytes) (ms : list M) (r : bytes) :
  parse l = (ms, r, false) ->
  parse (l ++ x) = let '(ms', r', b) := parse (r ++ x) in (ms ++ ms', r', b).
Proof.
  revert ms r. induction l as [l E|l E|l m r' E IH] using parse_ind; intros ms r;
    rewrite (parse_unfold l), E; intros H.
  - injection H as <- <-. by destruct (parse (l ++ x)) as [[??]?].
  - done.
  - destruct (parse r') as [[ms' r''] b'] eqn:E'. inversion H; subst.
    rewrite parse_unfold, (framer_stable _ _ _ _ E), (IH ms' r) by done.
    by destruct (parse (r ++ x)) as [[??]?].
Qed.

Lemma parse_app_clean (l x : bytes) (ms : list M) (r : bytes) (b : bool) :
  parse (l ++ x) = (ms, r, b) -> b = false -> exists ms0 r0, parse l = (ms0, r0, false).
Proof.
  intros H ->. revert ms r H.
  induction l as [l E|l E|l m r' E IH] using parse_ind; intros ms r H.
  - rewrite (parse_need l) by done. eauto.
  - rewrite parse_unfold, (framer_bad _ _ E) in H. done.
  - rewrite parse_unfold, (framer_stable _ _ _ _ E) in H.
    destruct (parse (r' ++ x)) as [[ms' r''] b'] eqn:E'. inversion H; subst.
    destruct (IH ms' r) as (ms0 & r0 & E0); [done|].
    rewrite parse_unfold, E, E0. eauto.
Qed.

End Parse.

#[global] Arguments parse : simpl never.

(** ** Buffers

    A buffering layer keeps the unparsed tail and, on each chunk, hands out the
    frames that became complete. [feed] is that specification. *)
Section Feed.
Context {M : Type} (step : bytes -> verdict M) `{!Framer step}.

Definition feed (buf chunk : bytes) : bytes * list M :=
  let '(ms, r, _) := parse step (buf ++ chunk) in (r, ms).

Fixpoint feed_all (buf : bytes) (chunks : list bytes) : bytes * list M :=
  match chunks with
  | [] => (buf, [])
  | c :: cs =>
      let '(buf', ms) := feed buf c in
      let '(buf'', ms') := feed_all buf' cs in (buf'', ms ++ ms')
  end.

(** The frames delivered for a cut stream are the frames of the stream. *)
Lemma feed_all_parse (chunks : list bytes) (buf : bytes) (ms : list M) (r : bytes) :
  step buf = Need -> parse step (buf ++ concat chunks) = (ms, r, false) ->
  feed_all buf chunks = (r, ms).
Proof.
  revert buf ms. induction chunks as [|c cs IH]; intros buf ms Hb H; cbn [concat feed_all] in *.
  - rewrite app_nil_r, (parse_need step) in H by done. by inversion H.
  - rewrite app_assoc in H.
    destruct (parse_app_clean step (buf ++ c) (concat cs) ms r false) as (ms0 & r0 & E); [done..|].
    unfold feed. rewrite E. rewrite (parse_app step _ _ ms0 r0 E) in H.
    destruct (parse step (r0 ++ concat cs)) as [[ms' r'] b] eqn:E'. inversion H; subst.
    rewrite (IH r0 ms'); [done| |done]. exact (parse_rest step _ _ _ _ E).
Qed.

End Feed.
