(* ===== verification/Handle.v ===== *)
(** The interfaces between the protocol layers and the rest of the recorder
    ([connection/mod.rs]): what a layer offers to the one below it
    ([HandleData], [DynamicProtocol], [From<StreamId>]) and what every layer
    may use of the database ([DbGroup], [DbStream] of [database/rocksdb.rs]).

    The world [W] stands for the shared mutable state behind [&Cx] and [&Db]. *)

From stdpp Require Import base list.
From Stdlib Require Import ZArith.
From S2P Require Import Prelude Types.

(** [DbError] of [database/core.rs]; errors of libraries carry no payload. *)
Inductive DbError : Type :=
| CreateDirError
| Io
| IoCn
| Inner
| DbParse
| NoSuchStream
| NoSuchConnection
| BeyondStreamEnd (border size : Z)
| NoItemAtCursor (key : bytes)
| DbDecode
| ParamDeserialize
| WrongSkSize.

Definition DbResult (A : Type) : Type := result A DbError.

(** What a connection layer uses of its [DbGroup]: [add_raw], [update], and
    [get(stream_id).add(..)], which returns the id of the stored message. *)
Class DbGroup (W : Type) : Type := {
  db_add_raw : EncryptionStatus -> bool -> Z -> bytes -> W -> W * DbResult Z;
  db_update : ConnectionStats -> bool -> W -> W * DbResult unit;
  db_stream_add : StreamId -> DirectedId -> StreamKind -> bytes -> W -> W * DbResult Z;
}.

(** [trait HandleData] *)
Class HandleData (W S : Type) : Type :=
  on_data : DirectedId -> bytes -> S -> W -> outcome (S * W * DbResult unit).

(** [trait DynamicProtocol]; a constructor may refuse a name by panicking. *)
Class DynamicProtocol (S : Type) : Type :=
  from_name : bytes -> StreamId -> outcome S.

(** [impl From<StreamId>] *)
Class FromStreamId (S : Type) : Type :=
  from_stream_id : StreamId -> S.

(** ** A recording database and a recording layer

    The simplest implementations of the interfaces: they remember every call.
    The witnesses of the layer theorems run against them. *)
Inductive db_call : Type :=
| CallAddRaw (s : EncryptionStatus) (incoming : bool) (time : Z) (data : bytes)
| CallUpdate (s : ConnectionStats) (incoming : bool)
| CallAdd (sid : StreamId) (incoming : bool) (kind : StreamKind) (data : bytes).

#[export] Instance trace_db : DbGroup (list db_call) := {|
  db_add_raw s inc t data w := (w ++ [CallAddRaw s inc t data], Ok (blen w));
  db_update s inc w := (w ++ [CallUpdate s inc], Ok tt);
  db_stream_add sid did k data w :=
    (w ++ [CallAdd sid (incoming did) k data], Ok (blen w));
|}.

(** A layer that stores, per direction flag, the chunks it received. *)
Abbreviation Sink := (list (bool * bytes)).

#[export] Instance sink_handle {W} : HandleData W Sink :=
  fun id data s w => Ret (s ++ [(incoming id, data)], w, Ok tt).
#[export] Instance sink_from_stream_id : FromStreamId Sink := fun _ => [].
#[export] Instance sink_from_name : DynamicProtocol Sink :=
  fun _ _ => Ret [].
