(* ===== verification/Varint.v ===== *)
(** The variable-length integers of the [unsigned-varint] crate, which the
    multiplexer and the protocol negotiation read: the documented behaviour the
    code relies on, as a class, and a concrete LEB128 reader that satisfies it. *)

From stdpp Require Import base list.
From Stdlib Require Import ZArith Lia.
From S2P Require Import Prelude.

(** [unsigned_varint::decode::Error] *)
Inductive VarintError : Type := Insufficient | Overflow | NotMinimal.

Abbreviation varint_result := (result (Z * bytes) VarintError).

(** [decode::u64] and [decode::usize] (on a 64-bit target): the number and the
    bytes after it. *)
Class Varint : Type := decode_u64 : bytes -> varint_result.

(** What the callers rely on: a decoded number fits in 64 bits, it was read from
    a non-empty prefix of at most ten bytes, it does not depend on what follows; an error other than
    [Insufficient] stays when more bytes arrive; nothing can be read from no
    bytes at all; a byte below 128 stands for itself. *)
Class VarintLaws `{Varint} : Prop := {
  varint_ok : forall l v r, decode_u64 l = Ok (v, r) ->
    0 <= v < 2 ^ 64 /\
    exists p, p <> [] /\ (length p <= 10)%nat /\ l = p ++ r /\
    forall x, decode_u64 (p ++ x) = Ok (v, x);
  varint_err : forall l e x,
    decode_u64 l = Err e -> e <> Insufficient -> decode_u64 (l ++ x) = Err e;
  varint_nil : decode_u64 [] = Err Insufficient;
  varint_small : forall b x, 0 <= b < 128 -> decode_u64 (b :: x) = Ok (b, x);
}.

Section Laws.
Context `{VarintLaws}.

Lemma varint_stable (l : bytes) (v : Z) (r x : bytes) :
  decode_u64 l = Ok (v, r) -> decode_u64 (l ++ x) = Ok (v, r ++ x).
Proof. intros E. destruct (varint_ok _ _ _ E) as (_ & p & _ & _ & -> & Hx). by rewrite <- app_assoc. Qed.

Lemma varint_shrinks (l : bytes) (v : Z) (r : bytes) :
  decode_u64 l = Ok (v, r) -> 0 < blen l - blen r <= 10.
Proof.
  intros E. destruct (varint_ok _ _ _ E) as (_ & p & Hp & Hl & -> & _).
  rewrite blen_app. destruct p; [done|]. unfold blen. cbn [length] in *. lia.
Qed.

Lemma varint_bound (l : bytes) (v : Z) (r : bytes) :
  decode_u64 l = Ok (v, r) -> 0 <= v < 2 ^ 64.
Proof. intros E. by destruct (varint_ok _ _ _ E). Qed.

Lemma varint_suffix (l : bytes) (v : Z) (r : bytes) :
  decode_u64 l = Ok (v, r) -> r = drop (Z.to_nat (blen l - blen r)) l.
Proof.
  intros E. destruct (varint_ok _ _ _ E) as (_ & p & _ & _ & -> & _).
  rewrite blen_app. replace (Z.to_nat _) with (length p) by (unfold blen; lia).
  by rewrite drop_app_length.
Qed.

End Laws.

(** * A reader *)

(** Groups of seven bits, least significant first; at most ten bytes; a zero
    last byte is not minimal. [i] counts the bytes read. *)
Fixpoint leb128_from (n : nat) (i acc : Z) (l : bytes) : varint_result :=
  match n, l with
  | _, [] => Err Insufficient
  | O, _ => Err Overflow
  | S n, b :: l =>
      let acc := acc + wrap 64 ((b mod 128) * 2 ^ (7 * i)) in
      if b mod 256 <? 128 then
        if (b mod 256 =? 0) && (0 <? i) then Err NotMinimal else Ok (wrap 64 acc, l)
      else leb128_from n (i + 1) acc l
  end.

Definition leb128 (l : bytes) : varint_result := leb128_from 10 0 0 l.

Lemma leb128_from_ok (n : nat) (i acc v : Z) (l r : bytes) :
  leb128_from n i acc l = Ok (v, r) ->
  0 <= v < 2 ^ 64 /\
  exists p, p <> [] /\ (length p <= n)%nat /\ l = p ++ r /\ forall x, leb128_from n i acc (p ++ x) = Ok (v, x).
Proof.
  revert i acc l. induction n as [|n IH]; intros i acc [|b l]; cbn [leb128_from]; try done.
  destruct (b mod 256 <? 128) eqn:Eb.
  - destruct ((b mod 256 =? 0) && (0 <? i)) eqn:Em; [done|]. intros [= <- <-].
    split; [apply Z.mod_pos_bound; lia|]. exists [b]. split_and!; [done|cbn; lia|done|].
    intros x. cbn. by rewrite Eb, Em.
  - intros E. destruct (IH _ _ _ E) as (Hv & p & _ & Hl & -> & Hx). split; [done|].
    exists (b :: p). split_and!; [done|cbn; lia|done|]. intros x. cbn. by rewrite Eb.
Qed.

Lemma leb128_from_err (n : nat) (i acc : Z) (l x : bytes) (e : VarintError) :
  leb128_from n i acc l = Err e -> e <> Insufficient -> leb128_from n i acc (l ++ x) = Err e.
Proof.
  revert i acc l. induction n as [|n IH]; intros i acc [|b l]; cbn; try congruence.
  repeat case_match; try congruence. auto.
Qed.

(** The reader as an instance, to be used explicitly. *)
Definition leb128_varint : Varint := leb128.

Lemma leb128_laws : @VarintLaws leb128_varint.
Proof.
  split; unfold decode_u64, leb128_varint, leb128.
  - intros l v r. apply leb128_from_ok.
  - intros l e x. apply leb128_from_err.
  - done.
  - intros b x Hb. cbn [leb128_from]. rewrite (Z.mod_small b 128), (Z.mod_small b 256) by lia.
    rewrite (proj2 (Z.ltb_lt b 128)) by lia. cbn [Z.ltb Z.compare]. rewrite andb_false_r.
    change (7 * 0) with 0. rewrite Z.pow_0_r, Z.mul_1_r, Z.add_0_l, !(wrap_small 64 b); [done|lia..].
Qed.

Example leb128_ex :
  leb128 [172; 2; 7] = Ok (300, [7]) /\ leb128 [172] = Err Insufficient /\
  leb128 [172; 0] = Err NotMinimal /\ leb128 (repeat 255 11) = Err Overflow.
Proof. repeat split; reflexivity. Qed.
