(* ===== verification/Yamux.v ===== *)
(** The Yamux multiplexer layer ([mina-recorder/src/connection/yamux.rs]):
    frame headers, the per-direction accumulator, the stream table and the
    dispatch of payloads to the streams. *)

From stdpp Require Import base list gmap strings.
From Stdlib Require Import ZArith Lia.
From S2P Require Import Prelude Types Framing Handle.

(** * Frame headers (module [header]) *)

Inductive HeaderParseError : Type :=
| NotSupportedVersion (v : Z)
| UnknownType (t : Z)
| UnknownFlags (bits : Z)
| UnknownErrorCode (c : Z).

Inductive YamuxError : Type := Protocol | Internal.

Inductive HeaderType : Type :=
| Data (length : Z)
| WindowUpdate (delta : Z)
| HPing (opaque : Z)
| GoAway (r : result unit YamuxError).

Record Header : Type := mkHeader {
  version : Z;
  ty : HeaderType;
  flags : Z;
  stream_id : Z;
}.

(** [HeaderFlags]: a set of the four bits of a [u16]. *)
Definition SYN : Z := 1.
Definition ACK : Z := 2.
Definition FIN : Z := 4.
Definition RST : Z := 8.

Definition flags_all : Z := Z.lor (Z.lor SYN ACK) (Z.lor FIN RST).

Definition flags_from_bits (bits : Z) : option Z :=
  if Z.land bits (Z.lnot flags_all) =? 0 then Some bits else None.

Definition flags_contains (fl f : Z) : bool := Z.land fl f =? f.

(** [Header::try_from([u8; 12])]: the argument has twelve bytes. *)
Definition try_from (v : bytes) : result Header HeaderParseError :=
  let version := nth 0 v 0 in
  if negb (version =? 0) then Err (NotSupportedVersion version) else
  let last := take 4 (drop 8 v) in
  let t := nth 1 v 0 in
  let ty :=
    if t =? 0 then Ok (Data (be_decode last))
    else if t =? 1 then Ok (WindowUpdate (to_signed 32 (be_decode last)))
    else if t =? 2 then Ok (HPing (be_decode last))
    else if t =? 3 then
      let code := be_decode last in
      if code =? 0 then Ok (GoAway (Ok tt))
      else if code =? 1 then Ok (GoAway (Err Protocol))
      else if code =? 2 then Ok (GoAway (Err Internal))
      else Err (UnknownErrorCode code)
    else Err (UnknownType t) in
  match ty with
  | Err e => Err e
  | Ok ty =>
      let bits := be_decode (take 2 (drop 2 v)) in
      match flags_from_bits bits with
      | None => Err (UnknownFlags bits)
      | Some fl => Ok (mkHeader version ty fl (be_decode (take 4 (drop 4 v))))
      end
  end.

(** [<[u8; 12]>::from(&header)] *)
Definition header_bytes (h : Header) : bytes :=
  let '(t, last) :=
    match ty h with
    | Data length => (0, be_encode 4 length)
    | WindowUpdate delta => (1, be_encode 4 (wrap 32 delta))
    | HPing opaque => (2, be_encode 4 opaque)
    | GoAway (Ok tt) => (3, be_encode 4 0)
    | GoAway (Err Protocol) => (3, be_encode 4 1)
    | GoAway (Err Internal) => (3, be_encode 4 2)
    end in
  [version h; t] ++ be_encode 2 (flags h) ++ be_encode 4 (stream_id h) ++ last.

Definition payload_length (h : Header) : Z :=
  match ty h with Data length => length | _ => 0 end.

(** * The accumulator (module [acc]) *)


Definition Output : Type := Header * bytes.

Definition accumulate (acc data : bytes) :
    bytes * poll (result Output HeaderParseError) :=
  let offset := 12 in
  match acc with
  | [] =>
      if offset <=? blen data then
        match try_from (take 12 data) with
        | Err err => (acc, Ready (Err err))
        | Ok header =>
            let end_ := offset + payload_length header in
            match blen data ?= end_ with
            | Lt => (acc ++ data, Pending)
            | Eq => (acc, Ready (Ok (header, drop 12 data)))
            | Gt => (drop (Z.to_nat end_) data,
                     Ready (Ok (header, drop 12 (take (Z.to_nat end_) data))))
            end
        end
      else (acc ++ data, Pending)
  | _ :: _ =>
      let acc := acc ++ data in
      if offset <=? blen acc then
        match try_from (take 12 acc) with
        | Err err => (acc, Ready (Err err))
        | Ok header =>
            let end_ := offset + payload_length header in
            match blen acc ?= end_ with
            | Lt => (acc, Pending)
            | Eq => ([], Ready (Ok (header, drop 12 acc)))
            | Gt => (drop (Z.to_nat end_) acc,
                     Ready (Ok (header, drop 12 (take (Z.to_nat end_) acc))))
            end
        end
      else (acc, Pending)
  end.

(** * Streams *)

Inductive Status (I : Type) : Type :=
| Duplex (inner : I)
| IncomingOnly (inner : I)
| OutgoingOnly (inner : I).
Arguments Duplex {I} inner.
Arguments IncomingOnly {I} inner.
Arguments OutgoingOnly {I} inner.

(** [Status::as_mut], read and written back. *)
Definition status_inner {I} (s : Status I) : I :=
  match s with Duplex i | IncomingOnly i | OutgoingOnly i => i end.

Definition status_set {I} (s : Status I) (i : I) : Status I :=
  match s with
  | Duplex _ => Duplex i
  | IncomingOnly _ => IncomingOnly i
  | OutgoingOnly _ => OutgoingOnly i
  end.

Record State (I : Type) : Type := mkState {
  st_incoming : bytes;
  st_outgoing : bytes;
  st_error : bool;
  inners : gmap StreamId (Status I);
  recent_reset : list StreamId;
}.
Arguments mkState {I}.
Arguments st_incoming {I}.
Arguments st_outgoing {I}.
Arguments st_error {I}.
Arguments inners {I}.
Arguments recent_reset {I}.

Definition init {I} : State I := mkState [] [] false ∅ [].

(** [DynamicProtocol::from_name] *)
#[export] Instance yamux_from_name {I} : DynamicProtocol (State I) :=
  fun name _ => if decide (name = str "/coda/yamux/1.0.0") then Ret init else Panic.

Definition get_acc {I} (incoming : bool) (st : State I) : bytes :=
  if incoming then st_incoming st else st_outgoing st.

Definition set_acc {I} (incoming : bool) (acc : bytes) (st : State I) : State I :=
  if incoming
  then mkState acc (st_outgoing st) (st_error st) (inners st) (recent_reset st)
  else mkState (st_incoming st) acc (st_error st) (inners st) (recent_reset st).

Definition set_error {I} (st : State I) : State I :=
  mkState (st_incoming st) (st_outgoing st) true (inners st) (recent_reset st).

Definition set_inners {I} (m : gmap StreamId (Status I)) (st : State I) : State I :=
  mkState (st_incoming st) (st_outgoing st) (st_error st) m (recent_reset st).

Definition set_reset {I} (q : list StreamId) (st : State I) : State I :=
  mkState (st_incoming st) (st_outgoing st) (st_error st) (inners st) q.

(** The stream a frame belongs to. *)
Definition stream_of (h : Header) : StreamId :=
  if stream_id h =? 0 then SHandshake
  else if stream_id h mod 2 =? 0 then Forward (stream_id h / 2)
  else Backward (stream_id h / 2).

(** What the flags of one frame do to the stream table. *)
Definition register {I} `{!FromStreamId I} (incoming : bool) (h : Header) (st : State I)
    : State I :=
  let sid := stream_of h in
  if flags_contains (flags h) SYN then
    set_inners (<[sid := Duplex (from_stream_id sid)]> (inners st)) st
  else if flags_contains (flags h) FIN then
    let removed := delete sid (inners st) in
    match inners st !! sid, incoming with
    | Some (Duplex stream), true => set_inners (<[sid := OutgoingOnly stream]> removed) st
    | Some (Duplex stream), false => set_inners (<[sid := IncomingOnly stream]> removed) st
    | _, _ => set_inners removed st
    end
  else if flags_contains (flags h) RST then
    let q := if blen (recent_reset st) =? 512 then drop 1 (recent_reset st)
             else recent_reset st in
    set_inners (delete sid (inners st)) (set_reset (q ++ [sid]) st)
  else st.

(** [State::process]: the loop runs until the accumulator is [Pending]. *)
Fixpoint process_loop {I} `{!FromStreamId I} (fuel : nat) (incoming : bool)
    (st : State I) (data : bytes) (output : list (result Output HeaderParseError))
    : outcome (State I * list (result Output HeaderParseError)) :=
  match fuel with
  | O => OutOfFuel
  | S fuel =>
      let '(acc, r) := accumulate (get_acc incoming st) data in
      let st := set_acc incoming acc st in
      match r with
      | Pending => Ret (st, output)
      | Ready res =>
          let st := match res with
                    | Ok (header, _) => register incoming header st
                    | Err _ => st
                    end in
          process_loop fuel incoming st [] (output ++ [res])
      end
  end.

Definition process {I} `{!FromStreamId I} (fuel : nat) (incoming : bool)
    (st : State I) (data : bytes) :=
  process_loop fuel incoming st data [].

(** Fuel that lets [process] finish whenever it finishes at all: every
    iteration but the last consumes a header of twelve bytes. *)
Definition process_fuel {I} (incoming : bool) (st : State I) (data : bytes) : nat :=
  2 + length (get_acc incoming st) + length data.

(** The loop of [on_data] over the parsed frames. *)
Fixpoint dispatch {W I} `{!DbGroup W, !HandleData W I, !FromStreamId I}
    (id : DirectedId) (outs : list (result Output HeaderParseError))
    (st : State I) (w : W) : outcome (State I * W * DbResult unit) :=
  match outs with
  | [] => Ret (st, w, Ok tt)
  | Err _ :: _ => Ret (set_error st, w, Ok tt)
  | Ok (header, data) :: outs =>
      let sid := stream_of header in
      match ty header with
      | Data _ =>
          match inners st !! sid with
          | Some s =>
              '(inner, w, r) ← on_data id data (status_inner s) w;
              let st := set_inners (<[sid := status_set s inner]> (inners st)) st in
              match r with
              | Err e => Ret (st, w, Err e)
              | Ok _ => dispatch id outs st w
              end
          | None =>
              if decide (sid ∈ recent_reset st) then dispatch id outs st w
              else
                '(stream, w, r) ← on_data id data (from_stream_id sid : I) w;
                match r with
                | Err e => Ret (st, w, Err e)
                | Ok _ =>
                    dispatch id outs (set_inners (<[sid := Duplex stream]> (inners st)) st) w
                end
          end
      | _ =>
          let '(w, r) := db_stream_add sid id KYamux (header_bytes header) w in
          match r with
          | Err e => Ret (st, w, Err e)
          | Ok _ => dispatch id outs st w
          end
      end
  end.

#[export] Instance yamux_handle {W I} `{!DbGroup W, !HandleData W I, !FromStreamId I}
    : HandleData W (State I) := fun id data st w =>
  if st_error st then Ret (st, w, Ok tt)
  else
    '(st, outs) ← process (process_fuel (incoming id) st data) (incoming id) st data;
    dispatch id outs st w.

(** * Headers: what is stored is what was on the wire *)

Definition wf_header (h : Header) : Prop :=
  version h = 0 /\ 0 <= flags h < 16 /\ 0 <= stream_id h < 2 ^ 32 /\
  match ty h with
  | Data n | HPing n => 0 <= n < 2 ^ 32
  | WindowUpdate d => - 2 ^ 31 <= d < 2 ^ 31
  | GoAway _ => True
  end.

Lemma flags_from_bits_iff (bits : Z) :
  0 <= bits -> flags_from_bits bits = if bits <? 16 then Some bits else None.
Proof.
  intros H. unfold flags_from_bits. rewrite <- Z.ldiff_land.
  change flags_all with (Z.ones 4). rewrite Z.ldiff_ones_r by lia.
  rewrite Z.shiftl_mul_pow2, Z.shiftr_div_pow2 by lia. change (2 ^ 4) with 16.
  pose proof (Z.div_mod bits 16). pose proof (Z.mod_pos_bound bits 16).
  destruct (Z.ltb_spec bits 16), (Z.eqb_spec (bits / 16 * 16) 0); try done.
  - rewrite (Z.div_small bits 16) in *; lia.
  - exfalso. lia.
Qed.

Lemma header_bytes_length (h : Header) : length (header_bytes h) = 12%nat.
Proof.
  unfold header_bytes. destruct (ty h) as [| | |[[]|[]]];
    rewrite !length_app, !length_be_encode; reflexivity.
Qed.

(** The fields of a twelve byte string cut at 2, 4 and 8. *)
Lemma header_fields (v t : Z) (fl sid last : bytes) :
  length fl = 2%nat -> length sid = 4%nat -> length last = 4%nat ->
  let b := [v; t] ++ fl ++ sid ++ last in
  nth 0 b 0 = v /\ nth 1 b 0 = t /\ take 2 (drop 2 b) = fl /\
  take 4 (drop 4 b) = sid /\ take 4 (drop 8 b) = last.
Proof.
  intros H1 H2 H3.
  destruct fl as [|? [|? [|]]]; try done.
  destruct sid as [|? [|? [|? [|? [|]]]]]; try done.
  destruct last as [|? [|? [|? [|? [|]]]]]; done.
Qed.

Lemma try_from_header_bytes (h : Header) : wf_header h -> try_from (header_bytes h) = Ok h.
Proof.
  destruct h as [v t fl sid]. unfold wf_header; cbn [version ty flags stream_id].
  intros (-> & Hf & Hs & Ht). unfold header_bytes; cbn [version ty flags stream_id].
  destruct (match t with Data _ => _ | _ => _ end) as [tag last] eqn:E.
  assert (L : length last = 4%nat).
  { destruct t as [| | |[[]|[]]]; apply pair_eq in E as [_ <-]; apply length_be_encode. }
  destruct (header_fields 0 tag (be_encode 2 fl) (be_encode 4 sid) last)
    as (E0 & E1 & E2 & E3 & E4); [apply length_be_encode..|done|].
  unfold try_from. rewrite E0, E1, E2, E3, E4. cbn [negb Z.eqb].
  rewrite (be_decode_encode 2 fl), (be_decode_encode 4 sid) by (cbn; lia).
  rewrite flags_from_bits_iff, (proj2 (Z.ltb_lt fl 16)) by lia.
  destruct t as [n|d|n|[[]|[]]]; apply pair_eq in E as [<- <-]; cbn [Z.eqb].
  - by rewrite be_decode_encode by (cbn; lia).
  - rewrite be_decode_encode, to_signed_wrap by (try (apply Z.mod_pos_bound); cbn; lia). done.
  - by rewrite be_decode_encode by (cbn; lia).
  - done.
  - done.
  - done.
Qed.

(** The type field and the last word of a header determine each other. *)
Lemma try_from_inv (v : bytes) (h : Header) :
  try_from v = Ok h ->
  version h = nth 0 v 0 /\ version h = 0 /\
  flags h = be_decode (take 2 (drop 2 v)) /\
  stream_id h = be_decode (take 4 (drop 4 v)) /\
  let d := be_decode (take 4 (drop 8 v)) in
  match ty h with
  | Data n => nth 1 v 0 = 0 /\ n = d
  | WindowUpdate n => nth 1 v 0 = 1 /\ n = to_signed 32 d
  | HPing n => nth 1 v 0 = 2 /\ n = d
  | GoAway (Ok _) => nth 1 v 0 = 3 /\ d = 0
  | GoAway (Err Protocol) => nth 1 v 0 = 3 /\ d = 1
  | GoAway (Err Internal) => nth 1 v 0 = 3 /\ d = 2
  end.
Proof.
  unfold try_from, flags_from_bits.
  repeat case_match; intros; simplify_eq; to_prop; cbn in *; simplify_eq;
    destruct (Z.eqb_spec (nth 0 v 0) 0); cbn in *; try congruence; repeat split; congruence || lia.
Qed.

Lemma header_bytes_try_from (v : bytes) (h : Header) :
  wf_bytes v -> length v = 12%nat -> try_from v = Ok h -> header_bytes h = v.
Proof.
  intros Hw Hl H. apply try_from_inv in H as (Hv & Hv0 & Hf & Hs & Ht).
  do 12 (destruct v as [|? v]; [done|]). destruct v; [|done].
  cbn [nth take drop] in *.
  assert (W : forall l n, wf_bytes l -> length l = n -> be_encode n (be_decode l) = l).
  { intros l n Hwl <-. by apply be_encode_decode. }
  unfold wf_bytes in Hw. rewrite !Forall_cons in Hw. destruct_and! Hw.
  assert (Wl : wf_bytes [z7; z8; z9; z10]) by forall_list.
  unfold header_bytes. rewrite Hf, Hs, Hv.
  rewrite (W [z1; z2] 2%nat), (W [z3; z4; z5; z6] 4%nat) by (forall_list || done).
  pose proof (be_decode_bound [z7; z8; z9; z10]) as B. cbn in B.
  destruct (ty h) as [n|n|n|[[]|[]]]; destruct Ht as [-> Hd]; cbn [app];
    first [rewrite Hd | rewrite <- Hd]; rewrite ?wrap_to_signed, W by (cbn; lia || done); done.
Qed.

(** * Reassembly *)

(** The frame at the front of a byte string. *)
Definition ystep (l : bytes) : verdict Output :=
  if 12 <=? blen l then
    match try_from (take 12 l) with
    | Err _ => Bad
    | Ok h =>
        let end_ := 12 + payload_length h in
        if end_ <=? blen l
        then Frame (h, drop 12 (take (Z.to_nat end_) l)) (drop (Z.to_nat end_) l)
        else Need
    end
  else Need.

Lemma payload_length_nonneg (v : bytes) (h : Header) :
  try_from v = Ok h -> 0 <= payload_length h.
Proof.
  intros H. apply try_from_inv in H as (_ & _ & _ & _ & Ht). unfold payload_length.
  destruct (ty h); try lia. destruct Ht as [_ ->]. apply be_decode_bound.
Qed.

#[export] Instance ystep_framer : Framer ystep.
Proof.
  split; unfold ystep.
  - intros l m r. case_match eqn:E12; [|done]. case_match eqn:E; [|done].
    pose proof (payload_length_nonneg _ _ E). case_match; [|done].
    intros [= <- <-]. to_prop. rewrite length_drop. unfold blen in *. lia.
  - intros l m r x. case_match eqn:E12; [|done]. case_match eqn:E; [|done].
    pose proof (payload_length_nonneg _ _ E). case_match; [|done].
    intros [= <- <-]. to_prop.
    change 12%nat with (Z.to_nat 12) in *. rewrite take_app_within, E by lia.
    rewrite !(proj2 (Z.leb_le _ _)) by len_lia.
    by rewrite take_app_within, drop_app_within by lia.
  - intros l x. case_match eqn:E12; [|done]. case_match eqn:E; [case_match; done|].
    to_prop. change 12%nat with (Z.to_nat 12) in *. rewrite take_app_within, E by lia.
    by rewrite (proj2 (Z.leb_le _ _)) by len_lia.
Qed.

(** The accumulator implements the framer; a malformed header in a non-empty
    accumulator stays there. *)
Lemma accumulate_spec (acc data : bytes) :
  match ystep (acc ++ data) with
  | Need => accumulate acc data = (acc ++ data, Pending)
  | Frame m r => accumulate acc data = (r, Ready (Ok m))
  | Bad => exists e, accumulate acc data = (match acc with [] => [] | _ => acc ++ data end,
                                            Ready (Err e))
  end.
Proof.
  assert (C : forall l h, try_from (take 12 l) = Ok h -> let e := 12 + payload_length h in
    match blen l ?= e with
    | Lt => (e <=? blen l) = false
    | Eq => (e <=? blen l) = true /\ take (Z.to_nat e) l = l /\ drop (Z.to_nat e) l = []
    | Gt => (e <=? blen l) = true
    end).
  { intros l h E. apply payload_length_nonneg in E. cbn zeta.
    destruct (Z.compare_spec (blen l) (12 + payload_length h));
      rewrite ?Z.leb_le, ?Z.leb_gt; unfold blen in *; try lia.
    rewrite take_ge, drop_ge by lia. auto with lia. }
  unfold ystep, accumulate.
  destruct acc as [|a acc]; [cbn [app] | set (l := (a :: acc) ++ data)];
    (destruct (12 <=? _); [|done]);
    (destruct (try_from _) as [h|] eqn:E; [|eauto]);
    specialize (C _ _ E); cbn zeta in C;
    destruct (_ ?= _); [destruct C as (-> & -> & ->)|rewrite C|rewrite C
                       |destruct C as (-> & -> & ->)|rewrite C|rewrite C]; done.
Qed.

Section Process.
Context {I : Type} `{!FromStreamId I}.
Implicit Types (st : State I) (h : Header).

Lemma get_set_acc (b : bool) (a : bytes) (st : State I) : get_acc b (set_acc b a st) = a.
Proof. by destruct b. Qed.

Lemma get_set_acc_other (b : bool) (a : bytes) (st : State I) :
  get_acc (negb b) (set_acc b a st) = get_acc (negb b) st.
Proof. by destruct b. Qed.

Lemma set_set_acc (b : bool) (a a' : bytes) (st : State I) :
  set_acc b a (set_acc b a' st) = set_acc b a st.
Proof. by destruct b. Qed.

Lemma set_get_acc (b : bool) (st : State I) : set_acc b (get_acc b st) st = st.
Proof. by destruct b, st. Qed.

Lemma register_set_acc (b b' : bool) (h : Header) (a : bytes) (st : State I) :
  register b h (set_acc b' a st) = set_acc b' a (register b h st).
Proof. unfold register. destruct b', st; cbn; repeat case_match; done. Qed.

Lemma get_acc_register (b b' : bool) (h : Header) (st : State I) :
  get_acc b' (register b h st) = get_acc b' st.
Proof. unfold register. destruct b', st; cbn; repeat case_match; done. Qed.

(** The stream table after the frames [ms]. *)
Definition register_all (b : bool) (ms : list Output) (st : State I) : State I :=
  fold_left (fun s m => register b m.1 s) ms st.

Lemma register_all_set_acc (b b' : bool) (ms : list Output) (a : bytes) (st : State I) :
  register_all b ms (set_acc b' a st) = set_acc b' a (register_all b ms st).
Proof.
  revert st. induction ms as [|m ms IH]; intros st; [done|].
  unfold register_all in *. cbn [fold_left]. by rewrite register_set_acc, IH.
Qed.

Lemma process_loop_clean (ms : list Output) (b : bool) st (data r : bytes) fuel out :
  parse ystep (get_acc b st ++ data) = (ms, r, false) -> (length ms < fuel)%nat ->
  process_loop fuel b st data out = Ret (set_acc b r (register_all b ms st), out ++ map Ok ms).
Proof.
  revert st data fuel out. induction ms as [|m ms IH]; intros st data fuel out Hp Hf;
    (destruct fuel as [|fuel]; [cbn in Hf; lia|]); cbn [process_loop];
    pose proof (accumulate_spec (get_acc b st) data) as Ha; apply (parse_inv ystep) in Hp.
  - destruct Hp as [-> Es]. rewrite Es in Ha. by rewrite Ha, app_nil_r.
  - destruct Hp as (r' & Es & Er). rewrite Es in Ha. rewrite Ha. destruct m as [h d].
    rewrite (IH _ [] fuel).
    + rewrite register_set_acc, register_all_set_acc, set_set_acc, <- app_assoc. done.
    + by rewrite app_nil_r, get_acc_register, get_set_acc.
    + cbn in Hf. lia.
Qed.

Lemma process_loop_stuck (b : bool) st fuel out :
  ystep (get_acc b st) = Bad -> process_loop fuel b st [] out = OutOfFuel.
Proof.
  revert st out. induction fuel as [|fuel IH]; intros st out Hb; [done|].
  cbn [process_loop]. pose proof (accumulate_spec (get_acc b st) []) as Ha.
  rewrite app_nil_r, Hb in Ha. destruct Ha as [e ->].
  apply IH. rewrite get_set_acc. by destruct (get_acc b st).
Qed.

Lemma process_loop_bad (ms : list Output) (b : bool) st (data r : bytes) fuel out :
  parse ystep (get_acc b st ++ data) = (ms, r, true) ->
  get_acc b st <> [] \/ ms <> [] ->
  process_loop fuel b st data out = OutOfFuel.
Proof.
  revert st data fuel out. induction ms as [|m ms IH]; intros st data fuel out Hp Hne;
    (destruct fuel as [|fuel]; [done|]); cbn [process_loop];
    pose proof (accumulate_spec (get_acc b st) data) as Ha; apply (parse_inv ystep) in Hp.
  - destruct Hp as [-> Es]. rewrite Es in Ha. destruct Ha as [e ->].
    destruct Hne as [Hne|]; [|done].
    apply process_loop_stuck. rewrite get_set_acc. by destruct (get_acc b st).
  - destruct Hp as (r' & Es & Er). rewrite Es in Ha. rewrite Ha. destruct m as [h d].
    assert (Eg : get_acc b (register b h (set_acc b r' st)) = r').
    { by rewrite get_acc_register, get_set_acc. }
    destruct ms as [|m2 ms].
    + apply process_loop_stuck. rewrite Eg. apply (parse_inv ystep) in Er. apply Er.
    + apply IH; [by rewrite app_nil_r, Eg|by right].
Qed.

(** A malformed header at the start of a chunk that finds the accumulator empty
    is reported once. *)
Lemma process_loop_bad_once (b : bool) st (data : bytes) fuel out :
  get_acc b st = [] -> ystep data = Bad -> (2 <= fuel)%nat ->
  exists e, process_loop fuel b st data out = Ret (st, out ++ [Err e]).
Proof.
  intros Ha Hb Hf. destruct fuel as [|[|fuel]]; try lia. cbn [process_loop].
  pose proof (accumulate_spec [] data) as Hs. cbn [app] in Hs. rewrite Hb in Hs.
  destruct Hs as [e Hs]. exists e. rewrite Ha, Hs, get_set_acc.
  change (accumulate [] []) with (@nil Z, @Pending (result Output HeaderParseError)).
  cbn iota beta. by rewrite set_set_acc, <- Ha, set_get_acc.
Qed.

End Process.

(** * Streams of chunks *)

(** [process] called on each chunk of one direction in turn, as [on_data] does
    it; the outputs are concatenated. *)
Fixpoint process_all {I} `{!FromStreamId I} (incoming : bool) (st : State I)
    (chunks : list bytes) : outcome (State I * list (result Output HeaderParseError)) :=
  match chunks with
  | [] => Ret (st, [])
  | c :: cs =>
      '(st, o) ← process (process_fuel incoming st c) incoming st c;
      '(st, os) ← process_all incoming st cs;
      Ret (st, o ++ os)
  end.

Section Streams.
Context {I : Type} `{!FromStreamId I}.
Implicit Types st : State I.

Lemma process_clean (b : bool) st (data : bytes) (ms : list Output) (r : bytes) :
  parse ystep (get_acc b st ++ data) = (ms, r, false) ->
  process (process_fuel b st data) b st data
  = Ret (set_acc b r (register_all b ms st), map Ok ms).
Proof.
  intros Hp. unfold process. rewrite (process_loop_clean ms b st data r _ [] Hp); [done|].
  apply (parse_length ystep) in Hp. rewrite length_app in Hp. unfold process_fuel. lia.
Qed.

Lemma register_all_app (b : bool) (ms ms' : list Output) st :
  register_all b (ms ++ ms') st = register_all b ms' (register_all b ms st).
Proof. unfold register_all. by rewrite fold_left_app. Qed.

Lemma get_acc_register_all (b b' : bool) (ms : list Output) st :
  get_acc b' (register_all b ms st) = get_acc b' st.
Proof.
  revert st. induction ms as [|m ms IH]; intros st; [done|].
  unfold register_all in *. cbn [fold_left]. by rewrite IH, get_acc_register.
Qed.

Lemma process_all_clean (b : bool) (chunks : list bytes) st (ms : list Output) (r : bytes) :
  ystep (get_acc b st) = Need ->
  parse ystep (get_acc b st ++ concat chunks) = (ms, r, false) ->
  process_all b st chunks = Ret (set_acc b r (register_all b ms st), map Ok ms).
Proof.
  revert st ms. induction chunks as [|c cs IH]; intros st ms Hn Hp; cbn [concat process_all] in *.
  - rewrite app_nil_r, (parse_need ystep) in Hp by done. injection Hp as <- <-.
    by rewrite set_get_acc.
  - rewrite app_assoc in Hp.
    destruct (parse_app_clean ystep _ _ _ _ _ Hp eq_refl) as (ms0 & r0 & E).
    rewrite (process_clean _ _ _ _ _ E). cbn.
    rewrite (parse_app ystep _ _ _ _ E) in Hp.
    destruct (parse ystep (r0 ++ concat cs)) as [[ms1 r1] b1] eqn:E1.
    injection Hp as <- <- ->.
    rewrite (IH (set_acc b r0 (register_all b ms0 st)) ms1).
    + cbn. by rewrite map_app, register_all_set_acc, set_set_acc, register_all_app.
    + rewrite get_set_acc. exact (parse_rest ystep _ _ _ _ E).
    + by rewrite get_set_acc.
Qed.

End Streams.

(** ** The properties of the framing *)

(** The header codec loses nothing: printing a well-formed header and
    parsing it gives the header back, and printing a parsed header (what the
    recorder stores for control frames) gives the twelve bytes that were on the
    wire. *)
Theorem yamux_header_roundtrip (h : Header) (v : bytes) :
  (wf_header h -> try_from (header_bytes h) = Ok h) /\
  (wf_bytes v -> length v = 12%nat -> try_from v = Ok h -> header_bytes h = v).
Proof. split; [apply try_from_header_bytes | apply header_bytes_try_from]. Qed.

Lemma yamux_header_roundtrip_witness :
  header_bytes (mkHeader 0 (WindowUpdate (-2)) 5 7) = [0; 1; 0; 5; 0; 0; 0; 7; 255; 255; 255; 254].
Proof.
  apply (proj2 (yamux_header_roundtrip _ [0; 1; 0; 5; 0; 0; 0; 7; 255; 255; 255; 254])).
  - repeat (apply Forall_cons_2; [unfold is_byte; lia|]). apply Forall_nil_2.
  - reflexivity.
  - reflexivity.
Defined.

(** C2: wherever the byte stream of one direction is cut into chunks, the
    frames [process] delivers are exactly the frames of the whole stream, in
    order, the unparsed tail stays in the accumulator of that direction, and
    the stream table is the one the frames' flags describe. In particular every
    call returns. *)
Theorem yamux_process_chunks {I : Type} `{!FromStreamId I} (b : bool) (st : State I)
    (chunks : list bytes) (ms : list Output) (r : bytes) :
  get_acc b st = [] ->
  parse ystep (concat chunks) = (ms, r, false) ->
  process_all b st chunks = Ret (set_acc b r (register_all b ms st), map Ok ms).
Proof. intros Ha Hp. apply process_all_clean; by rewrite Ha. Qed.

(** The input of the test [trivial_acc] of the source, cut in three. *)
Definition trivial_acc_chunks : list bytes :=
  [[0; 0; 0; 0; 0; 0; 0]; [17; 0; 0; 0; 16; 255; 255; 255; 255]; repeat 255 12].

Lemma yamux_process_chunks_witness :
  process_all true (init (I := list (bool * bytes))) trivial_acc_chunks
  = Ret (init, [Ok (mkHeader 0 (Data 16) 0 17, repeat 255 16)]).
Proof.
  apply (yamux_process_chunks true init trivial_acc_chunks
           [(mkHeader 0 (Data 16) 0 17, repeat 255 16)] []); reflexivity.
Defined.

(** C3: when [process] returns. On a stream whose frames are all well formed it
    always does. On a malformed header it returns (reporting the error once)
    only if the header is the first thing in a chunk that finds the accumulator
    empty; otherwise the loop never ends, whatever the fuel. *)
Theorem yamux_process_returns {I : Type} `{!FromStreamId I} (b : bool) (st : State I)
    (data : bytes) :
  let '(ms, r, bad) := parse ystep (get_acc b st ++ data) in
  if bad then
    if decide (get_acc b st = [] /\ ms = [])
    then exists e, process (process_fuel b st data) b st data = Ret (st, [Err e])
    else forall fuel, process fuel b st data = OutOfFuel
  else process (process_fuel b st data) b st data
       = Ret (set_acc b r (register_all b ms st), map Ok ms).
Proof.
  destruct (parse ystep (get_acc b st ++ data)) as [[ms r] []] eqn:E.
  - destruct (decide _) as [[Ha ->]|Hn].
    + apply (parse_inv ystep) in E as [_ E]. rewrite Ha in E. cbn in E.
      apply (process_loop_bad_once b st data _ []); [done..|]. unfold process_fuel. lia.
    + intros fuel. eapply process_loop_bad; [done|].
      destruct (get_acc b st); [right|by left]. by intros ->; apply Hn.
  - by apply process_clean.
Qed.

(** * Delivery to the streams *)

(** The payloads the frames carry for one stream, in order. *)
Definition payloads (sid : StreamId) (ms : list Output) : list bytes :=
  omap (fun '(h, d) =>
          match ty h with
          | Data _ => if decide (stream_of h = sid) then Some d else None
          | _ => None
          end) ms.

(** The database calls the control frames ask for. *)
Definition control_calls (inc : bool) (ms : list Output) : list db_call :=
  omap (fun '(h, _) =>
          match ty h with
          | Data _ => None
          | _ => Some (CallAdd (stream_of h) inc KYamux (header_bytes h))
          end) ms.

(** What a stream holds after the payloads [ps]: data for a stream that was
    reset and is not open again is dropped, an unknown stream is opened. *)
Definition delivered (inc reset : bool) (s : option (list (bool * bytes))) (ps : list bytes)
    : option (list (bool * bytes)) :=
  match ps, s with
  | [], _ => s
  | _, None => if reset then None else Some (pair inc <$> ps)
  | _, Some l => Some (l ++ (pair inc <$> ps))
  end.

Lemma delivered_cons (inc reset : bool) s (p : bytes) (ps : list bytes) :
  delivered inc reset s (p :: ps) = delivered inc reset (delivered inc reset s [p]) ps.
Proof.
  destruct s as [l|], ps as [|p' ps]; cbn; try by destruct reset.
  by rewrite <- app_assoc.
Qed.

Definition contents (st : State Sink) (sid : StreamId) : option Sink :=
  status_inner <$> inners st !! sid.

Definition is_reset (st : State Sink) (sid : StreamId) : bool :=
  bool_decide (sid ∈ recent_reset st).

Lemma status_inner_set {J} (s : Status J) (i : J) : status_inner (status_set s i) = i.
Proof. by destruct s. Qed.

(** One step of [dispatch] over sinks. *)
Definition deliver_one (inc : bool) (m : Output) (st : State Sink) : State Sink :=
  let sid := stream_of m.1 in
  match ty m.1 with
  | Data _ =>
      match inners st !! sid with
      | Some s => set_inners (<[sid := status_set s (status_inner s ++ [(inc, m.2)])]> (inners st)) st
      | None => if decide (sid ∈ recent_reset st) then st
                else set_inners (<[sid := Duplex [(inc, m.2)]]> (inners st)) st
      end
  | _ => st
  end.

Lemma dispatch_step (id : DirectedId) (m : Output) outs (st : State Sink) (w : list db_call) :
  dispatch id (Ok m :: outs) st w
  = dispatch id outs (deliver_one (incoming id) m st) (w ++ control_calls (incoming id) [m]).
Proof.
  destruct m as [h d]. cbn [dispatch]. unfold deliver_one, control_calls. cbn [fst snd omap list_omap].
  destruct (ty h); rewrite ?app_nil_r; try done.
  destruct (inners st !! stream_of h); [done|]. by destruct (decide _).
Qed.

Lemma deliver_one_frame (inc : bool) (m : Output) (st : State Sink) :
  recent_reset (deliver_one inc m st) = recent_reset st /\
  (forall b, get_acc b (deliver_one inc m st) = get_acc b st) /\
  st_error (deliver_one inc m st) = st_error st.
Proof. unfold deliver_one. repeat case_match; split_and!; try done; by intros []. Qed.

Lemma deliver_one_contents (inc : bool) (m : Output) (st : State Sink) (sid : StreamId) :
  contents (deliver_one inc m st) sid
  = delivered inc (is_reset st sid) (contents st sid) (payloads sid [m]).
Proof.
  destruct m as [h d]. unfold deliver_one, payloads, contents, is_reset.
  cbn [fst snd omap list_omap]. destruct (ty h); try done.
  destruct (decide (stream_of h = sid)) as [<-|Hne].
  - destruct (inners st !! stream_of h) as [s|] eqn:Es; [|destruct (decide _)];
      cbn [inners set_inners]; rewrite ?lookup_insert_eq, ?Es; cbn.
    + by rewrite status_inner_set.
    + by rewrite bool_decide_true.
    + by rewrite bool_decide_false.
  - repeat case_match; cbn [inners set_inners]; by rewrite ?lookup_insert_ne.
Qed.

Lemma payloads_cons (sid : StreamId) (m : Output) (ms : list Output) :
  payloads sid (m :: ms) = payloads sid [m] ++ payloads sid ms.
Proof. unfold payloads. cbn [omap list_omap]. by case_match. Qed.

Lemma control_calls_cons (inc : bool) (m : Output) (ms : list Output) :
  control_calls inc (m :: ms) = control_calls inc [m] ++ control_calls inc ms.
Proof. unfold control_calls. cbn [omap list_omap]. by case_match. Qed.

Lemma delivered_app (inc reset : bool) s (ps ps' : list bytes) :
  delivered inc reset s (ps ++ ps') = delivered inc reset (delivered inc reset s ps) ps'.
Proof.
  revert s. induction ps as [|p ps IH]; intros s; [done|].
  cbn [app]. rewrite delivered_cons, IH. by rewrite <- delivered_cons.
Qed.

Lemma dispatch_delivers (id : DirectedId) (ms : list Output) (st : State Sink)
    (w : list db_call) :
  exists st', dispatch id (map Ok ms) st w
              = Ret (st', w ++ control_calls (incoming id) ms, Ok tt) /\
    recent_reset st' = recent_reset st /\
    (forall b, get_acc b st' = get_acc b st) /\ st_error st' = st_error st /\
    forall sid, contents st' sid
      = delivered (incoming id) (is_reset st sid) (contents st sid) (payloads sid ms).
Proof.
  revert st w. induction ms as [|m ms IH]; intros st w; cbn [map].
  { exists st. by rewrite app_nil_r. }
  rewrite dispatch_step. destruct (deliver_one_frame (incoming id) m st) as (Hr & Ha & He).
  destruct (IH (deliver_one (incoming id) m st) (w ++ control_calls (incoming id) [m]))
    as (st' & -> & Hr' & Ha' & He' & Hc).
  exists st'. rewrite (control_calls_cons _ m ms), app_assoc. split_and!; [done|congruence| |congruence|].
  - intros b. by rewrite Ha'.
  - intros sid. rewrite Hc, deliver_one_contents, (payloads_cons _ m ms), delivered_app.
    unfold is_reset. by rewrite Hr.
Qed.


(** A window update that opens stream 3, data for it, and the first bytes of
    the next frame. *)
Definition demo_chunk : bytes :=
  [0; 1; 0; 1; 0; 0; 0; 3; 0; 0; 0; 0] ++ [0; 0; 0; 0; 0; 0; 0; 3; 0; 0; 0; 2; 8; 9] ++ [0; 0].



(** * The life of a stream *)

(** What the frames of one stream do to it: [SYN] opens it afresh, [FIN] closes
    one direction of an open stream and ends a half-closed one, [RST] ends it. *)
Definition life_step {I} `{!FromStreamId I} (inc : bool) (sid : StreamId) (s : option (Status I))
    (h : Header) : option (Status I) :=
  if flags_contains (flags h) SYN then Some (Duplex (from_stream_id sid))
  else if flags_contains (flags h) FIN then
    match s with
    | Some (Duplex i) => Some (if inc then OutgoingOnly i else IncomingOnly i)
    | _ => None
    end
  else if flags_contains (flags h) RST then None
  else s.

Definition frames_of (sid : StreamId) (ms : list Output) : list Header :=
  List.filter (fun h => bool_decide (stream_of h = sid)) (fst <$> ms).

(** The streams reset by the frames [ms], in order. *)
Definition resets (ms : list Output) : list StreamId :=
  stream_of <$> List.filter (fun h => negb (flags_contains (flags h) SYN) &&
    negb (flags_contains (flags h) FIN) && flags_contains (flags h) RST) (fst <$> ms).

(** The last [n] items. *)
Definition last_n {A} (n : nat) (l : list A) : list A := drop (length l - n) l.

Lemma last_n_app {A} (n : nat) (l r : list A) : last_n n (last_n n l ++ r) = last_n n (l ++ r).
Proof.
  unfold last_n. rewrite <- (drop_app_le l r) by lia.
  rewrite length_drop, drop_drop, !length_app. f_equal. lia.
Qed.

Lemma register_stream {I} `{!FromStreamId I} (inc : bool) (h : Header) (st : State I) (sid : StreamId) :
  inners (register inc h st) !! sid
  = if decide (stream_of h = sid) then life_step inc sid (inners st !! sid) h else inners st !! sid.
Proof.
  unfold register, life_step. destruct (decide (stream_of h = sid)) as [<-|Hne].
  - destruct (flags_contains _ SYN); [by cbn; rewrite lookup_insert_eq|].
    destruct (flags_contains _ FIN).
    + destruct (inners st !! stream_of h) as [[i|i|i]|], inc; cbn;
        by rewrite ?lookup_insert_eq, ?lookup_delete_eq.
    + by destruct (flags_contains _ RST); cbn; rewrite ?lookup_delete_eq.
  - repeat case_match; cbn; by rewrite ?lookup_insert_ne, ?lookup_delete_ne.
Qed.

Lemma register_reset {I} `{!FromStreamId I} (inc : bool) (h : Header) (st : State I) (bs : bytes) :
  (length (recent_reset st) <= 512)%nat ->
  recent_reset (register inc h st) = last_n 512 (recent_reset st ++ resets [(h, bs)]).
Proof.
  intros Hl. unfold register, resets. cbn [fmap list_fmap fst List.filter].
  assert (E0 : last_n 512 (recent_reset st ++ []) = recent_reset st).
  { rewrite app_nil_r. unfold last_n. by replace (length (recent_reset st) - 512)%nat with 0%nat by lia. }
  destruct (flags_contains _ SYN); cbn; [done|].
  destruct (flags_contains _ FIN); cbn; [by repeat case_match|].
  destruct (flags_contains _ RST); cbn; [|done].
  unfold last_n. rewrite length_app. cbn [length].
  destruct (Z.eqb_spec (blen (recent_reset st)) 512) as [E|E]; unfold blen in E.
  - replace (length (recent_reset st) + 1 - 512)%nat with 1%nat by lia.
    rewrite drop_app_le by lia. done.
  - by replace (length (recent_reset st) + 1 - 512)%nat with 0%nat by lia.
Qed.

Lemma length_last_n {A} (n : nat) (l : list A) : (length (last_n n l) <= n)%nat.
Proof. unfold last_n. rewrite length_drop. lia. Qed.

Lemma register_all_streams {I} `{!FromStreamId I} (inc : bool) (ms : list Output) (st : State I) :
  (length (recent_reset st) <= 512)%nat ->
  (forall sid, inners (register_all inc ms st) !! sid
               = fold_left (life_step inc sid) (frames_of sid ms) (inners st !! sid)) /\
  recent_reset (register_all inc ms st) = last_n 512 (recent_reset st ++ resets ms).
Proof.
  revert st. induction ms as [|[h bs] ms IH]; intros st Hl.
  - split; [done|]. cbn. unfold resets, last_n. cbn. rewrite app_nil_r.
    by replace (length (recent_reset st) - 512)%nat with 0%nat by lia.
  - change (register_all inc ((h, bs) :: ms) st) with (register_all inc ms (register inc h st)).
    pose proof (register_reset inc h st bs Hl) as Hr.
    destruct (IH (register inc h st)) as [IHs IHr]; [rewrite Hr; apply length_last_n|].
    split.
    + intros sid. rewrite IHs, register_stream. unfold frames_of. cbn [fmap list_fmap fst List.filter].
      destruct (decide (stream_of h = sid)); [by rewrite bool_decide_eq_true_2 by done
                                             |by rewrite bool_decide_eq_false_2 by done].
    + rewrite IHr, Hr. rewrite last_n_app. f_equal. rewrite <- app_assoc. f_equal.
      unfold resets. cbn [fmap list_fmap fst]. cbn [List.filter]. by case_match.
Qed.

(** C1: each stream has a life of its own. After the frames of a chunk, the
    entry of a stream in the table is what the flags of its own frames, in
    order, made of it, whatever the other streams did: [SYN] opens it with a
    fresh state, the first [FIN] leaves the other direction open with the same
    state, a further [FIN] or a [RST] removes it; and the streams remembered as
    reset are the last 512 that were. *)
Theorem yamux_stream_life {I : Type} `{!FromStreamId I} (b : bool) (st : State I) (data : bytes)
    (ms : list Output) (r : bytes) :
  (length (recent_reset st) <= 512)%nat ->
  parse ystep (get_acc b st ++ data) = (ms, r, false) ->
  exists st', process (process_fuel b st data) b st data = Ret (st', map Ok ms) /\
    (forall sid, inners st' !! sid
                 = fold_left (life_step b sid) (frames_of sid ms) (inners st !! sid)) /\
    recent_reset st' = last_n 512 (recent_reset st ++ resets ms).
Proof.
  intros Hl Hp. destruct (register_all_streams b ms st Hl) as [Hs Hr].
  exists (set_acc b r (register_all b ms st)). split; [by apply process_clean|].
  by destruct b, (register_all _ ms st).
Qed.

(** A stream is opened and reset, another one half closed. *)
Definition demo_life : bytes :=
  header_bytes (mkHeader 0 (WindowUpdate 0) SYN 3) ++ header_bytes (mkHeader 0 (WindowUpdate 0) SYN 4) ++
  header_bytes (mkHeader 0 (Data 0) FIN 4) ++ header_bytes (mkHeader 0 (Data 0) RST 3).

Lemma yamux_stream_life_witness :
  exists st' ms, process (process_fuel true (init : State Sink) demo_life) true init demo_life
      = Ret (st', map Ok ms) /\
    inners st' !! Backward 1 = None /\ inners st' !! Forward 2 = Some (OutgoingOnly []) /\
    recent_reset st' = [Backward 1].
Proof.
  destruct (yamux_stream_life true (init : State Sink) demo_life
    (map (fun h => (h, [])) [mkHeader 0 (WindowUpdate 0) SYN 3; mkHeader 0 (WindowUpdate 0) SYN 4;
                             mkHeader 0 (Data 0) FIN 4; mkHeader 0 (Data 0) RST 3]) []
    ltac:(cbn; lia) eq_refl) as (st' & E & Hs & Hr).
  exists st'. eexists. split; [exact E|].
  split; [exact (Hs (Backward 1))|]. split; [exact (Hs (Forward 2))|exact Hr].
Defined.
