(* ===== verification/Mplex.v ===== *)
(** The mplex multiplexer layer ([mina-recorder/src/connection/mplex.rs]):
    varint frame headers, the per-direction accumulator, the stream table and
    the dispatch of payloads. *)

From stdpp Require Import base list gmap strings.
From Stdlib Require Import ZArith Lia.
From S2P Require Import Prelude Types Framing Handle Varint.

(** * The accumulator (module [acc]) *)

Inductive Tag : Type := TNew | TMsg | TClose | TReset.

Record AccOutput : Type := mkAccOutput {
  ao_tag : Tag;
  ao_stream_id : StreamId;
  ao_bytes : bytes;
}.

(** [match v & 7]: 7 is a panic. *)
Definition tag_of (v : Z) : outcome Tag :=
  let t := Z.land v 7 in
  if t =? 0 then Ret TNew
  else if (t =? 1) || (t =? 2) then Ret TMsg
  else if (t =? 3) || (t =? 4) then Ret TClose
  else if (t =? 5) || (t =? 6) then Ret TReset
  else Panic.

Definition stream_of (incoming : bool) (v : Z) : StreamId :=
  let initiator := v mod 2 =? 0 in
  if Bool.eqb initiator incoming then Forward (Z.shiftr v 3) else Backward (Z.shiftr v 3).

(** The closure [r]: tag, stream, payload length and payload offset. *)
Definition parse_header `{!Varint} (incoming : bool) (data : bytes)
    : outcome (option (Tag * StreamId * Z * Z)) :=
  match decode_u64 data with
  | Err _ => Ret None
  | Ok (v, remaining) =>
      tag ← tag_of v;
      let stream_id := stream_of incoming v in
      match decode_u64 remaining with
      | Err _ => Ret None
      | Ok (len, remaining) => Ret (Some (tag, stream_id, len, blen data - blen remaining))
      end
  end.

(** [State::accumulate]: [offset + len] is computed in a [usize]. *)
Definition accumulate `{!Varint} (incoming : bool) (acc data : bytes)
    : outcome (bytes * poll AccOutput) :=
  match acc with
  | [] =>
      r ← parse_header incoming data;
      match r with
      | Some (tag, stream_id, len, offset) =>
          let end_ := wrap 64 (offset + len) in
          match blen data ?= end_ with
          | Lt => Ret (acc ++ data, Pending)
          | Eq => b ← slice_from offset data;
                  Ret (acc, Ready (mkAccOutput tag stream_id b))
          | Gt => b ← slice_from offset (take (Z.to_nat end_) data);
                  Ret (drop (Z.to_nat end_) data, Ready (mkAccOutput tag stream_id b))
          end
      | None => Ret (acc ++ data, Pending)
      end
  | _ :: _ =>
      let acc := acc ++ data in
      r ← parse_header incoming acc;
      match r with
      | Some (tag, stream_id, len, offset) =>
          let end_ := wrap 64 (offset + len) in
          match blen acc ?= end_ with
          | Lt => Ret (acc, Pending)
          | Eq => b ← slice_from offset acc;
                  Ret ([], Ready (mkAccOutput tag stream_id b))
          | Gt => b ← slice offset end_ acc;
                  rest ← slice_from end_ acc;
                  Ret (rest, Ready (mkAccOutput tag stream_id b))
          end
      | None => Ret (acc, Pending)
      end
  end.

(** * Streams *)

Inductive Status (I : Type) : Type :=
| Duplex (inner : I)
| IncomingOnly (inner : I)
| OutgoingOnly (inner : I).
Arguments Duplex {I} inner.
Arguments IncomingOnly {I} inner.
Arguments OutgoingOnly {I} inner.

Definition status_inner {I} (s : Status I) : I :=
  match s with Duplex i | IncomingOnly i | OutgoingOnly i => i end.

Definition status_set {I} (s : Status I) (i : I) : Status I :=
  match s with
  | Duplex _ => Duplex i
  | IncomingOnly _ => IncomingOnly i
  | OutgoingOnly _ => OutgoingOnly i
  end.

Record State (I : Type) : Type := mkState {
  st_incoming : bytes;
  st_outgoing : bytes;
  inners : gmap StreamId (Status I);
}.
Arguments mkState {I}.
Arguments st_incoming {I}.
Arguments st_outgoing {I}.
Arguments inners {I}.

Definition init {I} : State I := mkState [] [] ∅.

Definition mplex_from_name {I} : DynamicProtocol (State I) :=
  fun name _ => if decide (name = str "/coda/mplex/1.0.0") then Ret init else Panic.

Definition get_acc {I} (incoming : bool) (st : State I) : bytes :=
  if incoming then st_incoming st else st_outgoing st.

Definition set_acc {I} (incoming : bool) (acc : bytes) (st : State I) : State I :=
  if incoming then mkState acc (st_outgoing st) (inners st)
  else mkState (st_incoming st) acc (inners st).

Definition set_inners {I} (m : gmap StreamId (Status I)) (st : State I) : State I :=
  mkState (st_incoming st) (st_outgoing st) m.

Inductive CloseError : Type :=
| OnlyOutgoing
| OnlyIncoming
| DoesntExist (incoming : bool).

Inductive OutputVariant : Type :=
| ONew (header : Z) (name : bytes) (already_exist : bool)
| OMsg (data : bytes) (bad_stream : bool)
| OClose (header : Z) (error : option CloseError)
| OReset (header : Z).

Definition Output : Type := StreamId * OutputVariant.

(** [header] of the output: [u64] arithmetic, [u64::MAX] for a handshake. *)
Definition header_of (fwd bwd : Z) (sid : StreamId) : Z :=
  match sid with
  | SHandshake => 2 ^ 64 - 1
  | Forward id => wrap 64 (fwd + wrap 64 (Z.shiftl id 3))
  | Backward id => wrap 64 (bwd + wrap 64 (Z.shiftl id 3))
  end.

(** [matches!] of the [Msg] arm. *)
Definition open_for {I} (incoming : bool) (s : option (Status I)) : bool :=
  match s, incoming with
  | Some (Duplex _), _ => true
  | Some (IncomingOnly _), true => true
  | Some (OutgoingOnly _), false => true
  | _, _ => false
  end.

(** What one frame does to the stream table, and the output pushed for it. *)
Definition handle_frame {I} `{!FromStreamId I} (incoming : bool) (o : AccOutput)
    (st : State I) : State I * Output :=
  let sid := ao_stream_id o in
  match ao_tag o with
  | TNew =>
      let name := if utf8_valid (ao_bytes o) then ao_bytes o else hex_encode (ao_bytes o) in
      (set_inners (<[sid := Duplex (from_stream_id sid)]> (inners st)) st,
       (sid, ONew (header_of 0 0 sid) name (bool_decide (is_Some (inners st !! sid)))))
  | TMsg => (st, (sid, OMsg (ao_bytes o) (negb (open_for incoming (inners st !! sid)))))
  | TClose =>
      let removed := delete sid (inners st) in
      let '(m, error) :=
        match inners st !! sid, incoming with
        | Some (Duplex stream), true => (<[sid := OutgoingOnly stream]> removed, None)
        | Some (Duplex stream), false => (<[sid := IncomingOnly stream]> removed, None)
        | Some (IncomingOnly _), true => (removed, None)
        | Some (OutgoingOnly _), false => (removed, None)
        | Some (OutgoingOnly _), true => (removed, Some OnlyOutgoing)
        | Some (IncomingOnly _), false => (removed, Some OnlyIncoming)
        | None, incoming => (removed, Some (DoesntExist incoming))
        end in
      (set_inners m st, (sid, OClose (header_of 4 3 sid) error))
  | TReset =>
      (set_inners (delete sid (inners st)) st, (sid, OReset (header_of 6 5 sid)))
  end.

(** [State::process] *)
Fixpoint process_loop {I} `{!Varint, !FromStreamId I} (fuel : nat) (incoming : bool)
    (st : State I) (data : bytes) (output : list Output) : outcome (State I * list Output) :=
  match fuel with
  | O => OutOfFuel
  | S fuel =>
      '(acc, r) ← accumulate incoming (get_acc incoming st) data;
      let st := set_acc incoming acc st in
      match r with
      | Pending => Ret (st, output)
      | Ready o =>
          let '(st, out) := handle_frame incoming o st in
          process_loop fuel incoming st [] (output ++ [out])
      end
  end.

(** Every round but the last consumes at least two bytes. *)
Definition process {I} `{!Varint, !FromStreamId I} (incoming : bool) (st : State I)
    (data : bytes) : outcome (State I * list Output) :=
  process_loop (2 + length (get_acc incoming st) + length data) incoming st data [].

(** The loop of [on_data] over the outputs. *)
Fixpoint dispatch {W I} `{!DbGroup W, !HandleData W I} (id : DirectedId) (outs : list Output)
    (st : State I) (w : W) : outcome (State I * W * DbResult unit) :=
  match outs with
  | [] => Ret (st, w, Ok tt)
  | (sid, OMsg _ true) :: outs => dispatch id outs st w
  | (sid, OMsg data false) :: outs =>
      match inners st !! sid with
      | None => Panic
      | Some s =>
          '(inner, w, r) ← on_data id data (status_inner s) w;
          let st := set_inners (<[sid := status_set s inner]> (inners st)) st in
          match r with
          | Err e => Ret (st, w, Err e)
          | Ok _ => dispatch id outs st w
          end
      end
  | (sid, ONew header _ _) :: outs | (sid, OClose header _) :: outs
  | (sid, OReset header) :: outs =>
      let '(w, r) := db_stream_add sid id KMplex (be_encode 8 header) w in
      match r with
      | Err e => Ret (st, w, Err e)
      | Ok _ => dispatch id outs st w
      end
  end.

#[export] Instance mplex_handle {W I} `{!Varint, !DbGroup W, !HandleData W I, !FromStreamId I}
    : HandleData W (State I) := fun id data st w =>
  '(st, outs) ← process (incoming id) st data;
  dispatch id outs st w.

(** * Reassembly *)

(** The frame at the front of a byte string. [Bad] stands for a panic: a header
    tag 7, or a length that overflows [usize]. *)
Definition mstep `{!Varint} (incoming : bool) (l : bytes) : verdict AccOutput :=
  match parse_header incoming l with
  | Ret None => Need
  | Ret (Some (tag, sid, len, offset)) =>
      let end_ := offset + len in
      if 2 ^ 64 <=? end_ then Bad
      else if end_ <=? blen l
      then Frame (mkAccOutput tag sid (drop (Z.to_nat offset) (take (Z.to_nat end_) l)))
                 (drop (Z.to_nat end_) l)
      else Need
  | _ => Bad
  end.

Section Reassembly.
Context `{VarintLaws} {I : Type} `{!FromStreamId I}.
Implicit Types st : State I.

Lemma tag_of_cases (v : Z) : (exists t, tag_of v = Ret t) \/ tag_of v = Panic.
Proof. unfold tag_of. repeat case_match; eauto. Qed.

(** The shape of a header, and that it does not depend on what follows. *)
Lemma parse_header_spec (b : bool) (l : bytes) :
  match parse_header b l with
  | Ret None => True
  | Ret (Some (t, sid, len, off)) =>
      0 < off <= 20 /\ off <= blen l /\ 0 <= len < 2 ^ 64 /\
      forall x, parse_header b (l ++ x) = Ret (Some (t, sid, len, off))
  | Panic => forall x, parse_header b (l ++ x) = Panic
  | OutOfFuel => False
  end.
Proof.
  unfold parse_header. destruct (decode_u64 l) as [[v r]|] eqn:Ev; [|done].
  pose proof (varint_shrinks _ _ _ Ev).
  destruct (tag_of_cases v) as [[t Et]|Et]; rewrite Et; cbn.
  - destruct (decode_u64 r) as [[len r']|] eqn:El; [|done].
    pose proof (varint_shrinks _ _ _ El). pose proof (varint_bound _ _ _ El).
    pose proof (blen_nonneg r'). split_and!; try lia.
    intros x. rewrite (varint_stable _ _ _ x Ev), Et. cbn.
    rewrite (varint_stable _ _ _ x El), !blen_app. do 3 f_equal. lia.
  - intros x. by rewrite (varint_stable _ _ _ x Ev), Et.
Qed.

#[export] Instance mstep_framer (b : bool) : Framer (mstep b).
Proof.
  split; intros l; unfold mstep; pose proof (parse_header_spec b l) as Hh;
    destruct (parse_header b l) as [[[[[t sid] len] off]|]| |]; try done.
  - intros m r. destruct Hh as (? & ? & ? & _). case_match; [done|]. case_match; [|done].
    intros [= <- <-]. to_prop. rewrite length_drop. unfold blen in *. lia.
  - intros m r x. destruct Hh as (? & ? & ? & ->). case_match; [done|]. case_match; [|done].
    intros [= <- <-]. to_prop. rewrite (proj2 (Z.leb_le _ _)) by len_lia.
    by rewrite take_app_within, drop_app_within by lia.
  - intros x. destruct Hh as (? & ? & ? & ->). case_match; [done|]. by case_match.
  - intros x _. by rewrite Hh.
Qed.

Lemma mplex_accumulate_spec (b : bool) (acc data : bytes) :
  accumulate b acc data =
  match mstep b (acc ++ data) with
  | Need => Ret (acc ++ data, Pending)
  | Frame m r => Ret (r, Ready m)
  | Bad => Panic
  end.
Proof.
  unfold mstep, accumulate. cbn zeta. pose proof (parse_header_spec b (acc ++ data)) as Hh.
  destruct acc as [|a acc]; [cbn [app] in * | set (l := (a :: acc) ++ data) in *; clearbody l];
    (destruct (parse_header b _) as [[[[[t sid] len] off]|]| |]; try done);
    destruct Hh as (Ho & Hol & Hl & _); cbn [mbind outcome_bind].
  all: destruct (Z.leb_spec (2 ^ 64) (off + len)) as [Hw|Hw].
  1: rewrite wrap_over by lia. 3: rewrite wrap_over by lia.
  2: rewrite wrap_small by lia. 4: rewrite wrap_small by lia.
  - rewrite (proj2 (Z.compare_gt_iff _ _)) by lia.
    unfold slice_from. rewrite blen_take by lia.
    by rewrite (proj2 (Z.leb_gt off _)), andb_false_r by lia.
  - destruct (Z.compare_spec (blen data) (off + len)) as [Hc|Hc|Hc].
    + rewrite slice_from_within, (proj2 (Z.leb_le _ _)) by lia. cbn.
      by rewrite take_ge, (drop_ge _ (Z.to_nat (off + len))) by (unfold blen in *; lia).
    + by rewrite (proj2 (Z.leb_gt _ _)) by lia.
    + rewrite slice_from_within, (proj2 (Z.leb_le _ _)) by (rewrite ?blen_take; lia). done.
  - rewrite (proj2 (Z.compare_gt_iff _ _)) by lia.
    unfold slice. by rewrite (proj2 (Z.leb_gt off _)), andb_false_r by lia.
  - destruct (Z.compare_spec (blen l) (off + len)) as [Hc|Hc|Hc].
    + rewrite slice_from_within, (proj2 (Z.leb_le _ _)) by lia. cbn.
      by rewrite take_ge, (drop_ge _ (Z.to_nat (off + len))) by (unfold blen in *; lia).
    + by rewrite (proj2 (Z.leb_gt _ _)) by lia.
    + rewrite slice_within, slice_from_within, (proj2 (Z.leb_le _ _)) by lia. cbn.
      rewrite take_drop_commute. do 6 f_equal. lia.
Qed.

End Reassembly.

(** * The loop of [process] *)

(** The stream table and the outputs after the frames [ms]. *)
Fixpoint handle_all {I} `{!FromStreamId I} (incoming : bool) (ms : list AccOutput)
    (st : State I) : State I * list Output :=
  match ms with
  | [] => (st, [])
  | m :: ms =>
      let '(st, o) := handle_frame incoming m st in
      let '(st, os) := handle_all incoming ms st in (st, o :: os)
  end.

(** [process] on each chunk of one direction in turn. *)
Fixpoint process_all {I} `{!Varint, !FromStreamId I} (incoming : bool) (st : State I)
    (chunks : list bytes) : outcome (State I * list Output) :=
  match chunks with
  | [] => Ret (st, [])
  | c :: cs =>
      '(st, o) ← process incoming st c;
      '(st, os) ← process_all incoming st cs;
      Ret (st, o ++ os)
  end.

Section Process.
Context `{VarintLaws} {I : Type} `{!FromStreamId I}.
Implicit Types st : State I.

Lemma mplex_get_set_acc (b : bool) (a : bytes) st : get_acc b (set_acc b a st) = a.
Proof. by destruct b. Qed.

Lemma mplex_set_set_acc (b : bool) (a a' : bytes) st :
  set_acc b a (set_acc b a' st) = set_acc b a st.
Proof. by destruct b. Qed.

Lemma mplex_set_get_acc (b : bool) st : set_acc b (get_acc b st) st = st.
Proof. by destruct b, st. Qed.

Lemma inners_set_acc (b : bool) (a : bytes) st : inners (set_acc b a st) = inners st.
Proof. by destruct b. Qed.

Lemma handle_frame_set_acc (b b' : bool) (m : AccOutput) (a : bytes) st :
  handle_frame b m (set_acc b' a st)
  = ((fun s => set_acc b' a s) (handle_frame b m st).1, (handle_frame b m st).2).
Proof.
  unfold handle_frame. rewrite inners_set_acc.
  destruct b', (ao_tag m); cbn; try done; by repeat case_match.
Qed.

Lemma get_acc_handle_frame (b b' : bool) (m : AccOutput) st :
  get_acc b' (handle_frame b m st).1 = get_acc b' st.
Proof. unfold handle_frame. destruct b', (ao_tag m); cbn; by repeat case_match. Qed.

Lemma handle_all_set_acc (b b' : bool) (ms : list AccOutput) (a : bytes) st :
  handle_all b ms (set_acc b' a st)
  = (set_acc b' a (handle_all b ms st).1, (handle_all b ms st).2).
Proof.
  revert st. induction ms as [|m ms IH]; intros st; [done|]. cbn [handle_all].
  rewrite handle_frame_set_acc. destruct (handle_frame b m st) as [st1 o]. cbn.
  rewrite IH. by destruct (handle_all b ms st1).
Qed.

Lemma handle_all_app (b : bool) (ms ms' : list AccOutput) st :
  handle_all b (ms ++ ms') st
  = let '(st1, o) := handle_all b ms st in
    let '(st2, o') := handle_all b ms' st1 in (st2, o ++ o').
Proof.
  revert st. induction ms as [|m ms IH]; intros st; cbn [app handle_all].
  - by destruct (handle_all b ms' st).
  - destruct (handle_frame b m st) as [st1 o]. rewrite IH.
    destruct (handle_all b ms st1) as [st2 os]. by destruct (handle_all b ms' st2).
Qed.

(** The loop handles the frames of the buffered bytes in order; it panics at a
    malformed header. *)
Lemma process_loop_parse (ms : list AccOutput) (b bad : bool) st (data r : bytes) fuel out :
  parse (mstep b) (get_acc b st ++ data) = (ms, r, bad) -> (length ms < fuel)%nat ->
  process_loop fuel b st data out =
    if bad then Panic
    else let '(st', outs) := handle_all b ms st in Ret (set_acc b r st', out ++ outs).
Proof.
  revert st data fuel out. induction ms as [|m ms IH]; intros st data fuel out Hp Hf;
    (destruct fuel as [|fuel]; [cbn in Hf; lia|]); cbn [process_loop handle_all];
    rewrite mplex_accumulate_spec; apply (parse_inv (mstep b)) in Hp.
  - destruct Hp as [-> ->]. destruct bad; [done|]. cbn. by rewrite app_nil_r.
  - destruct Hp as (r' & -> & Er). cbn.
    rewrite handle_frame_set_acc. destruct (handle_frame b m st) as [st1 o] eqn:Eh. cbn.
    rewrite (IH _ [] fuel) by (rewrite ?app_nil_r, ?mplex_get_set_acc; try done; cbn in Hf; lia).
    rewrite handle_all_set_acc. destruct (handle_all b ms st1) as [st2 os]. cbn.
    by rewrite mplex_set_set_acc, <- app_assoc.
Qed.

Lemma process_parse (ms : list AccOutput) (b bad : bool) st (data r : bytes) :
  parse (mstep b) (get_acc b st ++ data) = (ms, r, bad) ->
  process b st data =
    if bad then Panic
    else let '(st', outs) := handle_all b ms st in Ret (set_acc b r st', outs).
Proof.
  intros Hp. unfold process. rewrite (process_loop_parse ms b bad st data r _ [] Hp); [done|].
  apply (parse_length (mstep b)) in Hp. rewrite length_app in Hp. lia.
Qed.

Lemma mplex_process_all_clean (b : bool) (chunks : list bytes) st (ms : list AccOutput) (r : bytes) :
  mstep b (get_acc b st) = Need ->
  parse (mstep b) (get_acc b st ++ concat chunks) = (ms, r, false) ->
  process_all b st chunks =
    let '(st', outs) := handle_all b ms st in Ret (set_acc b r st', outs).
Proof.
  revert st ms. induction chunks as [|c cs IH]; intros st ms Hn Hp; cbn [concat process_all] in *.
  - rewrite app_nil_r, (parse_need (mstep b)) in Hp by done. injection Hp as <- <-.
    cbn. by rewrite mplex_set_get_acc.
  - rewrite app_assoc in Hp.
    destruct (parse_app_clean (mstep b) _ _ _ _ _ Hp eq_refl) as (ms0 & r0 & E).
    rewrite (process_parse _ _ _ _ _ _ E), (parse_app (mstep b) _ _ _ _ E) in *.
    destruct (parse (mstep b) (r0 ++ concat cs)) as [[ms1 r1] b1] eqn:E1.
    injection Hp as <- <- ->. rewrite handle_all_app.
    destruct (handle_all b ms0 st) as [st1 os] eqn:Eh. cbn.
    rewrite (IH (set_acc b r0 st1) ms1).
    + rewrite handle_all_set_acc. destruct (handle_all b ms1 st1) as [st2 os2].
      cbn. by rewrite mplex_set_set_acc.
    + rewrite mplex_get_set_acc. exact (parse_rest (mstep b) _ _ _ _ E).
    + by rewrite mplex_get_set_acc.
Qed.

End Process.

(** Wherever the byte stream of one direction is cut, the outputs of
    [process] are those of the frames of the whole stream taken in order, and
    the unparsed tail stays in the accumulator; every call returns. *)
Theorem mplex_process_chunks `{VarintLaws} {I : Type} `{!FromStreamId I} (b : bool)
    (st : State I) (chunks : list bytes) (ms : list AccOutput) (r : bytes) :
  get_acc b st = [] ->
  parse (mstep b) (concat chunks) = (ms, r, false) ->
  process_all b st chunks =
    let '(st', outs) := handle_all b ms st in Ret (set_acc b r st', outs).
Proof.
  intros Ha Hp. apply mplex_process_all_clean; rewrite Ha; [|done].
  unfold mstep, parse_header. by rewrite varint_nil.
Qed.

(** The input of the test [msg] of the source, cut in the middle of a header. *)
Lemma mplex_process_chunks_witness :
  exists st', @process_all Sink leb128_varint _ true init [[0]; [0; 2]; [3; 171; 205; 239]; [16]]
  = Ret (st', [(Forward 0, ONew 0 [] false); (Forward 0, OMsg [171; 205; 239] false)]) /\
    st_incoming st' = [16].
Proof.
  rewrite (@mplex_process_chunks leb128_varint leb128_laws Sink _ true init
    [[0]; [0; 2]; [3; 171; 205; 239]; [16]]
    [mkAccOutput TNew (Forward 0) []; mkAccOutput TMsg (Forward 0) [171; 205; 239]] [16]
    eq_refl eq_refl).
  eexists. split; reflexivity.
Defined.

(** * Headers kept in the database *)

Lemma land_7 (v : Z) : Z.land v 7 = v mod 8.
Proof. change 7 with (Z.ones 3). by rewrite Z.land_ones by lia. Qed.

Lemma header_of_spec (fwd bwd : Z) (b : bool) (v : Z) :
  0 <= v < 2 ^ 64 -> 0 <= fwd < 8 -> 0 <= bwd < 8 ->
  header_of fwd bwd (stream_of b v)
  = v - v mod 8 + (if Bool.eqb (v mod 2 =? 0) b then fwd else bwd).
Proof.
  intros Hv Hf Hb. unfold header_of, stream_of.
  assert (E : Z.shiftl (Z.shiftr v 3) 3 = v - v mod 8).
  { rewrite Z.shiftr_div_pow2, Z.shiftl_mul_pow2 by lia. change (2 ^ 3) with 8.
    pose proof (Z.div_mod v 8). lia. }
  assert (B : 0 <= v - v mod 8 <= 2 ^ 64 - 8).
  { pose proof (Z.div_mod v 8). pose proof (Z.mod_pos_bound v 8). lia. }
  destruct (Bool.eqb _ _); rewrite E, (wrap_small 64 (v - v mod 8)), wrap_small by lia; lia.
Qed.

Lemma tag_of_inv (v : Z) (t : Tag) :
  tag_of v = Ret t ->
  match t with
  | TNew => v mod 8 = 0
  | TMsg => v mod 8 = 1 \/ v mod 8 = 2
  | TClose => v mod 8 = 3 \/ v mod 8 = 4
  | TReset => v mod 8 = 5 \/ v mod 8 = 6
  end.
Proof.
  unfold tag_of. rewrite land_7. repeat case_match; intros; simplify_eq;
    rewrite ?orb_true_iff, ?Z.eqb_eq in *; done.
Qed.

Lemma handle_close {I : Type} `{!FromStreamId I} (b : bool) (st : State I) (sid : StreamId)
    (data : bytes) :
  exists e, (handle_frame b (mkAccOutput TClose sid data) st).2.2 = OClose (header_of 4 3 sid) e.
Proof. unfold handle_frame. cbn. repeat case_match; eauto. Qed.

(** The header stored for a control frame. It is the header that was on the
    wire, except that an outgoing close or reset is stored with the other
    initiator flag ([3] for [4], [5] for [6] and back), because the header is
    rebuilt from the side of the stream. *)
Theorem mplex_stored_header {I : Type} `{!FromStreamId I} (b : bool) (st : State I) (v : Z)
    (t : Tag) (data : bytes) :
  0 <= v < 2 ^ 64 -> tag_of v = Ret t ->
  match (handle_frame b (mkAccOutput t (stream_of b v) data) st).2.2 with
  | ONew h _ _ => h = v
  | OClose h _ => h = if b then v else if v mod 8 =? 3 then v + 1 else v - 1
  | OReset h => h = if b then v else if v mod 8 =? 5 then v + 1 else v - 1
  | OMsg d _ => d = data
  end.
Proof.
  intros Hv Ht. apply tag_of_inv in Ht.
  assert (P : v mod 2 = v mod 8 mod 2).
  { symmetry. apply Z.mod_mod_divide. by exists 4. }
  destruct t; [| |destruct (handle_close b st (stream_of b v) data) as [e ->]|]; cbn [handle_frame snd ao_stream_id ao_tag]; try done;
    rewrite header_of_spec, P by lia.
  - rewrite Ht. case_match; lia.
  - destruct Ht as [-> | ->]; [change (3 mod 2 =? 0) with false|change (4 mod 2 =? 0) with true];
      destruct b; cbn; lia.
  - destruct Ht as [-> | ->]; [change (5 mod 2 =? 0) with false|change (6 mod 2 =? 0) with true];
      destruct b; cbn; lia.
Qed.

Lemma mplex_stored_header_witness : header_of 4 3 (stream_of false 12) = 11.
Proof.
  exact (mplex_stored_header (I := Sink) false init 12 TClose [] ltac:(lia) eq_refl).
Defined.

(** * Delivery to the streams *)

Definition contents (st : State Sink) (sid : StreamId) : option Sink :=
  status_inner <$> inners st !! sid.

(** The payloads of the messages [process] accepted for one stream. *)
Definition accepted (sid : StreamId) (outs : list Output) : list bytes :=
  omap (fun o => match o with
                 | (sid', OMsg d false) => if decide (sid' = sid) then Some d else None
                 | _ => None
                 end) outs.

(** The database calls of the control frames. *)
Definition control_calls (inc : bool) (outs : list Output) : list db_call :=
  omap (fun o => match o with
                 | (sid, ONew h _ _) | (sid, OClose h _) | (sid, OReset h) =>
                     Some (CallAdd sid inc KMplex (be_encode 8 h))
                 | _ => None
                 end) outs.

(** Every accepted message finds its stream. *)
Definition all_found (outs : list Output) (st : State Sink) : bool :=
  forallb (fun o => match o with
                    | (sid, OMsg _ false) => bool_decide (is_Some (inners st !! sid))
                    | _ => true
                    end) outs.

Lemma accepted_cons (sid : StreamId) (o : Output) (outs : list Output) :
  accepted sid (o :: outs) = accepted sid [o] ++ accepted sid outs.
Proof. unfold accepted. cbn [omap list_omap]. by case_match. Qed.

Lemma all_found_insert (outs : list Output) (st : State Sink) (sid : StreamId) s s' :
  inners st !! sid = Some s ->
  all_found outs (set_inners (<[sid := s']> (inners st)) st) = all_found outs st.
Proof.
  intros Hs. unfold all_found. induction outs as [|[k v] outs IH]; [done|].
  cbn [forallb]. rewrite IH. f_equal. destruct v as [| ? [] | |]; try done.
  apply bool_decide_ext. cbn [inners set_inners]. destruct (decide (k = sid)) as [->|].
  - by rewrite lookup_insert_eq, Hs.
  - by rewrite lookup_insert_ne.
Qed.

Lemma mplex_dispatch_delivers (id : DirectedId) (outs : list Output) (st : State Sink)
    (w : list db_call) :
  if all_found outs st then
    exists st', dispatch id outs st w
                = Ret (st', w ++ control_calls (incoming id) outs, Ok tt) /\
      (forall b, get_acc b st' = get_acc b st) /\
      forall sid, contents st' sid
        = (fun l => l ++ (pair (incoming id) <$> accepted sid outs)) <$> contents st sid
  else dispatch id outs st w = Panic.
Proof.
  revert st w. induction outs as [|[k v] outs IH]; intros st w.
  { cbn. exists st. rewrite app_nil_r. split_and!; try done. intros sid.
    destruct (contents st sid); cbn; by rewrite ?app_nil_r. }
  destruct v as [h nm ex|d []|h e|h]; cbn [dispatch all_found forallb andb].
  1,4,5: specialize (IH st (w ++ [CallAdd k (incoming id) KMplex (be_encode 8 h)]));
    fold (all_found outs st); destruct (all_found outs st);
    [rewrite <- app_assoc in IH|]; exact IH.
  - exact (IH st w).
  - fold (all_found outs st). destruct (inners st !! k) as [s|] eqn:Es; [|done].
    rewrite bool_decide_true by done. cbn [andb].
    specialize (IH (set_inners (<[k := status_set s (status_inner s ++ [(incoming id, d)])]>
                                  (inners st)) st) w).
    rewrite (all_found_insert _ _ _ s) in IH by done.
    destruct (all_found outs st); [|exact IH].
    destruct IH as (st' & E & Ha & Hc). exists st'. split; [exact E|].
    split; [intros []; apply (Ha true) || apply (Ha false)|].
    intros sid. rewrite Hc, (accepted_cons _ (k, _)). unfold contents, accepted at 2.
    cbn [inners set_inners omap list_omap].
    destruct (decide (k = sid)) as [<-|Hne].
    + rewrite lookup_insert_eq, Es. destruct s; cbn; by rewrite <- app_assoc.
    + by rewrite lookup_insert_ne.
Qed.

(** C7: demultiplexing. On a chunk whose frames are well formed, every stream
    receives exactly the payloads of the messages accepted for it, in order and
    marked with the direction, and the control frames are stored in order,
    provided every accepted message still finds its stream in the table once the
    whole chunk was processed. Otherwise [on_data] panics: a message followed in
    the same chunk by the reset of its stream is accepted by [process] and no
    longer found by the loop that delivers it. *)
Theorem mplex_on_data_delivers `{VarintLaws} (id : DirectedId) (data : bytes)
    (st : State Sink) (w : list db_call) (ms : list AccOutput) (r : bytes) :
  parse (mstep (incoming id)) (get_acc (incoming id) st ++ data) = (ms, r, false) ->
  let '(st0, outs) := handle_all (incoming id) ms st in
  if all_found outs st0 then
    exists st', on_data id data st w
                = Ret (st', w ++ control_calls (incoming id) outs, Ok tt) /\
      get_acc (incoming id) st' = r /\
      forall sid, contents st' sid
        = (fun l => l ++ (pair (incoming id) <$> accepted sid outs)) <$> contents st0 sid
  else on_data id data st w = Panic.
Proof.
  intros Hp. unfold on_data at 1 2, mplex_handle. rewrite (process_parse _ _ _ _ _ _ Hp).
  destruct (handle_all (incoming id) ms st) as [st0 outs]. cbn [mbind outcome_bind].
  pose proof (mplex_dispatch_delivers id outs (set_acc (incoming id) r st0) w) as D.
  assert (all_found outs (set_acc (incoming id) r st0) = all_found outs st0) as E.
  { unfold all_found. by rewrite inners_set_acc. }
  rewrite E in D. destruct (all_found outs st0); [|exact D].
  destruct D as (st' & D & Ha & Hc). exists st'. split; [exact D|].
  split; [by rewrite Ha, mplex_get_set_acc|]. intros sid. rewrite Hc. unfold contents.
  by rewrite inners_set_acc.
Qed.

(** A stream opened, a message for it and the reset of the stream, in one
    chunk: the accepted message has no stream any more. *)
Lemma mplex_on_data_delivers_witness :
  @on_data _ _ (@mplex_handle _ _ leb128_varint _ _ _) default_id [0; 0; 2; 1; 7; 6; 0]
           (init : State Sink) [] = Panic /\
  exists st', @on_data _ _ (@mplex_handle _ _ leb128_varint _ _ _) default_id [0; 0; 2; 1; 7]
           (init : State Sink) []
    = Ret (st', [CallAdd (Forward 0) true KMplex (repeat 0 8)], Ok tt) /\
    contents st' (Forward 0) = Some [(true, [7])].
Proof.
  split.
  - exact (@mplex_on_data_delivers leb128_varint leb128_laws default_id [0; 0; 2; 1; 7; 6; 0]
      init [] [mkAccOutput TNew (Forward 0) []; mkAccOutput TMsg (Forward 0) [7];
               mkAccOutput TReset (Forward 0) []] [] eq_refl).
  - destruct (@mplex_on_data_delivers leb128_varint leb128_laws default_id [0; 0; 2; 1; 7]
      init [] [mkAccOutput TNew (Forward 0) []; mkAccOutput TMsg (Forward 0) [7]] [] eq_refl)
      as (st' & E & _ & Hc).
    exists st'. split; [exact E|exact (Hc (Forward 0))].
Defined.

(** * The life of a stream *)

(** What a frame of a stream does to it. *)
Definition life_step {I} `{!FromStreamId I} (inc : bool) (sid : StreamId) (s : option (Status I))
    (t : Tag) : option (Status I) :=
  match t with
  | TNew => Some (Duplex (from_stream_id sid))
  | TMsg => s
  | TClose => match s with
              | Some (Duplex i) => Some (if inc then OutgoingOnly i else IncomingOnly i)
              | _ => None
              end
  | TReset => None
  end.

Definition tags_of (sid : StreamId) (ms : list AccOutput) : list Tag :=
  ao_tag <$> List.filter (fun o => bool_decide (ao_stream_id o = sid)) ms.

(** The payloads of the messages of [sid] that find it open for the direction,
    when it starts as [s]. *)
Fixpoint open_payloads {I} `{!FromStreamId I} (inc : bool) (sid : StreamId) (s : option (Status I))
    (ms : list AccOutput) : list bytes :=
  match ms with
  | [] => []
  | o :: ms =>
      if bool_decide (ao_stream_id o = sid) then
        match ao_tag o with
        | TMsg => (if open_for inc s then [ao_bytes o] else []) ++ open_payloads inc sid s ms
        | t => open_payloads inc sid (life_step inc sid s t) ms
        end
      else open_payloads inc sid s ms
  end.

Lemma handle_frame_stream {I} `{!FromStreamId I} (inc : bool) (o : AccOutput) (st : State I)
    (sid : StreamId) :
  inners (handle_frame inc o st).1 !! sid
  = if decide (ao_stream_id o = sid) then life_step inc sid (inners st !! sid) (ao_tag o)
    else inners st !! sid.
Proof.
  unfold handle_frame, life_step. destruct (decide (ao_stream_id o = sid)) as [<-|Hne].
  - destruct (ao_tag o); cbn; [by rewrite lookup_insert_eq|done| |by rewrite lookup_delete_eq].
    destruct (inners st !! ao_stream_id o) as [[i|i|i]|], inc; cbn;
      by rewrite ?lookup_insert_eq, ?lookup_delete_eq.
  - destruct (ao_tag o); cbn; [by rewrite lookup_insert_ne|done| |by rewrite lookup_delete_ne].
    destruct (inners st !! ao_stream_id o) as [[i|i|i]|], inc; cbn;
      by rewrite ?lookup_insert_ne, ?lookup_delete_ne.
Qed.

Lemma accepted_frame {I} `{!FromStreamId I} (inc : bool) (o : AccOutput) (st : State I)
    (sid : StreamId) :
  accepted sid [(handle_frame inc o st).2]
  = if decide (ao_stream_id o = sid)
    then match ao_tag o with TMsg => if open_for inc (inners st !! sid) then [ao_bytes o] else [] | _ => [] end
    else [].
Proof.
  unfold handle_frame, accepted. destruct (ao_tag o); cbn; [by case_decide| |by repeat case_match|by case_decide].
  destruct (decide (ao_stream_id o = sid)) as [<-|]; destruct (open_for _ _); done.
Qed.

Lemma handle_all_streams {I} `{!FromStreamId I} (inc : bool) (ms : list AccOutput) (st : State I)
    (sid : StreamId) :
  inners (handle_all inc ms st).1 !! sid
  = fold_left (life_step inc sid) (tags_of sid ms) (inners st !! sid) /\
  accepted sid (handle_all inc ms st).2 = open_payloads inc sid (inners st !! sid) ms.
Proof.
  revert st. induction ms as [|o ms IH]; intros st; [done|]. cbn [handle_all open_payloads].
  pose proof (handle_frame_stream inc o st sid) as Hf. pose proof (accepted_frame inc o st sid) as Ha.
  destruct (handle_frame inc o st) as [st1 out]. cbn [fst snd] in *.
  destruct (IH st1) as [IHs IHa]. destruct (handle_all inc ms st1) as [st2 outs].
  cbn [fst snd] in *. rewrite Hf in IHs, IHa. rewrite accepted_cons, Ha, IHa, IHs.
  unfold tags_of. cbn [List.filter]. destruct (decide (ao_stream_id o = sid)) as [E|E].
  - rewrite bool_decide_eq_true_2 by done. split; [done|]. by destruct (ao_tag o).
  - by rewrite bool_decide_eq_false_2 by done.
Qed.

(** Each stream has a life of its own. After the frames of a chunk, the
    entry of a stream is what its own frames made of it in order: a new-stream
    frame opens it with a fresh state, the first close leaves the other direction
    open with the same state, a further close or a reset removes it; and the
    messages accepted for the stream are exactly those that found it open for
    their direction at their place in the chunk. *)
Theorem mplex_stream_life `{VarintLaws} {I : Type} `{!FromStreamId I} (b : bool) (st : State I)
    (data : bytes) (ms : list AccOutput) (r : bytes) (sid : StreamId) :
  parse (mstep b) (get_acc b st ++ data) = (ms, r, false) ->
  exists st' outs, process b st data = Ret (st', outs) /\
    inners st' !! sid = fold_left (life_step b sid) (tags_of sid ms) (inners st !! sid) /\
    accepted sid outs = open_payloads b sid (inners st !! sid) ms.
Proof.
  intros Hp. pose proof (process_parse ms b false st data r Hp) as Hpr. cbn in Hpr.
  destruct (handle_all_streams b ms st sid) as [Hs Ha].
  destruct (handle_all b ms st) as [st1 outs]. cbn [fst snd] in *.
  exists (set_acc b r st1), outs. split; [exact Hpr|]. by destruct b, st1.
Qed.

(** A stream opened, half closed by its opener, and written once more: the
    message before the close is accepted, the one after it is not, and the stream
    keeps its state for the other direction. *)
Lemma mplex_stream_life_witness :
  exists st' outs,
    @process Sink leb128_varint _ true (init : State Sink) [0; 0; 2; 1; 7; 4; 0; 2; 1; 8]
      = Ret (st', outs) /\
    inners st' !! Forward 0 = Some (OutgoingOnly []) /\ accepted (Forward 0) outs = [[7]].
Proof.
  destruct (@mplex_stream_life leb128_varint leb128_laws Sink _ true init
    [0; 0; 2; 1; 7; 4; 0; 2; 1; 8]
    [mkAccOutput TNew (Forward 0) []; mkAccOutput TMsg (Forward 0) [7];
     mkAccOutput TClose (Forward 0) []; mkAccOutput TMsg (Forward 0) [8]] [] (Forward 0) eq_refl)
    as (st' & outs & E & Hs & Ha).
  exists st', outs. split; [exact E|split; [exact Hs|exact Ha]].
Defined.
