(* ===== verification/Accumulator.v ===== *)
(** The message accumulator the RPC and pubsub streams share
    ([mina-recorder/src/connection/accumulator.rs]): length-prefixed messages
    cut out of a byte stream, with a read position so that several messages of
    one chunk are taken without copying the rest. *)

From stdpp Require Import base list.
From Stdlib Require Import ZArith Lia.
From S2P Require Import Prelude Framing.

(** The argument [decode_size]: the size of the length information and of the
    message, or [None] when the bytes hold too little. *)
Abbreviation decode_size_fn := (bytes -> option (Z * Z)).

Record State : Type := mkState { pos : Z; acc : bytes }.

Definition init : State := mkState 0 [].

(** Additions on [usize] wrap. *)
Definition msg_size (l0 l1 : Z) : Z := wrap 64 (l0 + l1).

(** [State::extend]; [false] when [data] is exactly one message. *)
Definition extend (decode_size : decode_size_fn) (data : bytes) (st : State) : State * bool :=
  let whole :=
    match acc st with
    | [] =>
        match decode_size data with
        | Some (l0, l1) => msg_size l0 l1 =? blen data
        | None => false
        end
    | _ :: _ => false
    end in
  if whole then (st, false) else (mkState (pos st) (acc st ++ data), true).

(** [State::drop_buffer] *)
Definition drop_buffer (st : State) : outcome State :=
  rest ← slice_from (pos st) (acc st); Ret (mkState 0 rest).

(** [State::next_msg] *)
Definition next_msg (decode_size : decode_size_fn) (st : State) : outcome (State * option bytes) :=
  if (blen (acc st) =? 0) || (blen (acc st) =? pos st) then
    st ← drop_buffer st; Ret (st, None)
  else
    data ← slice_from (pos st) (acc st);
    match decode_size data with
    | None => Ret (st, None)
    | Some (l0, l1) =>
        if msg_size l0 l1 <=? blen data then
          let new_pos := wrap 64 (wrap 64 (blen (acc st) - blen data + l0) + l1) in
          if pos st =? new_pos then
            st ← drop_buffer st; Ret (st, None)
          else
            s ← slice (pos st) new_pos (acc st);
            Ret (mkState new_pos (acc st), Some s)
        else
          st ← drop_buffer st; Ret (st, None)
    end.

(** [while let Some(msg) = st.next_msg()]: the messages handed out. *)
Fixpoint drain (decode_size : decode_size_fn) (fuel : nat) (st : State)
    : outcome (State * list bytes) :=
  match fuel with
  | O => OutOfFuel
  | S fuel =>
      '(st, m) ← next_msg decode_size st;
      match m with
      | None => Ret (st, [])
      | Some m => '(st, ms) ← drain decode_size fuel st; Ret (st, m :: ms)
      end
  end.

(** What a stream does with a chunk: deliver it at once, or buffer it and
    deliver what became complete. *)
Definition on_chunk (decode_size : decode_size_fn) (data : bytes) (st : State)
    : outcome (State * list bytes) :=
  let '(st, buffered) := extend decode_size data st in
  if buffered then drain decode_size (S (length (acc st))) st else Ret (st, [data]).

Fixpoint on_chunks (decode_size : decode_size_fn) (chunks : list bytes) (st : State)
    : outcome (State * list bytes) :=
  match chunks with
  | [] => Ret (st, [])
  | c :: cs =>
      '(st, ms) ← on_chunk decode_size c st;
      '(st, ms') ← on_chunks decode_size cs st;
      Ret (st, ms ++ ms')
  end.

(** * The invariant and the bytes still to be delivered *)

(** The position is inside the buffer, and the buffer fits in memory. *)
Definition wf (st : State) : Prop := 0 <= pos st <= blen (acc st) /\ blen (acc st) < 2 ^ 64.

Definition pending (st : State) : bytes := drop (Z.to_nat (pos st)) (acc st).

(** The message at the front of the buffered bytes. *)
Definition astep (decode_size : decode_size_fn) (l : bytes) : verdict bytes :=
  match decode_size l with
  | None => Need
  | Some (l0, l1) =>
      let s := msg_size l0 l1 in
      if (s <=? blen l) && negb (s =? 0)
      then Frame (take (Z.to_nat s) l) (drop (Z.to_nat s) l) else Need
  end.

(** What the code relies on of a length decoder: once it has an answer it keeps
    it when bytes are appended, and it needs at least one byte. *)
Class SizeDecoder (decode_size : decode_size_fn) : Prop := {
  size_stable : forall l x p, decode_size l = Some p -> decode_size (l ++ x) = Some p;
  size_nil : decode_size [] = None;
}.

Section Accumulator.
Context (decode_size : decode_size_fn) `{!SizeDecoder decode_size}.

#[export] Instance astep_framer : Framer (astep decode_size).
Proof.
  split; unfold astep.
  - intros l m r. destruct (decode_size l) as [[l0 l1]|]; [|done]. case_match; [|done].
    intros [= <- <-]. to_prop. rewrite length_drop.
    pose proof (wrap_bound 64 (l0 + l1)). unfold msg_size, blen in *.
    destruct (Z.eqb_spec (wrap 64 (l0 + l1)) 0); cbn in *; [done|]. lia.
  - intros l m r x. destruct (decode_size l) as [[l0 l1]|] eqn:E; [|done].
    rewrite (size_stable _ x _ E). case_match; [|done]. intros [= <- <-]. to_prop.
    rewrite (proj2 (Z.leb_le _ _)) by len_lia. cbn. rewrite H0.
    by rewrite take_app_within, drop_app_within by lia.
  - intros l x. repeat case_match; done.
Qed.

Lemma wf_pending (st : State) : wf st -> blen (pending st) = blen (acc st) - pos st.
Proof. intros [??]. apply blen_drop. lia. Qed.

Lemma drop_buffer_spec (st : State) :
  wf st -> drop_buffer st = Ret (mkState 0 (pending st)) /\ wf (mkState 0 (pending st)).
Proof.
  intros Hw. pose proof (wf_pending st Hw). unfold drop_buffer, wf in *. cbn.
  rewrite slice_from_within by lia. split; [done|lia].
Qed.

Lemma new_pos_spec (p l0 l1 : Z) (n : Z) :
  0 <= p -> p + msg_size l0 l1 <= n -> n < 2 ^ 64 ->
  wrap 64 (wrap 64 (p + l0) + l1) = p + msg_size l0 l1.
Proof.
  intros Hp Hn H64. unfold msg_size, wrap in *.
  rewrite Zplus_mod_idemp_l, <- Z.add_assoc, <- Zplus_mod_idemp_r.
  apply Z.mod_small. pose proof (Z.mod_pos_bound (l0 + l1) (2 ^ 64)). lia.
Qed.

(** [next_msg] hands out the front message of the pending bytes and never
    panics; otherwise it keeps them, and an exhausted buffer is released. *)
Lemma next_msg_spec (st : State) :
  wf st ->
  match astep decode_size (pending st) with
  | Frame m r => exists st', next_msg decode_size st = Ret (st', Some m) /\
                   wf st' /\ pending st' = r /\ acc st' = acc st
  | _ => exists st', next_msg decode_size st = Ret (st', None) /\
                   wf st' /\ pending st' = pending st /\
                   (pending st' = [] -> acc st' = []) /\ blen (acc st') <= blen (acc st)
  end.
Proof.
  intros Hw. pose proof (wf_pending st Hw) as Hl.
  destruct (drop_buffer_spec st Hw) as [Ed Hd]. unfold next_msg, astep. rewrite Ed.
  assert (K : exists st', Ret (mkState 0 (pending st), @None bytes) = Ret (st', None) /\
     wf st' /\ pending st' = pending st /\ (pending st' = [] -> acc st' = []) /\
     blen (acc st') <= blen (acc st)).
  { exists (mkState 0 (pending st)). destruct Hw. split_and!; try done. cbn. lia. }
  destruct Hw as [Hp H64].
  destruct ((blen (acc st) =? 0) || (blen (acc st) =? pos st)) eqn:E0.
  { rewrite orb_true_iff, !Z.eqb_eq in E0.
    rewrite (blen_0_inv (pending st)) in * by lia. by rewrite size_nil. }
  rewrite orb_false_iff, !Z.eqb_neq in E0.
  rewrite slice_from_within by lia. cbn. fold (pending st).
  destruct (decode_size (pending st)) as [[l0 l1]|] eqn:Es; cbn.
  2: { exists st. split_and!; try done. intros E. rewrite E, blen_nil in Hl. lia. }
  destruct (Z.leb_spec (msg_size l0 l1) (blen (pending st))) as [Hle|]; cbn; [|done].
  rewrite Hl in Hle |- *.
  replace (blen (acc st) - (blen (acc st) - pos st)) with (pos st) by lia.
  rewrite (new_pos_spec _ _ _ (blen (acc st))) by lia.
  destruct (Z.eqb_spec (msg_size l0 l1) 0) as [Hz|Hz]; cbn.
  { rewrite Hz, (proj2 (Z.eqb_eq _ _)) by lia. done. }
  pose proof (wrap_bound 64 (l0 + l1)). fold (msg_size l0 l1) in *.
  rewrite (proj2 (Z.eqb_neq _ _)), slice_within by lia. cbn.
  eexists. split_and!.
  - do 4 f_equal. lia.
  - unfold wf. cbn. lia.
  - unfold pending. cbn. rewrite drop_drop. f_equal. lia.
  - done.
Qed.

Lemma drain_spec (fuel : nat) (st : State) (ms : list bytes) (r : bytes) (bad : bool) :
  wf st -> parse (astep decode_size) (pending st) = (ms, r, bad) -> (length ms < fuel)%nat ->
  exists st', drain decode_size fuel st = Ret (st', ms) /\ wf st' /\ pending st' = r /\
    (r = [] -> acc st' = []) /\ blen (acc st') <= blen (acc st).
Proof.
  revert st ms. induction fuel as [|fuel IH]; intros st ms Hw Hp Hf; [lia|].
  cbn [drain]. pose proof (next_msg_spec st Hw) as Hn.
  destruct ms as [|m ms]; apply (parse_inv (astep decode_size)) in Hp.
  - destruct Hp as [-> Hp]. rewrite Hp in Hn. destruct bad;
      destruct Hn as (st' & -> & Hw' & Hp' & He & Hl); exists st';
      split_and!; try done; intros E; apply He; congruence.
  - destruct Hp as (r' & Hs & Hp). rewrite Hs in Hn.
    destruct Hn as (st' & -> & Hw' & Hp' & He). cbn.
    destruct (IH st' ms Hw') as (st2 & -> & Hw2 & Hp2 & He2 & Hl); [by rewrite Hp'|cbn in Hf; lia|].
    exists st2. split_and!; try done. by rewrite <- He.
Qed.

(** A chunk that is exactly one message of an empty accumulator. *)
Lemma extend_whole (data : bytes) (st : State) :
  (extend decode_size data st).2 = false ->
  extend decode_size data st = (st, false) /\ acc st = [] /\
  parse (astep decode_size) data = ([data], [], false).
Proof.
  unfold extend. destruct (acc st) as [|a l]; [|done].
  destruct (decode_size data) as [[l0 l1]|] eqn:Es; [|done].
  destruct (Z.eqb_spec (msg_size l0 l1) (blen data)) as [E|E]; [|done]. intros _.
  split_and!; try done. rewrite (parse_unfold (astep decode_size)). unfold astep at 1.
  rewrite Es, E, Z.leb_refl. destruct (Z.eqb_spec (blen data) 0) as [E0|E0].
  - rewrite (blen_0_inv data) in Es by lia. by rewrite size_nil in Es.
  - cbn [negb andb]. rewrite take_blen, drop_blen.
    rewrite (parse_need (astep decode_size)); [done|]. unfold astep. by rewrite size_nil.
Qed.

(** A chunk that is buffered is appended to the pending bytes. *)
Lemma extend_buffered (data : bytes) (st st' : State) :
  wf st -> blen (acc st) + blen data < 2 ^ 64 -> extend decode_size data st = (st', true) ->
  wf st' /\ pending st' = pending st ++ data /\ acc st' = acc st ++ data.
Proof.
  intros [Hp H64] Hl E.
  assert (st' = mkState (pos st) (acc st ++ data)) as ->
    by (unfold extend in E; repeat case_match; congruence).
  unfold wf, pending. cbn [acc pos]. pose proof (blen_nonneg data).
  rewrite blen_app, drop_app_within by lia. split_and!; lia || done.
Qed.

Lemma on_chunk_spec (data : bytes) (st : State) (ms : list bytes) (r : bytes) (bad : bool) :
  wf st -> blen (acc st) + blen data < 2 ^ 64 ->
  parse (astep decode_size) (pending st ++ data) = (ms, r, bad) ->
  exists st', on_chunk decode_size data st = Ret (st', ms) /\ wf st' /\ pending st' = r /\
    blen (acc st') <= blen (acc st) + blen data.
Proof.
  intros Hw Hl Hp. unfold on_chunk.
  destruct (extend decode_size data st) as [st1 []] eqn:E.
  - destruct (extend_buffered data st st1 Hw Hl E) as (Hw1 & Hp1 & Ha1). rewrite <- Hp1 in Hp.
    destruct (drain_spec (S (length (acc st1))) st1 ms r bad Hw1 Hp)
      as (st' & -> & Hw' & Hp' & _ & Hl').
    + apply (parse_length (astep decode_size)) in Hp. unfold pending in Hp.
      rewrite length_drop in Hp. lia.
    + exists st'. rewrite Ha1, blen_app in Hl'. done.
  - destruct (extend_whole data st) as (E' & Ea & Ew); [by rewrite E|].
    rewrite E' in E. injection E as <-. unfold pending in *. rewrite Ea, drop_nil in *.
    cbn in Hp. rewrite Ew in Hp. injection Hp as <- <- <-.
    exists st. split_and!; try done; rewrite Ea; [by rewrite drop_nil|]. len_lia.
Qed.

End Accumulator.

(** C8: wherever the stream of an RPC or pubsub stream is cut, the accumulator
    hands out exactly the length-prefixed messages of the whole stream, in
    order, whichever mix of direct delivery and buffering the cut leads to, and
    what is left is the incomplete tail. No call panics and every drain ends. *)
Theorem accumulator_chunks (decode_size : decode_size_fn) `{!SizeDecoder decode_size}
    (chunks : list bytes) (ms : list bytes) (r : bytes) (bad : bool) :
  blen (concat chunks) < 2 ^ 64 ->
  parse (astep decode_size) (concat chunks) = (ms, r, bad) ->
  exists st', on_chunks decode_size chunks init = Ret (st', ms) /\ wf st' /\ pending st' = r.
Proof.
  cut (forall st, wf st -> blen (acc st) + blen (concat chunks) < 2 ^ 64 ->
         astep decode_size (pending st) = Need ->
         parse (astep decode_size) (pending st ++ concat chunks) = (ms, r, bad) ->
         exists st', on_chunks decode_size chunks st = Ret (st', ms) /\ wf st' /\ pending st' = r).
  { intros K Hl Hp. apply K; try done; unfold astep, pending; cbn; by rewrite ?size_nil. }
  revert ms. induction chunks as [|c cs IH]; intros ms st Hw Hl Hn Hp; cbn [concat on_chunks] in *.
  - rewrite app_nil_r, (parse_need (astep decode_size)) in Hp by done.
    injection Hp as <- <- <-. eauto.
  - rewrite app_assoc in Hp. rewrite blen_app in Hl.
    destruct (parse (astep decode_size) (pending st ++ c)) as [[ms0 r0] bad0] eqn:E0.
    pose proof (parse_rest (astep decode_size) _ _ _ _ E0) as Hr.
    assert (bad0 = false) as ->.
    { destruct bad0; [|done]. unfold astep in Hr. repeat case_match; done. }
    destruct (on_chunk_spec decode_size c st ms0 r0 false Hw) as (st1 & -> & Hw1 & Hp1 & Hl1);
      [pose proof (blen_nonneg (concat cs)); lia|done|].
    rewrite (parse_app (astep decode_size) _ _ _ _ E0) in Hp.
    destruct (parse (astep decode_size) (r0 ++ concat cs)) as [[ms1 r1] bad1] eqn:E1.
    injection Hp as <- <- <-.
    destruct (IH ms1 st1) as (st2 & E2 & Hw2 & Hp2); rewrite ?Hp1; try done; [lia|].
    cbn. rewrite E2. eauto.
Qed.

(** The length prefix of an RPC message: eight bytes, little endian. *)
Definition u64_le_size (l : bytes) : option (Z * Z) :=
  if 8 <=? blen l then Some (8, le_decode (take 8 l)) else None.

#[export] Instance u64_le_size_decoder : SizeDecoder u64_le_size.
Proof.
  split; [|done]. intros l x p. unfold u64_le_size. case_match eqn:E; [|done]. to_prop.
  rewrite (proj2 (Z.leb_le _ _)) by len_lia.
  change 8%nat with (Z.to_nat 8). by rewrite take_app_within by lia.
Qed.

(** Two messages of two and one bytes cut inside the second length. *)
Lemma accumulator_chunks_witness :
  exists st', on_chunks u64_le_size
    [[2; 0; 0; 0; 0; 0; 0; 0; 5; 6; 1; 0]; [0; 0; 0; 0; 0; 0; 7; 9]; []] init
  = Ret (st', [[2; 0; 0; 0; 0; 0; 0; 0; 5; 6]; [1; 0; 0; 0; 0; 0; 0; 0; 7]]) /\
    wf st' /\ pending st' = [9].
Proof.
  apply (accumulator_chunks u64_le_size
    [[2; 0; 0; 0; 0; 0; 0; 0; 5; 6; 1; 0]; [0; 0; 0; 0; 0; 0; 7; 9]; []] _ _ false); reflexivity.
Defined.
