(* ===== verification/MinaProtocol.v ===== *)
(** The application streams ([mina-recorder/src/connection/mina_protocol]): the
    RPC layer, which pairs responses with the queries they answer, the pubsub
    layer, and the dispatch by protocol name; and the reader of stored RPC
    messages ([decode/rpc.rs], [parse_types]). *)

From stdpp Require Import base list gmap strings.
From Stdlib Require Import ZArith Lia.
From S2P Require Import Prelude Types Framing Handle Accumulator.

(** * What the code uses of [mina_p2p_messages] *)

Record QueryHeader : Type := mkQuery { q_tag : bytes; q_version : Z; q_id : Z }.

Inductive MessageHeader : Type :=
| Heartbeat
| Query (q : QueryHeader)
| Response (id : Z).

(** [utils::stream_decode_size] (the number and the bytes consumed),
    [MessageHeader::binprot_read] (with the bytes consumed),
    [QueryHeader::binprot_read] and [binprot_write], [Nat0::binprot_read], and
    [CharString::to_string_lossy]. *)
Class Binprot : Type := {
  stream_decode_size : bytes -> option (Z * Z);
  read_message_header : bytes -> option (MessageHeader * Z);
  read_query : bytes -> option (QueryHeader * bytes);
  write_query : QueryHeader -> bytes;
  read_nat0 : bytes -> option (Z * bytes);
  to_string_lossy : bytes -> bytes;
}.

(** What the Rust types guarantee of a query header. *)
Definition wf_query (q : QueryHeader) : Prop :=
  blen (q_tag q) < 2 ^ 63 /\ - 2 ^ 31 <= q_version q < 2 ^ 31 /\ - 2 ^ 63 <= q_id q < 2 ^ 63.

(** The documented behaviour: the length is a little-endian [u64]; what is
    written is read back; a number below 128 is one byte; a position is a [u64]. *)
Class BinprotLaws `{Binprot} : Prop := {
  decode_size_le : forall l, stream_decode_size l
    = if 8 <=? blen l then Some (le_decode (take 8 l), 8) else None;
  query_roundtrip : forall q x, wf_query q -> read_query (write_query q ++ x) = Some (q, x);
  nat0_small : forall n x, 0 <= n < 128 -> read_nat0 (n :: x) = Some (n, x);
  header_position : forall l h p, read_message_header l = Some (h, p) -> 0 <= p;
}.

(** * RPC streams ([rpc.rs]) *)

Module RpcStream.

Record Header : Type := mkHeader { tag : bytes; version : Z }.

Record State : Type := mkState {
  acc : Accumulator.State;
  pending : gmap Z Header;
}.

Definition init : State := mkState Accumulator.init ∅.

Inductive Error : Type :=
| ResponseWithoutRequest (id : Z)
| DecodeSize
| WriteQueryHeader.

Section Rpc.
Context `{Binprot}.

Definition decode_size (data : bytes) : option (Z * Z) :=
  match stream_decode_size data with
  | Some (l1, l0) => Some (l0, l1)
  | None => None
  end.

Definition post_process (data : bytes) (p : gmap Z Header)
    : outcome (gmap Z Header * result (option bytes) Error) :=
  match decode_size data with
  | None => Ret (p, Err DecodeSize)
  | Some (l0, _) =>
      body ← slice_from l0 data;
      match read_message_header body with
      | None => Ret (p, Ok None)
      | Some (Heartbeat, _) => Ret (p, Ok None)
      | Some (Query (mkQuery tag version id), _) =>
          Ret (<[id := mkHeader tag version]> p, Ok (Some data))
      | Some (Response id, position) =>
          match p !! id with
          | Some (mkHeader tag version) =>
              let p := delete id p in
              let b := repeat 0 8 ++ [2] ++ write_query (mkQuery tag version id) in
              let len := Z.min position (blen body) in
              remaining ← slice_from len body;
              let b := b ++ remaining in
              let new_len := wrap 64 (blen b - l0) in
              Ret (p, Ok (Some (le_encode 8 new_len ++ drop 8 b)))
          | None =>
              if negb (id =? 4411474) then Ret (p, Err (ResponseWithoutRequest id))
              else Ret (p, Ok None)
          end
      end
  end.

Definition extend (data : bytes) (st : State) : outcome (State * result (option bytes) Error) :=
  let '(a, buffered) := Accumulator.extend decode_size data (acc st) in
  if buffered then Ret (mkState a (pending st), Ok None)
  else '(p, r) ← post_process data (pending st); Ret (mkState a p, r).

Definition next_msg (st : State) : outcome (State * result (option bytes) Error) :=
  '(a, m) ← Accumulator.next_msg decode_size (acc st);
  match m with
  | None => Ret (mkState a (pending st), Ok None)
  | Some msg => '(p, r) ← post_process msg (pending st); Ret (mkState a p, r)
  end.

End Rpc.
End RpcStream.

(** * Pubsub streams ([meshsub.rs]) *)

(** [prost::decode_length_delimiter]: the length and the remaining bytes. *)
Class Prost : Type := decode_length_delimiter : bytes -> option (Z * bytes).

Module MeshsubStream.

Definition decode_size `{Prost} (data : bytes) : option (Z * Z) :=
  match decode_length_delimiter data with
  | Some (l1, rest) => Some (blen data - blen rest, l1)
  | None => None
  end.

End MeshsubStream.

(** * The application layer ([mod.rs]) *)

(** [meshsub_sink]: stores the message and updates the statistics; its panics
    are the [unwrap]s on the statistics writes. *)
Class MeshsubSink (W : Type) : Type :=
  meshsub_sink : DirectedId -> StreamId -> bytes -> W -> outcome W.

Record State : Type := mkState {
  stream_id : StreamId;
  kind : StreamKind;
  rpc_state : option RpcStream.State;
  meshsub_state : option Accumulator.State;
}.

#[export] Instance mina_from_name : DynamicProtocol State := fun name sid =>
  let kind := StreamKind_from_str name in
  Ret (mkState sid kind
    (match kind with Rpc => Some RpcStream.init | _ => None end)
    (match kind with Meshsub => Some Accumulator.init | _ => None end)).

Section OnData.
Context {W : Type} `{!Binprot, !Prost, !DbGroup W, !MeshsubSink W}.

(** Errors of the database are logged. *)
Definition add_logged (sid : StreamId) (id : DirectedId) (k : StreamKind) (msg : bytes) (w : W) : W :=
  (db_stream_add sid id k msg w).1.

(** The loop over [next_msg]: an error is logged and the loop goes on; it ends
    at the first [Ok(None)]. *)
Fixpoint rpc_loop (fuel : nat) (sid : StreamId) (k : StreamKind) (id : DirectedId)
    (st : RpcStream.State) (w : W) : outcome (RpcStream.State * W) :=
  match fuel with
  | O => OutOfFuel
  | S fuel =>
      '(st, r) ← RpcStream.next_msg st;
      match r with
      | Err _ => rpc_loop fuel sid k id st w
      | Ok None => Ret (st, w)
      | Ok (Some msg) => rpc_loop fuel sid k id st (add_logged sid id k msg w)
      end
  end.

Definition rpc_on_data (sid : StreamId) (k : StreamKind) (id : DirectedId) (data : bytes)
    (st : RpcStream.State) (w : W) : outcome (RpcStream.State * W) :=
  '(st, r) ← RpcStream.extend data st;
  match r with
  | Err _ => Ret (st, w)
  | Ok None => rpc_loop (S (length (Accumulator.acc (RpcStream.acc st)))) sid k id st w
  | Ok (Some msg) => Ret (st, add_logged sid id k msg w)
  end.

Fixpoint meshsub_loop (fuel : nat) (sid : StreamId) (id : DirectedId)
    (st : Accumulator.State) (w : W) : outcome (Accumulator.State * W) :=
  match fuel with
  | O => OutOfFuel
  | S fuel =>
      '(st, m) ← Accumulator.next_msg MeshsubStream.decode_size st;
      match m with
      | None => Ret (st, w)
      | Some slice => w ← meshsub_sink id sid slice w; meshsub_loop fuel sid id st w
      end
  end.

Definition meshsub_on_data (sid : StreamId) (id : DirectedId) (data : bytes)
    (st : Accumulator.State) (w : W) : outcome (Accumulator.State * W) :=
  let '(st, buffered) := Accumulator.extend MeshsubStream.decode_size data st in
  if buffered then meshsub_loop (S (length (Accumulator.acc st))) sid id st w
  else w ← meshsub_sink id sid data w; Ret (st, w).

#[export] Instance mina_handle : HandleData W State := fun id data st w =>
  let sid := stream_id st in
  '(st, w, r) ←
    (match kind st with
     | Rpc =>
         match rpc_state st with
         | None => Panic
         | Some s =>
             '(s, w) ← rpc_on_data sid (kind st) id data s w;
             Ret (mkState sid (kind st) (Some s) (meshsub_state st), w, Ok tt)
         end
     | Meshsub =>
         match meshsub_state st with
         | None => Panic
         | Some s =>
             '(s, w) ← meshsub_on_data sid id data s w;
             Ret (mkState sid (kind st) (rpc_state st) (Some s), w, Ok tt)
         end
     | k =>
         let '(w, r) := db_stream_add sid id k data w in
         Ret (st, w, match r with Ok _ => Ok tt | Err e => Err e end)
     end : outcome (State * W * DbResult unit));
  match r with
  | Err e => Ret (st, w, Err e)
  | Ok _ =>
      let '(w, r) := db_update (mkStats 0 0 0 1) (incoming id) w in Ret (st, w, r)
  end.

End OnData.

(** * Reading stored RPC messages ([decode/rpc.rs]) *)

(** [parse_types]: the type of a stored message, from the tag of its header. *)
Definition rpc_parse_types `{Binprot} (data : bytes) : option (list MessageType) :=
  match stream_decode_size data with
  | None => None
  | Some (_, l0) =>
      match read_nat0 (drop (Z.to_nat l0) data) with
      | None => None
      | Some (_, rest) =>
          match read_query rest with
          | None => None
          | Some (q, _) => Some (option_list (MessageType_from_str (to_string_lossy (q_tag q))))
          end
      end
  end.

(** * Properties of the RPC layer *)

Section RpcProperties.
Context `{BinprotLaws}.

Lemma rpc_decode_size (l : bytes) : RpcStream.decode_size l = u64_le_size l.
Proof. unfold RpcStream.decode_size, u64_le_size. rewrite decode_size_le. by destruct (8 <=? blen l). Qed.

#[export] Instance rpc_size_decoder : SizeDecoder RpcStream.decode_size.
Proof.
  split; [|by rewrite rpc_decode_size].
  intros l x p. rewrite !rpc_decode_size. apply size_stable.
Qed.

(** Every message is processed: the header is read inside the message. *)
Lemma post_process_returns (data : bytes) (p : gmap Z RpcStream.Header) :
  exists p' r, RpcStream.post_process data p = Ret (p', r).
Proof.
  unfold RpcStream.post_process. rewrite rpc_decode_size. unfold u64_le_size.
  destruct (Z.leb_spec 8 (blen data)); [|eauto].
  rewrite slice_from_within by lia. cbn [mbind outcome_bind].
  set (body := drop (Z.to_nat 8) data). pose proof (blen_nonneg body).
  destruct (read_message_header body) as [[[|[tag ver id]|id] position]|] eqn:Eh; eauto.
  apply header_position in Eh. destruct (p !! id) as [[tag ver]|].
  - rewrite slice_from_within by lia. cbn. eauto.
  - destruct (negb _); eauto.
Qed.

(** What the loop does with the complete messages [ms]: the messages it stores,
    the queries still unanswered, and the messages it leaves in the buffer. *)
Fixpoint rpc_frames (ms : list bytes) (p : gmap Z RpcStream.Header)
    : list bytes * gmap Z RpcStream.Header * list bytes :=
  match ms with
  | [] => ([], p, [])
  | m :: ms =>
      match RpcStream.post_process m p with
      | Ret (p, Err _) => rpc_frames ms p
      | Ret (p, Ok (Some b)) => let '(bs, p, rest) := rpc_frames ms p in (b :: bs, p, rest)
      | Ret (p, Ok None) => ([], p, ms)
      | _ => ([], p, ms)
      end
  end.

Lemma astep_frame (decode_size : decode_size_fn) (l m r : bytes) :
  astep decode_size l = Frame m r -> l = m ++ r.
Proof.
  unfold astep. destruct (decode_size l) as [[l0 l1]|]; [|done]. case_match; [|done].
  intros [= <- <-]. by rewrite take_drop.
Qed.

Lemma parse_astep_concat (ms : list bytes) (l r : bytes) (bad : bool) :
  parse (astep RpcStream.decode_size) l = (ms, r, bad) -> l = concat ms ++ r.
Proof.
  revert l. induction ms as [|m ms IH]; intros l Hp;
    apply (parse_inv (astep RpcStream.decode_size)) in Hp.
  - by destruct Hp as [-> _].
  - destruct Hp as (r' & Es & Ep). apply astep_frame in Es as ->. cbn.
    by rewrite <- app_assoc, <- (IH _ Ep).
Qed.

End RpcProperties.

Section RpcLoop.
Context `{BinprotLaws}.

(** The stored messages as database calls. *)
Definition stored_calls (sid : StreamId) (k : StreamKind) (inc : bool) (bs : list bytes)
    : list db_call := CallAdd sid inc k <$> bs.

(** The loop processes the complete messages of the buffer in order, up to the
    first one that yields nothing. *)
Lemma rpc_loop_spec (ms : list bytes) (sid : StreamId) (k : StreamKind) (id : DirectedId)
    (fuel : nat) (st : RpcStream.State) (w : list db_call) (r : bytes) (bad : bool) :
  wf (RpcStream.acc st) ->
  parse (astep RpcStream.decode_size) (pending (RpcStream.acc st)) = (ms, r, bad) ->
  (length ms < fuel)%nat ->
  let '(bs, p, rest) := rpc_frames ms (RpcStream.pending st) in
  exists a, rpc_loop fuel sid k id st w
            = Ret (RpcStream.mkState a p, w ++ stored_calls sid k (incoming id) bs) /\
    wf a /\ pending a = concat rest ++ r /\ blen (acc a) <= blen (acc (RpcStream.acc st)).
Proof.
  revert st w fuel. induction ms as [|m ms IH]; intros st w fuel Hw Hp Hf;
    (destruct fuel as [|fuel]; [cbn in Hf; lia|]);
    pose proof (next_msg_spec RpcStream.decode_size (RpcStream.acc st) Hw) as Hn;
    cbn [rpc_loop rpc_frames]; unfold RpcStream.next_msg;
    apply (parse_inv (astep RpcStream.decode_size)) in Hp.
  - destruct Hp as [-> Hp]. rewrite Hp in Hn.
    assert (Hx : exists st', next_msg RpcStream.decode_size (RpcStream.acc st) = Ret (st', None) /\
      wf st' /\ pending st' = pending (RpcStream.acc st) /\
      (pending st' = [] -> acc st' = []) /\ blen (acc st') <= blen (acc (RpcStream.acc st)))
      by (by destruct bad).
    destruct Hx as (a & -> & Hw' & Hp' & _ & Hl). cbn. exists a. by rewrite app_nil_r.
  - destruct Hp as (r' & Es & Ep). rewrite Es in Hn.
    destruct Hn as (a & -> & Hw' & Hp' & Ha). cbn [mbind outcome_bind].
    destruct (post_process_returns m (RpcStream.pending st)) as (p' & o & Eo).
    rewrite Eo. cbn [mbind outcome_bind]. rewrite <- Ha.
    assert (Hp2 : parse (astep RpcStream.decode_size) (pending (RpcStream.acc (RpcStream.mkState a p')))
      = (ms, r, bad)) by (cbn [RpcStream.acc]; by rewrite Hp').
    destruct o as [[b|]|e].
    + specialize (IH (RpcStream.mkState a p') (add_logged sid id k b w) fuel Hw' Hp2).
      cbn [RpcStream.pending RpcStream.acc] in IH.
      destruct (rpc_frames ms p') as [[bs p''] rest].
      destruct IH as (a' & E & ?); [cbn in Hf; lia|]. exists a'. rewrite E.
      split; [|done]. unfold add_logged. cbn. by rewrite <- app_assoc.
    + exists a. cbn. rewrite app_nil_r, Hp'. split_and!; try done.
      by apply parse_astep_concat in Ep.
    + specialize (IH (RpcStream.mkState a p') w fuel Hw' Hp2).
      cbn [RpcStream.pending RpcStream.acc] in IH.
      destruct (rpc_frames ms p') as [[bs p''] rest]. apply IH. cbn in Hf; lia.
Qed.

End RpcLoop.


Lemma u64_le_size_prefix (n : Z) (x : bytes) :
  0 <= n < 2 ^ 64 -> u64_le_size (le_encode 8 n ++ x) = Some (8, n).
Proof.
  intros Hn. unfold u64_le_size. pose proof (length_le_encode 8 n) as L.
  rewrite (proj2 (Z.leb_le _ _)) by (unfold blen; rewrite length_app, L; lia).
  rewrite take_app_le, take_ge by lia. by rewrite le_decode_encode.
Qed.

Lemma post_process_query `{BinprotLaws} (msg : bytes) (p : gmap Z RpcStream.Header)
    (q : QueryHeader) (position : Z) :
  8 <= blen msg -> read_message_header (drop 8 msg) = Some (Query q, position) ->
  RpcStream.post_process msg p
  = Ret (<[q_id q := RpcStream.mkHeader (q_tag q) (q_version q)]> p, Ok (Some msg)).
Proof.
  intros Hl Hh. unfold RpcStream.post_process. rewrite rpc_decode_size. unfold u64_le_size.
  rewrite (proj2 (Z.leb_le _ _)), slice_from_within by lia. cbn [mbind outcome_bind].
  change (Z.to_nat 8) with 8%nat. rewrite Hh. by destruct q.
Qed.

Lemma post_process_response `{BinprotLaws} (msg : bytes) (p : gmap Z RpcStream.Header)
    (q : QueryHeader) (position : Z) :
  8 <= blen msg -> read_message_header (drop 8 msg) = Some (Response (q_id q), position) ->
  position <= blen msg - 8 -> blen msg + blen (write_query q) < 2 ^ 64 ->
  p !! q_id q = Some (RpcStream.mkHeader (q_tag q) (q_version q)) ->
  let body := [2] ++ write_query q ++ drop (Z.to_nat position) (drop 8 msg) in
  RpcStream.post_process msg p
  = Ret (delete (q_id q) p, Ok (Some (le_encode 8 (blen body) ++ body))).
Proof.
  intros Hl Hh Hpos Hsz Hq body. pose proof (header_position _ _ _ Hh) as H0p.
  assert (Hb : blen (drop 8 msg) = blen msg - 8) by (apply (blen_drop 8); lia).
  assert (Hd : blen (drop (Z.to_nat position) (drop 8 msg)) = blen msg - 8 - position)
    by (rewrite blen_drop; lia).
  unfold RpcStream.post_process. rewrite rpc_decode_size. unfold u64_le_size.
  rewrite (proj2 (Z.leb_le _ _)), slice_from_within by lia. cbn [mbind outcome_bind].
  change (Z.to_nat 8) with 8%nat. rewrite Hh, Hq, Z.min_l, slice_from_within by lia.
  cbn [mbind outcome_bind]. destruct q as [tag ver id]. cbn [q_id q_tag q_version] in *.
  replace ((repeat 0 8 ++ [2] ++ write_query (mkQuery tag ver id)) ++
           drop (Z.to_nat position) (drop 8 msg)) with (repeat 0 8 ++ body)
    by (unfold body; by rewrite !app_assoc).
  rewrite wrap_small.
  - do 5 f_equal. f_equal. rewrite blen_app. change (blen (repeat 0 8)) with 8. lia.
  - unfold body. rewrite !blen_app, Hd. change (blen (repeat 0 8)) with 8.
    pose proof (blen_nonneg (write_query (mkQuery tag ver id))). change (blen [2]) with 1. lia.
Qed.

(** A response is stored under the query it answers. After a query and a
    response with the same id, the query is forgotten and the stored response
    is one complete length-prefixed message that carries the query's header in
    front of the response's own payload; the reader of stored messages finds in
    it the query's tag, as it does in the stored query. *)
Theorem rpc_response_rewritten `{BinprotLaws} (q : QueryHeader) (qmsg rmsg : bytes)
    (p : gmap Z RpcStream.Header) (qpos rpos : Z) :
  wf_query q -> 8 <= blen qmsg -> 8 <= blen rmsg ->
  read_message_header (drop 8 qmsg) = Some (Query q, qpos) ->
  read_message_header (drop 8 rmsg) = Some (Response (q_id q), rpos) ->
  rpos <= blen rmsg - 8 -> blen rmsg + blen (write_query q) < 2 ^ 64 ->
  exists b,
    (let '(bs, p', rest) := rpc_frames [qmsg; rmsg] p in
     bs = [qmsg; b] /\ p' !! q_id q = None /\ rest = []) /\
    (exists n, b = le_encode 8 n ++ [2] ++ write_query q ++ drop (Z.to_nat rpos) (drop 8 rmsg)) /\
    u64_le_size b = Some (8, blen b - 8) /\
    drop (Z.to_nat (9 + blen (write_query q))) b = drop (Z.to_nat rpos) (drop 8 rmsg) /\
    rpc_parse_types b = Some (option_list (MessageType_from_str (to_string_lossy (q_tag q)))).
Proof.
  intros Hwq Hlq Hlr Hq Hr Hpos Hsz. cbn [rpc_frames].
  rewrite (post_process_query qmsg p q qpos) by done.
  rewrite (post_process_response rmsg _ q rpos) by (done || by rewrite lookup_insert_eq).
  set (tail := drop (Z.to_nat rpos) (drop 8 rmsg)). cbn [rpc_frames].
  assert (Hb : 0 <= blen ([2] ++ write_query q ++ tail) < 2 ^ 64).
  { split; [apply blen_nonneg|]. unfold tail. rewrite !blen_app.
    pose proof (header_position _ _ _ Hr).
    assert (E : blen (drop 8 rmsg) = blen rmsg - 8) by (apply (blen_drop 8); lia).
    rewrite blen_drop, E by (rewrite E; lia). change (blen [2]) with 1. lia. }
  exists (le_encode 8 (blen ([2] ++ write_query q ++ tail)) ++ [2] ++ write_query q ++ tail).
  pose proof (length_le_encode 8 (blen ([2] ++ write_query q ++ tail))) as L.
  split_and!.
  - done.
  - by rewrite lookup_delete_eq.
  - done.
  - by eexists.
  - rewrite u64_le_size_prefix by done. f_equal. f_equal.
    rewrite (blen_app (le_encode _ _)), blen_le_encode. lia.
  - pose proof (blen_nonneg (write_query q)).
    replace (Z.to_nat (9 + blen (write_query q))) with (8 + (1 + length (write_query q)))%nat
      by (unfold blen; lia).
    rewrite <- drop_drop. rewrite drop_app_length' by done. cbn [app plus drop].
    by rewrite drop_app_length.
  - unfold rpc_parse_types. rewrite decode_size_le.
    rewrite (proj2 (Z.leb_le _ _))
      by (rewrite (blen_app (le_encode _ _)), blen_le_encode; lia).
    cbn iota beta. change (Z.to_nat 8) with 8%nat. rewrite drop_app_length' by done. cbn [app].
    rewrite nat0_small by lia. by rewrite query_roundtrip by done.
Qed.

(** ** A concrete codec

    The tag with an eight byte length, the version and the id as fixed-width
    integers; a header starts with its variant number. *)

Definition demo_write_query (q : QueryHeader) : bytes :=
  be_encode 8 (blen (q_tag q)) ++ q_tag q ++ be_encode 4 (wrap 32 (q_version q)) ++
  be_encode 8 (wrap 64 (q_id q)).

Definition demo_read_query (l : bytes) : option (QueryHeader * bytes) :=
  let n := be_decode (take 8 l) in
  if 20 + n <=? blen l then
    let l := drop 8 l in
    let '(tag, l) := (take (Z.to_nat n) l, drop (Z.to_nat n) l) in
    Some (mkQuery tag (to_signed 32 (be_decode (take 4 l)))
            (to_signed 64 (be_decode (take 8 (drop 4 l)))), drop 12 l)
  else None.

Definition demo_binprot : Binprot := {|
  stream_decode_size l := if 8 <=? blen l then Some (le_decode (take 8 l), 8) else None;
  read_message_header l :=
    match l with
    | 0 :: _ => Some (Heartbeat, 1)
    | 1 :: l => (fun '(q, r) => (Query q, 1 + blen l - blen r)) <$> demo_read_query l
    | 2 :: l => if 8 <=? blen l then Some (Response (to_signed 64 (be_decode (take 8 l))), 9) else None
    | _ => None
    end;
  read_query := demo_read_query;
  write_query := demo_write_query;
  read_nat0 l := match l with n :: r => if n <? 128 then Some (n, r) else None | [] => None end;
  to_string_lossy t := t;
|}.

Lemma demo_query_roundtrip (q : QueryHeader) (x : bytes) :
  wf_query q -> demo_read_query (demo_write_query q ++ x) = Some (q, x).
Proof.
  destruct q as [tag ver id]. intros (Ht & Hv & Hi). cbn [q_tag q_version q_id] in *.
  pose proof (blen_nonneg tag). unfold demo_read_query, demo_write_query. cbn [q_tag q_version q_id].
  rewrite <- !app_assoc.
  assert (T : forall n z l, take n (be_encode n z ++ l) = be_encode n z)
    by (intros; by rewrite take_app_length' by (by rewrite length_be_encode)).
  assert (D : forall n z l, drop n (be_encode n z ++ l) = l)
    by (intros; by rewrite drop_app_length' by (by rewrite length_be_encode)).
  rewrite T, D, be_decode_encode by (cbn; lia).
  rewrite (proj2 (Z.leb_le _ _)) by (rewrite !blen_app, !blen_be_encode; pose proof (blen_nonneg x); lia).
  rewrite take_app_length', drop_app_length' by (unfold blen; lia).
  rewrite T, D, T. change 12%nat with (4 + 8)%nat. rewrite <- drop_drop, !D.
  rewrite !be_decode_encode by (apply wrap_bound; lia).
  by rewrite !to_signed_wrap by lia.
Qed.

Lemma demo_read_query_shrinks (l r : bytes) (q : QueryHeader) :
  demo_read_query l = Some (q, r) -> blen r <= blen l.
Proof.
  unfold demo_read_query. case_match; [|done]. intros [= <- <-].
  unfold blen. rewrite !length_drop. lia.
Qed.

Lemma demo_binprot_laws : @BinprotLaws demo_binprot.
Proof.
  split; cbn.
  - done.
  - apply demo_query_roundtrip.
  - intros n x Hn. by rewrite (proj2 (Z.ltb_lt _ _)) by lia.
  - intros l h p Hh. destruct l as [|z l]; [done|].
    destruct z as [|[[?|?|]|[?|?|]|]|?]; try done; simplify_eq; try lia.
    + case_match; simplify_eq. lia.
    + destruct (demo_read_query l) as [[q r]|] eqn:E; cbn in Hh; simplify_eq.
      apply demo_read_query_shrinks in E. lia.
Qed.

Definition demo_query : QueryHeader := mkQuery (str "get_best_tip") 2 7.
Definition demo_qmsg : bytes := le_encode 8 33 ++ [1] ++ demo_write_query demo_query.
Definition demo_rmsg : bytes := le_encode 8 11 ++ [2] ++ be_encode 8 7 ++ [42; 43].
Definition demo_heartbeat : bytes := le_encode 8 1 ++ [0].

Lemma rpc_response_rewritten_witness :
  exists b : bytes, @rpc_parse_types demo_binprot b = Some [GetBestTip].
Proof.
  destruct (@rpc_response_rewritten demo_binprot demo_binprot_laws demo_query demo_qmsg demo_rmsg ∅ 33 9)
    as (b & _ & _ & _ & _ & E); [vm_compute; done..|].
  exists b. rewrite E. reflexivity.
Defined.

