(* ===== verification/Multistream.v ===== *)
(** Protocol negotiation ([mina-recorder/src/connection/multistream_select.rs]):
    the token parser [ll], the two-sided negotiation [hl] with simultaneous
    connect, and the layer that opens the agreed protocol and hands it every
    byte that follows the negotiation. *)

From stdpp Require Import base list strings.
From Stdlib Require Import ZArith Lia.
From S2P Require Import Prelude Types Framing Handle Varint.

(** * The low level parser (module [ll]) *)

Inductive Token : Type :=
| TString (s : bytes)
| InitiatorToken
| ResponderToken.

(** [s.trim_end_matches('\n')] *)
Fixpoint trim_end_newline (s : bytes) : bytes :=
  match s with
  | [] => []
  | c :: s =>
      match trim_end_newline s with
      | [] => if c =? 10 then [] else [c]
      | t => c :: t
      end
  end.

Definition initiator_msg : bytes := [10] ++ str "initiator" ++ [10].
Definition responder_msg : bytes := [10] ++ str "responder" ++ [10].

(** [ll::State::poll]: the accumulator after it and the token, or [None] when
    the accumulator holds no complete token (it is then unchanged). An error
    carries the bytes that are not UTF-8. *)
Definition ll_poll `{!Varint} (acc : bytes) : option (bytes * result Token bytes) :=
  if starts_with initiator_msg acc then Some (drop 11 acc, Ok InitiatorToken)
  else if starts_with responder_msg acc then Some (drop 11 acc, Ok ResponderToken)
  else
    match decode_u64 acc with
    | Err _ => None
    | Ok (length, remaining) =>
        if blen remaining <? length then None
        else
          let msg := take (Z.to_nat length) remaining in
          Some (drop (Z.to_nat length) remaining,
                if utf8_valid msg then Ok (TString (trim_end_newline msg)) else Err msg)
    end.

(** [ll::State::end] *)
Definition ll_end (acc data : bytes) : bytes * bytes :=
  match acc with
  | [] => (acc, data)
  | _ :: _ => ([], acc ++ data)
  end.

(** * The high level state machine (module [hl]) *)

Record OneDirection : Type := mkDir {
  inner_acc : bytes;
  simultaneous_connect : bool;
  done : option bytes;
}.

Record HlState : Type := mkHl { hl_incoming : OneDirection; hl_outgoing : OneDirection }.

Definition dir_init : OneDirection := mkDir [] false None.
Definition hl_init : HlState := mkHl dir_init dir_init.

Record Output : Type := mkOutput {
  tokens : list bytes;
  out_error : option bytes;
  agreed : option (bytes * bytes);
}.

Definition set_inner (a : bytes) (d : OneDirection) : OneDirection :=
  mkDir a (simultaneous_connect d) (done d).
Definition set_sim (b : bool) (d : OneDirection) : OneDirection :=
  mkDir (inner_acc d) b (done d).
Definition set_done (o : option bytes) (d : OneDirection) : OneDirection :=
  mkDir (inner_acc d) (simultaneous_connect d) o.

(** One token: the two directions, the text recorded for it, and whether the
    loop ends here because a protocol was named. *)
Definition on_token (t : Token) (this other : OneDirection)
    : OneDirection * OneDirection * bytes * bool :=
  match t with
  | InitiatorToken => (set_sim false this, other, str "initiator", false)
  | ResponderToken => (set_sim false this, other, str "responder", false)
  | TString s =>
      if starts_with (str "/multistream/") s then (this, other, s, false)
      else if starts_with (str "/libp2p/simultaneous-connect") s then
        let this := set_sim true this in
        (this, if simultaneous_connect other then set_done None other else other, s, false)
      else if decide (s = str "na") then
        (this,
         if simultaneous_connect other then set_sim false other else set_done None other,
         s, false)
      else if starts_with (str "select") s then (this, other, s, false)
      else if negb (simultaneous_connect this && simultaneous_connect other)
      then (set_done (Some s) this, other, s, true)
      else (this, other, s, false)
  end.

(** The loop of [hl::State::poll]: the directions, the tokens and the error. *)
Fixpoint hl_loop `{!Varint} (fuel : nat) (this other : OneDirection) (toks : list bytes)
    : outcome (OneDirection * OneDirection * list bytes * option bytes) :=
  match fuel with
  | O => OutOfFuel
  | S fuel =>
      match ll_poll (inner_acc this) with
      | None => Ret (this, other, toks, None)
      | Some (acc, Err msg) => Ret (set_inner acc this, other, toks, Some msg)
      | Some (acc, Ok t) =>
          let '(this, other, text, stop) := on_token t (set_inner acc this) other in
          if stop then Ret (this, other, toks ++ [text], None)
          else hl_loop fuel this other (toks ++ [text])
      end
  end.

(** [hl::State::poll] seen from the direction that received data. *)
Definition dir_poll `{!Varint} (data : bytes) (this other : OneDirection)
    : outcome (OneDirection * OneDirection * Output) :=
  match done this with
  | Some lp =>
      let '(acc, payload) := ll_end (inner_acc this) data in
      Ret (set_inner acc this, other, mkOutput [] None (Some (lp, payload)))
  | None =>
      let this := set_inner (inner_acc this ++ data) this in
      '(this, other, toks, err) ← hl_loop (S (length (inner_acc this))) this other [];
      Ret (this, other, mkOutput toks err None)
  end.

Definition hl_poll `{!Varint} (incoming : bool) (data : bytes) (st : HlState)
    : outcome (HlState * Output) :=
  if incoming then
    '(this, other, o) ← dir_poll data (hl_incoming st) (hl_outgoing st);
    Ret (mkHl this other, o)
  else
    '(this, other, o) ← dir_poll data (hl_outgoing st) (hl_incoming st);
    Ret (mkHl other this, o).

(** * The layer *)

Record State (I : Type) : Type := mkState {
  ms_stream_id : StreamId;
  ms_error : bool;
  ms_inner : option I;
  hl : HlState;
}.
Arguments mkState {I}.
Arguments ms_stream_id {I}.
Arguments ms_error {I}.
Arguments ms_inner {I}.
Arguments hl {I}.

#[export] Instance multistream_from_stream_id {I} : FromStreamId (State I) :=
  fun sid => mkState sid false None hl_init.

(** [stream.add] for every token, stopping at the first error. *)
Fixpoint add_tokens {W} `{!DbGroup W} (sid : StreamId) (id : DirectedId) (toks : list bytes)
    (w : W) : W * DbResult unit :=
  match toks with
  | [] => (w, Ok tt)
  | t :: toks =>
      let '(w, r) := db_stream_add sid id KSelect t w in
      match r with
      | Err e => (w, Err e)
      | Ok _ => add_tokens sid id toks w
      end
  end.

#[export] Instance multistream_handle {W I}
    `{!Varint, !DbGroup W, !HandleData W I, !DynamicProtocol I} : HandleData W (State I) :=
  fun id data st w =>
  if ms_error st then Ret (st, w, Ok tt)
  else
    '(h, output) ← hl_poll (incoming id) data (hl st);
    let '(w, r) := add_tokens (ms_stream_id st) id (tokens output) w in
    let st := mkState (ms_stream_id st) (ms_error st) (ms_inner st) h in
    match r with
    | Err e => Ret (st, w, Err e)
    | Ok _ =>
        let st := match out_error output with
                  | Some _ => mkState (ms_stream_id st) true (ms_inner st) (hl st)
                  | None => st
                  end in
        match agreed output with
        | None => Ret (st, w, Ok tt)
        | Some (protocol, payload) =>
            inner ← (match ms_inner st with
                     | Some i => Ret i
                     | None => from_name protocol (ms_stream_id st)
                     end);
            '(inner, w, r) ← on_data id payload inner w;
            Ret (mkState (ms_stream_id st) (ms_error st) (Some inner) (hl st), w, r)
        end
    end.

(** * Tokens are cut out of the stream independently of the chunks *)

Section Tokens.
Context `{VarintLaws}.

(** Every complete token is cut at its own length: the two marker tokens are
    ordinary tokens of ten bytes. *)
Lemma ll_poll_app (l x r : bytes) (t : result Token bytes) :
  ll_poll l = Some (r, t) -> ll_poll (l ++ x) = Some (r ++ x, t) /\ (length r < length l)%nat.
Proof.
  unfold ll_poll.
  assert (M : forall p y, length p = 11%nat -> starts_with p l = true ->
    starts_with p (l ++ y) = true /\ drop 11 (l ++ y) = drop 11 l ++ y /\ (11 <= length l)%nat).
  { intros p y Hl (z & ->)%starts_with_true. rewrite <- app_assoc, starts_with_app.
    rewrite <- Hl, !drop_app_length, length_app. auto with lia. }
  assert (N : forall p y, length p = 11%nat -> starts_with p l = false -> (11 <= length l)%nat ->
    starts_with p (l ++ y) = false).
  { intros p y Hp Hs Hl. destruct (starts_with p (l ++ y)) eqn:E; [|done].
    apply starts_with_true in E as [z E].
    rewrite <- not_true_iff_false in Hs. destruct Hs. apply starts_with_true.
    exists (drop 11 l). rewrite <- (take_drop 11 l) at 1. f_equal.
    rewrite <- (take_app_le l y) by lia. by rewrite E, <- Hp, take_app_length. }
  destruct (starts_with initiator_msg l) eqn:Ei.
  { intros [= <- <-]. destruct (M initiator_msg x eq_refl Ei) as (-> & -> & ?).
    rewrite length_drop. auto with lia. }
  destruct (starts_with responder_msg l) eqn:Er.
  { intros [= <- <-]. destruct (M responder_msg x eq_refl Er) as (-> & -> & ?).
    rewrite length_drop. rewrite <- not_true_iff_false in Ei.
    destruct (starts_with initiator_msg (l ++ x)) eqn:E; [|auto with lia].
    apply starts_with_true in Er as [y ->]. done. }
  destruct (decode_u64 l) as [[len rest]|] eqn:Ed; [|done].
  pose proof (varint_shrinks _ _ _ Ed). pose proof (varint_bound _ _ _ Ed).
  destruct (Z.ltb_spec (blen rest) len) as [|Hlen]; [done|]. intros [= <- <-].
  assert (F : forall p, length p = 11%nat -> starts_with p l = false -> nth 0 p 0 = 10 ->
    starts_with p (l ++ x) = false).
  { intros p Hp Hs H10. destruct (decide (nth 0 (l ++ x) 0 = 10)) as [E10|E10].
    - destruct l as [|b l']; [by rewrite varint_nil in Ed|]. cbn in E10. subst b.
      rewrite varint_small in Ed by lia. injection Ed as <- <-. apply N; [done..|].
      rewrite blen_cons in *. unfold blen in *. cbn. lia.
    - destruct (starts_with p (l ++ x)) eqn:E; [|done]. apply starts_with_true in E as [z E].
      rewrite E in E10. destruct p; [done|]. cbn in *. congruence. }
  rewrite !F, (varint_stable _ _ _ x Ed) by done.
  rewrite (proj2 (Z.ltb_ge _ _)) by len_lia.
  rewrite take_app_within, drop_app_within by lia. split; [done|].
  rewrite length_drop. unfold blen in *. lia.
Qed.

Lemma ll_poll_nil : ll_poll [] = None.
Proof. unfold ll_poll. cbn. by rewrite varint_nil. Qed.

(** [d] with [x] appended to its buffer. *)
Definition feed_dir (x : bytes) (d : OneDirection) : OneDirection :=
  set_inner (inner_acc d ++ x) d.

Lemma on_token_feed (t : Token) (this other : OneDirection) (x : bytes) :
  on_token t (feed_dir x this) other
  = let '(this', other', text, stop) := on_token t this other in
    (feed_dir x this', other', text, stop).
Proof.
  unfold on_token, feed_dir. destruct t as [s| |]; [|done..].
  destruct (starts_with _ s); [done|]. destruct (starts_with _ s); [done|].
  destruct (decide _); [done|]. destruct (starts_with _ s); [done|]. cbn.
  by destruct (negb _).
Qed.

Lemma on_token_this (t : Token) (this other this' other' : OneDirection) (text : bytes) (stop : bool) :
  on_token t this other = (this', other', text, stop) ->
  inner_acc this' = inner_acc this /\ (done this = None -> (stop = false <-> done this' = None)).
Proof. unfold on_token. destruct t; repeat case_match; intros [= <- <- <- <-]; by split. Qed.

End Tokens.

(** * Negotiation of one direction *)

(** The data of one direction polled chunk by chunk: the tokens, and the
    payloads handed to the agreed protocol. It stops at an error, as the layer
    does. *)
Fixpoint dir_run `{!Varint} (chunks : list bytes) (this other : OneDirection)
    : outcome (OneDirection * OneDirection * list bytes * list (bytes * bytes) * option bytes) :=
  match chunks with
  | [] => Ret (this, other, [], [], None)
  | c :: cs =>
      '(this, other, o) ← dir_poll c this other;
      match out_error o with
      | Some e => Ret (this, other, tokens o, option_list (agreed o), Some e)
      | None =>
          '(this, other, ts, ps, e) ← dir_run cs this other;
          Ret (this, other, tokens o ++ ts, option_list (agreed o) ++ ps, e)
      end
  end.

Section Negotiation.
Context `{VarintLaws}.

(** Enough fuel: every token takes at least one byte. *)
Lemma hl_loop_fuel (n m : nat) (this other : OneDirection) (toks : list bytes) :
  (length (inner_acc this) < n)%nat -> (length (inner_acc this) < m)%nat ->
  hl_loop n this other toks = hl_loop m this other toks.
Proof.
  revert m this other toks. induction n as [|n IH]; intros m this other toks Hn Hm; [lia|].
  destruct m as [|m]; [lia|]. cbn [hl_loop].
  destruct (ll_poll (inner_acc this)) as [[acc [t|]]|] eqn:E; try done.
  destruct (ll_poll_app _ [] _ _ E) as [_ Hs].
  destruct (on_token t (set_inner acc this) other) as [[[this' other'] text] stop] eqn:Et.
  apply on_token_this in Et as [Ea _]. cbn in Ea.
  destruct stop; [done|]. apply IH; rewrite Ea; lia.
Qed.

Lemma hl_loop_toks (n : nat) (this other : OneDirection) (toks : list bytes) :
  hl_loop n this other toks
  = '(t, o, ts, e) ← hl_loop n this other []; Ret (t, o, toks ++ ts, e).
Proof.
  revert this other toks. induction n as [|n IH]; intros this other toks; [done|].
  cbn [hl_loop]. destruct (ll_poll (inner_acc this)) as [[acc [t|]]|];
    [|cbn; by rewrite app_nil_r..].
  destruct (on_token _ _ _) as [[[this' other'] text] []]; [done|].
  rewrite IH, (IH _ _ ([] ++ _)). cbn.
  destruct (hl_loop n this' other' []) as [[[[??]?]?]| |]; cbn; by rewrite <- ?app_assoc.
Qed.

(** More bytes: an undecided negotiation goes on with them, a decided one keeps
    them for the agreed protocol. *)
Lemma hl_loop_app (n m : nat) (this other this' other' : OneDirection) (ts : list bytes)
    (x : bytes) :
  done this = None -> (length (inner_acc this ++ x) < n)%nat ->
  (length (inner_acc this ++ x) < m)%nat ->
  hl_loop n this other [] = Ret (this', other', ts, None) ->
  hl_loop n (feed_dir x this) other []
  = match done this' with
    | Some _ => Ret (feed_dir x this', other', ts, None)
    | None => hl_loop m (feed_dir x this') other' ts
    end /\
  (length (inner_acc this') <= length (inner_acc this))%nat /\
  (done this' = None -> ll_poll (inner_acc this') = None).
Proof.
  revert this other ts. induction n as [|n IH]; intros this other ts Hd Hn Hm E; [lia|].
  cbn [hl_loop] in E.
  destruct (ll_poll (inner_acc this)) as [[acc [t|]]|] eqn:Ep; [|done|].
  - cbn [hl_loop]. destruct (ll_poll_app _ x _ _ Ep) as [Epx Hs].
    change (inner_acc (feed_dir x this)) with (inner_acc this ++ x). rewrite Epx.
    change (set_inner (acc ++ x) (feed_dir x this)) with (feed_dir x (set_inner acc this)).
    rewrite on_token_feed.
    destruct (on_token t (set_inner acc this) other) as [[[this1 other1] text] stop] eqn:Et.
    destruct (on_token_this _ _ _ _ _ _ _ Et) as [Ea Hst]. cbn in Ea.
    specialize (Hst Hd). destruct stop.
    + injection E as <- <- <-. destruct (done this1) eqn:Ed; [|by destruct Hst as [_ Hst]; specialize (Hst eq_refl)].
      rewrite Ea. split_and!; [done|lia|done].
    + assert (Hd1 : done this1 = None) by by apply Hst.
      rewrite hl_loop_toks in E.
      destruct (hl_loop n this1 other1 []) as [[[[a b] ts1] e]| |] eqn:El; try done.
      injection E as -> -> <- ->. rewrite length_app in Hn, Hm.
      destruct (IH this1 other1 ts1 Hd1) as (E1 & Hl & Hr); [rewrite length_app, Ea; lia..|done|].
      split_and!; [|rewrite Ea in Hl; lia|done].
      rewrite hl_loop_toks, E1. destruct (done this') eqn:Ed'; [done|].
      rewrite (hl_loop_toks m _ _ ts1), (hl_loop_toks m _ _ (([] ++ [text]) ++ ts1)).
      destruct (hl_loop m (feed_dir x this') other' []) as [[[[??]?]?]| |]; [|done..].
      cbn. by rewrite <- ?app_assoc.
  - injection E as <- <- <-. rewrite Hd. split_and!; [|lia|done].
    apply hl_loop_fuel; done.
Qed.

Lemma hl_loop_returns (n : nat) (this other : OneDirection) (toks : list bytes) :
  (length (inner_acc this) < n)%nat -> exists r, hl_loop n this other toks = Ret r.
Proof.
  revert this other toks. induction n as [|n IH]; intros this other toks Hn; [lia|].
  cbn [hl_loop]. destruct (ll_poll (inner_acc this)) as [[acc [t|]]|] eqn:E; [|eauto..].
  destruct (ll_poll_app _ [] _ _ E) as [_ Hs].
  destruct (on_token t (set_inner acc this) other) as [[[this' other'] text] []] eqn:Et; [eauto|].
  apply on_token_this in Et as [Ea _]. cbn in Ea. apply IH. rewrite Ea. lia.
Qed.

(** An error is found whatever follows it. *)
Lemma hl_loop_err (n : nat) (this other this' other' : OneDirection) (toks ts : list bytes)
    (e x : bytes) :
  hl_loop n this other toks = Ret (this', other', ts, Some e) ->
  hl_loop n (feed_dir x this) other toks = Ret (feed_dir x this', other', ts, Some e).
Proof.
  revert this other toks. induction n as [|n IH]; intros this other toks; cbn [hl_loop]; [done|].
  change (inner_acc (feed_dir x this)) with (inner_acc this ++ x).
  destruct (ll_poll (inner_acc this)) as [[acc [t|]]|] eqn:Ep; [| |done];
    destruct (ll_poll_app _ x _ _ Ep) as [-> _].
  - change (set_inner (acc ++ x) (feed_dir x this)) with (feed_dir x (set_inner acc this)).
    rewrite on_token_feed. destruct (on_token _ _ _) as [[[this1 other1] text] []]; [done|].
    apply IH.
  - by intros [= <- <- <- <-].
Qed.

(** Once a protocol is agreed, every further byte is handed to it in order. *)
Lemma dir_run_done (chunks : list bytes) (this other : OneDirection) (lp : bytes) :
  done this = Some lp ->
  exists this' ps, dir_run chunks this other = Ret (this', other, [], ps, None) /\
    done this' = Some lp /\ simultaneous_connect this' = simultaneous_connect this /\
    concat (snd <$> ps) ++ inner_acc this' = inner_acc this ++ concat chunks /\
    Forall (fun p => p.1 = lp) ps.
Proof.
  revert this. induction chunks as [|c cs IH]; intros this Hd; cbn [dir_run concat].
  { exists this, []. cbn. by rewrite app_nil_r. }
  unfold dir_poll. rewrite Hd.
  destruct (ll_end (inner_acc this) c) as [acc payload] eqn:El. cbn.
  destruct (IH (set_inner acc this) Hd) as (this' & ps & -> & Hd' & Hs & Hc & Hf). cbn.
  exists this', ((lp, payload) :: ps). split_and!; try done; [|by constructor].
  cbn. rewrite <- app_assoc, Hc. cbn. unfold ll_end in El.
  destruct (inner_acc this); injection El as <- <-; cbn; by rewrite <- ?app_assoc.
Qed.

End Negotiation.

(** C11: negotiation does not depend on the cut, and no byte of the agreed
    protocol is lost. Take the stream of one direction as one piece: the tokens
    it contains up to the protocol name, and the bytes after the name. However
    the stream is cut, polling the chunks in turn records the same tokens,
    agrees on the same protocol, has the same effect on the other direction, and
    the payloads handed out, followed by what is still buffered, are exactly
    those bytes; nothing is handed out before a protocol is agreed. *)
Theorem multistream_chunks `{VarintLaws} (chunks : list bytes)
    (this other t o : OneDirection) (toks : list bytes) :
  done this = None -> ll_poll (inner_acc this) = None ->
  hl_loop (S (length (inner_acc this ++ concat chunks))) (feed_dir (concat chunks) this) other []
  = Ret (t, o, toks, None) ->
  exists t' ps, dir_run chunks this other = Ret (t', o, toks, ps, None) /\
    done t' = done t /\ simultaneous_connect t' = simultaneous_connect t /\
    concat (snd <$> ps) ++ inner_acc t' = inner_acc t /\
    Forall (fun p => Some p.1 = done t) ps.
Proof.
  revert this other toks. induction chunks as [|c cs IH]; intros this other toks Hd Hn E;
    cbn [concat dir_run] in *.
  { cbn [hl_loop] in E. change (inner_acc (feed_dir [] this)) with (inner_acc this ++ []) in E.
    rewrite app_nil_r, Hn in E. injection E as <- <- <-. exists this, [].
    change (inner_acc (feed_dir [] this)) with (inner_acc this ++ []). by rewrite app_nil_r. }
  set (n := S (length (inner_acc this ++ c ++ concat cs))) in *.
  assert (F : feed_dir (c ++ concat cs) this = feed_dir (concat cs) (feed_dir c this)).
  { unfold feed_dir, set_inner. cbn. by rewrite app_assoc. }
  assert (L : (length (inner_acc (feed_dir c this) ++ concat cs) < n)%nat).
  { cbn [feed_dir inner_acc set_inner]. rewrite <- app_assoc. unfold n. lia. }
  rewrite F in E. unfold dir_poll. rewrite Hd. fold (feed_dir c this).
  rewrite (hl_loop_fuel (S (length (inner_acc (feed_dir c this)))) n)
    by (rewrite ?length_app in L; lia).
  destruct (hl_loop_returns n (feed_dir c this) other []) as [[[[this1 other1] ts1] e] E1];
    [rewrite length_app in L; lia|].
  rewrite E1. destruct e as [e|].
  { rewrite (hl_loop_err _ _ _ _ _ _ _ _ (concat cs) E1) in E. done. }
  destruct (hl_loop_app n n (feed_dir c this) other this1 other1 ts1 (concat cs) Hd L L E1)
    as (E2 & Hl & Hr).
  rewrite E2 in E. cbn [mbind outcome_bind out_error tokens agreed].
  destruct (done this1) as [lp|] eqn:Hd1.
  - injection E as <- <- <-.
    destruct (dir_run_done cs this1 other1 lp Hd1) as (t' & ps & -> & Hdt & Hs & Hc & Hf).
    exists t', ps. cbn. rewrite app_nil_r. split_and!; try done; [congruence|].
    eapply Forall_impl; [exact Hf|]. intros p <-. done.
  - rewrite (hl_loop_fuel n (S (length (inner_acc this1 ++ concat cs)))) in E
      by (cbn; rewrite ?length_app in *; cbn in *; rewrite ?length_app in *; lia).
    rewrite hl_loop_toks in E.
    destruct (hl_loop _ (feed_dir (concat cs) this1) other1 []) as [[[[a b] ts2] e2]| |] eqn:E3; try done.
    injection E as -> -> <- ->.
    destruct (IH this1 other1 ts2 Hd1 (Hr eq_refl) E3) as (t' & ps & -> & ? & ? & ? & ?).
    exists t', ps. cbn. done.
Qed.

(** ** The tests of the source *)

(** A token on the wire. *)
Definition wire (s : bytes) : bytes := (blen s + 1) :: s ++ [10].

Definition m_ms : bytes := wire (str "/multistream/1.0.0").
Definition m_sim : bytes := wire (str "/libp2p/simultaneous-connect").
Definition m_noise : bytes := wire (str "/noise").
Definition m_na : bytes := wire (str "na").
Definition m_rpc : bytes := wire (str "coda/rpcs/0.0.1").

(** The payloads handed out by a sequence of polls. *)
Fixpoint script `{!Varint} (evs : list (bool * bytes)) (st : HlState)
    : list (option (bytes * bytes)) :=
  match evs with
  | [] => []
  | (inc, data) :: evs =>
      match hl_poll inc data st with
      | Ret (st, o) => agreed o :: script evs st
      | _ => []
      end
  end.

#[local] Existing Instance leb128_varint.

Example simple_test :
  script [(false, m_ms ++ m_sim ++ m_noise); (true, m_ms); (true, [3]); (true, str "na" ++ [10]);
          (true, m_noise); (false, [0; 32; 93])] hl_init
  = [None; None; None; None; None; Some (str "/noise", [0; 32; 93])].
Proof. vm_compute. reflexivity. Qed.

Example simple_glue_payload_test :
  script [(false, m_ms ++ m_sim ++ m_noise); (true, m_ms ++ m_na ++ m_noise ++ str "payload");
          (true, str "_additional")] hl_init
  = [None; None; Some (str "/noise", str "payload_additional")].
Proof. vm_compute. reflexivity. Qed.

Example simple_early_payload_test :
  script [(false, m_ms); (true, m_ms ++ m_rpc); (true, [7; 0]); (false, m_rpc); (false, [7; 0])]
    hl_init
  = [None; None; Some (str "coda/rpcs/0.0.1", [7; 0]); None; Some (str "coda/rpcs/0.0.1", [7; 0])].
Proof. vm_compute. reflexivity. Qed.

Example simultaneous_connect_test :
  script [(false, m_ms ++ m_sim ++ m_noise);
          (true, m_ms ++ m_sim ++ m_noise ++ wire (str "select:18336736272481952038"));
          (false, wire (str "select:14883580519468438297") ++ responder_msg);
          (true, initiator_msg ++ m_noise); (false, m_noise); (true, [0; 32; 194])] hl_init
  = [None; None; None; None; None; Some (str "/noise", [0; 32; 194])].
Proof. vm_compute. reflexivity. Qed.

Lemma multistream_chunks_witness :
  exists t' ps,
    dir_run [firstn 5 m_ms; skipn 5 m_ms ++ firstn 9 m_rpc; skipn 9 m_rpc ++ [7]; [8]; [9; 9]]
      dir_init dir_init
    = Ret (t', dir_init, [str "/multistream/1.0.0"; str "coda/rpcs/0.0.1"], ps, None) /\
    concat (snd <$> ps) ++ inner_acc t' = [7; 8; 9; 9].
Proof.
  destruct (@multistream_chunks leb128_varint leb128_laws
    [firstn 5 m_ms; skipn 5 m_ms ++ firstn 9 m_rpc; skipn 9 m_rpc ++ [7]; [8]; [9; 9]]
    dir_init dir_init (mkDir [7; 8; 9; 9] false (Some (str "coda/rpcs/0.0.1"))) dir_init
    [str "/multistream/1.0.0"; str "coda/rpcs/0.0.1"]) as (t' & ps & E & _ & _ & Hc & _);
    [vm_compute; reflexivity..|].
  exists t', ps. split; [exact E|exact Hc].
Defined.
