(* ===== verification/Noise.v ===== *)
(** The Noise XX layer ([mina-recorder/src/connection/noise.rs]): [ChunkState]
    cuts the stream into length-prefixed Noise messages, [NoiseState] follows the
    handshake with the recovered keys and decrypts the transport messages.  The
    cryptography is a parameter. *)

From stdpp Require Import base list strings.
From Stdlib Require Import ZArith Lia.
From S2P Require Import Prelude Types Framing Handle.

(** * Chunks *)

Record ChunkState (I : Type) : Type := mkChunkState {
  accumulator_incoming : bytes;
  accumulator_outgoing : bytes;
  ch_inner : I;
}.
Arguments mkChunkState {I}.
Arguments accumulator_incoming {I}.
Arguments accumulator_outgoing {I}.
Arguments ch_inner {I}.

#[export] Instance chunk_from_name {I} `{!DynamicProtocol I} : DynamicProtocol (ChunkState I) :=
  fun name sid => i ← from_name name sid; Ret (mkChunkState [] [] i).

Definition get_acc {I} (incoming : bool) (st : ChunkState I) : bytes :=
  if incoming then accumulator_incoming st else accumulator_outgoing st.

Definition set_acc {I} (incoming : bool) (a : bytes) (st : ChunkState I) : ChunkState I :=
  if incoming then mkChunkState a (accumulator_outgoing st) (ch_inner st)
  else mkChunkState (accumulator_incoming st) a (ch_inner st).

Definition set_inner {I} (i : I) (st : ChunkState I) : ChunkState I :=
  mkChunkState (accumulator_incoming st) (accumulator_outgoing st) i.

(** The length of the message at the front: two big-endian bytes. *)
Definition chunk_len (data : bytes) : Z := be_decode (take 2 data).

(** The loop: an error of the inner layer is logged. *)
Fixpoint chunk_loop {W I} `{!HandleData W I} (fuel : nat) (id : DirectedId)
    (st : ChunkState I) (w : W) : outcome (ChunkState I * W) :=
  match fuel with
  | O => OutOfFuel
  | S fuel =>
      let acc := get_acc (incoming id) st in
      if 2 <=? blen acc then
        let len := chunk_len acc in
        if 2 + len <=? blen acc then
          '(i, w, _) ← on_data id (take (Z.to_nat (2 + len)) acc) (ch_inner st) w;
          let st := set_acc (incoming id) (drop (Z.to_nat (2 + len)) acc) (set_inner i st) in
          chunk_loop fuel id st w
        else Ret (st, w)
      else Ret (st, w)
  end.

#[export] Instance chunk_handle {W I} `{!HandleData W I} : HandleData W (ChunkState I) :=
  fun id data st w =>
  let acc := get_acc (incoming id) st in
  let whole := (blen acc =? 0) && (2 <=? blen data) && (blen data =? 2 + chunk_len data) in
  if whole then
    '(i, w, r) ← on_data id data (ch_inner st) w;
    Ret (set_inner i st, w, r)
  else
    let acc := acc ++ data in
    '(st, w) ← chunk_loop (S (length acc)) id (set_acc (incoming id) acc st) w;
    Ret (st, w, Ok tt).

(** ** Chunks do not depend on the cut *)

(** The Noise message at the front of a byte string, with its length. *)
Definition nstep (l : bytes) : verdict bytes :=
  if (2 <=? blen l) && (2 + chunk_len l <=? blen l)
  then Frame (take (Z.to_nat (2 + chunk_len l)) l) (drop (Z.to_nat (2 + chunk_len l)) l)
  else Need.

Lemma chunk_len_bound (l : bytes) : 0 <= chunk_len l.
Proof. apply be_decode_bound. Qed.

Lemma chunk_len_app (l x : bytes) : 2 <= blen l -> chunk_len (l ++ x) = chunk_len l.
Proof. intros H. unfold chunk_len. by rewrite take_app_le by (unfold blen in H; lia). Qed.

#[export] Instance nstep_framer : Framer nstep.
Proof.
  split; unfold nstep.
  - intros l m r. pose proof (chunk_len_bound l). case_match; [|done]. intros [= <- <-]. to_prop.
    rewrite length_drop. unfold blen in *. lia.
  - intros l m r x. case_match; [|done]. intros [= <- <-]. to_prop.
    pose proof (chunk_len_bound l). rewrite chunk_len_app by done.
    rewrite !(proj2 (Z.leb_le _ _)) by len_lia. cbn.
    by rewrite take_app_within, drop_app_within by lia.
  - intros l x. by case_match.
Qed.

Lemma nstep_not_bad (l : bytes) : nstep l <> Bad.
Proof. unfold nstep. by case_match. Qed.

Section Chunks.
Implicit Types (st : ChunkState Sink) (w : list db_call).

Lemma chunk_loop_spec (ms : list bytes) (id : DirectedId) (fuel : nat) st w (r : bytes) (bad : bool) :
  parse nstep (get_acc (incoming id) st) = (ms, r, bad) -> (length ms < fuel)%nat ->
  chunk_loop fuel id st w
  = Ret (set_acc (incoming id) r (set_inner (ch_inner st ++ (pair (incoming id) <$> ms)) st), w).
Proof.
  revert st fuel. induction ms as [|m ms IH]; intros st fuel Hp Hf;
    (destruct fuel as [|fuel]; [cbn in Hf; lia|]); cbn [chunk_loop];
    apply (parse_inv nstep) in Hp.
  - destruct Hp as [-> Hn]. unfold nstep in Hn.
    assert (((2 <=? blen (get_acc (incoming id) st)) &&
      (2 + chunk_len (get_acc (incoming id) st) <=? blen (get_acc (incoming id) st)))%bool = false) as Hb.
    { destruct bad; by case_match. }
    assert (E : st = set_acc (incoming id) (get_acc (incoming id) st)
                       (set_inner (ch_inner st ++ (pair (incoming id) <$> [])) st)).
    { cbn. rewrite app_nil_r. by destruct st, (incoming id). }
    rewrite <- E. destruct (2 <=? _); [|done]. cbn in Hb. by rewrite Hb.
  - destruct Hp as (r' & Hs & Hp). unfold nstep in Hs. case_match eqn:Eb; [|done].
    apply andb_true_iff in Eb as [-> ->]. injection Hs as <- <-. cbn [on_data sink_handle mbind outcome_bind].
    rewrite IH; [|by destruct (incoming id)|cbn in Hf; lia].
    do 2 f_equal. destruct st, (incoming id); cbn; by rewrite <- app_assoc.
Qed.

Lemma chunk_on_data_spec (id : DirectedId) (data : bytes) st w (ms : list bytes) (r : bytes) (bad : bool) :
  parse nstep (get_acc (incoming id) st ++ data) = (ms, r, bad) ->
  on_data id data st w
  = Ret (set_acc (incoming id) r (set_inner (ch_inner st ++ (pair (incoming id) <$> ms)) st), w, Ok tt).
Proof.
  intros Hp. unfold on_data at 1, chunk_handle.
  destruct (_ && _)%bool eqn:E.
  - to_prop. pose proof (chunk_len_bound data).
    rewrite (blen_0_inv (get_acc (incoming id) st)) in Hp by lia. cbn [app] in Hp.
    rewrite parse_unfold in Hp by apply _. unfold nstep at 1 in Hp.
    rewrite !(proj2 (Z.leb_le _ _)) in Hp by lia. cbn [andb] in Hp.
    replace (2 + chunk_len data) with (blen data) in Hp by lia.
    rewrite take_blen, drop_blen, (parse_need nstep) in Hp by done. injection Hp as <- <- <-.
    cbn. do 3 f_equal. assert (get_acc (incoming id) st = []) as G by (apply blen_0_inv; lia).
    destruct st, (incoming id); cbn in *; by rewrite G.
  - rewrite (chunk_loop_spec ms id _ _ w r bad).
    + cbn. do 3 f_equal. by destruct st, (incoming id).
    + by destruct st, (incoming id).
    + apply (parse_length nstep) in Hp. lia.
Qed.

(** [on_data] for a sequence of chunks of both directions. *)
Fixpoint chunk_run (evs : list (DirectedId * bytes)) st w : outcome (ChunkState Sink * list db_call) :=
  match evs with
  | [] => Ret (st, w)
  | (id, data) :: evs => '(st, w, _) ← on_data id data st w; chunk_run evs st w
  end.

(** The bytes of one direction, and the messages delivered for it. *)
Definition dir_bytes (inc : bool) (evs : list (DirectedId * bytes)) : bytes :=
  concat (omap (fun ev => if Bool.eqb (incoming ev.1) inc then Some ev.2 else None) evs).

Definition dir_msgs (inc : bool) (s : Sink) : list bytes :=
  omap (fun p => if Bool.eqb p.1 inc then Some p.2 else None) s.

Lemma dir_msgs_app (inc : bool) (s s' : Sink) : dir_msgs inc (s ++ s') = dir_msgs inc s ++ dir_msgs inc s'.
Proof. unfold dir_msgs. apply omap_app. Qed.

Lemma dir_msgs_pair (inc b : bool) (ms : list bytes) :
  dir_msgs inc (pair b <$> ms) = if Bool.eqb b inc then ms else [].
Proof.
  unfold dir_msgs. induction ms as [|m ms IH]; cbn in *; [by case_match|].
  rewrite IH. by destruct (Bool.eqb b inc).
Qed.

End Chunks.

(** The two directions of a Noise connection are cut into messages
    independently of each other and of the chunks they arrive in: after any
    interleaving of chunks, the inner layer has received, for each direction,
    exactly the complete messages of that direction's byte stream in order, and
    the accumulator of the direction holds the incomplete tail. *)
Theorem noise_chunks (evs : list (DirectedId * bytes)) (inc : bool) (ms : list bytes)
    (r : bytes) (bad : bool) :
  parse nstep (dir_bytes inc evs) = (ms, r, bad) ->
  exists st', chunk_run evs (mkChunkState [] [] []) [] = Ret (st', []) /\
    dir_msgs inc (ch_inner st') = ms /\ get_acc inc st' = r.
Proof.
  cut (forall st, nstep (get_acc inc st) = Need ->
    parse nstep (get_acc inc st ++ dir_bytes inc evs) = (ms, r, bad) ->
    exists st', chunk_run evs st [] = Ret (st', []) /\
      dir_msgs inc (ch_inner st') = dir_msgs inc (ch_inner st) ++ ms /\ get_acc inc st' = r).
  { intros K Hp. apply (K (mkChunkState [] [] [])); destruct inc; done. }
  revert ms. induction evs as [|[id data] evs IH]; intros ms st Hn Hp.
  { unfold dir_bytes in Hp. cbn in *. rewrite app_nil_r, (parse_need nstep) in Hp by done.
    injection Hp as <- <- <-. exists st. by rewrite app_nil_r. }
  cbn [chunk_run].
  destruct (parse nstep (get_acc (incoming id) st ++ data)) as [[ms1 r1] bad1] eqn:E1.
  rewrite (chunk_on_data_spec _ _ _ _ _ _ _ E1). cbn [mbind outcome_bind].
  pose proof (parse_rest nstep _ _ _ _ E1) as Hr1.
  destruct bad1; [by apply nstep_not_bad in Hr1|].
  unfold dir_bytes in Hp. cbn [omap list_omap fst snd] in Hp.
  destruct (Bool.eqb (incoming id) inc) eqn:Ei.
  - apply eqb_prop in Ei. rewrite Ei in *. cbn [concat] in Hp.
    rewrite app_assoc, (parse_app nstep _ _ _ _ E1) in Hp.
    destruct (parse nstep (r1 ++ _)) as [[ms2 r2] bad2] eqn:E2. injection Hp as <- <- <-.
    edestruct (IH ms2 (set_acc inc r1 (set_inner (ch_inner st ++ (pair inc <$> ms1)) st)))
      as (st' & -> & Hm & Ha); [by destruct inc|by destruct inc|].
    exists st'. split_and!; [done| |done]. rewrite Hm.
    replace (ch_inner (set_acc inc r1 _)) with (ch_inner st ++ (pair inc <$> ms1)) by (by destruct inc).
    by rewrite dir_msgs_app, dir_msgs_pair, eqb_reflx, <- app_assoc.
  - edestruct (IH ms (set_acc (incoming id) r1 (set_inner (ch_inner st ++ (pair (incoming id) <$> ms1)) st)))
      as (st' & -> & Hm & Ha).
    + destruct inc, (incoming id); done.
    + destruct inc, (incoming id); done.
    + exists st'. split_and!; [done| |done]. rewrite Hm.
      replace (ch_inner (set_acc (incoming id) r1 _))
        with (ch_inner st ++ (pair (incoming id) <$> ms1)) by (by destruct (incoming id)).
      by rewrite dir_msgs_app, dir_msgs_pair, Ei, app_nil_r.
Qed.

Lemma noise_chunks_witness :
  exists st', chunk_run [(default_id, [0; 1]); (mkDirectedId default_metadata [] false 0, [0; 2; 8]);
                         (default_id, [7; 0; 0; 0])] (mkChunkState [] [] []) [] = Ret (st', []) /\
    dir_msgs true (ch_inner st') = [[0; 1; 7]; [0; 0]] /\ get_acc true st' = [0].
Proof.
  apply (noise_chunks [(default_id, [0; 1]); (mkDirectedId default_metadata [] false 0, [0; 2; 8]);
                       (default_id, [7; 0; 0; 0])] true _ _ false). reflexivity.
Defined.

(** * The Noise state machine *)

(** What the code uses of [vru_noise], [curve25519_dalek] and the cipher. The
    secret and the public keys are 32 byte strings. *)
Class NoisePrims : Type := {
  SymCk : Type;
  SymKey : Type;
  Cipher : Type;
  sym_new : bytes -> SymCk;
  sym_mix_hash : bytes -> SymCk -> SymCk;
  sym_mix_shared_secret : bytes -> SymCk -> SymKey;
  key_mix_shared_secret : bytes -> SymKey -> SymKey;
  key_decrypt : bytes -> bytes -> SymKey -> option (bytes * SymKey);
  key_finish : SymKey -> Cipher * Cipher;
  cipher_swap : Cipher -> Cipher;
  cipher_decrypt : bytes -> bytes -> Cipher -> option (bytes * Cipher);
  scalar_from_bits : bytes -> bytes;
  base_mul_montgomery : bytes -> bytes;
  point_mul : bytes -> bytes -> bytes;
  envelope_payload : bytes -> option bytes;
}.

(** What a connection shares with the others ([Cx]): the randomness recorded so
    far, the keys reproduced from it (the search may wait for ever), and the global byte
    counters. *)
Class NoiseCx (W : Type) : Type := {
  iterate_randomness : W -> list bytes;
  reproduced_sk : bool -> bytes -> W -> outcome (W * option bytes);
  add_decrypted : Z -> W -> W;
  add_failed : Z -> W -> W;
  total_decrypted : W -> Z;
  total_failed : W -> Z;
}.

Inductive NoiseError : Type :=
| FirstMessageTooShort
| FirstMessageTooBig
| SecondMessageTooShort
| ThirdMessageTooShort
| SecondMessageMacMismatch
| SecondMessagePayloadMacMismatch
| ThirdMessageMacMismatch
| ThirdMessagePayloadMacMismatch
| EphemeralSecretKeyNotFound (i : bool) (r_epk i_epk : bytes)
| SecondSecretKeyNotFound (i : bool) (r_spk i_epk : bytes)
| ThirdSecretKeyNotFound (i : bool) (r_epk i_spk : bytes)
| DataTooShort
| CannotDecrypt.

Section NoiseState.
Context `{!NoisePrims}.

Inductive St : Type :=
| FirstMessage (st : SymCk) (i_epk : bytes)
| SecondMessage (st : SymKey) (r_epk : bytes)
| Transport (initiators_receiver responders_receiver : Cipher).

Record NoiseState (I : Type) : Type := mkNoise {
  machine : option St;
  initiator_is_incoming : bool;
  n_error : bool;
  n_inner : I;
  n_decrypted : Z;
  n_failed : Z;
  mux_proposed : option (DirectedId * bytes);
}.

End NoiseState.
Arguments mkNoise {_ I}.
Arguments machine {_ I}.
Arguments initiator_is_incoming {_ I}.
Arguments n_error {_ I}.
Arguments n_inner {_ I}.
Arguments n_decrypted {_ I}.
Arguments n_failed {_ I}.
Arguments mux_proposed {_ I}.

Section NoiseOps.
Context `{!NoisePrims} {W : Type} `{!NoiseCx W}.

#[export] Instance noise_from_name {I} `{!FromStreamId I} : DynamicProtocol (NoiseState I) :=
  fun name sid =>
  Ret (mkNoise None false (negb (bool_decide (name = str "/noise"))) (from_stream_id sid) 0 0 None).

(** The clamping of a secret key: [sk[0] &= 248; sk[31] |= 64]. *)
Definition clamp (sk : bytes) : bytes :=
  alter (fun b => Z.lor b 64) 31%nat (alter (fun b => Z.land b 248) 0%nat sk).

Definition find_sk_openmina (pk : bytes) (w : W) : outcome (W * option bytes) :=
  '(w, sk) ← reproduced_sk true pk w;
  match sk with
  | Some sk => Ret (w, Some (scalar_from_bits sk))
  | None => '(w, sk) ← reproduced_sk false pk w; Ret (w, fmap (M := option) scalar_from_bits sk)
  end.

(** The first recorded randomness of 32 bytes whose public key is [pk]. *)
Fixpoint find_sk_in (pk : bytes) (rands : list bytes) : option bytes :=
  match rands with
  | [] => None
  | rand :: rands =>
      if negb (blen rand =? 32) then find_sk_in pk rands
      else
        let sk := scalar_from_bits (clamp rand) in
        if decide (base_mul_montgomery sk = pk) then Some sk else find_sk_in pk rands
  end.

Definition find_sk (pk : bytes) (w : W) : option bytes := find_sk_in pk (iterate_randomness w).

Definition find_any (pk : bytes) (w : W) : outcome (W * option bytes) :=
  match find_sk pk w with
  | Some sk => Ret (w, Some sk)
  | None => find_sk_openmina pk w
  end.

Definition try_dh (a b : bytes) (w : W) : outcome (W * option bytes) :=
  '(w, sk) ← find_any a w;
  match sk with
  | Some sk => Ret (w, Some (point_mul b sk))
  | None => '(w, sk) ← find_any b w; Ret (w, fmap (M := option) (point_mul a) sk)
  end.

(** [bytes[a..b]] replaced by [x]. *)
Definition splice (a b : Z) (x data : bytes) : bytes :=
  take (Z.to_nat a) data ++ x ++ drop (Z.to_nat b) data.

(** [on_data_]: the new machine, the data decrypted in place, and the range of
    the plaintext. The machine is taken before the message is looked at, so an
    error leaves [None]. *)
Definition machine_step (machine : option St) (initiator_is_incoming incoming : bool)
    (data : bytes) (w : W) : outcome (option St * bool * W * bytes * result (Z * Z) NoiseError) :=
  let len := blen data in
  let i := initiator_is_incoming in
  match machine with
  | None =>
      let i := incoming in
      if len <? 34 then Ret (None, i, w, data, Err FirstMessageTooShort)
      else if 34 <? len then Ret (None, i, w, data, Err FirstMessageTooBig)
      else
        i_epk ← slice 2 34 data;
        let st := sym_mix_hash [] (sym_mix_hash i_epk (sym_mix_hash []
                    (sym_new (str "Noise_XX_25519_ChaChaPoly_SHA256")))) in
        Ret (Some (FirstMessage st i_epk), i, w, data, Ok (34, len))
  | Some (FirstMessage st i_epk) =>
      if len <? 98 then Ret (None, i, w, data, Err SecondMessageTooShort)
      else
        r_epk ← slice 2 34 data;
        r_spk_bytes ← slice 34 66 data;
        tag ← slice 66 82 data;
        payload_tag ← slice_from (len - 16) data;
        body ← slice 82 (len - 16) data;
        let st := sym_mix_hash r_epk st in
        '(w, ss) ← try_dh r_epk i_epk w;
        match ss with
        | None => Ret (None, i, w, data, Err (EphemeralSecretKeyNotFound i r_epk i_epk))
        | Some ss =>
            match key_decrypt r_spk_bytes tag (sym_mix_shared_secret ss st) with
            | None => Ret (None, i, w, data, Err SecondMessageMacMismatch)
            | Some (r_spk, st) =>
                '(w, ss) ← try_dh r_spk i_epk w;
                match ss with
                | None => Ret (None, i, w, data, Err (SecondSecretKeyNotFound i r_spk i_epk))
                | Some ss =>
                    match key_decrypt body payload_tag (key_mix_shared_secret ss st) with
                    | None => Ret (None, i, w, data, Err SecondMessagePayloadMacMismatch)
                    | Some (plain, st) =>
                        Ret (Some (SecondMessage st r_epk), i, w,
                             splice 82 (len - 16) plain data, Ok (82, len - 16))
                    end
                end
            end
        end
  | Some (SecondMessage st r_epk) =>
      if len <? 98 then Ret (None, i, w, data, Err ThirdMessageTooShort)
      else
        i_spk_bytes ← slice 2 34 data;
        tag ← slice 34 50 data;
        payload_tag ← slice_from (len - 16) data;
        body ← slice 50 (len - 16) data;
        match key_decrypt i_spk_bytes tag st with
        | None => Ret (None, i, w, data, Err ThirdMessageMacMismatch)
        | Some (i_spk, st) =>
            '(w, ss) ← try_dh i_spk r_epk w;
            match ss with
            | None => Ret (None, i, w, data, Err (ThirdSecretKeyNotFound i r_epk i_spk))
            | Some ss =>
                match key_decrypt body payload_tag (key_mix_shared_secret ss st) with
                | None => Ret (None, i, w, data, Err ThirdMessagePayloadMacMismatch)
                | Some (plain, st) =>
                    let '(sender, receiver) := key_finish st in
                    Ret (Some (Transport receiver (cipher_swap sender)), i, w,
                         splice 50 (len - 16) plain data, Ok (50, len - 16))
                end
            end
        end
  | Some (Transport ir rr) =>
      if len <? 18 then Ret (None, i, w, data, Err DataTooShort)
      else
        payload_tag ← slice_from (len - 16) data;
        body ← slice 2 (len - 16) data;
        let from_initiator := Bool.eqb incoming i in
        match cipher_decrypt body payload_tag (if from_initiator then ir else rr) with
        | None => Ret (None, i, w, data, Err CannotDecrypt)
        | Some (plain, c) =>
            Ret (Some (if from_initiator then Transport c rr else Transport ir c), i, w,
                 splice 2 (len - 16) plain data, Ok (2, len - 16))
        end
  end.

End NoiseOps.

Section NoiseHandle.
Context `{!NoisePrims} {W I : Type} `{!NoiseCx W, !DbGroup W, !HandleData W I}.
Implicit Types st : NoiseState I.

(** [db.get(StreamId::Handshake).add(&id, StreamKind::Handshake, ..)] *)
Definition add_handshake (id : DirectedId) (data : bytes) (w : W) : W * DbResult Z :=
  db_stream_add SHandshake id KHandshake data w.

Definition mismatch_prefix : bytes := str "mac_mismatch" ++ [0; 0; 0; 0].

Definition failure_record (this_decrypted this_failed total_decrypted total_failed : Z) : bytes :=
  mismatch_prefix ++ be_encode 8 this_decrypted ++ be_encode 8 this_failed ++
  be_encode 8 total_decrypted ++ be_encode 8 total_failed.

(** [on_error]: the counters and a record in the handshake stream. *)
Definition on_error (id : DirectedId) (data : bytes) st (w : W)
    : NoiseState I * W * DbResult unit :=
  let w := add_failed (blen data) w in
  let st := mkNoise (machine st) (initiator_is_incoming st) (n_error st) (n_inner st)
              (n_decrypted st) (wrap 64 (n_failed st + blen data)) (mux_proposed st) in
  let '(w, r) := db_update (mkStats (blen data) 0 0 0) (incoming id) w in
  match r with
  | Err e => (st, w, Err e)
  | Ok _ =>
      let b := failure_record (n_decrypted st) (n_failed st) (total_decrypted w) (total_failed w) in
      let '(w, r) := add_handshake id b w in
      (st, w, match r with Ok _ => Ok tt | Err e => Err e end)
  end.

Definition set_machine (m : option St) (i : bool) st : NoiseState I :=
  mkNoise m i (n_error st) (n_inner st) (n_decrypted st) (n_failed st) (mux_proposed st).
Definition set_n_error st : NoiseState I :=
  mkNoise (machine st) (initiator_is_incoming st) true (n_inner st) (n_decrypted st)
    (n_failed st) (mux_proposed st).
Definition set_n_inner (i : I) st : NoiseState I :=
  mkNoise (machine st) (initiator_is_incoming st) (n_error st) i (n_decrypted st)
    (n_failed st) (mux_proposed st).
Definition set_mux (m : option (DirectedId * bytes)) st : NoiseState I :=
  mkNoise (machine st) (initiator_is_incoming st) (n_error st) (n_inner st) (n_decrypted st)
    (n_failed st) m.
Definition count_decrypted (n : Z) st : NoiseState I :=
  mkNoise (machine st) (initiator_is_incoming st) (n_error st) (n_inner st)
    (wrap 64 (n_decrypted st + n)) (n_failed st) (mux_proposed st).

(** The inner layer on [data], its error returned by [?]. *)
Definition inner_on_data (id : DirectedId) (data : bytes) st (w : W)
    : outcome (NoiseState I * W * DbResult unit) :=
  '(i, w, r) ← on_data id data (n_inner st) w; Ret (set_n_inner i st, w, r).

(** What is done with the plaintext of the second and third handshake message
    and of a transport message; [m] is the machine before the message. *)
Definition on_plaintext (m : option St) (id : DirectedId) (data : bytes) st (w : W)
    : outcome (NoiseState I * W * DbResult unit) :=
  match m with
  | None => Ret (st, w, Ok tt)
  | Some (FirstMessage _ _) =>
      let '(w, r) := add_handshake id data w in
      match r with
      | Err e => Ret (st, w, Err e)
      | Ok _ =>
          match envelope_payload data with
          | None => Ret (st, w, Err DbDecode)
          | Some payload =>
              if blen payload =? 0 then Ret (st, w, Ok tt)
              else
                rest ← slice_from 1 payload;
                Ret (set_mux (Some (id, rest)) st, w, Ok tt)
          end
      end
  | Some (SecondMessage _ _) =>
      let '(w, r) := add_handshake id data w in
      match r with
      | Err e => Ret (st, w, Err e)
      | Ok _ =>
          match envelope_payload data with
          | None => Ret (st, w, Err DbDecode)
          | Some payload =>
              if blen payload =? 0 then Ret (st, w, Ok tt)
              else
                match mux_proposed st with
                | None => Ret (st, w, Ok tt)
                | Some (prev_id, prev_payload) =>
                    let st := set_mux None st in
                    prev ← slice_from 1 prev_payload;
                    '(st, w, r) ← inner_on_data prev_id prev st w;
                    match r with
                    | Err e => Ret (st, w, Err e)
                    | Ok _ =>
                        rest ← slice_from 1 payload;
                        inner_on_data id rest st w
                    end
                end
          end
      end
  | Some (Transport _ _) => inner_on_data id data st w
  end.

#[export] Instance noise_handle : HandleData W (NoiseState I) := fun id data st w =>
  if n_error st then let '(st, w, r) := on_error id data st w in Ret (st, w, r)
  else
    let m := machine st in
    '(m', i, w, data, res) ← machine_step m (initiator_is_incoming st) (incoming id) data w;
    let st := set_machine m' i st in
    match res with
    | Err _ => let '(st, w, r) := on_error id data (set_n_error st) w in Ret (st, w, r)
    | Ok (a, b) =>
        plain ← slice a b data;
        let st := count_decrypted (blen plain) st in
        let w := add_decrypted (blen plain) w in
        let '(w, r) := db_update (mkStats (blen plain) (blen plain) 1 0) (incoming id) w in
        match r with
        | Err e => Ret (st, w, Err e)
        | Ok _ => on_plaintext m id plain st w
        end
    end.

End NoiseHandle.

(** * Properties *)

(** Authenticated decryption keeps the length (the tag is separate). *)
Class NoiseLaws `{NoisePrims} : Prop := {
  key_decrypt_length : forall c t k p k', key_decrypt c t k = Some (p, k') -> length p = length c;
  cipher_decrypt_length : forall c t k p k', cipher_decrypt c t k = Some (p, k') -> length p = length c;
}.

(** What is read back from a spliced buffer. *)
Lemma splice_slice (a b : Z) (x data : bytes) :
  0 <= a <= b -> b <= blen data -> blen x = b - a ->
  blen (splice a b x data) = blen data /\ slice a b (splice a b x data) = Ret x.
Proof.
  intros Ha Hb Hx. unfold splice.
  assert (E : blen (take (Z.to_nat a) data ++ x ++ drop (Z.to_nat b) data) = blen data).
  { rewrite !blen_app, blen_take, blen_drop by lia. lia. }
  split; [done|]. rewrite slice_within by lia.
  assert (length (take (Z.to_nat a) data) = Z.to_nat a) as L
    by (rewrite length_take; unfold blen in *; lia).
  rewrite drop_app_length' by lia.
  rewrite take_app_length' by (unfold blen in *; lia). done.
Qed.

Section NoiseProperties.
Context `{NoiseLaws} {W : Type} `{!NoiseCx W}.

(** The search for keys returns. *)
Hypothesis search_returns : forall e pk (w : W), exists w' sk, reproduced_sk e pk w = Ret (w', sk).

Lemma find_any_returns (pk : bytes) (w : W) : exists w' sk, find_any pk w = Ret (w', sk).
Proof.
  unfold find_any, find_sk_openmina. destruct (find_sk pk w); [by eauto|].
  destruct (search_returns true pk w) as (w1 & [sk|] & ->); cbn; [by eauto|].
  destruct (search_returns false pk w1) as (w2 & sk & ->). cbn. by eauto.
Qed.

Lemma try_dh_returns (a b : bytes) (w : W) : exists w' ss, try_dh a b w = Ret (w', ss).
Proof.
  unfold try_dh. destruct (find_any_returns a w) as (w1 & [sk|] & ->); cbn; [by eauto|].
  destruct (find_any_returns b w1) as (w2 & sk & ->). cbn. by eauto.
Qed.

(** A slice in range, and its length. *)
Lemma slice_ok (a b : Z) (l : bytes) :
  0 <= a <= b -> b <= blen l -> exists s, slice a b l = Ret s /\ blen s = b - a.
Proof.
  intros Ha Hb. rewrite slice_within by lia. eexists. split; [done|].
  rewrite blen_take; [done|]. rewrite blen_drop; lia.
Qed.

Lemma slice_from_ok (a : Z) (l : bytes) : 0 <= a <= blen l -> exists s, slice_from a l = Ret s.
Proof. intros Ha. rewrite slice_from_within by lia. eauto. Qed.

#[local] Ltac next_slice :=
  match goal with
  | |- context [mbind _ (slice ?a ?b ?l)] => destruct (slice_ok a b l) as (? & -> & ?); [lia..|]
  | |- context [mbind _ (slice_from ?a ?l)] => destruct (slice_from_ok a l) as (? & ->); [lia|]
  end; cbn [mbind outcome_bind].

(** A decryption or a key search that fails ends the step with an error. *)
#[local] Ltac next_crypto :=
  match goal with
  | |- context [mbind _ (try_dh ?a ?b ?w)] =>
      destruct (try_dh_returns a b w) as (? & [?|] & ->); cbn [mbind outcome_bind]; [|by eauto 20]
  | |- context [match key_decrypt ?c ?t ?k with _ => _ end] =>
      let E := fresh "E" in
      destruct (key_decrypt c t k) as [[??]|] eqn:E; [apply key_decrypt_length in E|by eauto 20]
  | |- context [match cipher_decrypt ?c ?t ?k with _ => _ end] =>
      let E := fresh "E" in
      destruct (cipher_decrypt c t k) as [[??]|] eqn:E; [apply cipher_decrypt_length in E|by eauto 20]
  | |- context [match key_finish ?k with _ => _ end] => destruct (key_finish k)
  end.

(** Reading a message never panics as long as the search for keys returns: every slice is in range, an error clears
    the machine, a success gives a range inside the message. *)
Lemma machine_step_ok (m : option St) (i inc : bool) (data : bytes) (w : W) :
  exists m' i' w' data' res,
    machine_step m i inc data w = Ret (m', i', w', data', res) /\ blen data' = blen data /\
    match res with
    | Err _ => m' = None
    | Ok (a, b) => 0 <= a <= b /\ b <= blen data
    end.
Proof.
  assert (K : forall a b c, 0 <= a <= b -> b <= blen data -> length c = Z.to_nat (b - a) ->
    blen (splice a b c data) = blen data).
  { intros a b c Ha Hb Hc. apply splice_slice; try done. unfold blen. lia. }
  unfold machine_step. destruct m as [[st e|st e|ir rr]|].
  1: destruct (Z.ltb_spec (blen data) 98); [by eauto 20|].
  2: destruct (Z.ltb_spec (blen data) 98); [by eauto 20|].
  3: destruct (Z.ltb_spec (blen data) 18); [by eauto 20|].
  4: destruct (Z.ltb_spec (blen data) 34); [by eauto 20|].
  4: destruct (Z.ltb_spec 34 (blen data)); [by eauto 20|].
  all: repeat next_slice; repeat next_crypto; do 5 eexists; split; [done|].
  4: split; [done|lia].
  all: split; [apply K|]; unfold blen in *; lia.
Qed.

End NoiseProperties.

(** A world with the recording database and no recorded keys, for concrete
    runs; the global counters are kept beside the calls. *)
Record noise_world : Type := mkWorld { calls : list db_call; decrypted : Z; failed : Z }.

#[export] Instance noise_world_db : DbGroup noise_world := {|
  db_add_raw s inc t data w := (mkWorld (calls w ++ [CallAddRaw s inc t data]) (decrypted w) (failed w), Ok 0);
  db_update s inc w := (mkWorld (calls w ++ [CallUpdate s inc]) (decrypted w) (failed w), Ok tt);
  db_stream_add sid did k data w :=
    (mkWorld (calls w ++ [CallAdd sid (incoming did) k data]) (decrypted w) (failed w), Ok 0);
|}.

#[export] Instance noise_world_cx : NoiseCx noise_world := {|
  iterate_randomness _ := [];
  reproduced_sk _ _ w := Ret (w, None);
  add_decrypted n w := mkWorld (calls w) (wrap 64 (decrypted w + n)) (failed w);
  add_failed n w := mkWorld (calls w) (decrypted w) (wrap 64 (failed w + n));
  total_decrypted := decrypted;
  total_failed := failed;
|}.

(** [on_data] for a sequence of messages. *)
Fixpoint noise_run `{NoisePrims} (evs : list (DirectedId * bytes)) (st : NoiseState Sink)
    (w : noise_world) : outcome (NoiseState Sink * noise_world) :=
  match evs with
  | [] => Ret (st, w)
  | (id, data) :: evs => '(st, w, _) ← on_data id data st w; noise_run evs st w
  end.

(** One cipher on the messages of one direction: each is a length, a body and a
    tag of sixteen bytes. *)
Fixpoint cipher_run `{NoisePrims} (msgs : list bytes) (c : Cipher) : option (list bytes * Cipher) :=
  match msgs with
  | [] => Some ([], c)
  | m :: msgs =>
      if blen m <? 18 then None
      else
        match cipher_decrypt (take (Z.to_nat (blen m - 18)) (drop 2 m))
                (drop (Z.to_nat (blen m - 16)) m) c with
        | None => None
        | Some (p, c) =>
            match cipher_run msgs c with
            | None => None
            | Some (ps, c) => Some (p :: ps, c)
            end
        end
  end.

(** The messages of one direction. *)
Definition dir_events (inc : bool) (evs : list (DirectedId * bytes)) : list bytes :=
  omap (fun ev => if Bool.eqb (incoming ev.1) inc then Some ev.2 else None) evs.

Section Transport.
Context `{NoiseLaws}.
Implicit Types (st : NoiseState Sink) (w : noise_world).

(** One transport message. *)
Lemma noise_transport_step (id : DirectedId) (data : bytes) st w (ir rr c' : Cipher) (p : bytes) :
  let i := initiator_is_incoming st in
  n_error st = false -> machine st = Some (Transport ir rr) -> 18 <= blen data ->
  cipher_decrypt (take (Z.to_nat (blen data - 18)) (drop 2 data))
    (drop (Z.to_nat (blen data - 16)) data) (if Bool.eqb (incoming id) i then ir else rr)
  = Some (p, c') ->
  exists st' w', on_data id data st w = Ret (st', w', Ok tt) /\ n_error st' = false /\
    initiator_is_incoming st' = i /\
    machine st' = Some (if Bool.eqb (incoming id) i then Transport c' rr else Transport ir c') /\
    n_inner st' = n_inner st ++ [(incoming id, p)].
Proof.
  intros i He Hm Hl Hd. unfold on_data at 1, noise_handle. rewrite He, Hm.
  unfold machine_step. fold i.
  rewrite (proj2 (Z.ltb_ge _ _)), slice_from_within, slice_within by lia.
  cbn [mbind outcome_bind]. change (Z.to_nat 2) with 2%nat.
  replace (blen data - 16 - 2) with (blen data - 18) by lia. rewrite Hd.
  cbn [mbind outcome_bind]. apply cipher_decrypt_length in Hd as Hpl.
  destruct (splice_slice 2 (blen data - 16) p data) as [_ ->]; [lia..| |].
  { unfold blen in *. rewrite Hpl, length_take, length_drop. lia. }
  cbn. unfold inner_on_data. cbn. do 2 eexists. split; [done|]. done.
Qed.

Lemma dir_events_cons (b : bool) (id : DirectedId) (data : bytes) evs :
  dir_events b ((id, data) :: evs)
  = (if Bool.eqb (incoming id) b then [data] else []) ++ dir_events b evs.
Proof. unfold dir_events. cbn. by destruct (Bool.eqb (incoming id) b). Qed.

Lemma cipher_run_cons (m : bytes) (ms : list bytes) (c : Cipher) ps c' :
  cipher_run (m :: ms) c = Some (ps, c') ->
  exists p c1 ps', 18 <= blen m /\
    cipher_decrypt (take (Z.to_nat (blen m - 18)) (drop 2 m))
      (drop (Z.to_nat (blen m - 16)) m) c = Some (p, c1) /\
    cipher_run ms c1 = Some (ps', c') /\ ps = p :: ps'.
Proof.
  cbn. destruct (Z.ltb_spec (blen m) 18); [done|].
  destruct (cipher_decrypt _ _ _) as [[p c1]|] eqn:Ed; [|done].
  destruct (cipher_run ms c1) as [[ps' c2]|] eqn:Er; [|done]. intros [= <- <-]. eauto 10.
Qed.

Lemma dir_msgs_snoc (b inc : bool) (s : Sink) (p : bytes) :
  dir_msgs b (s ++ [(inc, p)]) = dir_msgs b s ++ (if Bool.eqb inc b then [p] else []).
Proof. rewrite dir_msgs_app. f_equal. unfold dir_msgs. cbn. by destruct (Bool.eqb inc b). Qed.

End Transport.

(** C13: the two ciphers of a Noise session stay independent. In the transport
    phase, whatever the interleaving of the two directions, each direction is
    decrypted with its own cipher in its own order: if the messages of each
    direction decrypt one after the other, the session delivers exactly those
    plaintexts for each direction and ends with both ciphers advanced. *)
Theorem noise_transport_independent `{NoiseLaws} (evs : list (DirectedId * bytes))
    (st : NoiseState Sink) (w : noise_world) (ir rr ci cr : Cipher) (pi pr : list bytes) :
  n_error st = false -> machine st = Some (Transport ir rr) ->
  cipher_run (dir_events (initiator_is_incoming st) evs) ir = Some (pi, ci) ->
  cipher_run (dir_events (negb (initiator_is_incoming st)) evs) rr = Some (pr, cr) ->
  exists st' w', noise_run evs st w = Ret (st', w') /\ n_error st' = false /\
    machine st' = Some (Transport ci cr) /\
    dir_msgs (initiator_is_incoming st) (n_inner st')
    = dir_msgs (initiator_is_incoming st) (n_inner st) ++ pi /\
    dir_msgs (negb (initiator_is_incoming st)) (n_inner st')
    = dir_msgs (negb (initiator_is_incoming st)) (n_inner st) ++ pr.
Proof.
  remember (initiator_is_incoming st) as i eqn:Ei. symmetry in Ei.
  revert st w ir rr pi pr Ei. induction evs as [|[id data] evs IH];
    intros st w ir rr pi pr Ei He Hm Hi Hr.
  { injection Hi as <- <-. injection Hr as <- <-. exists st, w. by rewrite !app_nil_r. }
  cbn [noise_run]. rewrite dir_events_cons in Hi, Hr.
  destruct (Bool.eqb (incoming id) i) eqn:Eb.
  - assert (En : Bool.eqb (incoming id) (negb i) = false) by (destruct (incoming id), i; done).
    rewrite En in Hr. apply cipher_run_cons in Hi as (p & c1 & ps & Hl & Hd & Hi & ->).
    destruct (noise_transport_step id data st w ir rr c1 p He Hm Hl) as (st1 & w1 & -> & He1 & Hi1 & Hm1 & Hn1);
      [by rewrite Ei, Eb|].
    rewrite Ei, Eb in Hm1. cbn [mbind outcome_bind].
    destruct (IH st1 w1 c1 rr ps pr) as (st' & w' & E & ? & ? & Hp & Hq); [congruence|done..|].
    exists st', w'. rewrite Hn1, !dir_msgs_snoc, Eb, En, app_nil_r, <- app_assoc in *. done.
  - assert (En : Bool.eqb (incoming id) (negb i) = true) by (destruct (incoming id), i; done).
    rewrite En in Hr. apply cipher_run_cons in Hr as (p & c1 & ps & Hl & Hd & Hr & ->).
    destruct (noise_transport_step id data st w ir rr c1 p He Hm Hl) as (st1 & w1 & -> & He1 & Hi1 & Hm1 & Hn1);
      [by rewrite Ei, Eb|].
    rewrite Ei, Eb in Hm1. cbn [mbind outcome_bind].
    destruct (IH st1 w1 ir c1 pi ps) as (st' & w' & E & ? & ? & Hp & Hq); [congruence|done..|].
    exists st', w'. rewrite Hn1, !dir_msgs_snoc, Eb, En, app_nil_r, <- app_assoc in *. done.
Qed.

(** * Failures *)

(** [decode::noise::parse_types]: how a stored handshake message is read. *)
Definition noise_parse_types (data : bytes) : list MessageType :=
  [if starts_with mismatch_prefix data then FailedToDecrypt else HandshakePayload].

(** The database calls of one undecryptable message: its size, and a record. *)
Definition failure_calls (ev : DirectedId * bytes) (record : bytes) : list db_call :=
  [CallUpdate (mkStats (blen ev.2) 0 0 0) (incoming ev.1);
   CallAdd SHandshake (incoming ev.1) KHandshake record].

(** C14: a session that failed to decrypt stays failed. From then on every
    message is only counted and recorded: the layer above is never called
    again, the cipher state is untouched, the failed bytes are added up, and each
    record has forty-eight bytes and is read back as a decryption failure. *)
Theorem noise_failure_is_final `{NoisePrims} (evs : list (DirectedId * bytes))
    (st : NoiseState Sink) (w : noise_world) :
  n_error st = true -> 0 <= n_failed st < 2 ^ 64 ->
  exists st' w' records, noise_run evs st w = Ret (st', w') /\
    n_error st' = true /\ n_inner st' = n_inner st /\ machine st' = machine st /\
    n_failed st' = wrap 64 (n_failed st + blen (concat (snd <$> evs))) /\
    calls w' = calls w ++ concat (zip_with failure_calls evs records) /\
    length records = length evs /\
    Forall (fun r => noise_parse_types r = [FailedToDecrypt] /\ blen r = 48) records.
Proof.
  revert st w. induction evs as [|[id data] evs IH]; intros st w He Hf.
  { exists st, w, []. cbn. rewrite app_nil_r, Z.add_0_r, wrap_small by done. split_and!; done. }
  cbn [noise_run]. unfold on_data at 1, noise_handle. rewrite He. cbn.
  match goal with |- context [noise_run evs ?s ?x] =>
    destruct (IH s x) as (st' & w' & rs & -> & He' & Hi & Hm & Hn & Hc & Hl & Hr) end.
  { done. }
  { apply wrap_bound. lia. }
  cbn in Hi, Hm, Hn, Hc.
  exists st', w', (failure_record (n_decrypted st) (wrap 64 (n_failed st + blen data))
                     (decrypted w) (wrap 64 (failed w + blen data)) :: rs).
  split_and!; try done.
  - rewrite Hn. unfold wrap. cbn. rewrite Zplus_mod_idemp_l, blen_app. f_equal. lia.
  - rewrite Hc, <- !app_assoc. reflexivity.
  - cbn. by rewrite Hl.
  - constructor; [|done]. unfold noise_parse_types, failure_record. split.
    + by rewrite starts_with_app.
    + rewrite !blen_app, !blen_be_encode. reflexivity.
Qed.

(** A handshake whose second message carried a payload of one byte: the first
    byte is dropped when it is kept and once more when it is used, so the third
    message panics. *)
Lemma third_message_panics `{NoisePrims} (st : NoiseState Sink) (w : noise_world)
    (id prev_id : DirectedId) (data payload : bytes) k e :
  envelope_payload data = Some payload -> payload <> [] ->
  mux_proposed st = Some (prev_id, []) ->
  on_plaintext (Some (SecondMessage k e)) id data st w = Panic.
Proof.
  intros Hp Hne Hm. cbn. rewrite Hp, Hm. destruct (Z.eqb_spec (blen payload) 0) as [E|]; [|done].
  destruct payload; [done|]. rewrite blen_cons in E. pose proof (blen_nonneg payload). lia.
Qed.

(** ** A concrete session *)

(** A cipher that counts its messages: the tag repeats the counter and the body
    is shifted by it. *)
Definition demo_decrypt (body tag : bytes) (c : Z) : option (bytes * Z) :=
  if decide (tag = repeat c 16) then Some ((fun b => (b - c) mod 256) <$> body, c + 1) else None.

Definition demo_prims : NoisePrims := {|
  SymCk := unit; SymKey := Z; Cipher := Z;
  sym_new _ := tt; sym_mix_hash _ s := s; sym_mix_shared_secret _ _ := 0;
  key_mix_shared_secret _ k := k; key_decrypt := demo_decrypt;
  key_finish k := (k, k); cipher_swap c := c; cipher_decrypt := demo_decrypt;
  scalar_from_bits s := s; base_mul_montgomery s := s; point_mul p _ := p;
  envelope_payload d := Some d;
|}.

Lemma demo_decrypt_length (c t : bytes) (k k' : Z) (p : bytes) :
  demo_decrypt c t k = Some (p, k') -> length p = length c.
Proof. unfold demo_decrypt. case_decide; [|done]. intros [= <- _]. apply length_fmap. Qed.

Lemma demo_laws : @NoiseLaws demo_prims.
Proof. split; cbn; intros; by eapply demo_decrypt_length. Qed.

Definition demo_session : @NoiseState demo_prims Sink :=
  @mkNoise demo_prims Sink (Some (@Transport demo_prims 5 9)) true false [] 0 0 None.

Definition out_id : DirectedId := mkDirectedId default_metadata [] false 0.

Lemma noise_transport_independent_witness :
  exists st' w', @noise_run demo_prims
      [(default_id, [0; 18; 6; 7] ++ repeat 5 16); (out_id, [0; 17; 9] ++ repeat 9 16);
       (default_id, [0; 17; 8] ++ repeat 6 16)] demo_session (mkWorld [] 0 0) = Ret (st', w') /\
    dir_msgs true (n_inner st') = [[1; 2]; [2]] /\ dir_msgs false (n_inner st') = [[0]].
Proof.
  destruct (@noise_transport_independent demo_prims demo_laws
    [(default_id, [0; 18; 6; 7] ++ repeat 5 16); (out_id, [0; 17; 9] ++ repeat 9 16);
     (default_id, [0; 17; 8] ++ repeat 6 16)] demo_session (mkWorld [] 0 0) 5 9 7 10
    [[1; 2]; [2]] [[0]]) as (st' & w' & E & _ & _ & Hi & Hr); [reflexivity..|].
  exists st', w'. split; [exact E|]. split; [exact Hi|exact Hr].
Defined.

Lemma noise_failure_is_final_witness :
  exists st' w', @noise_run demo_prims [(default_id, [1; 2; 3])]
      (@mkNoise demo_prims Sink None true true [] 0 0 None) (mkWorld [] 0 0) = Ret (st', w') /\
    n_failed st' = 3 /\ n_inner st' = [].
Proof.
  destruct (@noise_failure_is_final demo_prims [(default_id, [1; 2; 3])]
    (@mkNoise demo_prims Sink None true true [] 0 0 None) (mkWorld [] 0 0))
    as (st' & w' & rs & E & _ & Hi & _ & Hn & _); [reflexivity|cbn; lia|].
  exists st', w'. split; [exact E|]. split; [exact Hn|exact Hi].
Defined.
