(* ===== verification/Pnet.v ===== *)
(** The private network layer ([mina-recorder/src/connection/pnet.rs]): each
    direction starts with a nonce of 24 bytes and is encrypted with XSalsa20
    under a key derived from the chain id. *)

From stdpp Require Import base list strings.
From Stdlib Require Import ZArith Lia.
From S2P Require Import Prelude Types Handle.

(** [XSalsa20] and [Blake2b]: a cipher from a key and a nonce, the keystream
    applied to a slice, and the digest of 32 bytes. *)
Class StreamCipher : Type := {
  XSalsa20 : Type;
  xsalsa_new : bytes -> bytes -> XSalsa20;
  apply_keystream : bytes -> XSalsa20 -> bytes * XSalsa20;
  blake2b_32 : bytes -> bytes;
}.

(** A stream cipher works byte by byte: cutting the data does not change the
    keystream. *)
Class StreamCipherLaws `{StreamCipher} : Prop := {
  keystream_app : forall a b c,
    apply_keystream (a ++ b) c
    = let '(a', c1) := apply_keystream a c in
      let '(b', c2) := apply_keystream b c1 in (a' ++ b', c2);
  keystream_nil : forall c, apply_keystream [] c = ([], c);
}.

Section Pnet.
Context `{!StreamCipher}.

Record State (I : Type) : Type := mkState {
  shared_secret : bytes;
  cipher_in : option XSalsa20;
  cipher_out : option XSalsa20;
  skip : bool;
  p_inner : I;
}.

Definition shared_secret_of (chain_id : bytes) : bytes := blake2b_32 chain_id.

End Pnet.
Arguments mkState {_ I}.
Arguments shared_secret {_ I}.
Arguments cipher_in {_ I}.
Arguments cipher_out {_ I}.
Arguments skip {_ I}.
Arguments p_inner {_ I}.

Section PnetOps.
Context `{!StreamCipher} {I : Type}.
Implicit Types st : State I.

Definition pnet_new `{!FromStreamId I} (chain_id : bytes) : State I :=
  mkState (shared_secret_of chain_id) None None false (from_stream_id SHandshake).

Definition cipher (incoming : bool) st : option XSalsa20 :=
  if incoming then cipher_in st else cipher_out st.

Definition set_cipher (incoming : bool) (c : option XSalsa20) st : State I :=
  if incoming then mkState (shared_secret st) c (cipher_out st) (skip st) (p_inner st)
  else mkState (shared_secret st) (cipher_in st) c (skip st) (p_inner st).

Definition set_skip st : State I :=
  mkState (shared_secret st) (cipher_in st) (cipher_out st) true (p_inner st).

Definition set_p_inner (i : I) st : State I :=
  mkState (shared_secret st) (cipher_in st) (cipher_out st) (skip st) i.

Context {W : Type} `{!DbGroup W, !HandleData W I}.

(** [on_data]; the recursive call on the data after the nonce finds the cipher
    set, so a depth of two is enough. *)
Fixpoint pnet_on_data (depth : nat) (id : DirectedId) (data : bytes) st (w : W)
    : outcome (State I * W * DbResult unit) :=
  match depth with
  | O => OutOfFuel
  | S depth =>
      if skip st then Ret (st, w, Ok tt)
      else
        let inc := incoming id in
        let time := md_time (metadata id) in
        let '(w, r) := db_add_raw Raw inc time data w in
        match r with
        | Err e => Ret (st, w, Err e)
        | Ok _ =>
            match cipher inc st with
            | Some c =>
                let '(data, c) := apply_keystream data c in
                let st := set_cipher inc (Some c) st in
                let '(w, r) := db_add_raw DecryptedPnet inc time data w in
                match r with
                | Err e => Ret (st, w, Err e)
                | Ok _ =>
                    '(i, w, r) ← on_data id data (p_inner st) w;
                    Ret (set_p_inner i st, w, r)
                end
            | None =>
                if blen data <? 24 then Ret (set_skip st, w, Ok tt)
                else
                  nonce ← slice_to 24 data;
                  let st := set_cipher inc (Some (xsalsa_new (shared_secret st) nonce)) st in
                  if 24 <? blen data then
                    rest ← slice_from 24 data;
                    pnet_on_data depth id rest st w
                  else Ret (st, w, Ok tt)
            end
        end
  end.

#[export] Instance pnet_handle : HandleData W (State I) := pnet_on_data 2.

End PnetOps.

(** * Properties *)

(** [on_data] for chunks of both directions. *)
Fixpoint pnet_run `{StreamCipher} (evs : list (DirectedId * bytes)) (st : State Sink)
    (w : list db_call) : outcome (State Sink * list db_call) :=
  match evs with
  | [] => Ret (st, w)
  | (id, data) :: evs => '(st, w, _) ← on_data id data st w; pnet_run evs st w
  end.

(** The bytes of one direction, and what the inner layer received for it. *)
Definition dir_bytes (inc : bool) (evs : list (DirectedId * bytes)) : bytes :=
  concat (omap (fun ev => if Bool.eqb (incoming ev.1) inc then Some ev.2 else None) evs).

Definition dir_payload (inc : bool) (s : Sink) : bytes :=
  concat (omap (fun p => if Bool.eqb p.1 inc then Some p.2 else None) s).

(** The first chunk of each direction holds the whole nonce. *)
Fixpoint starts_ok (inc : bool) (evs : list (DirectedId * bytes)) : bool :=
  match evs with
  | [] => true
  | (id, data) :: evs =>
      if Bool.eqb (incoming id) inc then 24 <=? blen data else starts_ok inc evs
  end.

(** What the layer promises for one direction that has received [l] in all:
    nothing below the nonce, then the rest decrypted with a cipher that has
    advanced over it. *)
Definition promise `{StreamCipher} (key : bytes) (l : bytes) (c : option XSalsa20) (out : bytes)
    : Prop :=
  match c with
  | None => l = [] /\ out = []
  | Some c => 24 <= blen l /\
      apply_keystream (drop 24 l) (xsalsa_new key (take 24 l)) = (out, c)
  end.

Lemma dir_payload_snoc (b inc : bool) (s : Sink) (p : bytes) :
  dir_payload b (s ++ [(inc, p)]) = dir_payload b s ++ (if Bool.eqb inc b then p else []).
Proof.
  unfold dir_payload. rewrite omap_app, concat_app. f_equal. cbn.
  destruct (Bool.eqb inc b); cbn; by rewrite ?app_nil_r.
Qed.

Section PnetProperties.
Context `{StreamCipherLaws}.
Implicit Types st : State Sink.

Lemma cipher_set (b b' : bool) (c : option XSalsa20) st :
  cipher b' (set_cipher b c st) = if Bool.eqb b b' then c else cipher b' st.
Proof. by destruct b, b'. Qed.

(** Data for a direction whose cipher is set. *)
Lemma pnet_decrypts (depth : nat) (id : DirectedId) (data : bytes) st (w : list db_call) (c : XSalsa20) :
  skip st = false -> cipher (incoming id) st = Some c ->
  exists w', pnet_on_data (S depth) id data st w
    = Ret (set_p_inner (p_inner st ++ [(incoming id, (apply_keystream data c).1)])
             (set_cipher (incoming id) (Some (apply_keystream data c).2) st), w', Ok tt).
Proof.
  intros Hs Hc. cbn [pnet_on_data]. rewrite Hs. cbn [db_add_raw trace_db]. rewrite Hc.
  destruct (apply_keystream data c) as [d c']. destruct (incoming id) eqn:Ei; cbn; rewrite Ei; by eexists.
Qed.

(** More data of a direction that has its nonce. *)
Lemma promise_app (key l data out : bytes) (c : XSalsa20) :
  promise key l (Some c) out ->
  promise key (l ++ data) (Some (apply_keystream data c).2) (out ++ (apply_keystream data c).1).
Proof.
  intros [Hl Hk]. split; [len_lia|].
  rewrite drop_app_le, take_app_le by (unfold blen in Hl; lia).
  rewrite keystream_app, Hk. by destruct (apply_keystream data c).
Qed.

(** What one call is to establish: [st'] after a chunk [d] of direction [inc],
    when the directions had received [l] before. *)
Definition step_ok (key : bytes) (inc : bool) (l : bool -> bytes) (d : bytes)
    (other : option XSalsa20) (st' : State Sink) : Prop :=
  skip st' = false /\ shared_secret st' = key /\ cipher inc st' <> None /\
  cipher (negb inc) st' = other /\
  forall b, promise key (if Bool.eqb inc b then l b ++ d else l b)
              (cipher b st') (dir_payload b (p_inner st')).

Lemma pnet_step_set (depth : nat) (id : DirectedId) (d : bytes) st (w : list db_call)
    (l : bool -> bytes) (c : XSalsa20) :
  skip st = false -> cipher (incoming id) st = Some c ->
  (forall b, promise (shared_secret st) (l b) (cipher b st) (dir_payload b (p_inner st))) ->
  exists st' w', pnet_on_data (S depth) id d st w = Ret (st', w', Ok tt) /\
    step_ok (shared_secret st) (incoming id) l d (cipher (negb (incoming id)) st) st'.
Proof.
  intros Hs Hc Hp. destruct (pnet_decrypts depth id d st w c Hs Hc) as [w' ->].
  eexists _, w'. split; [done|]. set (inc := incoming id) in *.
  split; [by destruct inc|]. split; [by destruct inc|]. split; [by destruct inc|].
  split; [by destruct inc|]. intros b. specialize (Hp b).
  change (p_inner (set_p_inner ?i _)) with i.
  change (cipher b (set_p_inner _ ?s)) with (cipher b s). rewrite dir_payload_snoc, cipher_set.
  destruct (Bool.eqb inc b) eqn:Eb.
  - apply eqb_prop in Eb as <-. rewrite Hc in Hp. by apply promise_app.
  - by rewrite app_nil_r.
Qed.

(** One chunk keeps the promise of both directions. *)
Lemma pnet_step (id : DirectedId) (data : bytes) st (w : list db_call) (l : bool -> bytes) :
  skip st = false -> (cipher (incoming id) st = None -> 24 <= blen data) ->
  (forall b, promise (shared_secret st) (l b) (cipher b st) (dir_payload b (p_inner st))) ->
  exists st' w', on_data id data st w = Ret (st', w', Ok tt) /\
    step_ok (shared_secret st) (incoming id) l data (cipher (negb (incoming id)) st) st'.
Proof.
  intros Hs Hc Hp. unfold on_data at 1, pnet_handle.
  destruct (cipher (incoming id) st) as [c|] eqn:Ec; [by eapply pnet_step_set|].
  specialize (Hc eq_refl). cbn [pnet_on_data]. rewrite Hs. cbn [db_add_raw trace_db].
  rewrite Ec, (proj2 (Z.ltb_ge _ _)), slice_to_within by lia. cbn [mbind outcome_bind].
  change (Z.to_nat 24) with 24%nat. set (inc := incoming id) in *.
  set (st1 := set_cipher inc (Some (xsalsa_new (shared_secret st) (take 24 data))) st).
  assert (El : l inc = [] /\ dir_payload inc (p_inner st) = []).
  { specialize (Hp inc). by rewrite Ec in Hp. }
  destruct El as [El Eo].
  assert (P1 : forall b, promise (shared_secret st) (if Bool.eqb inc b then take 24 data else l b)
    (cipher b st1) (dir_payload b (p_inner st1))).
  { intros b. specialize (Hp b). unfold st1. rewrite cipher_set.
    replace (p_inner (set_cipher inc _ st)) with (p_inner st) by (by destruct inc).
    destruct (Bool.eqb inc b) eqn:Eb; [|done]. apply eqb_prop in Eb as <-.
    split; [rewrite (blen_take 24); lia|].
    rewrite take_take, drop_ge, keystream_nil, Eo by (rewrite length_take; lia). done. }
  destruct (Z.ltb_spec 24 (blen data)) as [Hlt|Hge].
  - rewrite slice_from_within by lia. cbn [mbind outcome_bind].
    destruct (pnet_step_set 0 id (drop (Z.to_nat 24) data) st1
      (w ++ [CallAddRaw Raw inc (md_time (metadata id)) data])
      (fun b => if Bool.eqb inc b then take 24 data else l b)
      (xsalsa_new (shared_secret st) (take 24 data))) as (st' & w' & E & S1 & S2 & S3 & S4 & S5).
    { unfold st1. by destruct inc. }
    { unfold st1. rewrite cipher_set. by rewrite eqb_reflx. }
    { replace (shared_secret st1) with (shared_secret st); [done|]. unfold st1. by destruct inc. }
    exists st', w'. split; [exact E|]. fold inc in S3, S4, S5.
    replace (shared_secret st1) with (shared_secret st) in * by (unfold st1; by destruct inc).
    split; [done|]. split; [done|]. split; [done|].
    split; [rewrite S4; unfold st1; by destruct inc|]. intros b. specialize (S5 b). cbv beta in S5.
    destruct (Bool.eqb inc b) eqn:Eb; [|done]. apply eqb_prop in Eb as <-.
    change (Z.to_nat 24) with 24%nat in S5. by rewrite El, take_drop in *.
  - exists st1. eexists. split; [done|]. unfold step_ok.
    split; [unfold st1; by destruct inc|]. split; [unfold st1; by destruct inc|].
    split; [unfold st1; by destruct inc|]. split; [unfold st1; by destruct inc|].
    intros b. specialize (P1 b). destruct (Bool.eqb inc b) eqn:Eb; [|done].
    apply eqb_prop in Eb as <-. rewrite El. rewrite take_ge in P1 by (unfold blen in *; lia). done.
Qed.

End PnetProperties.

(** What the layer delivers for a direction that received [l]. *)
Definition plaintext `{StreamCipher} (key l : bytes) : bytes :=
  match l with
  | [] => []
  | _ => (apply_keystream (drop 24 l) (xsalsa_new key (take 24 l))).1
  end.

Lemma promise_plaintext `{StreamCipher} (key l out : bytes) (c : option XSalsa20) :
  promise key l c out -> out = plaintext key l.
Proof.
  destruct c as [c|]; cbn; [|by intros [-> ->]].
  intros [Hl Hk]. unfold plaintext. destruct l; [done|]. by rewrite Hk.
Qed.

Lemma dir_bytes_cons (b : bool) (id : DirectedId) (data : bytes) evs :
  dir_bytes b ((id, data) :: evs)
  = (if Bool.eqb (incoming id) b then data else []) ++ dir_bytes b evs.
Proof. unfold dir_bytes. cbn. by destruct (Bool.eqb (incoming id) b). Qed.

(** C15: the private network layer decrypts each direction as one stream. If the
    first chunk of each direction holds the nonce, then after any interleaving
    of chunks the inner layer has received, for each direction, the XSalsa20
    decryption of all the bytes after the nonce, under the key of the chain and
    the nonce of that direction, wherever the stream was cut (the nonce may be
    glued to data). *)
Theorem pnet_decrypts_streams `{StreamCipherLaws} (chain_id : bytes)
    (evs : list (DirectedId * bytes)) :
  starts_ok true evs = true -> starts_ok false evs = true ->
  exists st' w', pnet_run evs (pnet_new chain_id) [] = Ret (st', w') /\ skip st' = false /\
    forall inc, dir_payload inc (p_inner st')
                = plaintext (shared_secret_of chain_id) (dir_bytes inc evs).
Proof.
  cut (forall st w (l : bool -> bytes), skip st = false ->
    (forall b, cipher b st = None -> starts_ok b evs = true) ->
    (forall b, promise (shared_secret st) (l b) (cipher b st) (dir_payload b (p_inner st))) ->
    exists st' w', pnet_run evs st w = Ret (st', w') /\ skip st' = false /\
      forall b, dir_payload b (p_inner st') = plaintext (shared_secret st) (l b ++ dir_bytes b evs)).
  { intros K H1 H2. apply (K (pnet_new chain_id) [] (fun _ => [])); [done|by intros []|by intros []]. }
  induction evs as [|[id data] evs IH]; intros st w l Hs Hok Hp.
  { exists st, w. split_and!; [done..|]. intros b. unfold dir_bytes. cbn. rewrite app_nil_r.
    by eapply promise_plaintext. }
  destruct (pnet_step id data st w l Hs) as (st1 & w1 & E & S1 & S2 & S3 & S4 & S5); [|done|].
  { intros Hc. specialize (Hok (incoming id) Hc). cbn in Hok. rewrite eqb_reflx in Hok.
    by apply Z.leb_le. }
  cbn [pnet_run]. rewrite E. cbn [mbind outcome_bind].
  destruct (IH st1 w1 (fun b => if Bool.eqb (incoming id) b then l b ++ data else l b) S1)
    as (st' & w' & E' & Hs' & Hf).
  - intros b Hb. destruct (Bool.eqb (incoming id) b) eqn:Eb.
    + apply eqb_prop in Eb as <-. done.
    + assert (b = negb (incoming id)) as -> by (destruct b, (incoming id); done).
      rewrite S4 in Hb. specialize (Hok _ Hb). cbn in Hok. by rewrite Eb in Hok.
  - by rewrite S2.
  - exists st', w'. split_and!; [done..|]. intros b. rewrite Hf, S2, dir_bytes_cons.
    destruct (Bool.eqb (incoming id) b); by rewrite <- ?app_assoc.
Qed.

(** A direction that starts with a short chunk: the whole connection is
    ignored from then on. *)
Lemma pnet_skips `{StreamCipher} (evs : list (DirectedId * bytes)) (st : State Sink)
    (w : list db_call) :
  skip st = true -> pnet_run evs st w = Ret (st, w).
Proof.
  intros Hs. induction evs as [|[id data] evs IH]; [done|].
  cbn [pnet_run]. unfold on_data, pnet_handle. cbn [pnet_on_data]. by rewrite Hs.
Qed.

(** ** A concrete cipher: a counter added to each byte *)

Fixpoint demo_keystream (data : bytes) (c : Z) : bytes * Z :=
  match data with
  | [] => ([], c)
  | b :: data => let '(d, c') := demo_keystream data (c + 1) in (Z.lxor b (c mod 256) :: d, c')
  end.

Definition demo_cipher : StreamCipher := {|
  XSalsa20 := Z;
  xsalsa_new key nonce := be_decode nonce + be_decode key;
  apply_keystream := demo_keystream;
  blake2b_32 d := take 32 d;
|}.

Lemma demo_cipher_laws : @StreamCipherLaws demo_cipher.
Proof.
  split; [|done]. cbn. intros a b. induction a as [|x a IH]; intros c; cbn.
  - by destruct (demo_keystream b c).
  - rewrite IH. destruct (demo_keystream a (c + 1)) as [a' c1]. by destruct (demo_keystream b c1).
Qed.

Definition out_id : DirectedId := mkDirectedId default_metadata [] false 0.

(** The nonce glued to two bytes of data, the other direction in between. *)
Lemma pnet_decrypts_streams_witness :
  exists st' w', @pnet_run demo_cipher
      [(default_id, repeat 0 24 ++ [7; 8]); (out_id, repeat 0 24); (default_id, [9])]
      (@pnet_new demo_cipher Sink _ [3]) [] = Ret (st', w') /\
    dir_payload true (p_inner st') = [Z.lxor 7 3; Z.lxor 8 4; Z.lxor 9 5].
Proof.
  destruct (@pnet_decrypts_streams demo_cipher demo_cipher_laws [3]
    [(default_id, repeat 0 24 ++ [7; 8]); (out_id, repeat 0 24); (default_id, [9])]
    eq_refl eq_refl) as (st' & w' & E & _ & Hp).
  exists st', w'. split; [exact E|exact (Hp true)].
Defined.
