(* ===== verification/Stack.v ===== *)
(** The multiplexer choice ([connection/mux.rs]) and the protocol stack of a
    connection as [recorder.rs] composes it: private network, negotiation, Noise,
    negotiation, multiplexer, negotiation, application protocol. *)

From stdpp Require Import base list gmap strings.
From Stdlib Require Import ZArith Lia.
From S2P Require Import Prelude Types Handle Varint Accumulator.
From S2P Require Import Yamux Mplex Multistream Noise Pnet MinaProtocol.

(** * The multiplexer *)

Inductive MuxState (I : Type) : Type :=
| MMplex (st : Mplex.State I)
| MYamux (st : Yamux.State I).
Arguments MMplex {I} st.
Arguments MYamux {I} st.

#[export] Instance mux_from_name {I} : DynamicProtocol (MuxState I) := fun name sid =>
  if decide (name = str "/coda/mplex/1.0.0") then
    st ← Mplex.mplex_from_name name sid; Ret (MMplex st)
  else if decide (name = str "/coda/yamux/1.0.0") then
    st ← Yamux.yamux_from_name name sid; Ret (MYamux st)
  else Panic.

#[export] Instance mux_handle {W I} `{!Varint, !DbGroup W, !HandleData W I, !FromStreamId I}
    : HandleData W (MuxState I) := fun id data st w =>
  match st with
  | MMplex s => '(s, w, r) ← Mplex.mplex_handle id data s w; Ret (MMplex s, w, r)
  | MYamux s => '(s, w, r) ← Yamux.yamux_handle id data s w; Ret (MYamux s, w, r)
  end.

(** The names the negotiation can hand to the multiplexer: every other name
    panics. *)
Lemma mux_from_name_spec {I} (name : bytes) (sid : StreamId) :
  (from_name name sid : outcome (MuxState I)) =
    if decide (name = str "/coda/mplex/1.0.0") then Ret (MMplex Mplex.init)
    else if decide (name = str "/coda/yamux/1.0.0") then Ret (MYamux Yamux.init)
    else Panic.
Proof.
  unfold from_name, mux_from_name, Mplex.mplex_from_name, Yamux.yamux_from_name.
  case_decide; [done|]. by case_decide.
Qed.

(** * The stack of a connection *)

Section Stack.
Context `{!Pnet.StreamCipher, !Noise.NoisePrims}.

Definition Inner : Type := Multistream.State MinaProtocol.State.
Definition Encrypted : Type := Multistream.State (MuxState Inner).
Definition NoiseLayer : Type := Multistream.State (Noise.ChunkState (Noise.NoiseState Encrypted)).
Definition Cn : Type := Pnet.State NoiseLayer.

Definition new_connection (chain_id : bytes) : Cn :=
  Pnet.pnet_new (I := Multistream.State (Noise.ChunkState (Noise.NoiseState Encrypted))) chain_id.

Context {W : Type} `{!DbGroup W, !Noise.NoiseCx W, !MinaProtocol.MeshsubSink W}.
Context `{!Varint, !MinaProtocol.Binprot, !MinaProtocol.Prost}.

#[export] Instance inner_handle : HandleData W Inner :=
  Multistream.multistream_handle (I := MinaProtocol.State).
#[export] Instance inner_from_stream_id : FromStreamId Inner :=
  Multistream.multistream_from_stream_id (I := MinaProtocol.State).
#[export] Instance encrypted_handle : HandleData W Encrypted :=
  Multistream.multistream_handle (I := MuxState Inner).
#[export] Instance encrypted_from_stream_id : FromStreamId Encrypted :=
  Multistream.multistream_from_stream_id (I := MuxState Inner).
#[export] Instance noise_layer_handle : HandleData W NoiseLayer :=
  Multistream.multistream_handle (I := Noise.ChunkState (Noise.NoiseState Encrypted)).

(** [ConnectionContext]: every chunk of a connection goes through here. *)
Definition cn_on_data (id : DirectedId) (data : bytes) (cn : Cn) (w : W)
    : outcome (Cn * W * DbResult unit) := Pnet.pnet_handle id data cn w.

End Stack.
