(* ===== verification/Coding.v ===== *)
(** The binary records of the database: [custom_coding.rs], [chunk.rs],
    [database/index.rs] and the records of [database/types.rs] and [event.rs].
    The [radiation] crate derives the code of a record from its fields; its
    primitive encodings are a parameter. *)

From stdpp Require Import base list gmap strings.
From Stdlib Require Import ZArith Lia.
From S2P Require Import Prelude Types.

(** * The primitives of [radiation] *)

(** Unsigned integers of [n] bytes, booleans, byte strings with a length, and
    what [absorb_ext] does with bytes left over. *)
Class Radiation : Type := {
  emit_uint : nat -> Z -> bytes;
  absorb_uint : nat -> bytes -> option (Z * bytes);
  emit_bool : bool -> bytes;
  absorb_bool : bytes -> option (bool * bytes);
  emit_string : bytes -> bytes;
  absorb_string : bytes -> option (bytes * bytes);
  leftover_ok : bytes -> bool;
}.

(** Integers are big endian, as the code assumes where it looks a derived key up
    with [to_be_bytes]; what is written is read back. *)
Class RadiationLaws `{Radiation} : Prop := {
  emit_uint_be : forall n z, 0 <= z < 256 ^ Z.of_nat n -> emit_uint n z = be_encode n z;
  absorb_uint_be : forall n z r, 0 <= z < 256 ^ Z.of_nat n ->
    absorb_uint n (be_encode n z ++ r) = Some (z, r);
  absorb_bool_emit : forall b r, absorb_bool (emit_bool b ++ r) = Some (b, r);
  emit_bool_length : forall b, length (emit_bool b) = 1%nat;
  absorb_string_emit : forall s r, blen s < 2 ^ 32 -> absorb_string (emit_string s ++ r) = Some (s, r);
  leftover_nil : leftover_ok [] = true;
}.

(** [Emit] and [Absorb]. *)
Class Codec `{Radiation} (A : Type) : Type := {
  emit : A -> bytes;
  absorb : bytes -> option (A * bytes);
}.

(** [AbsorbExt::absorb_ext] *)
Definition absorb_ext `{Codec A} (b : bytes) : option A :=
  match absorb b with
  | Some (a, r) => if leftover_ok r then Some a else None
  | None => None
  end.

(** The values of type [A] that Rust can have and the codec keeps. *)
Class WellFormed (A : Type) : Type := well_formed : A -> Prop.

Class RoundTrip `{Codec A} `{!WellFormed A} : Prop :=
  round_trip : forall (a : A) (r : bytes), well_formed a -> absorb (emit a ++ r) = Some (a, r).
Arguments RoundTrip {_} A {_ _}.

Lemma absorb_ext_emit `{RadiationLaws} `{!Codec A, !WellFormed A, !RoundTrip A} (a : A) :
  well_formed a -> absorb_ext (emit a) = Some a.
Proof.
  intros Hw. unfold absorb_ext. rewrite <- (app_nil_r (emit a)), round_trip by done.
  by rewrite leftover_nil.
Qed.

(** * Records *)

Record StreamFullId : Type := mkStreamFullId { cn : Z; sfid : StreamId }.

Record Connection : Type := mkConnection {
  info : ConnectionInfo;
  cn_incoming : bool;
  cn_timestamp : Z;
  stats_in : ConnectionStats;
  stats_out : ConnectionStats;
  timestamp_close : Z;
  cn_alias : bytes;
}.

Record Message : Type := mkMessage {
  connection_id : Z;
  m_stream_id : StreamId;
  stream_kind : StreamKind;
  m_incoming : bool;
  m_timestamp : Z;
  offset : Z;
  size : Z;
  brief : bytes;
}.

Record ChunkHeader : Type := mkChunkHeader {
  ch_size : Z;
  ch_time : Z;
  encryption_status : EncryptionStatus;
  ch_incoming : bool;
}.

Inductive LedgerHash : Type :=
| LSource (h : bytes)
| LTarget (h : bytes)
| LFirstSource (h : bytes)
| LMiddle (h : bytes)
| LSecondTarget (h : bytes).

Record LedgerHashIdx : Type := mkLedgerHashIdx {
  l_hash : LedgerHash;
  l_offset : Z;
  l_size : Z;
  l_id : StreamFullId;
  l_message_id : Z;
}.

Section Codecs.
Context `{Radiation}.

(** [addr_emit]: sixteen bytes, an IPv4 address in its mapped form, and the
    port. *)
Definition mapped_prefix : bytes := repeat 0 10 ++ [255; 255].

Definition addr_octets (a : IpAddr) : bytes :=
  match a with V6 o => o | V4 o => mapped_prefix ++ o end.

Definition addr_emit (a : SocketAddr) : bytes := addr_octets (ip a) ++ emit_uint 2 (port a).

Definition absorb_array (n : Z) (l : bytes) : option (bytes * bytes) :=
  if n <=? blen l then Some (take (Z.to_nat n) l, drop (Z.to_nat n) l) else None.

(** [addr_absorb]: a mapped address is read as IPv4. *)
Definition addr_absorb (l : bytes) : option (SocketAddr * bytes) :=
  '(o, r) ← absorb_array 16 l;
  '(p, r) ← absorb_uint 2 r;
  Some (mkSocketAddr (if starts_with mapped_prefix o then V4 (drop 12 o) else V6 o) p, r).

(** [duration_emit], [time_emit]: seconds and nanoseconds. A time before the
    epoch panics in [time_emit]. *)
Definition duration_emit (d : Z) : bytes := emit_uint 8 (d / 10 ^ 9) ++ emit_uint 4 (d mod 10 ^ 9).

Definition duration_absorb (l : bytes) : option (Z * bytes) :=
  '(secs, r) ← absorb_uint 8 l;
  '(nanos, r) ← absorb_uint 4 r;
  Some (secs * 10 ^ 9 + nanos, r).

Definition duration_opt_absorb (l : bytes) : option (option Z * bytes) :=
  '(d, r) ← duration_absorb l; Some (if d =? 0 then None else Some d, r).

Definition duration_opt_emit (d : option Z) : bytes := duration_emit (default 0 d).

Definition time_emit (t : Z) : bytes := duration_emit t.
Definition time_absorb (l : bytes) : option (Z * bytes) := duration_absorb l.

(** [StreamKind]: an unknown number is read as [Unknown]. *)
Definition stream_kind_emit (k : StreamKind) : bytes := emit_uint 2 (StreamKind_as_u16 k).
Definition stream_kind_absorb (l : bytes) : option (StreamKind * bytes) :=
  '(d, r) ← absorb_uint 2 l; Some (StreamKind_of_u16 d, r).

(** [StreamId]: an [i64]; [u64] values are cast. *)
Definition stream_id_emit (s : StreamId) : bytes :=
  let d := match s with
           | SHandshake => - 2 ^ 63
           | Forward s => to_signed 64 s
           | Backward s => to_signed 64 (wrap 64 (- to_signed 64 (wrap 64 (s + 1))))
           end in
  emit_uint 8 (wrap 64 d).

Definition stream_id_absorb (l : bytes) : option (StreamId * bytes) :=
  '(u, r) ← absorb_uint 8 l;
  let d := to_signed 64 u in
  Some (if d =? - 2 ^ 63 then SHandshake else if 0 <=? d then Forward d else Backward (- d - 1), r).

(** [MessageType]: a [u16] tag; an unknown tag is an error. *)
Definition message_type_emit (t : MessageType) : bytes := emit_uint 2 (MessageType_tag t).
Definition message_type_absorb (l : bytes) : option (MessageType * bytes) :=
  '(d, r) ← absorb_uint 2 l; t ← MessageType_of_tag d; Some (t, r).

(** [EncryptionStatus]: [#[tag(u8)]]. *)
Definition encryption_emit (e : EncryptionStatus) : bytes :=
  emit_uint 1 (match e with Raw => 1 | DecryptedPnet => 255 | DecryptedNoise => 0 end).
Definition encryption_absorb (l : bytes) : option (EncryptionStatus * bytes) :=
  '(d, r) ← absorb_uint 1 l;
  if d =? 1 then Some (Raw, r) else if d =? 255 then Some (DecryptedPnet, r)
  else if d =? 0 then Some (DecryptedNoise, r) else None.

(** The derived codecs: the fields in the order of declaration. *)

#[export] Instance stream_full_id_codec : Codec StreamFullId := {|
  emit s := emit_uint 8 (cn s) ++ stream_id_emit (sfid s);
  absorb l := '(c, r) ← absorb_uint 8 l; '(s, r) ← stream_id_absorb r; Some (mkStreamFullId c s, r);
|}.

#[export] Instance connection_info_codec : Codec ConnectionInfo := {|
  emit i := addr_emit (addr i) ++ emit_uint 4 (pid i) ++ emit_uint 4 (fd i);
  absorb l := '(a, r) ← addr_absorb l; '(p, r) ← absorb_uint 4 r; '(f, r) ← absorb_uint 4 r;
              Some (mkConnectionInfo a p f, r);
|}.

#[export] Instance stats_codec : Codec ConnectionStats := {|
  emit s := emit_uint 8 (total_bytes s) ++ emit_uint 8 (decrypted_bytes s) ++
            emit_uint 8 (decrypted_chunks s) ++ emit_uint 8 (messages s);
  absorb l := '(a, r) ← absorb_uint 8 l; '(b, r) ← absorb_uint 8 r; '(c, r) ← absorb_uint 8 r;
              '(d, r) ← absorb_uint 8 r; Some (mkStats a b c d, r);
|}.

#[export] Instance connection_codec : Codec Connection := {|
  emit c := emit (info c) ++ emit_bool (cn_incoming c) ++ time_emit (cn_timestamp c) ++
            emit (stats_in c) ++ emit (stats_out c) ++ time_emit (timestamp_close c) ++
            emit_string (cn_alias c);
  absorb l := '(i, r) ← absorb l; '(inc, r) ← absorb_bool r; '(t, r) ← time_absorb r;
              '(si, r) ← absorb r; '(so, r) ← absorb r; '(tc, r) ← time_absorb r;
              '(a, r) ← absorb_string r; Some (mkConnection i inc t si so tc a, r);
|}.

#[export] Instance message_codec : Codec Message := {|
  emit m := emit_uint 8 (connection_id m) ++ stream_id_emit (m_stream_id m) ++
            stream_kind_emit (stream_kind m) ++ emit_bool (m_incoming m) ++
            time_emit (m_timestamp m) ++ emit_uint 8 (offset m) ++ emit_uint 4 (size m) ++
            emit_string (brief m);
  absorb l := '(c, r) ← absorb_uint 8 l; '(s, r) ← stream_id_absorb r;
              '(k, r) ← stream_kind_absorb r; '(inc, r) ← absorb_bool r;
              '(t, r) ← time_absorb r; '(o, r) ← absorb_uint 8 r; '(sz, r) ← absorb_uint 4 r;
              '(b, r) ← absorb_string r; Some (mkMessage c s k inc t o sz b, r);
|}.

#[export] Instance chunk_header_codec : Codec ChunkHeader := {|
  emit h := emit_uint 4 (ch_size h) ++ time_emit (ch_time h) ++
            encryption_emit (encryption_status h) ++ emit_bool (ch_incoming h);
  absorb l := '(s, r) ← absorb_uint 4 l; '(t, r) ← time_absorb r; '(e, r) ← encryption_absorb r;
              '(i, r) ← absorb_bool r; Some (mkChunkHeader s t e i, r);
|}.

Definition ledger_hash_emit (h : LedgerHash) : bytes :=
  match h with
  | LSource h => emit_uint 1 0 ++ h
  | LTarget h => emit_uint 1 1 ++ h
  | LFirstSource h => emit_uint 1 2 ++ h
  | LMiddle h => emit_uint 1 3 ++ h
  | LSecondTarget h => emit_uint 1 4 ++ h
  end.

Definition ledger_hash_absorb (l : bytes) : option (LedgerHash * bytes) :=
  '(t, r) ← absorb_uint 1 l;
  '(h, r) ← absorb_array 31 r;
  if t =? 0 then Some (LSource h, r) else if t =? 1 then Some (LTarget h, r)
  else if t =? 2 then Some (LFirstSource h, r) else if t =? 3 then Some (LMiddle h, r)
  else if t =? 4 then Some (LSecondTarget h, r) else None.

#[export] Instance ledger_hash_idx_codec : Codec LedgerHashIdx := {|
  emit i := ledger_hash_emit (l_hash i) ++ emit_uint 8 (l_offset i) ++ emit_uint 8 (l_size i) ++
            emit (l_id i) ++ emit_uint 8 (l_message_id i);
  absorb l := '(h, r) ← ledger_hash_absorb l; '(o, r) ← absorb_uint 8 r; '(s, r) ← absorb_uint 8 r;
              '(i, r) ← absorb r; '(m, r) ← absorb_uint 8 r; Some (mkLedgerHashIdx h o s i m, r);
|}.

(** ** Index keys ([index.rs]): what is indexed, then the message id *)

Record Idx (P : Type) : Type := mkIdx { idx_prefix : P; idx_id : Z }.
#[global] Arguments mkIdx {P}.
#[global] Arguments idx_prefix {P}.
#[global] Arguments idx_id {P}.

Definition AddressIdx : Type := Idx SocketAddr.
Definition ConnectionIdx : Type := Idx Z.
Definition StreamIdx : Type := Idx StreamFullId.
Definition StreamByKindIdx : Type := Idx StreamKind.
Definition MessageKindIdx : Type := Idx MessageType.

(** The derived codec of an index key. *)
Definition idx_emit {P} (p_emit : P -> bytes) (i : Idx P) : bytes :=
  p_emit (idx_prefix i) ++ emit_uint 8 (idx_id i).

Definition idx_absorb {P} (p_absorb : bytes -> option (P * bytes)) (l : bytes)
    : option (Idx P * bytes) :=
  '(p, r) ← p_absorb l; '(m, r) ← absorb_uint 8 r; Some (mkIdx p m, r).

#[export] Instance address_idx_codec : Codec AddressIdx :=
  {| emit := idx_emit addr_emit; absorb := idx_absorb addr_absorb |}.
#[export] Instance connection_idx_codec : Codec ConnectionIdx :=
  {| emit := idx_emit (emit_uint 8); absorb := idx_absorb (absorb_uint 8) |}.
#[export] Instance stream_idx_codec : Codec StreamIdx :=
  {| emit := idx_emit emit; absorb := idx_absorb absorb |}.
#[export] Instance stream_by_kind_idx_codec : Codec StreamByKindIdx :=
  {| emit := idx_emit stream_kind_emit; absorb := idx_absorb stream_kind_absorb |}.
#[export] Instance message_kind_idx_codec : Codec MessageKindIdx :=
  {| emit := idx_emit message_type_emit; absorb := idx_absorb message_type_absorb |}.

End Codecs.

(** * Round trips *)

(** What the Rust types guarantee, and what the encodings can represent: a
    stream number below [2^63] (one less for a backward stream), an IPv6 address
    that is not a mapped IPv4 one. *)
Definition uint_ok (n : nat) (z : Z) : Prop := 0 <= z < 256 ^ Z.of_nat n.

Definition addr_ok (a : SocketAddr) : Prop :=
  wf_addr a /\ match ip a with V4 _ => True | V6 o => starts_with mapped_prefix o = false end.

Definition time_ok (t : Z) : Prop := 0 <= t < 2 ^ 64 * 10 ^ 9.

Definition stream_id_ok (s : StreamId) : Prop :=
  match s with
  | SHandshake => True
  | Forward n => 0 <= n < 2 ^ 63
  | Backward n => 0 <= n < 2 ^ 63 - 1
  end.

Section RoundTrips.
Context `{RadiationLaws}.

Lemma uint_rt (n : nat) (z : Z) (r : bytes) :
  uint_ok n z -> absorb_uint n (emit_uint n z ++ r) = Some (z, r).
Proof. intros Hz. rewrite emit_uint_be, absorb_uint_be by done. done. Qed.

Lemma uint_length (n : nat) (z : Z) : uint_ok n z -> length (emit_uint n z) = n.
Proof. intros Hz. by rewrite emit_uint_be, length_be_encode. Qed.

Lemma array_rt (n : Z) (a r : bytes) : blen a = n -> absorb_array n (a ++ r) = Some (a, r).
Proof.
  intros <-. unfold absorb_array. rewrite (proj2 (Z.leb_le _ _)) by len_lia.
  rewrite take_app_within, drop_app_within by lia. by rewrite take_blen, drop_blen.
Qed.

Lemma addr_octets_length (a : IpAddr) : wf_ip a -> blen (addr_octets a) = 16.
Proof. destruct a; intros [_ L]; unfold blen; cbn; rewrite ?L; reflexivity. Qed.

Lemma addr_rt (a : SocketAddr) (r : bytes) : addr_ok a -> addr_absorb (addr_emit a ++ r) = Some (a, r).
Proof.
  intros [[Hi Hp] Hm]. unfold addr_absorb, addr_emit. rewrite <- app_assoc.
  rewrite array_rt by (by apply addr_octets_length). cbn [mbind option_bind].
  rewrite uint_rt by (unfold uint_ok; cbn in *; lia). cbn [mbind option_bind].
  destruct a as [[o|o] p]; cbn [ip port addr_octets] in *.
  - rewrite starts_with_app, drop_app_length' by reflexivity. done.
  - by rewrite Hm.
Qed.

Lemma time_rt (t : Z) (r : bytes) : time_ok t -> time_absorb (time_emit t ++ r) = Some (t, r).
Proof.
  unfold time_ok, time_absorb, time_emit, duration_absorb, duration_emit. intros Ht.
  pose proof (Z.mod_pos_bound t (10 ^ 9)). pose proof (Z.div_mod t (10 ^ 9)).
  rewrite <- app_assoc. rewrite uint_rt.
  2: { unfold uint_ok. cbn. split; [apply Z.div_pos; lia|apply Z.div_lt_upper_bound; lia]. }
  cbn [mbind option_bind]. rewrite uint_rt by (unfold uint_ok; cbn; lia).
  cbn [mbind option_bind]. do 2 f_equal. lia.
Qed.

Lemma time_length (t : Z) : time_ok t -> length (time_emit t) = 12%nat.
Proof.
  unfold time_ok, time_emit, duration_emit. intros Ht. pose proof (Z.mod_pos_bound t (10 ^ 9)).
  rewrite length_app, !uint_length; [done| |].
  - unfold uint_ok. cbn. lia.
  - unfold uint_ok. cbn. split; [apply Z.div_pos; lia|apply Z.div_lt_upper_bound; lia].
Qed.

Lemma stream_kind_rt (k : StreamKind) (r : bytes) :
  stream_kind_absorb (stream_kind_emit k ++ r) = Some (k, r).
Proof.
  unfold stream_kind_absorb, stream_kind_emit. rewrite uint_rt by apply StreamKind_u16_range.
  cbn [mbind option_bind]. by rewrite StreamKind_u16_roundtrip.
Qed.

Lemma message_type_rt (t : MessageType) (r : bytes) :
  message_type_absorb (message_type_emit t ++ r) = Some (t, r).
Proof.
  unfold message_type_absorb, message_type_emit. rewrite uint_rt by apply MessageType_tag_range.
  cbn [mbind option_bind]. by rewrite MessageType_tag_roundtrip.
Qed.

Lemma stream_id_rt (s : StreamId) (r : bytes) :
  stream_id_ok s -> stream_id_absorb (stream_id_emit s ++ r) = Some (s, r).
Proof.
  intros Hs. unfold stream_id_absorb, stream_id_emit. cbv zeta.
  rewrite uint_rt by (apply wrap_bound; lia). cbn [mbind option_bind].
  assert (S1 : forall n, 0 <= n < 2 ^ 63 -> to_signed 64 n = n).
  { intros n Hn. unfold to_signed. by rewrite (proj2 (Z.ltb_lt _ _)) by (cbn; lia). }
  destruct s as [|n|n]; cbn [stream_id_ok] in Hs.
  - by rewrite to_signed_wrap by (cbn; lia).
  - rewrite (S1 n), to_signed_wrap by (cbn; lia).
    rewrite (proj2 (Z.eqb_neq _ _)), (proj2 (Z.leb_le _ _)) by lia. done.
  - rewrite (wrap_small 64 (n + 1)), (S1 (n + 1)) by (cbn; lia).
    rewrite (to_signed_wrap 64 (- (n + 1))), to_signed_wrap by (cbn; lia).
    rewrite (proj2 (Z.eqb_neq _ _)), (proj2 (Z.leb_gt _ _)) by lia. do 3 f_equal. lia.
Qed.

Lemma encryption_rt (e : EncryptionStatus) (r : bytes) :
  encryption_absorb (encryption_emit e ++ r) = Some (e, r).
Proof.
  unfold encryption_absorb, encryption_emit.
  destruct e; rewrite uint_rt by (unfold uint_ok; cbn; lia); done.
Qed.

#[export] Instance stream_full_id_wf : WellFormed StreamFullId :=
  fun s => uint_ok 8 (cn s) /\ stream_id_ok (sfid s).
#[export] Instance connection_info_wf : WellFormed ConnectionInfo :=
  fun i => addr_ok (addr i) /\ uint_ok 4 (pid i) /\ uint_ok 4 (fd i).
#[export] Instance stats_wf : WellFormed ConnectionStats :=
  fun s => uint_ok 8 (total_bytes s) /\ uint_ok 8 (decrypted_bytes s) /\
           uint_ok 8 (decrypted_chunks s) /\ uint_ok 8 (messages s).
#[export] Instance connection_wf : WellFormed Connection :=
  fun c => well_formed (info c) /\ time_ok (cn_timestamp c) /\ well_formed (stats_in c) /\
           well_formed (stats_out c) /\ time_ok (timestamp_close c) /\ blen (cn_alias c) < 2 ^ 32.
#[export] Instance message_wf : WellFormed Message :=
  fun m => uint_ok 8 (connection_id m) /\ stream_id_ok (m_stream_id m) /\ time_ok (m_timestamp m) /\
           uint_ok 8 (offset m) /\ uint_ok 4 (size m) /\ blen (brief m) < 2 ^ 32.
#[export] Instance chunk_header_wf : WellFormed ChunkHeader :=
  fun h => uint_ok 4 (ch_size h) /\ time_ok (ch_time h).

(** Read a record field by field. *)
#[local] Ltac rt_step :=
  rewrite <- ?app_assoc;
  first [ rewrite uint_rt by done | rewrite addr_rt by done | rewrite time_rt by done
        | rewrite stream_id_rt by done | rewrite stream_kind_rt | rewrite absorb_bool_emit
        | rewrite encryption_rt | rewrite absorb_string_emit by done | rewrite round_trip by done ];
  cbn [mbind option_bind].

#[export] Instance stream_full_id_rt : RoundTrip StreamFullId.
Proof. intros [c s] r (Hc & Hs). cbn in *. by repeat rt_step. Qed.

#[export] Instance connection_info_rt : RoundTrip ConnectionInfo.
Proof. intros [a p f] r (Ha & Hp & Hf). cbn in *. by repeat rt_step. Qed.

#[export] Instance stats_rt : RoundTrip ConnectionStats.
Proof. intros [a b c d] r (Ha & Hb & Hc & Hd). cbn in *. by repeat rt_step. Qed.

#[export] Instance connection_rt : RoundTrip Connection.
Proof.
  intros [i inc t si so tc a] r (Hi & Ht & Hsi & Hso & Htc & Ha).
  cbn [absorb emit connection_codec info cn_incoming cn_timestamp stats_in stats_out timestamp_close cn_alias] in *.
  by repeat rt_step.
Qed.

#[export] Instance message_rt : RoundTrip Message.
Proof. intros [c s k inc t o sz b] r (Hc & Hs & Ht & Ho & Hz & Hb). cbn in *. by repeat rt_step. Qed.

#[export] Instance chunk_header_rt : RoundTrip ChunkHeader.
Proof. intros [sz t e inc] r (Hs & Ht). cbn in *. by repeat rt_step. Qed.

(** [ChunkHeader::SIZE] *)
Lemma chunk_header_length (h : ChunkHeader) : well_formed h -> length (emit h) = 18%nat.
Proof.
  intros [Hs Ht]. cbn. rewrite !length_app, uint_length, time_length, emit_bool_length by done.
  unfold encryption_emit. rewrite uint_length; [done|].
  unfold uint_ok. destruct (encryption_status h); cbn; lia.
Qed.

(** Index keys: the prefix codec decides. *)
Lemma idx_rt {P} (p_emit : P -> bytes) p_absorb (i : Idx P) (r : bytes) :
  (forall r, p_absorb (p_emit (idx_prefix i) ++ r) = Some (idx_prefix i, r)) ->
  uint_ok 8 (idx_id i) ->
  idx_absorb p_absorb (idx_emit p_emit i ++ r) = Some (i, r).
Proof.
  intros Hp Hi. unfold idx_absorb, idx_emit. rewrite <- app_assoc, Hp. cbn [mbind option_bind].
  rewrite uint_rt by done. by destruct i.
Qed.

End RoundTrips.

(** C16: what the database stores is what it reads back. A message record, a
    connection record and the header of a raw chunk survive encoding, whatever
    follows them; the header has exactly the [ChunkHeader::SIZE] bytes that
    readers skip. *)
Theorem db_records_roundtrip `{RadiationLaws} (m : Message) (c : Connection) (h : ChunkHeader)
    (r : bytes) :
  (well_formed m -> absorb (emit m ++ r) = Some (m, r)) /\
  (well_formed c -> absorb (emit c ++ r) = Some (c, r)) /\
  (well_formed h -> absorb (emit h ++ r) = Some (h, r) /\ length (emit h) = 18%nat).
Proof.
  split_and!; intros Hw; [by apply round_trip..|].
  split; [by apply round_trip|by apply chunk_header_length].
Qed.

(** ** A concrete set of primitives *)

Definition demo_absorb_uint (n : nat) (l : bytes) : option (Z * bytes) :=
  if Z.of_nat n <=? blen l then Some (be_decode (take n l), drop n l) else None.

Definition demo_radiation : Radiation := {|
  emit_uint := be_encode;
  absorb_uint := demo_absorb_uint;
  emit_bool b := [if b then 1 else 0];
  absorb_bool l := match l with b :: r => Some (negb (b =? 0), r) | [] => None end;
  emit_string s := be_encode 4 (blen s) ++ s;
  absorb_string l := '(n, r) ← demo_absorb_uint 4 l; absorb_array n r;
  leftover_ok r := bool_decide (r = []);
|}.

Lemma demo_uint_rt (n : nat) (z : Z) (r : bytes) :
  0 <= z < 256 ^ Z.of_nat n -> demo_absorb_uint n (be_encode n z ++ r) = Some (z, r).
Proof.
  intros Hz. unfold demo_absorb_uint. pose proof (length_be_encode n z) as L.
  rewrite (proj2 (Z.leb_le _ _)) by len_lia.
  by rewrite take_app_length', drop_app_length', be_decode_encode by done.
Qed.

Lemma demo_radiation_laws : @RadiationLaws demo_radiation.
Proof.
  split; cbn.
  - done.
  - apply demo_uint_rt.
  - by intros [] r.
  - done.
  - intros s r Hs. pose proof (blen_nonneg s). rewrite <- app_assoc.
    rewrite demo_uint_rt by (cbn; lia). cbn [mbind option_bind].
    unfold absorb_array. rewrite (proj2 (Z.leb_le _ _)) by len_lia.
    rewrite take_app_within, drop_app_within by lia. by rewrite take_blen, drop_blen.
  - done.
Qed.

Definition demo_message : Message :=
  mkMessage 3 (Backward 4) Rpc true (5 * 10 ^ 9 + 7) 36 10 (str "get_best_tip").

Lemma db_records_roundtrip_witness :
  @absorb demo_radiation Message _ (@emit demo_radiation Message _ demo_message ++ [1; 2])
  = Some (demo_message, [1; 2]).
Proof.
  apply (@db_records_roundtrip demo_radiation demo_radiation_laws demo_message
    (mkConnection (mkConnectionInfo (mkSocketAddr (V4 [127; 0; 0; 1]) 0) 1 1) true 0
       stats_default stats_default 0 []) (mkChunkHeader 0 0 Raw true) [1; 2]).
  vm_compute. intuition congruence.
Defined.
