(* ===== verification/Frames.v ===== *)
(** What the layers of a connection do to the world they share.

    The layers write to the database through the interfaces of [Handle], [Noise] and
    [MinaProtocol] only. [Frame] says of a relation between worlds that it contains what
    these interfaces do, and the instances of [Framed] that it then contains what each
    layer does, whatever bytes it is given; [stack_framed] is the whole stack of
    [recorder.rs]. What the interfaces are given is part of the statement: the streams
    under which messages are filed have ids that can be stored. *)

From stdpp Require Import base list gmap strings relations.
From Stdlib Require Import ZArith Lia.
From S2P Require Import Prelude Types Handle Varint Coding Accumulator.
From S2P Require Import Yamux Mplex Multistream Noise Pnet MinaProtocol Stack.

(** The time of a chunk can be stored. *)
Definition id_ok (id : DirectedId) : Prop := time_ok (md_time (metadata id)).

Class Frame {W : Type} `{!DbGroup W, !NoiseCx W, !MeshsubSink W} (P : relation W) : Prop := {
  frame_preorder : PreOrder P;
  frame_add_raw : forall s inc t data w w' r,
    time_ok t -> db_add_raw s inc t data w = (w', r) -> P w w';
  frame_update : forall s inc w w' r, db_update s inc w = (w', r) -> P w w';
  frame_stream_add : forall sid id k data w w' r,
    stream_id_ok sid -> id_ok id -> db_stream_add sid id k data w = (w', r) -> P w w';
  frame_sink : forall id sid msg w w',
    stream_id_ok sid -> id_ok id -> meshsub_sink id sid msg w = Ret w' -> P w w';
  frame_search : forall e pk w w' sk, reproduced_sk e pk w = Ret (w', sk) -> P w w';
  frame_decrypted : forall n w, P w (add_decrypted n w);
  frame_failed : forall n w, P w (add_failed n w);
}.
#[export] Existing Instance frame_preorder.

(** The states of a layer that can be reached. *)
Class LayerInv (S : Type) : Type := layer_inv : S -> Prop.

Class Framed {W : Type} (P : relation W) (S : Type) `{!HandleData W S, !LayerInv S} : Prop :=
  framed : forall id data (s s' : S) (w w' : W) r,
    id_ok id -> layer_inv s -> on_data id data s w = Ret (s', w', r) -> layer_inv s' /\ P w w'.

(** A layer starts in such a state. *)
Class Opens (S : Type) `{!DynamicProtocol S, !LayerInv S} : Prop :=
  opens : forall name sid (s : S), stream_id_ok sid -> from_name name sid = Ret s -> layer_inv s.
Class Starts (S : Type) `{!FromStreamId S, !LayerInv S} : Prop :=
  starts : forall sid, stream_id_ok sid -> layer_inv (from_stream_id sid : S).

(** ** Automation: running through a handler *)

Ltac run_bind E :=
  match type of E with
  | mbind _ ?x = Ret _ =>
      let Ex := fresh "Ex" in destruct x eqn:Ex; cbn [mbind outcome_bind] in E; [|discriminate E..]
  | (match ?x with _ => _ end) = _ => first [is_var x; destruct x | let Ex := fresh "Ex" in destruct x eqn:Ex]
  | Ret _ = Ret _ => injection E as ?; subst
  | Panic = Ret _ => discriminate E
  | OutOfFuel = Ret _ => discriminate E
  end.
Ltac run E := repeat (run_bind E; cbn beta iota zeta in E).

(** Worlds one after the other. *)
Ltac worlds := repeat first [reflexivity | eassumption | (etrans; [eassumption|])].

Section frames.
Context {W : Type} {HD : DbGroup W} {HN : NoiseCx W} {HM : MeshsubSink W} (P : relation W) {HF : Frame P}.

(** A message is stored before the rest of a handler runs. *)
Lemma stored_then {S} sid id k data (s s' : S) (w w' : W) r (next : W -> outcome (S * W * DbResult unit)) :
  stream_id_ok sid -> id_ok id ->
  (let '(w, r) := db_stream_add sid id k data w in
   match r with Err e => Ret (s, w, Err e) | Ok _ => next w end) = Ret (s', w', r) ->
  (s' = s /\ P w w') \/ exists w1, P w w1 /\ next w1 = Ret (s', w', r).
Proof.
  intros Hs Hi E. run E; pose proof (frame_stream_add _ _ _ _ _ _ _ Hs Hi Ex); [right; by eexists|by left].
Qed.

Section mina.
Context {HB : Binprot} {HP : Prost}.

#[export] Instance mina_inv : LayerInv MinaProtocol.State := fun s => stream_id_ok (MinaProtocol.stream_id s).

#[export] Instance mina_opens : Opens MinaProtocol.State.
Proof. intros name sid s Hs [= <-]. exact Hs. Qed.

Lemma add_logged_frame sid id k msg (w : W) : stream_id_ok sid -> id_ok id -> P w (add_logged sid id k msg w).
Proof. intros Hs Hi. unfold add_logged. destruct (db_stream_add _ _ _ _ w) eqn:E. by eapply frame_stream_add. Qed.

Lemma rpc_loop_frame fuel sid k id st st' (w w' : W) :
  stream_id_ok sid -> id_ok id -> rpc_loop fuel sid k id st w = Ret (st', w') -> P w w'.
Proof.
  intros Hs Hi. revert st w. induction fuel as [|fuel IH]; intros st w E; [done|]. cbn in E. run E.
  - etrans; [by apply add_logged_frame|by eapply IH].
  - done.
  - by eapply IH.
Qed.

Lemma meshsub_loop_frame fuel sid id st st' (w w' : W) :
  stream_id_ok sid -> id_ok id -> meshsub_loop fuel sid id st w = Ret (st', w') -> P w w'.
Proof.
  intros Hs Hi. revert st w. induction fuel as [|fuel IH]; intros st w E; [done|]. cbn in E. run E; [|done].
  etrans; [by eapply frame_sink|by eapply IH].
Qed.

Lemma rpc_on_data_frame sid k id data st st' (w w' : W) :
  stream_id_ok sid -> id_ok id -> rpc_on_data sid k id data st w = Ret (st', w') -> P w w'.
Proof.
  intros Hs Hi E. unfold rpc_on_data in E. run E; [by apply add_logged_frame|by eapply rpc_loop_frame|done].
Qed.

Lemma meshsub_on_data_frame sid id data st st' (w w' : W) :
  stream_id_ok sid -> id_ok id -> meshsub_on_data sid id data st w = Ret (st', w') -> P w w'.
Proof.
  intros Hs Hi E. unfold meshsub_on_data in E. run E; [by eapply meshsub_loop_frame|by eapply frame_sink].
Qed.

#[export] Instance mina_framed : Framed P MinaProtocol.State.
Proof.
  intros id data s s' w w' r Hi Hs E. unfold layer_inv, mina_inv in *. unfold on_data, mina_handle in E.
  set (sid := MinaProtocol.stream_id s) in *.
  match type of E with mbind _ ?x = _ => assert (forall s1 w1 r1, x = Ret (s1, w1, r1) ->
    MinaProtocol.stream_id s1 = sid /\ P w w1) as Hx end.
  { clear E. intros s1 w1 r1 E. destruct (kind s); run E; (split; [done|]);
      first [by eapply frame_stream_add | by eapply rpc_on_data_frame | by eapply meshsub_on_data_frame]. }
  run E; destruct (Hx _ _ _ eq_refl) as [-> HP1]; (split; [done|]); [|done].
  etrans; [exact HP1|by eapply frame_update].
Qed.

End mina.

(** ** The multiplexers *)

Section mux.
Context {I : Type} {HI : HandleData W I} {HS : FromStreamId I} {HL : LayerInv I} {Hst : Starts I} {Hfr : Framed P I}.

Lemma yamux_stream_ok (h : Header) : 0 <= Yamux.stream_id h < 2 ^ 32 -> stream_id_ok (Yamux.stream_of h).
Proof.
  intros Hh. unfold Yamux.stream_of. pose proof (Z.div_pos (Yamux.stream_id h) 2).
  assert (Yamux.stream_id h / 2 < 2 ^ 32) by (apply Z.div_lt_upper_bound; lia).
  repeat case_match; cbn; try done; lia.
Qed.

(** Every header that is read names a stream. *)
Lemma try_from_stream (l : bytes) (h : Header) : try_from l = Ok h -> 0 <= Yamux.stream_id h < 2 ^ 32.
Proof.
  unfold try_from. intros E. repeat case_match; simplify_eq; cbn [Yamux.stream_id];
    (split; [apply be_decode_bound|]);
    (eapply Z.lt_le_trans; [apply be_decode_bound|]; change (2 ^ 32) with (256 ^ 4); apply Z.pow_le_mono_r; [lia|];
     unfold blen; rewrite length_take; lia).
Qed.

Definition header_ok (o : result Yamux.Output HeaderParseError) : Prop :=
  match o with Ok (h, _) => stream_id_ok (Yamux.stream_of h) | Err _ => True end.

Lemma yamux_accumulate_ok (acc data acc' : bytes) o :
  Yamux.accumulate acc data = (acc', Ready o) -> header_ok o.
Proof.
  unfold Yamux.accumulate. intros E. repeat case_match; simplify_eq; cbn; try done;
    by eapply yamux_stream_ok, try_from_stream.
Qed.

#[export] Instance yamux_inv : LayerInv (Yamux.State I) := fun s =>
  map_Forall (fun _ st => layer_inv (Yamux.status_inner st)) (Yamux.inners s).

Lemma yamux_inners_ok (s s' : Yamux.State I) :
  Yamux.inners s' = Yamux.inners s -> layer_inv s -> layer_inv s'.
Proof. unfold layer_inv, yamux_inv. by intros ->. Qed.

Lemma yamux_register_ok (inc : bool) (h : Header) (s : Yamux.State I) :
  stream_id_ok (Yamux.stream_of h) -> layer_inv s -> layer_inv (register inc h s).
Proof.
  intros Hh Hs. unfold register. set (sid := Yamux.stream_of h) in *.
  assert (map_Forall (fun _ st => layer_inv (Yamux.status_inner st)) (delete sid (Yamux.inners s))) as Hd
    by (by apply map_Forall_delete).
  repeat case_match; try done; unfold layer_inv, yamux_inv; cbn; try done;
    apply map_Forall_insert_2; try done; cbn; try (by apply starts);
    match goal with Hl : Yamux.inners s !! sid = Some (Yamux.Duplex _) |- _ => apply (Hs _ _ Hl) end.
Qed.

Lemma yamux_process_ok fuel inc (s s' : Yamux.State I) data outs outs' :
  layer_inv s -> Forall header_ok outs ->
  Yamux.process_loop fuel inc s data outs = Ret (s', outs') -> layer_inv s' /\ Forall header_ok outs'.
Proof.
  revert s data outs. induction fuel as [|fuel IH]; intros s data outs Hs Ho E; [done|]. cbn in E.
  destruct (Yamux.accumulate _ data) as [acc [o|]] eqn:Ea.
  - assert (layer_inv (Yamux.set_acc inc acc s)) as Hs' by (apply (yamux_inners_ok s); [by destruct inc|done]).
    apply yamux_accumulate_ok in Ea. eapply IH; [| |exact E].
    + destruct o as [[h b]|]; [by apply yamux_register_ok|done].
    + by apply Forall_app_2, Forall_singleton.
  - injection E as <- <-. split; [|done]. apply (yamux_inners_ok s); [by destruct inc|done].
Qed.

Lemma yamux_set_inner sid st i (s : Yamux.State I) :
  layer_inv s -> layer_inv i ->
  layer_inv (Yamux.set_inners (<[sid := Yamux.status_set st i]> (Yamux.inners s)) s).
Proof. intros Hs Hi. apply map_Forall_insert_2; [|done]. by destruct st. Qed.

Lemma yamux_dispatch_frame id outs (s s' : Yamux.State I) (w w' : W) r :
  id_ok id -> Forall header_ok outs -> layer_inv s ->
  Yamux.dispatch id outs s w = Ret (s', w', r) -> layer_inv s' /\ P w w'.
Proof.
  intros Hid Ho. revert s w. induction Ho as [|[[h b]|e] outs Hh Ho IH]; intros s w Hs E; cbn in E;
    [by injection E as <- <- <-| |by injection E as <- <- <-].
  assert (forall i w1, layer_inv i -> P w w1 -> forall s1 st,
    s1 = Yamux.set_inners (<[Yamux.stream_of h := Yamux.status_set st i]> (Yamux.inners s)) s ->
    Yamux.dispatch id outs s1 w1 = Ret (s', w', r) -> layer_inv s' /\ P w w') as Hnext.
  { intros i w1 Hi HP1 s1 st -> E1. destruct (IH _ _ (yamux_set_inner _ st i s Hs Hi) E1). split; [done|]. by etrans. }
  cbn in Hh. destruct (ty h).
  2-4: apply stored_then in E as [[-> ?]|(w1 & HP1 & E)]; [done| |done..];
       destruct (IH _ _ Hs E) as [? HP2]; split; [done|exact (transitivity HP1 HP2)].
  destruct (Yamux.inners s !! Yamux.stream_of h) as [st|] eqn:El; [|destruct (decide _); [by apply (IH s)|]].
  - run E; destruct (framed _ _ _ _ _ _ _ Hid (Hs _ _ El) Ex) as [Hi HP1].
    + by eapply Hnext.
    + split; [by apply yamux_set_inner|done].
  - run E; destruct (framed _ _ _ _ _ _ _ Hid (starts _ Hh) Ex) as [Hi HP1]; [|done].
    by apply (Hnext _ _ Hi HP1 _ (Yamux.Duplex (from_stream_id (Yamux.stream_of h))) eq_refl).
Qed.

#[export] Instance yamux_framed : Framed P (Yamux.State I).
Proof.
  intros id data s s' w w' r Hid Hs E. unfold on_data, yamux_handle in E. run E; [done|].
  destruct (yamux_process_ok _ _ _ _ _ [] _ Hs (Forall_nil_2 _) Ex0). by eapply yamux_dispatch_frame.
Qed.

(** mplex: the ids are read from varints. *)
Context {HV : Varint} {HVL : VarintLaws}.

#[export] Instance mplex_inv : LayerInv (Mplex.State I) := fun s =>
  map_Forall (fun _ st => layer_inv (Mplex.status_inner st)) (Mplex.inners s).

Lemma mplex_stream_ok inc (v : Z) : 0 <= v < 2 ^ 64 -> stream_id_ok (Mplex.stream_of inc v).
Proof.
  intros Hv. unfold Mplex.stream_of. rewrite Z.shiftr_div_pow2 by lia.
  assert (0 <= v / 2 ^ 3 < 2 ^ 61) by (split; [apply Z.div_pos|apply Z.div_lt_upper_bound]; lia).
  case_match; cbn; lia.
Qed.

Lemma parse_header_ok inc data t sid len off :
  parse_header inc data = Ret (Some (t, sid, len, off)) -> stream_id_ok sid.
Proof. unfold parse_header. intros E. run E; simplify_eq. by eapply mplex_stream_ok, varint_bound. Qed.

Lemma mplex_accumulate_ok inc acc data acc' o :
  Mplex.accumulate inc acc data = Ret (acc', Ready o) -> stream_id_ok (ao_stream_id o).
Proof. unfold Mplex.accumulate. intros E. run E; simplify_eq; cbn; by eapply parse_header_ok. Qed.

Lemma mplex_handle_frame_ok inc o (s s' : Mplex.State I) out :
  stream_id_ok (ao_stream_id o) -> layer_inv s -> handle_frame inc o s = (s', out) ->
  layer_inv s' /\ stream_id_ok out.1.
Proof.
  intros Ho Hs E. unfold handle_frame in E. set (sid := ao_stream_id o) in *.
  assert (map_Forall (fun _ st => layer_inv (Mplex.status_inner st)) (delete sid (Mplex.inners s))) as Hd
    by (by apply map_Forall_delete).
  repeat case_match; simplify_eq; (split; [|done]); try done; unfold layer_inv, mplex_inv; cbn; try done;
    apply map_Forall_insert_2; try done; cbn; try (by apply starts);
    match goal with Hl : Mplex.inners s !! sid = Some (Mplex.Duplex _) |- _ => apply (Hs _ _ Hl) end.
Qed.

Lemma mplex_process_ok fuel inc (s s' : Mplex.State I) data outs outs' :
  layer_inv s -> Forall (fun o => stream_id_ok o.1) outs ->
  Mplex.process_loop fuel inc s data outs = Ret (s', outs') ->
  layer_inv s' /\ Forall (fun o => stream_id_ok o.1) outs'.
Proof.
  revert s data outs. induction fuel as [|fuel IH]; intros s data outs Hs Ho E; [done|]. cbn in E. run E.
  - apply mplex_accumulate_ok in Ex.
    match type of Ex0 with handle_frame _ _ ?s1 = _ => assert (layer_inv s1) as Hs' by (by destruct inc) end.
    destruct (mplex_handle_frame_ok _ _ _ _ _ Ex Hs' Ex0) as [Hs1 Ho1].
    eapply IH; [exact Hs1| |exact E]. by apply Forall_app_2, Forall_singleton.
  - split; [by destruct inc|done].
Qed.

Lemma mplex_dispatch_frame id outs (s s' : Mplex.State I) (w w' : W) r :
  id_ok id -> Forall (fun o => stream_id_ok o.1) outs -> layer_inv s ->
  Mplex.dispatch id outs s w = Ret (s', w', r) -> layer_inv s' /\ P w w'.
Proof.
  intros Hid Ho. revert s w. induction Ho as [|[sid [|b []| |]] outs Hh Ho IH]; intros s w Hs E; cbn in E; try (cbn in Hh).
  all: try (apply stored_then in E as [[-> ?]|(w1 & HP1 & E)]; [done| |done..];
            destruct (IH _ _ Hs E) as [? HP2]; split; [done|exact (transitivity HP1 HP2)]).
  - by injection E as <- <- <-.
  - by apply (IH s).
  - destruct (Mplex.inners s !! sid) as [st|] eqn:El; [|done].
    assert (forall i, layer_inv i -> layer_inv (Mplex.set_inners (<[sid := Mplex.status_set st i]> (Mplex.inners s)) s)) as Hset.
    { intros i Hi. apply map_Forall_insert_2; [|done]. by destruct st. }
    run E; destruct (framed _ _ _ _ _ _ _ Hid (Hs _ _ El) Ex) as [Hi HP1]; [|by split; [apply Hset|]].
    destruct (IH _ _ (Hset _ Hi) E). split; [done|]. by etrans.
Qed.

#[export] Instance mplex_framed : Framed P (Mplex.State I).
Proof.
  intros id data s s' w w' r Hid Hs E. unfold on_data, mplex_handle in E. run E.
  destruct (mplex_process_ok _ _ _ _ _ [] _ Hs (Forall_nil_2 _) Ex). by eapply mplex_dispatch_frame.
Qed.

#[export] Instance mux_inv : LayerInv (MuxState I) := fun s =>
  match s with MMplex s => layer_inv s | MYamux s => layer_inv s end.

#[export] Instance mux_opens : Opens (MuxState I).
Proof.
  intros name sid s _. rewrite mux_from_name_spec. repeat case_decide; intros [= <-]; apply map_Forall_empty.
Qed.

#[export] Instance mux_framed : Framed P (MuxState I).
Proof.
  intros id data s s' w w' r Hid Hs E. unfold on_data, mux_handle in E. destruct s as [s|s]; run E.
  - exact (mplex_framed _ _ _ _ _ _ _ Hid Hs Ex).
  - exact (yamux_framed _ _ _ _ _ _ _ Hid Hs Ex).
Qed.

End mux.

(** ** Negotiation *)

Section select.
Context {I : Type} {HI : HandleData W I} {Hdp : DynamicProtocol I} {HL : LayerInv I} {Hop : Opens I} {Hfr : Framed P I}.
Context {HV : Varint}.

#[export] Instance select_inv : LayerInv (Multistream.State I) := fun s =>
  stream_id_ok (ms_stream_id s) /\ forall i, ms_inner s = Some i -> layer_inv i.

#[export] Instance select_starts : Starts (Multistream.State I).
Proof. intros sid Hs. by split. Qed.

Lemma add_tokens_frame sid id toks (w w' : W) r :
  stream_id_ok sid -> id_ok id -> add_tokens sid id toks w = (w', r) -> P w w'.
Proof.
  intros Hs Hi. revert w. induction toks as [|t toks IH]; intros w E; cbn in E; [by injection E as <- _|].
  destruct (db_stream_add _ _ _ _ w) as [w1 [?|]] eqn:Ex; pose proof (frame_stream_add _ _ _ _ _ _ _ Hs Hi Ex) as HP1.
  - exact (transitivity HP1 (IH _ E)).
  - by injection E as <- _.
Qed.

#[export] Instance select_framed : Framed P (Multistream.State I).
Proof.
  intros id data s s' w w' r Hid [Hsid Hin] E. unfold on_data, multistream_handle in E.
  destruct (ms_error s); [by injection E as <- <- <-|].
  destruct (hl_poll _ data _) as [[h o]| |]; cbn [mbind outcome_bind] in E; [|done..].
  destruct (add_tokens _ id _ w) as [w1 [?|]] eqn:Et; apply add_tokens_frame in Et as HP1; try done;
    [|by injection E as <- <- <-].
  match type of E with context [match out_error o with Some _ => ?a | None => ?b end] =>
    set (s1 := match out_error o with Some _ => a | None => b end) in E end.
  assert (ms_stream_id s1 = ms_stream_id s /\ ms_inner s1 = ms_inner s) as [Es Ei] by (unfold s1; by destruct (out_error o)).
  destruct (agreed o) as [[protocol payload]|].
  2: { injection E as <- <- <-. split; [|done]. split; [by rewrite Es|by rewrite Ei]. }
  rewrite Es, Ei in E.
  match type of E with mbind _ ?x = _ => assert (forall i, x = Ret i -> layer_inv i) as Hopen end.
  { intros i. destruct (ms_inner s) as [i'|] eqn:Em; [intros [= <-]; by apply Hin|by apply opens]. }
  run E. destruct (framed _ _ _ _ _ _ _ Hid (Hopen _ eq_refl) Ex0) as [Hi HP2].
  split; [|by etrans]. split; [done|]. by intros i0 [= <-].
Qed.
End select.

(** ** Noise *)

Section noise.
Context {HNp : NoisePrims} {I : Type} {HI : HandleData W I} {HS : FromStreamId I} {HL : LayerInv I}.
Context {Hst : Starts I} {Hfr : Framed P I}.

#[export] Instance noise_inv : LayerInv (NoiseState I) := fun s =>
  layer_inv (n_inner s) /\ forall id p, mux_proposed s = Some (id, p) -> id_ok id.

#[export] Instance noise_opens : Opens (NoiseState I).
Proof. intros name sid s Hs [= <-]. split; [by apply starts|done]. Qed.

Lemma find_any_frame pk (w w' : W) sk : find_any pk w = Ret (w', sk) -> P w w'.
Proof.
  unfold find_any, find_sk_openmina. intros E. run E; try reflexivity.
  - by eapply frame_search.
  - etrans; by eapply frame_search.
Qed.

Lemma try_dh_frame a b (w w' : W) ss : try_dh a b w = Ret (w', ss) -> P w w'.
Proof.
  unfold try_dh. intros E. run E; [by eapply find_any_frame|]. etrans; by eapply find_any_frame.
Qed.

Lemma machine_step_frame m i inc data (w w' : W) m' i' data' res :
  machine_step m i inc data w = Ret (m', i', w', data', res) -> P w w'.
Proof.
  unfold machine_step. intros E. run E; try reflexivity;
    repeat match goal with Ed : try_dh _ _ _ = Ret _ |- _ => apply try_dh_frame in Ed end; worlds.
Qed.

Lemma on_error_frame id data (s s' : NoiseState I) (w w' : W) r :
  id_ok id -> layer_inv s -> on_error id data s w = (s', w', r) -> layer_inv s' /\ P w w'.
Proof.
  intros Hid Hs E. unfold on_error, add_handshake in E.
  pose proof (frame_failed (blen data) w) as HP0.
  destruct (db_update _ _ _) as [w1 [?|]] eqn:Eu; apply frame_update in Eu as HP1.
  - destruct (db_stream_add _ _ _ _ w1) as [w2 r2] eqn:Ea. apply frame_stream_add in Ea as HP2; [|done..].
    injection E as <- <- _. split; [exact Hs|]. worlds.
  - injection E as <- <- _. split; [exact Hs|]. worlds.
Qed.

Lemma inner_on_data_frame id data (s s' : NoiseState I) (w w' : W) r :
  id_ok id -> layer_inv s -> inner_on_data id data s w = Ret (s', w', r) -> layer_inv s' /\ P w w'.
Proof.
  intros Hid [Hi Hm] E. unfold inner_on_data in E. run E.
  destruct (framed _ _ _ _ _ _ _ Hid Hi Ex). by split; [split|].
Qed.

Lemma on_plaintext_frame m id data (s s' : NoiseState I) (w w' : W) r :
  id_ok id -> layer_inv s -> on_plaintext m id data s w = Ret (s', w', r) -> layer_inv s' /\ P w w'.
Proof.
  intros Hid Hs E. unfold on_plaintext, add_handshake in E.
  destruct m as [[st e|st e|ir rr]|]; [| |by eapply inner_on_data_frame|by injection E as <- <- <-];
    (apply stored_then in E as [[-> ?]|(w1 & HP1 & E)]; [by split| |done..]); run E; try (by split).
  - split; [|done]. destruct Hs as [Hi _]. split; [exact Hi|]. by intros id' p [= <- _].
  - assert (layer_inv (set_mux None s)) as Hs0 by (destruct Hs as [Hi _]; by split).
    destruct (inner_on_data_frame _ _ _ _ _ _ _ (proj2 Hs _ _ Ex1) Hs0 Ex3) as [Hs2 HP2].
    destruct (inner_on_data_frame _ _ _ _ _ _ _ Hid Hs2 E) as [Hs3 HP3]. split; [done|worlds].
  - assert (layer_inv (set_mux None s)) as Hs0 by (destruct Hs as [Hi _]; by split).
    destruct (inner_on_data_frame _ _ _ _ _ _ _ (proj2 Hs _ _ Ex1) Hs0 Ex3) as [Hs2 HP2]. split; [done|worlds].
Qed.

#[export] Instance noise_framed : Framed P (NoiseState I).
Proof.
  intros id data s s' w w' r Hid Hs E. unfold on_data, noise_handle in E.
  destruct (n_error s).
  { destruct (on_error id data s w) as [[s1 w1] r1] eqn:Ee. injection E as <- <- <-. by eapply on_error_frame. }
  run E; apply machine_step_frame in Ex as HP1.
  - pose proof (frame_decrypted (blen a) w0) as HP2. apply frame_update in Ex1 as HP3.
    apply on_plaintext_frame in E as [Hs' HP4]; [|done|exact Hs]. split; [exact Hs'|worlds].
  - pose proof (frame_decrypted (blen a) w0) as HP2. apply frame_update in Ex1 as HP3. split; [exact Hs|worlds].
  - apply on_error_frame in Ex0 as [Hs' HP2]; [|done|exact Hs]. split; [exact Hs'|worlds].
Qed.
End noise.

Section chunks.
Context {I : Type} {HI : HandleData W I} {Hdp : DynamicProtocol I} {HL : LayerInv I} {Hop : Opens I} {Hfr : Framed P I}.

#[export] Instance chunk_inv : LayerInv (ChunkState I) := fun s => layer_inv (ch_inner s).

#[export] Instance chunk_opens : Opens (ChunkState I).
Proof. intros name sid s Hs E. unfold from_name, chunk_from_name in E. run E. exact (opens name sid _ Hs Ex). Qed.

Lemma chunk_loop_frame fuel id (s s' : ChunkState I) (w w' : W) :
  id_ok id -> layer_inv s -> chunk_loop fuel id s w = Ret (s', w') -> layer_inv s' /\ P w w'.
Proof.
  intros Hid. revert s w. induction fuel as [|fuel IH]; intros s w Hs E; [done|]. cbn in E. run E; try done.
  destruct (framed (S := I) _ _ _ _ _ _ _ Hid Hs Ex1) as [Hi HP1].
  apply IH in E as [Hs' HP2]; [|by destruct (incoming id)]. split; [done|worlds].
Qed.

#[export] Instance chunk_framed : Framed P (ChunkState I).
Proof.
  intros id data s s' w w' r Hid Hs E. unfold on_data, chunk_handle in E. run E.
  - exact (framed (S := I) _ _ _ _ _ _ _ Hid Hs Ex0).
  - match goal with Hx : chunk_loop _ _ _ _ = Ret _ |- _ => apply chunk_loop_frame in Hx end; [done..|].
    by destruct (incoming id).
Qed.
End chunks.

(** ** The private network *)

Section pnet.
Context {HC : StreamCipher} {I : Type} {HI : HandleData W I} {HL : LayerInv I} {Hfr : Framed P I}.

#[export] Instance pnet_inv : LayerInv (Pnet.State I) := fun s => layer_inv (p_inner s).

Lemma pnet_on_data_frame depth id data (s s' : Pnet.State I) (w w' : W) r :
  id_ok id -> layer_inv s -> pnet_on_data depth id data s w = Ret (s', w', r) -> layer_inv s' /\ P w w'.
Proof.
  intros Hid. revert data s w. induction depth as [|depth IH]; intros data s w Hs E; [done|]. cbn in E.
  assert (forall b c, layer_inv (set_cipher b c s)) as Hc by (by intros []).
  destruct (skip s); [by injection E as <- <- <-|].
  destruct (db_add_raw _ _ _ _ w) as [w1 [?|]] eqn:Er; apply frame_add_raw in Er as HP1; try exact Hid;
    [|by injection E as <- <- <-].
  destruct (cipher _ s) as [c|].
  - destruct (apply_keystream data c) as [plain c'].
    destruct (db_add_raw _ _ _ _ w1) as [w2 [?|]] eqn:Ed; apply frame_add_raw in Ed as HP2; try exact Hid.
    + run E. destruct (framed (S := I) _ _ _ _ _ _ _ Hid (Hc (incoming id) (Some c')) Ex) as [Hi HP3]. split; [exact Hi|worlds].
    + injection E as <- <- <-. split; [apply Hc|worlds].
  - run E; try (by split; [|worlds]). apply IH in E as [Hs' HP2]; [split; [done|worlds]|apply Hc].
Qed.

#[export] Instance pnet_framed : Framed P (Pnet.State I).
Proof. intros id data s s' w w' r Hid Hs E. by eapply pnet_on_data_frame. Qed.
End pnet.

(** ** The stack of a connection *)

Section stack.
Context {HC : StreamCipher} {HNp : NoisePrims} {HV : Varint} {HVL : VarintLaws} {HB : Binprot} {HPr : Prost}.

#[export] Instance cn_inv : LayerInv Cn :=
  pnet_inv (I := Multistream.State (ChunkState (NoiseState (Multistream.State (MuxState (Multistream.State MinaProtocol.State)))))).

Lemma new_connection_inv (chain_id : bytes) : layer_inv (new_connection chain_id).
Proof. split; [done|]. by intros i [=]. Qed.

Lemma stack_framed id data (s s' : Cn) (w w' : W) r :
  id_ok id -> layer_inv s -> cn_on_data id data s w = Ret (s', w', r) -> layer_inv s' /\ P w w'.
Proof.
  refine (framed (S := Pnet.State (Multistream.State (ChunkState (NoiseState (Multistream.State
    (MuxState (Multistream.State MinaProtocol.State))))))) id data s s' w w' r).
Qed.
End stack.
End frames.
