(* ===== verification/SortedIntersect.v ===== *)
(** Intersection of sorted iterators
    ([mina-recorder/src/database/sorted_intersect.rs]), which combines the index
    scans of a filtered query.  An iterator is the list of the items it still
    has to give. *)

From stdpp Require Import base list sorting.
From Stdlib Require Import ZArith Lia.
From S2P Require Import Prelude.

Abbreviation heap_t := (list (Z * nat)).

(** [cmp] of [heapify] is [Less]: in forward order the heap is sorted
    descending. *)
Definition before (forward : bool) (x y : Z * nat) : bool :=
  if forward then y.1 <? x.1 else x.1 <? y.1.

(** The stable sort of [heapify]. *)
Fixpoint insert_heap (forward : bool) (x : Z * nat) (heap : heap_t) : heap_t :=
  match heap with
  | [] => [x]
  | y :: heap' => if before forward x y then x :: y :: heap' else y :: insert_heap forward x heap'
  end.

Definition heapify (forward : bool) (heap : heap_t) : heap_t :=
  fold_left (fun acc x => insert_heap forward x acc) heap [].

(** [fill_heap]: one item of every iterator; [None] when one is exhausted. *)
Fixpoint next_all (i : nat) (iters : list (list Z)) : option (heap_t * list (list Z)) :=
  match iters with
  | [] => Some ([], [])
  | [] :: _ => None
  | (value :: it) :: iters =>
      match next_all (S i) iters with
      | None => None
      | Some (heap, iters) => Some ((value, i) :: heap, it :: iters)
      end
  end.

Definition fill_heap (forward : bool) (iters : list (list Z)) : option (heap_t * list (list Z)) :=
  match next_all 0 iters with
  | None => None
  | Some (heap, iters) => Some (heapify forward heap, iters)
  end.

(** [is_hit]: every item equals the one before it. *)
Definition is_hit (heap : heap_t) : bool :=
  match heap with
  | [] => false
  | (value, _) :: _ =>
      (fold_left (fun '(a, eq) '(b, _) => (b, eq && (a =? b))) heap (value, true)).2
  end.

(** [heap.pop()]: the last item. *)
Definition pop (heap : heap_t) : option (Z * nat * heap_t) :=
  match rev heap with
  | [] => None
  | x :: heap => Some (x, rev heap)
  end.

(** The loop; every round takes an item from an iterator. *)
Fixpoint intersect_loop (fuel : nat) (forward : bool) (limit : nat) (iters : list (list Z))
    (heap : heap_t) (ret : list Z) : outcome (list Z) :=
  match fuel with
  | O => OutOfFuel
  | S fuel =>
      if (length ret <? limit)%nat then
        if is_hit heap then
          match pop heap with
          | Some ((item, _), _) =>
              let ret := ret ++ [item] in
              match fill_heap forward iters with
              | None => Ret ret
              | Some (heap, iters) => intersect_loop fuel forward limit iters heap ret
              end
          | None => Ret ret
          end
        else
          match pop heap with
          | Some ((_, iter_num), heap) =>
              match iters !! iter_num with
              | None => Panic
              | Some [] => Ret ret
              | Some (item :: it) =>
                  intersect_loop fuel forward limit (<[iter_num := it]> iters)
                    (heapify forward (heap ++ [(item, iter_num)])) ret
              end
          | None => Ret ret
          end
      else Ret ret
  end.

Definition sorted_intersect (iters : list (list Z)) (limit : nat) (forward : bool)
    : outcome (list Z) :=
  match iters with
  | [] => Ret []
  | [it] => Ret (take limit it)
  | _ =>
      match fill_heap forward iters with
      | None => Ret []
      | Some (heap, iters) => intersect_loop (S (length (concat iters))) forward limit iters heap []
      end
  end.

(** * Specification *)

(** The order of the iterators: ascending when [forward]. *)
Definition lt_dir (forward : bool) (a b : Z) : Prop := if forward then a < b else b < a.
Definition le_dir (forward : bool) (a b : Z) : Prop := if forward then a <= b else b <= a.

(** The items of the first iterator that every other one also gives. *)
Definition in_all (x : Z) (ls : list (list Z)) : bool := forallb (fun l => bool_decide (x ∈ l)) ls.

Definition common (ls : list (list Z)) : list Z :=
  match ls with
  | [] => []
  | l :: ls => List.filter (fun x => in_all x ls) l
  end.

(** The first iterator is strictly sorted, the others may repeat items. *)
Definition sorted_inputs (forward : bool) (ls : list (list Z)) : Prop :=
  match ls with
  | [] => True
  | l :: ls => StronglySorted (lt_dir forward) l /\ Forall (StronglySorted (le_dir forward)) ls
  end.

Example intersect_ex :
  sorted_intersect [[1; 3; 5; 7; 9]; [1; 1; 5; 6; 9]; [0; 1; 5; 9; 9]] 2 true = Ret [1; 5] /\
  sorted_intersect [[9; 7; 5; 1]; [9; 6; 5; 1; 1]] 10 false = Ret [9; 5; 1].
Proof. split; reflexivity. Qed.

(** * The heap *)

Section Heap.
Context (forward : bool).

Lemma insert_heap_perm (x : Z * nat) (h : heap_t) : insert_heap forward x h ≡ₚ x :: h.
Proof.
  induction h as [|y h IH]; cbn; [done|]. destruct (before forward x y); [done|].
  rewrite IH. apply Permutation_swap.
Qed.

Lemma heapify_perm (h : heap_t) : heapify forward h ≡ₚ h.
Proof.
  unfold heapify. cut (forall a, fold_left (fun acc x => insert_heap forward x acc) h a ≡ₚ h ++ a).
  { intros K. by rewrite K, app_nil_r. }
  induction h as [|x h IH]; intros a; cbn; [done|]. rewrite IH, insert_heap_perm.
  by rewrite Permutation_middle.
Qed.

(** Earlier items of the heap are not before later ones. *)
Definition heap_le (x y : Z * nat) : Prop := le_dir forward y.1 x.1.

Lemma insert_heap_sorted (x : Z * nat) (h : heap_t) :
  StronglySorted heap_le h -> StronglySorted heap_le (insert_heap forward x h).
Proof.
  induction 1 as [|y h Hs IH Hf]; cbn.
  { repeat constructor. }
  destruct (before forward x y) eqn:E; unfold before in E.
  - assert (heap_le x y) by (unfold heap_le, le_dir; destruct forward; to_prop; lia).
    constructor; [by constructor|]. constructor; [done|].
    eapply Forall_impl; [exact Hf|]. unfold heap_le, le_dir in *. cbn. destruct forward; lia.
  - constructor; [done|]. rewrite insert_heap_perm. constructor; [|done].
    unfold heap_le, le_dir. destruct forward; to_prop; lia.
Qed.

Lemma heapify_sorted (h : heap_t) : StronglySorted heap_le (heapify forward h).
Proof.
  unfold heapify. cut (forall a, StronglySorted heap_le a ->
    StronglySorted heap_le (fold_left (fun acc x => insert_heap forward x acc) h a)).
  { intros K. apply K. constructor. }
  induction h as [|x h IH]; intros a Ha; cbn; [done|]. by apply IH, insert_heap_sorted.
Qed.

Lemma pop_snoc (h : heap_t) (x : Z * nat) : pop (h ++ [x]) = Some (x, h).
Proof. unfold pop. rewrite rev_app_distr. cbn. by rewrite rev_involutive. Qed.

(** [is_hit] compares all the items. *)
Lemma is_hit_spec (h : heap_t) :
  is_hit h = true <-> exists v, h <> [] /\ Forall (fun x => x.1 = v) h.
Proof.
  assert (K : forall h a e, (fold_left (fun '(a, eq) '((b, _) : Z * nat) => (b, eq && (a =? b))) h (a, e)).2 = true
    <-> e = true /\ Forall (fun x => x.1 = a) h).
  { clear h. intros h. induction h as [|[b i] h IH]; intros a e; cbn.
    - split; [by repeat constructor|tauto].
    - rewrite IH, andb_true_iff, Z.eqb_eq, Forall_cons. cbn. split.
      + intros [[-> ->] Hf]. done.
      + intros [-> [-> Hf]]. done. }
  destruct h as [|[v i] h]; cbn [is_hit].
  - split; [done|]. by intros (? & ? & _).
  - rewrite K. split.
    + intros [_ Hf]. by exists v.
    + intros (u & _ & Hf). split; [done|]. inversion Hf as [|? ? E Hf']; subst. cbn in *. by constructor.
Qed.

(** [heap] holds the items [heads], one per iterator, sorted. *)
Definition heap_of (heap : heap_t) (heads : list Z) : Prop :=
  heap ≡ₚ zip heads (seq 0 (length heads)) /\ StronglySorted heap_le heap.

Lemma zip_seq_lookup (heads : list Z) (n j : nat) (v : Z) :
  (v, n) ∈ zip heads (seq j (length heads)) <-> (j <= n)%nat /\ heads !! (n - j)%nat = Some v.
Proof.
  revert j. induction heads as [|u heads IH]; intros j; cbn.
  - split; [intros H; inversion H|]. intros [_ ?]; done.
  - rewrite elem_of_cons, IH. split.
    + intros [[= <- <-]|[Hn Hl]]; [split; [lia|by rewrite Nat.sub_diag]|].
      split; [lia|]. by replace (n - j)%nat with (S (n - S j))%nat by lia.
    + intros [Hn Hl]. destruct (decide (n = j)) as [->|Hne].
      * rewrite Nat.sub_diag in Hl. injection Hl as ->. by left.
      * right. split; [lia|]. by replace (n - j)%nat with (S (n - S j))%nat in Hl by lia.
Qed.

Lemma heap_of_elem (heap : heap_t) (heads : list Z) (v : Z) (n : nat) :
  heap_of heap heads -> (v, n) ∈ heap <-> heads !! n = Some v.
Proof.
  intros [Hp _]. rewrite Hp, zip_seq_lookup, Nat.sub_0_r. split; [tauto|]. split; [lia|done].
Qed.

Lemma heap_of_replace (h : heap_t) (heads : list Z) (v u : Z) (j : nat) :
  heap_of (h ++ [(v, j)]) heads -> heap_of (heapify forward (h ++ [(u, j)])) (<[j := u]> heads).
Proof.
  intros Hh. assert (Hj : heads !! j = Some v).
  { apply (heap_of_elem _ _ _ _ Hh). rewrite elem_of_app, list_elem_of_singleton. by right. }
  destruct Hh as [Hp _]. split; [|apply heapify_sorted]. rewrite heapify_perm.
  apply lookup_lt_Some in Hj as Hlt. rewrite length_insert.
  set (z := zip heads (seq 0 (length heads))) in *.
  assert (Hz : z !! j = Some (v, j)).
  { unfold z. rewrite lookup_zip_with, Hj. cbn. by rewrite lookup_seq_lt by done. }
  assert (Hi : zip (<[j := u]> heads) (seq 0 (length heads)) = <[j := (u, j)]> z).
  { unfold z. rewrite <- (list_insert_id (seq 0 (length heads)) j j) at 1
      by (by rewrite lookup_seq_lt). by rewrite insert_zip_with. }
  rewrite Hi. apply lookup_lt_Some in Hz as Hzl.
  rewrite insert_take_drop by done. rewrite <- (take_drop_middle z j (v, j) Hz) in Hp.
  assert (E : h ≡ₚ take j z ++ drop (S j) z).
  { apply (Permutation_cons_inv (a := (v, j))). rewrite Permutation_cons_append, Hp.
    symmetry. apply Permutation_middle. }
  rewrite <- Permutation_cons_append, <- Permutation_middle. by apply Permutation_cons.
Qed.

End Heap.

(** * The intersection *)

Lemma in_all_false (x : Z) (ls : list (list Z)) (i : nat) (l : list Z) :
  ls !! i = Some l -> x ∉ l -> in_all x ls = false.
Proof.
  intros Hi Hx. unfold in_all. apply not_true_iff_false. rewrite forallb_forall. intros Hf.
  apply Hx. specialize (Hf l). rewrite bool_decide_eq_true in Hf. apply Hf.
  apply list_elem_of_In. by eapply list_elem_of_lookup_2.
Qed.

Lemma in_all_ext (x : Z) (ls ls' : list (list Z)) :
  Forall2 (fun l l' => x ∈ l <-> x ∈ l') ls ls' -> in_all x ls = in_all x ls'.
Proof.
  unfold in_all. induction 1 as [|l l' ls ls' Hl _ IH]; cbn; [done|].
  rewrite IH. f_equal. by apply bool_decide_ext.
Qed.

(** A head that some other list does not contain can be dropped. *)
Lemma common_drop (ls : list (list Z)) (i j : nat) (v : Z) (t l : list Z) :
  ls !! j = Some (v :: t) -> ls !! i = Some l -> v ∉ l ->
  common (<[j := t]> ls) = common ls.
Proof.
  intros Hj Hi Hv. assert (Hij : i <> j).
  { intros ->. rewrite Hj in Hi. injection Hi as <-. by apply Hv, elem_of_cons, or_introl. }
  destruct ls as [|l0 ls]; [done|]. destruct j as [|j].
  - injection Hj as ->. destruct i as [|i]; [done|]. cbn in *.
    by rewrite (in_all_false v ls i l) by done.
  - change (ls !! j = Some (v :: t)) in Hj. change (<[S j := t]> (l0 :: ls)) with (l0 :: <[j := t]> ls). cbn [common].
    apply filter_ext_in. intros x Hx. apply list_elem_of_In in Hx.
    destruct (decide (x = v)) as [->|Hxv].
    + destruct i as [|i]; [injection Hi as ->; done|]. change (ls !! i = Some l) in Hi.
      rewrite (in_all_false v ls i l), (in_all_false v (<[j := t]> ls) i l); try done.
      rewrite list_lookup_insert_ne; [done|lia].
    + apply in_all_ext. apply Forall2_same_length_lookup_2; [by rewrite length_insert|].
      intros n a b Ha Hb. destruct (decide (n = j)) as [->|Hn].
      * rewrite list_lookup_insert_eq in Ha by (by eapply lookup_lt_Some).
        injection Ha as <-. assert (b = v :: t) as -> by congruence. rewrite elem_of_cons. tauto.
      * rewrite list_lookup_insert_ne in Ha by done. assert (a = b) as -> by congruence. done.
Qed.

Lemma common_nil (ls : list (list Z)) (i : nat) : ls !! i = Some [] -> common ls = [].
Proof.
  destruct ls as [|l ls]; [done|]. intros Hi. destruct i as [|i]; cbn in Hi.
  - by injection Hi as ->.
  - cbn. induction l as [|x l IH]; [done|]. cbn.
    rewrite (in_all_false x ls i []) by (done || apply not_elem_of_nil). done.
Qed.

(** Equal heads are common. *)
Lemma common_hit (forward : bool) (v : Z) (heads : list Z) (tails : list (list Z)) :
  length heads = length tails -> heads <> [] -> Forall (fun x => x = v) heads ->
  sorted_inputs forward (zip_with cons heads tails) ->
  common (zip_with cons heads tails) = v :: common tails.
Proof.
  intros Hl Hne Hall Hs. destruct heads as [|h heads], tails as [|t tails]; try done.
  apply Forall_cons in Hall as [-> Hall]. injection Hl as Hl. cbn in *. destruct Hs as [Hs _].
  assert (E : forall x, x <> v -> in_all x (zip_with cons heads tails) = in_all x tails).
  { intros x Hx. apply in_all_ext. clear Hs Hne. revert tails Hl. induction Hall as [|y heads -> Hall IH];
      intros [|t' tails] Hl; try done; cbn; constructor.
    - rewrite elem_of_cons. tauto.
    - apply IH. cbn in Hl. lia. }
  assert (V : in_all v (zip_with cons heads tails) = true).
  { clear Hs Hne E. revert tails Hl. induction Hall as [|y heads -> Hall IH]; intros [|t' tails] Hl; try done.
    unfold in_all in *. cbn. rewrite bool_decide_true by apply elem_of_cons, or_introl, eq_refl.
    cbn in *. apply IH. lia. }
  rewrite V. f_equal. apply filter_ext_in. intros x Hx. apply E.
  apply StronglySorted_inv in Hs as [_ Hf]. rewrite List.Forall_forall in Hf. specialize (Hf x Hx).
  unfold lt_dir in Hf. destruct forward; lia.
Qed.

Lemma sorted_inputs_lookup (forward : bool) (ls : list (list Z)) (i : nat) (u : Z) (t : list Z) :
  sorted_inputs forward ls -> ls !! i = Some (u :: t) -> Forall (le_dir forward u) t.
Proof.
  destruct ls as [|l ls]; [done|]. intros [Hs Hf] Hi. destruct i as [|i]; cbn in Hi.
  - injection Hi as ->. apply StronglySorted_inv in Hs as [_ Hs].
    eapply Forall_impl; [exact Hs|]. unfold lt_dir, le_dir. destruct forward; cbn; lia.
  - rewrite Forall_lookup in Hf. specialize (Hf i _ Hi).
    by apply StronglySorted_inv in Hf as [_ Hf].
Qed.

Lemma sorted_inputs_insert (forward : bool) (ls : list (list Z)) (j : nat) (v : Z) (t : list Z) :
  sorted_inputs forward ls -> ls !! j = Some (v :: t) -> sorted_inputs forward (<[j := t]> ls).
Proof.
  destruct ls as [|l ls]; [done|]. intros [Hs Hf] Hj. destruct j as [|j]; cbn in *.
  - injection Hj as ->. apply StronglySorted_inv in Hs as [Hs _]. done.
  - split; [done|]. apply Forall_insert; [done|]. rewrite Forall_lookup in Hf.
    specialize (Hf j _ Hj). by apply StronglySorted_inv in Hf as [Hf _].
Qed.

Lemma sorted_inputs_tails (forward : bool) (heads : list Z) (tails : list (list Z)) :
  length heads = length tails ->
  sorted_inputs forward (zip_with cons heads tails) -> sorted_inputs forward tails.
Proof.
  destruct heads as [|h heads], tails as [|t tails]; try done. intros Hl [Hs Hf]. injection Hl as Hl.
  split; [by apply StronglySorted_inv in Hs as [Hs _]|].
  clear Hs. revert tails Hl Hf. induction heads as [|h' heads IH]; intros [|t' tails] Hl Hf; try done.
  cbn in *. apply Forall_cons in Hf as [Hh Hf]. apply StronglySorted_inv in Hh as [Hh _].
  constructor; [done|]. apply IH; [lia|done].
Qed.

Lemma not_elem_of_later (forward : bool) (v u : Z) (t : list Z) :
  lt_dir forward v u -> Forall (le_dir forward u) t -> v ∉ u :: t.
Proof.
  intros Hv Hf. rewrite elem_of_cons. intros [->|Hin].
  - unfold lt_dir in Hv. destruct forward; lia.
  - rewrite Forall_forall in Hf. specialize (Hf v Hin).
    unfold lt_dir, le_dir in *. destruct forward; lia.
Qed.

(** * The loop *)

Lemma next_all_spec (i : nat) (ls : list (list Z)) :
  match next_all i ls with
  | None => exists j, ls !! j = Some []
  | Some (heap, tails) =>
      exists heads, heap = zip heads (seq i (length heads)) /\
        length heads = length tails /\ ls = zip_with cons heads tails
  end.
Proof.
  revert i. induction ls as [|l ls IH]; intros i; cbn [next_all].
  { by exists []. }
  destruct l as [|v l]; [by exists 0%nat|].
  specialize (IH (S i)). destruct (next_all (S i) ls) as [[heap tails]|].
  - destruct IH as (heads & -> & Hl & ->). exists (v :: heads). cbn. by rewrite Hl.
  - destruct IH as [j Hj]. by exists (S j).
Qed.

Lemma fill_heap_spec (forward : bool) (ls : list (list Z)) :
  match fill_heap forward ls with
  | None => exists j, ls !! j = Some []
  | Some (heap, tails) =>
      exists heads, heap_of forward heap heads /\
        length heads = length tails /\ ls = zip_with cons heads tails
  end.
Proof.
  unfold fill_heap. pose proof (next_all_spec 0 ls) as Hn.
  destruct (next_all 0 ls) as [[heap tails]|]; [|done].
  destruct Hn as (heads & -> & Hl & ->). exists heads. split; [|done].
  split; [apply heapify_perm|apply heapify_sorted].
Qed.

(** The popped item is the smallest; if the heap is no hit, some head is past
    it. *)
Lemma pop_smallest (forward : bool) (h : heap_t) (v : Z) (j : nat) (heads : list Z) :
  heap_of forward (h ++ [(v, j)]) heads -> is_hit (h ++ [(v, j)]) = false ->
  heads !! j = Some v /\ exists i u, heads !! i = Some u /\ lt_dir forward v u.
Proof.
  intros Hh Hit. split.
  { apply (heap_of_elem _ _ _ _ _ Hh). rewrite elem_of_app, list_elem_of_singleton. by right. }
  assert (Hle : Forall (fun x => le_dir forward v x.1) h).
  { destruct Hh as [_ Hs]. clear Hit. induction h as [|x h IH]; [done|].
    cbn in Hs. apply StronglySorted_inv in Hs as [Hs Hf]. constructor; [|by apply IH].
    rewrite Forall_app, Forall_singleton in Hf. destruct Hf as [_ Hf]. exact Hf. }
  destruct (decide (Forall (fun x => x.1 = v) h)) as [Hall|Hne].
  { exfalso. apply not_true_iff_false in Hit. apply Hit, is_hit_spec. exists v.
    split; [by destruct h|]. rewrite Forall_app, Forall_singleton. done. }
  apply not_Forall_Exists in Hne; [|apply _]. apply Exists_exists in Hne as ([u i] & Hin & Hu).
  exists i, u. split.
  - apply (heap_of_elem _ _ _ _ _ Hh). rewrite elem_of_app. by left.
  - rewrite Forall_forall in Hle. specialize (Hle _ Hin). cbn in *.
    unfold lt_dir, le_dir in *. destruct forward; lia.
Qed.

Lemma zip_cons_lookup (heads : list Z) (tails : list (list Z)) (i : nat) (u : Z) :
  length heads = length tails -> heads !! i = Some u ->
  exists t, tails !! i = Some t /\ zip_with cons heads tails !! i = Some (u :: t).
Proof.
  intros Hl Hi. apply lookup_lt_Some in Hi as Hlt. rewrite Hl in Hlt.
  apply lookup_lt_is_Some in Hlt as [t Ht]. exists t. split; [done|].
  by rewrite lookup_zip_with, Hi, Ht.
Qed.

Lemma length_concat_insert (ls : list (list Z)) (j : nat) (x : Z) (t : list Z) :
  ls !! j = Some (x :: t) -> S (length (concat (<[j := t]> ls))) = length (concat ls).
Proof.
  revert j. induction ls as [|l ls IH]; intros [|j] Hj; try done.
  - injection Hj as ->. done.
  - change (<[S j := t]> (l :: ls)) with (l :: <[j := t]> ls). cbn [concat].
    rewrite !length_app, <- (IH j Hj). lia.
Qed.

Lemma length_concat_zip (heads : list Z) (tails : list (list Z)) :
  length heads = length tails ->
  length (concat (zip_with cons heads tails)) = (length heads + length (concat tails))%nat.
Proof.
  revert tails. induction heads as [|h heads IH]; intros [|t tails] Hl; try done.
  cbn in *. rewrite !length_app, IH by lia. lia.
Qed.

Lemma intersect_loop_spec (forward : bool) (fuel limit : nat) (heads : list Z)
    (tails : list (list Z)) (heap : heap_t) (ret : list Z) :
  heap_of forward heap heads -> length heads = length tails -> heads <> [] ->
  sorted_inputs forward (zip_with cons heads tails) -> (length (concat tails) < fuel)%nat ->
  intersect_loop fuel forward limit tails heap ret
  = Ret (ret ++ take (limit - length ret) (common (zip_with cons heads tails))).
Proof.
  revert heads tails heap ret. induction fuel as [|fuel IH];
    intros heads tails heap ret Hh Hl Hne Hs Hf; [lia|].
  cbn [intersect_loop]. destruct (Nat.ltb_spec (length ret) limit) as [Hlt|Hge].
  2: { replace (limit - length ret)%nat with 0%nat by lia. by rewrite take_0, app_nil_r. }
  assert (exists h x, heap = h ++ [x]) as (h & [v j] & ->).
  { destruct Hh as [Hp _]. destruct heap as [|x h _] using rev_ind; [|eauto].
    apply Permutation_nil in Hp. destruct heads; done. }
  rewrite pop_snoc. destruct (is_hit (h ++ [(v, j)])) eqn:Eh.
  - apply is_hit_spec in Eh as (v' & _ & Hall). rewrite Forall_app, Forall_singleton in Hall.
    destruct Hall as [Hall Hv]. cbn in Hv. subst v'.
    assert (Hhv : Forall (fun x => x = v) heads).
    { apply Forall_lookup. intros i u Hi. apply (heap_of_elem _ _ _ _ _ Hh) in Hi.
      rewrite elem_of_app, list_elem_of_singleton in Hi. destruct Hi as [Hi|[= -> _]]; [|done].
      rewrite Forall_forall in Hall. exact (Hall _ Hi). }
    rewrite (common_hit forward v) by done.
    replace (limit - length ret)%nat with (S (limit - length (ret ++ [v]))) by (rewrite length_app; cbn; lia).
    cbn [take]. pose proof (fill_heap_spec forward tails) as Hfill.
    destruct (fill_heap forward tails) as [[heap' tails']|].
    + destruct Hfill as (heads' & Hh' & Hl' & ->).
      apply sorted_inputs_tails in Hs; [|done].
      rewrite length_concat_zip in Hf by done. rewrite length_zip_with, <- Hl', Nat.min_id in Hl.
      rewrite (IH heads' tails' heap') by (done || (destruct heads, heads'; cbn in *; try done; lia)).
      by rewrite <- app_assoc.
    + destruct Hfill as [i Hi]. rewrite (common_nil tails i Hi). by rewrite take_nil.
  - destruct (pop_smallest forward h v j heads Hh Eh) as (Hj & i & u & Hi & Hu).
    destruct (zip_cons_lookup heads tails j v Hl Hj) as (t & Ht & Hjl).
    destruct (zip_cons_lookup heads tails i u Hl Hi) as (t' & Ht' & Hil).
    assert (Hc : common (<[j := t]> (zip_with cons heads tails)) = common (zip_with cons heads tails)).
    { apply (common_drop _ i j v t (u :: t')); [done..|].
      apply (not_elem_of_later forward); [done|]. by eapply sorted_inputs_lookup. }
    rewrite Ht. rewrite <- Hc. destruct t as [|x t].
    + rewrite (common_nil _ j); [by rewrite take_nil, app_nil_r|].
      apply list_lookup_insert_eq. by eapply lookup_lt_Some.
    + rewrite (IH (<[j := x]> heads) (<[j := t]> tails)); [by rewrite insert_zip_with|..].
      * by eapply heap_of_replace.
      * by rewrite !length_insert.
      * intros E. apply (f_equal length) in E. rewrite length_insert in E. by destruct heads.
      * rewrite <- insert_zip_with. by eapply sorted_inputs_insert.
      * apply length_concat_insert in Ht. lia.
Qed.

Lemma sorted_intersect_common (iters : list (list Z)) (limit : nat) (forward : bool) :
  sorted_inputs forward iters ->
  sorted_intersect iters limit forward = Ret (take limit (common iters)).
Proof.
  intros Hs. destruct iters as [|a [|b iters]]; cbn [sorted_intersect].
  - cbn [common]. by rewrite take_nil.
  - do 2 f_equal. cbn. symmetry. induction a as [|x a IH]; [done|]. cbn. f_equal. apply IH.
    destruct Hs as [Hs Hf]. by apply StronglySorted_inv in Hs as [Hs _].
  - pose proof (fill_heap_spec forward (a :: b :: iters)) as Hfill.
    destruct (fill_heap forward (a :: b :: iters)) as [[heap tails]|].
    + destruct Hfill as (heads & Hh & Hl & E). rewrite E in *.
      rewrite (intersect_loop_spec forward _ limit heads); [|done..| |done|lia].
      * by rewrite Nat.sub_0_r.
      * intros ->. done.
    + destruct Hfill as [j Hj]. rewrite (common_nil _ j Hj). by rewrite take_nil.
Qed.

(** C17: the intersection of sorted iterators. For iterators sorted in the query
    direction, the first one without repetitions, the function returns, in that
    order, the first [limit] items that every iterator gives. It always
    returns. *)
Theorem sorted_intersect_spec (iters : list (list Z)) (limit : nat) (forward : bool) :
  sorted_inputs forward iters ->
  sorted_intersect iters limit forward = Ret (take limit (common iters)).
Proof. apply sorted_intersect_common. Qed.

Lemma sorted_intersect_spec_witness :
  sorted_intersect [[9; 7; 5; 1]; [9; 6; 5; 1; 1]] 2 false = Ret [9; 5].
Proof.
  apply (sorted_intersect_spec [[9; 7; 5; 1]; [9; 6; 5; 1; 1]] 2 false).
  repeat first [apply conj | apply SSorted_cons | apply SSorted_nil | apply Forall_cons_2
               | apply Forall_nil_2]; cbn; lia.
Defined.
