(* ===== verification/Params.v ===== *)
(** Query parameters ([mina-recorder/src/database/params.rs]): validation of the
    start, the limits and the filters of a query, and the cut of its results. *)

From stdpp Require Import base list strings.
From Stdlib Require Import ZArith Lia.
From S2P Require Import Prelude Types Coding.

Inductive ParamsCoordinateValidateError : Type := IdWithTimestamp.

Inductive ParamsValidateError : Type :=
| CoordinateValidate (e : ParamsCoordinateValidateError)
| ParseSocketAddr
| StreamIdWithoutConnectionId
| ParseStreamId (s : bytes)
| ParseMessageKind.

Inductive Direction : Type := DForward | DReverse.

Definition is_forward (d : Direction) : bool := match d with DForward => true | DReverse => false end.

Inductive Coordinate : Type :=
| ById (id : Z) (explicit : bool)
| ByTimestamp (t : Z).

Record ValidParamsCoordinate : Type := mkCoordinate {
  start : Coordinate;
  limit : Z;
  limit_timestamp : option Z;
  direction : Direction;
}.

Inductive StreamFilter : Type :=
| AnyStreamByAddr (a : SocketAddr)
| AnyStreamInConnection (id : Z)
| Stream (s : StreamFullId).

Inductive KindFilter : Type :=
| AnyMessageInStream (kinds : list StreamKind)
| ByMessage (kinds : list MessageType).

Record ValidParams : Type := mkValidParams {
  coordinate : ValidParamsCoordinate;
  stream_filter : option StreamFilter;
  kind_filter : option KindFilter;
}.

Record Params : Type := mkParams {
  p_id : option Z;
  p_timestamp : option Z;
  p_direction : Direction;
  p_limit : option Z;
  p_limit_timestamp : option Z;
  p_connection_id : option Z;
  p_addr : option bytes;
  p_stream_id : option bytes;
  p_stream_kind : option bytes;
  p_message_kind : option bytes;
}.

Definition usize_max : Z := 2 ^ 64 - 1.

(** [Params::validate_coordinate] *)
Definition validate_coordinate (p : Params)
    : result ValidParamsCoordinate ParamsCoordinateValidateError :=
  let start :=
    match p_id p, p_timestamp p with
    | None, None =>
        match p_direction p with
        | DForward => Ok (ById 0 false)
        | DReverse => Ok (ById (2 ^ 64 - 1) false)
        end
    | Some id, None => Ok (ById id true)
    | None, Some timestamp => Ok (ByTimestamp timestamp)
    | Some _, Some _ => Err IdWithTimestamp
    end in
  match start with
  | Err e => Err e
  | Ok start =>
      let limit := match p_limit_timestamp p with
                   | Some _ => default usize_max (p_limit p)
                   | None => default 16 (p_limit p)
                   end in
      Ok (mkCoordinate start limit (p_limit_timestamp p) (p_direction p))
  end.

(** [s.split(',')] *)
Fixpoint split_comma (s : bytes) : list bytes :=
  match s with
  | [] => [[]]
  | c :: s =>
      if c =? 44 then [] :: split_comma s
      else match split_comma s with
           | [] => [[c]]
           | w :: ws => (c :: w) :: ws
           end
  end.

(** Every word must name a message type. *)
Fixpoint parse_kinds (ws : list bytes) : option (list MessageType) :=
  match ws with
  | [] => Some []
  | w :: ws => k ← MessageType_from_str w; ks ← parse_kinds ws; Some (k :: ks)
  end.

(** [Params::validate]; [parse_addr] is [SocketAddr::from_str]. *)
Definition validate (parse_addr : bytes -> option SocketAddr) (p : Params)
    : result ValidParams ParamsValidateError :=
  match validate_coordinate p with
  | Err e => Err (CoordinateValidate e)
  | Ok coordinate =>
      let stream_filter :=
        match p_addr p, p_connection_id p, p_stream_id p with
        | Some addr, _, _ =>
            match parse_addr addr with
            | None => Err ParseSocketAddr
            | Some a => Ok (Some (AnyStreamByAddr a))
            end
        | None, None, None => Ok None
        | None, Some id, None => Ok (Some (AnyStreamInConnection id))
        | None, Some id, Some s =>
            match StreamId_from_str s with
            | None => Err (ParseStreamId s)
            | Some sid => Ok (Some (Stream (mkStreamFullId id sid)))
            end
        | None, None, Some _ => Err StreamIdWithoutConnectionId
        end in
      match stream_filter with
      | Err e => Err e
      | Ok stream_filter =>
          let kind_filter :=
            match p_stream_kind p, p_message_kind p with
            | None, None => Ok None
            | Some kind, None =>
                Ok (Some (AnyMessageInStream (StreamKind_from_str <$> split_comma kind)))
            | _, Some kind =>
                match parse_kinds (split_comma kind) with
                | None => Err ParseMessageKind
                | Some kinds => Ok (Some (ByMessage kinds))
                end
            end in
          match kind_filter with
          | Err e => Err e
          | Ok kind_filter => Ok (mkValidParams coordinate stream_filter kind_filter)
          end
      end
  end.

(** [iter.take_while(p)] *)
Fixpoint take_while {A} (p : A -> bool) (l : list A) : list A :=
  match l with
  | [] => []
  | x :: l => if p x then x :: take_while p l else []
  end.

(** [ValidParamsCoordinate::limit]; [ts] is [Timestamp::timestamp] in
    nanoseconds. *)
Definition limit_results {T} (c : ValidParamsCoordinate) (ts : T -> Z) (it : list (Z * T))
    : list (Z * T) :=
  let keep '(_, msg) :=
    match limit_timestamp c with
    | Some t => Bool.eqb (ts msg / 10 ^ 9 <? t) (is_forward (direction c))
    | None => true
    end in
  take (Z.to_nat (limit c)) (take_while keep it).

(** * Properties *)

Lemma take_while_sublist {A} (p : A -> bool) (l : list A) :
  exists r, l = take_while p l ++ r /\ Forall (fun x => p x = true) (take_while p l).
Proof.
  induction l as [|x l (r & IH & Hf)]; cbn; [by exists []|].
  destruct (p x) eqn:E; [|by exists (x :: l)]. exists r. cbn. by rewrite <- IH; auto.
Qed.

Lemma take_while_all {A} (p : A -> bool) (l : list A) :
  Forall (fun x => p x = true) l -> take_while p l = l.
Proof. induction 1 as [|x l Hx _ IH]; cbn; [done|]. by rewrite Hx, IH. Qed.

Lemma split_comma_nonempty (s : bytes) : split_comma s <> [].
Proof. destruct s as [|c s]; cbn; [done|]. repeat case_match; done. Qed.

(** Splitting undoes joining with commas. *)
Fixpoint join_comma (ws : list bytes) : bytes :=
  match ws with
  | [] => []
  | [w] => w
  | w :: ws => w ++ [44] ++ join_comma ws
  end.

Lemma split_comma_app (w s : bytes) :
  44 ∉ w -> split_comma (w ++ [44] ++ s) = w :: split_comma s.
Proof.
  induction w as [|c w IH]; intros Hw; cbn in *; [done|].
  rewrite not_elem_of_cons in Hw. destruct Hw as [Hc Hw].
  rewrite (proj2 (Z.eqb_neq c 44)) by done. rewrite IH; done.
Qed.

Lemma split_comma_word (w : bytes) : 44 ∉ w -> split_comma w = [w].
Proof.
  induction w as [|c w IH]; intros Hw; cbn in *; [done|].
  rewrite not_elem_of_cons in Hw. destruct Hw as [Hc Hw].
  rewrite (proj2 (Z.eqb_neq c 44)) by done. by rewrite IH.
Qed.

Lemma split_join (ws : list bytes) :
  ws <> [] -> Forall (fun w => 44 ∉ w) ws -> split_comma (join_comma ws) = ws.
Proof.
  intros Hne Hf. induction Hf as [|w ws Hw Hf IH]; [done|]. destruct ws as [|w' ws].
  - by apply split_comma_word.
  - change (join_comma (w :: w' :: ws)) with (w ++ [44] ++ join_comma (w' :: ws)).
    by rewrite split_comma_app, IH.
Qed.

Lemma display_no_comma (t : MessageType) : 44 ∉ MessageType_display t.
Proof. apply (bool_decide_unpack _). by destruct t; vm_compute. Qed.

Lemma parse_kinds_display (ts : list MessageType) :
  parse_kinds (MessageType_display <$> ts) = Some ts.
Proof.
  induction ts as [|t ts IH]; [done|]. cbn [fmap list_fmap parse_kinds].
  rewrite MessageType_str_roundtrip. cbn. by rewrite IH.
Qed.

(** The filters of a query. A list of message kinds written with the names
    the recorder itself prints, separated by commas, selects exactly those
    kinds, in order, and takes precedence over a stream kind; a stream id
    selects the stream of the given connection, and is refused without one; an
    id together with a timestamp is refused. *)
Theorem params_validate_spec (parse_addr : bytes -> option SocketAddr) (p : Params)
    (kinds : list MessageType) (sid : StreamId) :
  p_message_kind p = Some (join_comma (MessageType_display <$> kinds)) -> kinds <> [] ->
  p_addr p = None -> p_stream_id p = Some (StreamId_display sid) -> wf_stream_id sid ->
  match validate parse_addr p, p_id p, p_timestamp p, p_connection_id p with
  | Err (CoordinateValidate IdWithTimestamp), Some _, Some _, _ => True
  | Err StreamIdWithoutConnectionId, _, _, None => True
  | Ok v, _, _, Some c =>
      kind_filter v = Some (ByMessage kinds) /\
      stream_filter v = Some (Stream (mkStreamFullId c sid)) /\
      direction (coordinate v) = p_direction p
  | _, _, _, _ => False
  end.
Proof.
  intros Hk Hne Ha Hs Hw. unfold validate, validate_coordinate. rewrite Ha, Hs, Hk.
  rewrite StreamId_str_roundtrip by done.
  rewrite split_join, parse_kinds_display; [| |apply Forall_fmap, Forall_true; apply display_no_comma].
  2: { destruct kinds; done. }
  destruct (p_id p), (p_timestamp p), (p_connection_id p); cbn; try done;
    by destruct (p_stream_kind p), (p_direction p).
Qed.

Definition demo_params : Params :=
  mkParams None (Some 5) DReverse None None (Some 3) None (Some (str "forward_0000000a"))
    (Some (str "/meshsub/1.1.0")) (Some (str "get_best_tip,ban_notify")).

Lemma params_validate_spec_witness :
  exists v, validate (fun _ => None) demo_params = Ok v /\
    kind_filter v = Some (ByMessage [GetBestTip; BanNotify]) /\
    stream_filter v = Some (Stream (mkStreamFullId 3 (Forward 10))).
Proof.
  pose proof (params_validate_spec (fun _ => None) demo_params [GetBestTip; BanNotify] (Forward 10)
    eq_refl ltac:(discriminate) eq_refl eq_refl ltac:(cbn; lia)) as H.
  destruct (validate (fun _ => None) demo_params) as [v|[[]| | | |]]; try (cbn in H; contradiction).
  exists v. destruct H as (Hk & Hs & _). auto.
Defined.
