(* ===== verification/Rocks.v ===== *)
(** The key-value store behind the database: what [database/core.rs] uses of the
    [rocksdb] crate, as an interface. A column family is an ordered map from byte
    strings to byte strings; [DbCore::open] gives some families a fixed-length
    prefix extractor, and an iterator on such a family is only sure to give the
    keys that share the prefix of the key it starts from. *)

From stdpp Require Import base list gmap sorting.
From Stdlib Require Import ZArith Lia.
From S2P Require Import Prelude.

(** * Column families ([DbCore::CFS] and the default one) *)

Inductive CF : Type :=
| CONNECTIONS | MESSAGES | RANDOMNESS | STRACE | STATS | STATS_TX | CAPNP | STATS_BLOCK_V2
| BLOBS | KEYS | CONNECTION_ID_INDEX | STREAM_ID_INDEX | STREAM_KIND_INDEX
| MESSAGE_KIND_INDEX | ADDR_INDEX | LEDGER_HASH_INDEX | DEFAULT_CF.

#[export] Instance CF_eq_dec : EqDecision CF.
Proof. solve_decision. Defined.

(** The options [DbCore::open] gives to each family. *)
Definition prefix_extractor (cf : CF) : option nat :=
  match cf with
  | STATS | STATS_BLOCK_V2 => Some 4%nat
  | CONNECTION_ID_INDEX => Some 8%nat
  | STREAM_ID_INDEX => Some 16%nat
  | STREAM_KIND_INDEX | MESSAGE_KIND_INDEX => Some 2%nat
  | ADDR_INDEX => Some 18%nat
  | LEDGER_HASH_INDEX => Some 32%nat
  | _ => None
  end.

(** * The order of keys *)

Fixpoint key_cmp (a b : bytes) : comparison :=
  match a, b with
  | [], [] => Eq
  | [], _ :: _ => Lt
  | _ :: _, [] => Gt
  | x :: a, y :: b => match x ?= y with Eq => key_cmp a b | c => c end
  end.

(** [rocksdb::Direction] and [rocksdb::IteratorMode] *)
Inductive RDirection : Type := RForward | RReverse.

Inductive IteratorMode : Type :=
| IStart
| IEnd
| IFrom (key : bytes) (d : RDirection).

(** [a] comes before [b] when iterating in direction [d]. *)
Definition key_before (d : RDirection) (a b : bytes) : Prop :=
  match d with RForward => key_cmp a b = Lt | RReverse => key_cmp b a = Lt end.

(** [l] is what iterating over [m] in direction [d], restricted to the keys that
    satisfy [P], gives. *)
Definition scan_spec (d : RDirection) (P : bytes -> Prop) (m : gmap bytes bytes)
    (l : list (bytes * bytes)) : Prop :=
  StronglySorted (key_before d) l.*1 /\
  forall k v, (k, v) ∈ l <-> m !! k = Some v /\ P k.

(** * The interface *)

(** [None] is a [rocksdb::Error]. *)
Class Rocks (R : Type) : Type := {
  get_cf : CF -> bytes -> R -> option (option bytes);
  put_cf : CF -> bytes -> bytes -> R -> R * option unit;
  iterator_cf : CF -> IteratorMode -> R -> list (option (bytes * bytes));
  contents : R -> CF -> gmap bytes bytes;
  healthy : R -> Prop;
}.

(** What a store without I/O errors does. *)
Class RocksLaws (R : Type) `{!Rocks R} : Prop := {
  get_ok : forall (r : R) cf k, healthy r -> get_cf cf k r = Some (contents r cf !! k);
  put_ok : forall (r : R) cf k v, healthy r ->
    exists r', put_cf cf k v r = (r', Some tt) /\ healthy r' /\
      forall cf', contents r' cf'
                  = if decide (cf' = cf) then <[k := v]> (contents r cf) else contents r cf';
  iter_start_ok : forall (r : R) cf, healthy r -> prefix_extractor cf = None ->
    exists l, iterator_cf cf IStart r = Some <$> l /\
      scan_spec RForward (fun _ => True) (contents r cf) l;
  iter_end_ok : forall (r : R) cf, healthy r -> prefix_extractor cf = None ->
    exists l, iterator_cf cf IEnd r = Some <$> l /\
      scan_spec RReverse (fun _ => True) (contents r cf) l;
  iter_from_ok : forall (r : R) cf k d, healthy r -> prefix_extractor cf = None ->
    exists l, iterator_cf cf (IFrom k d) r = Some <$> l /\
      scan_spec d (fun k' => ~ key_before d k' k) (contents r cf) l;
  iter_prefix_ok : forall (r : R) cf k d n, healthy r -> prefix_extractor cf = Some n ->
    (n <= length k)%nat ->
    exists l rest, iterator_cf cf (IFrom k d) r = Some <$> (l ++ rest) /\
      scan_spec d (fun k' => take n k' = take n k /\ ~ key_before d k' k) (contents r cf) l /\
      Forall (fun kv => is_Some (contents r cf !! kv.1) /\ take n kv.1 <> take n k) rest;
}.

(** * Lemmas on the order *)

Lemma key_cmp_refl (a : bytes) : key_cmp a a = Eq.
Proof. induction a as [|x a IH]; [done|]. cbn. by rewrite Z.compare_refl. Qed.

Lemma key_cmp_eq (a b : bytes) : key_cmp a b = Eq -> a = b.
Proof.
  revert b. induction a as [|x a IH]; intros [|y b]; cbn; try done.
  destruct (Z.compare_spec x y) as [->| |]; intros E; [|done..]. f_equal. by apply IH.
Qed.

Lemma key_cmp_antisym (a b : bytes) : key_cmp b a = CompOpp (key_cmp a b).
Proof.
  revert b. induction a as [|x a IH]; intros [|y b]; cbn; try done.
  rewrite (Z.compare_antisym x y). destruct (x ?= y); cbn; [apply IH|done..].
Qed.

Lemma key_cmp_trans (a b c : bytes) : key_cmp a b = Lt -> key_cmp b c = Lt -> key_cmp a c = Lt.
Proof.
  revert b c. induction a as [|x a IH]; intros [|y b] [|z c]; cbn; try done.
  destruct (Z.compare_spec x y), (Z.compare_spec y z); intros H1 H2; try done; subst;
    try (rewrite (proj2 (Z.compare_lt_iff _ _)) by lia; done).
  rewrite Z.compare_refl. by eapply IH.
Qed.

Lemma key_cmp_app (p a b : bytes) : key_cmp (p ++ a) (p ++ b) = key_cmp a b.
Proof. induction p as [|x p IH]; [done|]. cbn. by rewrite Z.compare_refl. Qed.

Lemma key_cmp_app_length (a b x y : bytes) :
  length a = length b ->
  key_cmp (a ++ x) (b ++ y) = match key_cmp a b with Eq => key_cmp x y | c => c end.
Proof.
  revert b. induction a as [|u a IH]; intros [|v b] L; cbn in *; try done.
  destruct (u ?= v); [|done..]. apply IH. lia.
Qed.

Lemma key_cmp_snoc (a b : bytes) (x y : Z) :
  length a = length b ->
  key_cmp (a ++ [x]) (b ++ [y]) = match key_cmp a b with Eq => x ?= y | c => c end.
Proof. intros L. rewrite key_cmp_app_length by done. cbn. by destruct (x ?= y). Qed.

(** Big-endian keys sort as the integers they encode. *)
Lemma key_cmp_be (n : nat) (a b : Z) :
  0 <= a < 256 ^ Z.of_nat n -> 0 <= b < 256 ^ Z.of_nat n ->
  key_cmp (be_encode n a) (be_encode n b) = (a ?= b).
Proof.
  revert a b. induction n as [|n IH]; intros a b Ha Hb.
  { cbn in *. assert (a = b) as -> by lia. by rewrite Z.compare_refl. }
  rewrite Nat2Z.inj_succ, Z.pow_succ_r in * by lia.
  change (be_encode (S n) a) with (be_encode n (a / 256) ++ [a mod 256]).
  change (be_encode (S n) b) with (be_encode n (b / 256) ++ [b mod 256]).
  rewrite key_cmp_snoc by (by rewrite !length_be_encode).
  rewrite IH by (Z.to_euclidean_division_equations; lia).
  destruct (Z.compare_spec (a / 256) (b / 256)), (Z.compare_spec a b),
    (Z.compare_spec (a mod 256) (b mod 256)); try done;
    Z.to_euclidean_division_equations; lia.
Qed.

Lemma key_before_trans (d : RDirection) : Transitive (key_before d).
Proof. intros a b c. destruct d; cbn; eauto using key_cmp_trans. Qed.

Lemma key_before_irrefl (d : RDirection) (a : bytes) : ~ key_before d a a.
Proof. destruct d; cbn; by rewrite key_cmp_refl. Qed.

(** ** A concrete store: the column families as maps *)

Section Concrete.

Definition MemStore : Type := CF -> gmap bytes bytes.

#[local] Instance key_le_dec (d : RDirection) : RelDecision (fun a b : bytes * bytes => ~ key_before d b.1 a.1).
Proof. intros a b. unfold key_before. destruct d; solve_decision. Defined.

Definition mem_scan (d : RDirection) (m : gmap bytes bytes) : list (bytes * bytes) :=
  merge_sort (fun a b => ~ key_before d b.1 a.1) (map_to_list m).

Definition key_beforeb (d : RDirection) (a b : bytes) : bool :=
  match d with
  | RForward => bool_decide (key_cmp a b = Lt)
  | RReverse => bool_decide (key_cmp b a = Lt)
  end.

#[local] Instance mem_rocks : Rocks MemStore := {|
  get_cf cf k r := Some (r cf !! k);
  put_cf cf k v r := (fun cf' => if decide (cf' = cf) then <[k := v]> (r cf) else r cf', Some tt);
  iterator_cf cf m r :=
    Some <$> match m with
             | IStart => mem_scan RForward (r cf)
             | IEnd => mem_scan RReverse (r cf)
             | IFrom k d => List.filter (fun kv => negb (key_beforeb d kv.1 k)) (mem_scan d (r cf))
             end;
  contents r := r;
  healthy _ := True;
|}.

Lemma key_beforeb_spec (d : RDirection) (a b : bytes) :
  negb (key_beforeb d a b) = true <-> ~ key_before d a b.
Proof. unfold key_beforeb, key_before. destruct d; case_bool_decide; naive_solver. Qed.

#[local] Instance key_le_total (d : RDirection) : Total (fun a b : bytes * bytes => ~ key_before d b.1 a.1).
Proof.
  intros [a ?] [b ?]. unfold key_before. cbn. rewrite (key_cmp_antisym a b).
  destruct d, (key_cmp a b); cbn; auto.
Qed.

#[local] Instance key_le_trans (d : RDirection) :
  Transitive (fun a b : bytes * bytes => ~ key_before d b.1 a.1).
Proof.
  intros [a ?] [b ?] [c ?] H1 H2. cbn in *. intros H3.
  assert (D : forall x y, ~ key_before d x y -> key_before d y x \/ x = y).
  { intros x y. unfold key_before. rewrite (key_cmp_antisym x y).
    destruct d, (key_cmp x y) eqn:E; cbn; auto using key_cmp_eq; naive_solver. }
  destruct (D _ _ H1) as [H|<-]; [|by apply H2].
  destruct (D _ _ H2) as [H'|<-]; [|by apply H1].
  eapply key_before_irrefl, key_before_trans; [exact H3|]. by eapply key_before_trans.
Qed.

Lemma mem_scan_spec (d : RDirection) (m : gmap bytes bytes) :
  scan_spec d (fun _ => True) m (mem_scan d m).
Proof.
  unfold mem_scan. set (l := merge_sort _ _).
  assert (P : l ≡ₚ map_to_list m) by apply merge_sort_Permutation.
  assert (S : StronglySorted (fun a b : bytes * bytes => ~ key_before d b.1 a.1) l)
    by (apply StronglySorted_merge_sort; apply _).
  assert (N : NoDup l.*1) by (rewrite P; apply NoDup_fst_map_to_list).
  split; [|intros k v; rewrite P, elem_of_map_to_list; tauto].
  clear P. induction S as [|x l S IH F]; cbn; [constructor|].
  apply NoDup_cons in N as [Nx N]. constructor; [by apply IH|]. apply Forall_fmap.
  apply Forall_forall. intros y Hy. rewrite Forall_forall in F. specialize (F y Hy). cbn in *.
  assert (E : y.1 <> x.1) by (intros E; apply Nx; rewrite <- E; by apply list_elem_of_fmap_2).
  unfold key_before in *. rewrite (key_cmp_antisym x.1 y.1) in *.
  destruct d, (key_cmp x.1 y.1) eqn:C; cbn in *; try done; by apply key_cmp_eq in C.
Qed.

Lemma filter_scan (d : RDirection) (P : bytes -> bool) (Q : bytes -> Prop) (m : gmap bytes bytes)
    (l : list (bytes * bytes)) :
  scan_spec d Q m l ->
  scan_spec d (fun k => Q k /\ P k = true) m (List.filter (fun kv => P kv.1) l).
Proof.
  intros [S E]. split.
  - clear E. induction l as [|x l IH]; cbn in *; [done|]. apply StronglySorted_inv in S as [S F].
    destruct (P x.1); [|by apply IH]. cbn. constructor; [by apply IH|].
    rewrite Forall_fmap, Forall_forall in *. intros y Hy%list_elem_of_In%filter_In.
    apply F, list_elem_of_In, Hy.
  - intros k v. rewrite list_elem_of_In, filter_In, <- list_elem_of_In, E. cbn. tauto.
Qed.

Lemma scan_spec_ext (d : RDirection) (P Q : bytes -> Prop) (m : gmap bytes bytes) l :
  (forall k, P k <-> Q k) -> scan_spec d P m l -> scan_spec d Q m l.
Proof. intros HPQ [S E]. split; [done|]. intros k v. by rewrite E, HPQ. Qed.

(** The keys with the prefix of the start come first. *)
Lemma sorted_filter_split {A} (R : A -> A -> Prop) (p : A -> bool) (l : list A) :
  StronglySorted R l ->
  (forall x y, x ∈ l -> y ∈ l -> R x y -> p y = true -> p x = true) ->
  l = List.filter p l ++ List.filter (fun x => negb (p x)) l.
Proof.
  induction 1 as [|x l S IH F]; intros H; cbn; [done|].
  rewrite Forall_forall in F. destruct (p x) eqn:E; cbn.
  - f_equal. apply IH. intros a b Ha Hb. apply H; by right.
  - assert (N : List.filter p l = []).
    { destruct (List.filter p l) as [|y l'] eqn:El; [done|].
      assert (Hy : List.In y (List.filter p l)) by (rewrite El; by left).
      apply filter_In in Hy as [Hy Ey]. apply list_elem_of_In in Hy.
      rewrite (H x y) in E; [done|by left|by right|by apply F|done]. }
    rewrite N in *. cbn. f_equal. apply IH. intros a b Ha Hb. apply H; by right.
Qed.

Lemma prefix_interval (n : nat) (k a b : bytes) :
  (n <= length k)%nat -> take n b = take n k ->
  key_cmp a b <> Gt -> key_cmp k a <> Gt -> take n a = take n k.
Proof.
  revert k a b. induction n as [|n IH]; intros [|x k] [|y a] [|z b] L; cbn in *; try done; try lia.
  intros [= -> E]. destruct (Z.compare_spec y x), (Z.compare_spec x y); try lia; try done; subst.
  intros. f_equal. apply (IH k a b); [lia|done..].
Qed.

#[local] Instance mem_laws : RocksLaws MemStore.
Proof.
  split.
  - done.
  - intros r cf k v _. eexists. split; [done|]. split; [done|]. done.
  - intros r cf _ _. eexists. split; [done|]. apply mem_scan_spec.
  - intros r cf _ _. eexists. split; [done|]. apply mem_scan_spec.
  - intros r cf k d _ _. eexists. split; [done|].
    eapply scan_spec_ext; [|apply (filter_scan d (fun k' => negb (key_beforeb d k' k))), mem_scan_spec].
    intros k'. cbn. rewrite key_beforeb_spec. tauto.
  - intros r cf k d n _ _ L. cbn [iterator_cf mem_rocks contents].
    pose proof (filter_scan d (fun k' => negb (key_beforeb d k' k)) _ _ _ (mem_scan_spec d (r cf))) as H.
    set (l := List.filter _ _) in *. set (p := fun kv : bytes * bytes => bool_decide (take n kv.1 = take n k)).
    exists (List.filter p l), (List.filter (fun x => negb (p x)) l). split_and!.
    + f_equal. apply (sorted_filter_split (fun a b => key_before d a.1 b.1)).
      * destruct H as [H _]. clear -H. induction l as [|x l IH]; [constructor|].
        apply StronglySorted_inv in H as [H F]. constructor; [by apply IH|].
        change (Forall (key_before d x.1) l.*1) in F. rewrite Forall_fmap in F. exact F.
      * intros [a va] [b vb] Ha Hb Hab. unfold p. rewrite !bool_decide_eq_true. cbn in *. intros E.
        apply H in Ha as [_ [_ Ha%key_beforeb_spec]].
        unfold key_before in *. destruct d.
        -- apply (prefix_interval n k a b); [done|done|by rewrite Hab|].
           rewrite (key_cmp_antisym a k). by destruct (key_cmp a k).
        -- assert (Lb : (n <= length b)%nat).
           { apply (f_equal length) in E. rewrite !length_take in E. lia. }
           rewrite <- E. apply (prefix_interval n b a k); [done|by rewrite E|..|by rewrite Hab].
           rewrite (key_cmp_antisym k a). by destruct (key_cmp k a).
    + eapply scan_spec_ext; [|exact (filter_scan d (fun k' => p (k', [])) _ _ l H)].
      intros k'. unfold p. cbn. rewrite key_beforeb_spec, bool_decide_eq_true. tauto.
    + apply Forall_forall. intros [a v] Ha%list_elem_of_In%filter_In. destruct Ha as [Ha Hp].
      apply list_elem_of_In, H in Ha as [Ha _]. cbn in *. split; [by eexists|].
      unfold p in Hp. cbn in Hp. by case_bool_decide.
Qed.

End Concrete.
