(* ===== verification/Families.v ===== *)
(** Opening the database ([DbCore::open] of [database/core.rs]) and the functions through
    which [DbCore] finds its column families. The store opens the families it is given
    descriptors of, creating the missing ones, and [cf_handle] finds a family that was
    opened; a family that was not is a panic ([expect("must exist")]). *)

From stdpp Require Import base list strings.
From Stdlib Require Import ZArith Lia.
From S2P Require Import Prelude Rocks.

(** The name each family is opened and looked up with. *)
Definition cf_name (cf : CF) : bytes :=
  match cf with
  | CONNECTIONS => str "connections"
  | MESSAGES => str "messages"
  | RANDOMNESS => str "randomness"
  | STRACE => str "strace"
  | STATS => str "stats"
  | STATS_TX => str "stats_tx"
  | CAPNP => str "capnp_data"
  | STATS_BLOCK_V2 => str "stats_block_v2"
  | BLOBS => str "blobs"
  | KEYS => str "keys"
  | CONNECTION_ID_INDEX => str "connection_id_index"
  | STREAM_ID_INDEX => str "stream_id_index"
  | STREAM_KIND_INDEX => str "stream_kind_index"
  | MESSAGE_KIND_INDEX => str "message_kind_index"
  | ADDR_INDEX => str "addr_index"
  | LEDGER_HASH_INDEX => str "ledger_hash_index"
  | DEFAULT_CF => str "default"
  end.

(** [DbCore::CFS] *)
Definition CFS : list CF :=
  [CONNECTIONS; MESSAGES; RANDOMNESS; STRACE; STATS; STATS_TX; CAPNP; STATS_BLOCK_V2; BLOBS; KEYS;
   CONNECTION_ID_INDEX; STREAM_ID_INDEX; STREAM_KIND_INDEX; MESSAGE_KIND_INDEX; ADDR_INDEX; LEDGER_HASH_INDEX].

(** The descriptors of [open], by position in [CFS]: the length of the prefix, if any. *)
Definition extractors : list (option nat) :=
  [None; None; None; None; Some 4%nat; None; None; Some 4%nat; None; None;
   Some 8%nat; Some 16%nat; Some 2%nat; Some 2%nat; Some 18%nat; Some 32%nat].

Definition descriptors : list (bytes * option nat) := zip (cf_name <$> CFS) extractors.

(** The families of an open store: those of the descriptors and the default one. *)
Definition opened : list (bytes * option nat) := (cf_name DEFAULT_CF, None) :: descriptors.

(** [inner.cf_handle(name)] *)
Definition cf_handle (name : bytes) : option (bytes * option nat) :=
  find (fun d => bool_decide (d.1 = name)) opened.

(** [self.messages()] and the like. *)
Definition family (cf : CF) : outcome (bytes * option nat) :=
  match cf_handle (cf_name cf) with Some d => Ret d | None => Panic end.

(** No accessor panics; each finds its own family, opened with the prefix that its keys
    are read with, and two accessors never find the same one. *)
Theorem families_exist (cf : CF) :
  family cf = Ret (cf_name cf, prefix_extractor cf) /\ (forall cf', family cf' = family cf -> cf' = cf).
Proof.
  assert (forall c, family c = Ret (cf_name c, prefix_extractor c)) as HE by (intros []; vm_compute; reflexivity).
  split; [apply HE|]. intros cf'. rewrite !HE. intros [= E _].
  revert E. destruct cf, cf'; intros E; first [reflexivity|vm_compute in E; discriminate E].
Qed.
