(* ===== verification/DbCore.v ===== *)
(** The database proper ([mina-recorder/src/database/core.rs]): records and
    indexes written through the key-value store of [Rocks.v], raw chunks stored
    under offsets handed out per connection, and the message queries.

    [DbCore] is cloned freely in the program; the clones share the offset cache
    and the store, so one value threaded through the calls stands for all. *)

From stdpp Require Import base list gmap sorting.
From Stdlib Require Import ZArith Lia.
From S2P Require Import Prelude Types Handle Coding SortedIntersect Params Rocks.

(** * State *)

Record DbCore (R : Type) : Type := mkCore {
  cache : gmap Z Z;
  db_inner : R;
}.
Arguments mkCore {R}.
Arguments cache {R}.
Arguments db_inner {R}.

(** Functions that return [Result<_, DbError>] and may change the database; the
    bind is [?]. *)
Definition DbM (R A : Type) : Type := DbCore R -> DbCore R * DbResult A.

#[export] Instance db_ret {R} : MRet (DbM R) := fun A a db => (db, Ok a).
#[export] Instance db_bind {R} : MBind (DbM R) := fun A B k m db =>
  match m db with
  | (db, Ok a) => k a db
  | (db, Err e) => (db, Err e)
  end.

Fixpoint for_each {R A} (l : list A) (f : A -> DbM R unit) : DbM R unit :=
  match l with
  | [] => mret tt
  | a :: l => f a;; for_each l f
  end.

(** [DbCore::CONNECTIONS_CNT] and the others: keys of the default family. *)
Definition CONNECTIONS_CNT : Z := 0.
Definition MESSAGES_CNT : Z := 1.
Definition RANDOMNESS_CNT : Z := 2.
Definition STRACE_CNT : Z := 3.

(** [ChunkHeader::SIZE] *)
Definition chunk_header_size : Z := 18.

(** [serde_json::Value::String] *)
Class Json (J : Type) : Type := json_string : bytes -> J.

(** [itertools::kmerge_by] on message ids. *)
Class Itertools : Type := kmerge_by : (Z -> Z -> bool) -> list (list Z) -> list Z.

(** Merging iterators sorted in the order of the predicate gives a sorted one
    with the same items. *)
Class ItertoolsLaws `{Itertools} : Prop :=
  kmerge_sorted : forall (forward : bool) first ls,
    (forall a b, a <> b -> first a b = true <-> lt_dir forward a b) ->
    Forall (StronglySorted (le_dir forward)) ls ->
    StronglySorted (le_dir forward) (kmerge_by first ls) /\ kmerge_by first ls ≡ₚ concat ls.

Record FullMessage (J : Type) : Type := mkFullMessage {
  fm_connection_id : Z;
  remote_addr : SocketAddr;
  fm_incoming : bool;
  fm_timestamp : Z;
  fm_stream_id : StreamId;
  fm_stream_kind : StreamKind;
  fm_message : J;
  fm_size : Z;
}.
Arguments mkFullMessage {J}.
Arguments fm_connection_id {J}.
Arguments remote_addr {J}.
Arguments fm_incoming {J}.
Arguments fm_timestamp {J}.
Arguments fm_stream_id {J}.
Arguments fm_stream_kind {J}.
Arguments fm_message {J}.
Arguments fm_size {J}.

#[export] Instance StreamFullId_eq_dec : EqDecision StreamFullId.
Proof. solve_decision. Defined.

(** [From<Direction>] for [rocksdb::Direction] and [rocksdb::IteratorMode] *)
Definition rocks_direction (d : Direction) : RDirection :=
  match d with DForward => RForward | DReverse => RReverse end.

Definition rocks_mode (d : Direction) : IteratorMode :=
  match d with DForward => IStart | DReverse => IEnd end.

Section Core.
Context `{!Radiation} {R : Type} `{!Rocks R}.
Implicit Types (db : DbCore R).

(** The codecs of [u64] and of the tuple [(ConnectionId, u64)]. *)
Definition u64_codec : Codec Z := {| emit := emit_uint 8; absorb := absorb_uint 8 |}.

Definition blob_key_codec : Codec (Z * Z) := {|
  emit k := emit_uint 8 k.1 ++ emit_uint 8 k.2;
  absorb l := '(c, r) ← absorb_uint 8 l; '(o, r) ← absorb_uint 8 r; Some ((c, o), r);
|}.

Definition blob_key (cn offset : Z) : bytes := @emit _ _ blob_key_codec (cn, offset).

(** * Writing *)

Definition put (cf : CF) (key value : bytes) : DbM R unit := fun db =>
  let '(r, e) := put_cf cf key value (db_inner db) in
  (mkCore (cache db) r, match e with Some _ => Ok tt | None => Err Inner end).

Definition put_cn (id : Z) (v : Connection) : DbM R unit :=
  put CONNECTIONS (emit_uint 8 id) (emit v).

Definition put_message (addr : SocketAddr) (id : Z) (v : Message) (tys : list MessageType)
    (ledger_hashes : list LedgerHash) : DbM R unit :=
  let stream_full_id := mkStreamFullId (connection_id v) (m_stream_id v) in
  put MESSAGES (be_encode 8 id) (emit v);;
  put ADDR_INDEX (emit (A := AddressIdx) (mkIdx addr id)) [];;
  put CONNECTION_ID_INDEX (emit (A := ConnectionIdx) (mkIdx (connection_id v) id)) [];;
  put STREAM_ID_INDEX (emit (A := StreamIdx) (mkIdx stream_full_id id)) [];;
  put STREAM_KIND_INDEX (emit (A := StreamByKindIdx) (mkIdx (stream_kind v) id)) [];;
  for_each tys (fun ty => put MESSAGE_KIND_INDEX (emit (A := MessageKindIdx) (mkIdx ty id)) []);;
  for_each ledger_hashes (fun hash =>
    put LEDGER_HASH_INDEX (emit (mkLedgerHashIdx hash (offset v) (size v) stream_full_id id)) []).

Definition put_randomness (id : Z) (data : bytes) : DbM R unit :=
  put RANDOMNESS (be_encode 8 id) data.

Definition put_strace (id : Z) (data : bytes) : DbM R unit := put STRACE (be_encode 8 id) data.

Definition put_stats_tx (height : Z) (data : bytes) : DbM R unit :=
  put STATS_TX (be_encode 4 height) data.

(** The first offset for a connection the cache does not know: one past the
    last stored one. *)
Definition next_offset (cn : Z) (db : DbCore R) : DbResult Z :=
  let key := blob_key cn (2 ^ 64 - 1) in
  match iterator_cf BLOBS (IFrom key RReverse) (db_inner db) with
  | [] => Ok 0
  | None :: _ => Err Inner
  | Some (key, _) :: _ =>
      match @absorb_ext _ _ blob_key_codec key with
      | None => Err DbParse
      | Some (cn_last, offset) => Ok (if cn_last =? cn then wrap 64 (offset + 1) else 0)
      end
  end.

Definition put_blob (cn : Z) (data : bytes) : DbM R Z := fun db =>
  let position := default 0 (cache db !! cn) in
  let entry position := mkCore (<[cn := position]> (cache db)) (db_inner db) in
  match (if position =? 0 then next_offset cn db else Ok position) with
  | Err e => (entry position, Err e)
  | Ok offset =>
      let db := entry (wrap 64 (offset + blen data)) in
      (put BLOBS (blob_key cn offset) data;; mret offset) db
  end.

Definition set_total (k v : Z) : DbM R unit := put DEFAULT_CF [k] (emit_uint 8 v).

Definition put_sk (pk sk : bytes) : DbM R unit := put KEYS pk sk.

(** * Reading *)

(** [DbCore::get] *)
Definition db_get {A} `{!Codec A} (cf : CF) (key : bytes) db : DbResult A :=
  match get_cf cf key (db_inner db) with
  | None => Err Inner
  | Some None => Err (NoItemAtCursor (hex_encode key))
  | Some (Some v) => match absorb_ext v with Some v => Ok v | None => Err DbParse end
  end.

(** [DbCore::fetch_blob]: the slice panics on a value shorter than a header. The
    text of the error is not modelled. *)
Definition fetch_blob (cn offset : Z) db : outcome (DbResult bytes) :=
  match get_cf BLOBS (blob_key cn offset) (db_inner db) with
  | None => Ret (Err Inner)
  | Some None => Ret (Err (NoItemAtCursor []))
  | Some (Some data) => b ← slice_from chunk_header_size data; Ret (Ok b)
  end.

(** [DbCore::decode] and [decode_index]; failures are logged. *)
Definition decode {K T} (CK : Codec K) (CT : Codec T) (item : option (bytes * bytes))
    : option (K * T) :=
  match item with
  | Some (key, value) =>
      match @absorb_ext _ _ CK key, @absorb_ext _ _ CT value with
      | Some key, Some v => Some (key, v)
      | _, _ => None
      end
  | None => None
  end.

Definition decode_index {T} (CT : Codec T) (item : option (bytes * bytes)) : option T :=
  match item with
  | Some (key, _) => @absorb_ext _ _ CT key
  | None => None
  end.

Definition total (k : Z) db : DbResult Z :=
  match get_cf DEFAULT_CF [k] (db_inner db) with
  | None => Err Inner
  | Some None => Ok 0
  | Some (Some b) => match @absorb_ext _ _ u64_codec b with Some v => Ok v | None => Err DbParse end
  end.

Definition fetch_connection (id : Z) db : DbResult Connection :=
  db_get CONNECTIONS (be_encode 8 id) db.

(** The loop of [search_timestamp] while [r > 0]; [timestamp] in nanoseconds.
    Halving a [positive] is structural. *)
Fixpoint search_loop {T} `{!Codec T} (ts : T -> Z) (cf : CF) (timestamp : Z) (r : positive)
    (pos : Z) db : DbResult Z :=
  match db_get cf (be_encode 8 pos) db with
  | Err e => Err e
  | Ok v =>
      let half := Z.pos r / 2 in
      let next pos :=
        match r with
        | xH => Ok pos
        | xO r => search_loop ts cf timestamp r pos db
        | xI r => search_loop ts cf timestamp r pos db
        end in
      match ts v ?= timestamp with
      | Lt => next (wrap 64 (pos + half))
      | Eq => Ok pos
      | Gt => next (wrap 64 (pos - half))
      end
  end.

Definition search_timestamp {T} `{!Codec T} (ts : T -> Z) (cf : CF) (total timestamp : Z) db
    : DbResult Z :=
  if total =? 0 then Err (NoItemAtCursor [])
  else match total / 2 with
       | Zpos r => search_loop ts cf (timestamp * 10 ^ 9) r (total / 2) db
       | _ => Ok (total / 2)
       end.

(** [DbCore::message_id]: whether to start at the id, and the id. *)
Definition message_id (params : ValidParams) db : bool * Z :=
  match start (coordinate params) with
  | ById id explicit => (explicit, id)
  | ByTimestamp timestamp =>
      let total := match total MESSAGES_CNT db with Ok n => n | Err _ => 0 end in
      match search_timestamp m_timestamp MESSAGES total timestamp db with
      | Ok c => (true, c)
      | Err _ => (false, 0)
      end
  end.

Definition fetch_details {J} `{!Json J} db (item : Z * Message) : option (Z * FullMessage J) :=
  let '(key, msg) := item in
  match db_get CONNECTIONS (be_encode 8 (connection_id msg)) db with
  | Err _ => None
  | Ok connection =>
      Some (key, mkFullMessage (connection_id msg) (addr (info connection)) (m_incoming msg)
                   (m_timestamp msg) (m_stream_id msg) (stream_kind msg)
                   (json_string (brief msg)) (size msg))
  end.

Definition fetch_messages_by_indexes (it : list Z) db : list (Z * Message) :=
  omap (fun id => match db_get MESSAGES (be_encode 8 id) db with
                  | Ok v => Some (id, v)
                  | Err _ => None
                  end) it.

(** One index of [fetch_messages]: the ids filed under [p], from [id] on. *)
Definition index_scan {P} `{!EqDecision P} (CI : Codec (Idx P)) (cf : CF) (p : P) (id : Z)
    (direction : Direction) db : list Z :=
  let key := @emit _ _ CI (mkIdx p id) in
  let mode := IFrom key (rocks_direction direction) in
  idx_id <$> take_while (fun index => bool_decide (idx_prefix index = p))
    (omap (decode_index CI) (iterator_cf cf mode (db_inner db))).

Definition stream_indexes (f : StreamFilter) (id : Z) (direction : Direction) db : list Z :=
  match f with
  | AnyStreamByAddr addr => index_scan address_idx_codec ADDR_INDEX addr id direction db
  | AnyStreamInConnection cn =>
      index_scan connection_idx_codec CONNECTION_ID_INDEX cn id direction db
  | Stream stream_full_id =>
      index_scan stream_idx_codec STREAM_ID_INDEX stream_full_id id direction db
  end.

(** The predicate given to [kmerge_by]. *)
Definition merge_first (direction : Direction) (a b : Z) : bool :=
  xorb (a <? b) (negb (is_forward direction)).

Definition kind_indexes `{!Itertools} (f : KindFilter) (id : Z) (direction : Direction) db : list Z :=
  let its :=
    match f with
    | AnyMessageInStream kinds =>
        (fun k => index_scan stream_by_kind_idx_codec STREAM_KIND_INDEX k id direction db) <$> kinds
    | ByMessage kinds =>
        (fun k => index_scan message_kind_idx_codec MESSAGE_KIND_INDEX k id direction db) <$> kinds
    end in
  kmerge_by (merge_first direction) its.

Definition fetch_messages {J} `{!Itertools, !Json J} (params : ValidParams) db
    : outcome (list (Z * FullMessage J)) :=
  let '(present, id) := message_id params db in
  let coordinate := coordinate params in
  let direction := direction coordinate in
  let streams := (fun f => stream_indexes f id direction db) <$> stream_filter params in
  let kinds := (fun f => kind_indexes f id direction db) <$> kind_filter params in
  it ← match streams, kinds with
       | Some a, Some b =>
           ids ← sorted_intersect [a; b] (Z.to_nat (limit coordinate)) (is_forward direction);
           Ret (fetch_messages_by_indexes ids db)
       | Some i, None => Ret (fetch_messages_by_indexes i db)
       | None, Some i => Ret (fetch_messages_by_indexes i db)
       | None, None =>
           let mode := if present then IFrom (be_encode 8 id) (rocks_direction direction)
                       else rocks_mode direction in
           Ret (omap (decode u64_codec message_codec) (iterator_cf MESSAGES mode (db_inner db)))
       end;
  Ret (limit_results coordinate fm_timestamp (omap (fetch_details db) it)).

Definition fetch_full_message_bin (id : Z) db : outcome (DbResult bytes) :=
  match db_get (A := Message) MESSAGES (be_encode 8 id) db with
  | Err e => Ret (Err e)
  | Ok msg => fetch_blob (connection_id msg) (offset msg) db
  end.

Definition fetch_full_message_hex (id : Z) db : outcome (DbResult bytes) :=
  r ← fetch_full_message_bin id db;
  Ret match r with Ok buf => Ok (hex_encode buf) | Err e => Err e end.

Definition get_sk (pk : bytes) db : DbResult (option bytes) :=
  match get_cf KEYS pk (db_inner db) with
  | None => Err Inner
  | Some None => Ok None
  | Some (Some v) => if blen v =? 32 then Ok (Some v) else Err WrongSkSize
  end.

(** [RandomnessDatabase for DbCore] *)
Definition iterate_randomness db : list bytes :=
  omap (fun item => snd <$> item) (iterator_cf RANDOMNESS IEnd (db_inner db)).

End Core.
