(* ===== verification/DbIndex.v ===== *)
(** Index scans of [database/core.rs]: an index family that files message ids
    under keys [prefix ++ id] is read back as the sorted list of the ids of one
    prefix. This is the part of [fetch_messages] that depends on the order of the
    keys, on the prefix extractors and on the codecs. *)

From stdpp Require Import base list gmap sorting.
From Stdlib Require Import ZArith Lia.
From S2P Require Import Prelude Types Handle Coding SortedIntersect Params Rocks DbCore.

(** * Index keys *)

(** What an index relies on: the keys of well-formed prefixes are read back, and
    consist of exactly the bytes the family's extractor looks at, followed by the
    big-endian id. *)
Class IndexKey `{Radiation} {P : Type} (CI : Codec (Idx P)) (cf : CF) (ok : P -> Prop) : Prop := {
  ik_absorb : forall p id, ok p -> uint_ok 8 id ->
    @absorb_ext _ _ CI (@emit _ _ CI (mkIdx p id)) = Some (mkIdx p id);
  ik_prefix : forall p, ok p ->
    exists pre, prefix_extractor cf = Some (length pre) /\
      forall id, uint_ok 8 id -> @emit _ _ CI (mkIdx p id) = pre ++ be_encode 8 id;
}.

Section Keys.
Context `{RadiationLaws}.

(** The five index keys of [index.rs] fit the extractors of [DbCore::open]. *)
Lemma index_key_intro {P} (pe : P -> bytes) (pa : bytes -> option (P * bytes)) (cf : CF) (n : nat)
    (ok : P -> Prop) :
  prefix_extractor cf = Some n ->
  (forall p, ok p -> length (pe p) = n /\ forall r, pa (pe p ++ r) = Some (p, r)) ->
  IndexKey {| emit := idx_emit pe; absorb := idx_absorb pa |} cf ok.
Proof.
  intros Hn Hp. split.
  - intros p id Hok Hid. destruct (Hp p Hok) as [_ Hrt]. unfold absorb_ext. cbn [absorb emit].
    rewrite <- (app_nil_r (idx_emit pe _)), idx_rt by (cbn; auto). by rewrite leftover_nil.
  - intros p Hok. destruct (Hp p Hok) as [Hl _]. exists (pe p). rewrite Hl. split; [done|].
    intros id Hid. cbn. unfold idx_emit. cbn. by rewrite emit_uint_be.
Qed.

#[export] Instance address_key : IndexKey address_idx_codec ADDR_INDEX addr_ok.
Proof.
  apply (index_key_intro _ _ _ 18); [done|]. intros a Ha. split; [|intros r; by apply addr_rt].
  destruct Ha as [[Hip Hport] _]. unfold addr_emit.
  pose proof (addr_octets_length _ Hip) as L. unfold blen in L.
  rewrite length_app, uint_length by done. lia.
Qed.

#[export] Instance connection_key : IndexKey connection_idx_codec CONNECTION_ID_INDEX (uint_ok 8).
Proof.
  apply (index_key_intro _ _ _ 8); [done|]. intros a Ha.
  split; [by apply uint_length|intros r; by apply uint_rt].
Qed.

#[export] Instance stream_key : IndexKey stream_idx_codec STREAM_ID_INDEX well_formed.
Proof.
  apply (index_key_intro _ _ _ 16); [done|]. intros s Hs.
  split; [|intros r; by apply round_trip].
  destruct Hs as [Hc Hs]. cbn. rewrite length_app, uint_length by done.
  unfold stream_id_emit. rewrite uint_length; [done|]. apply wrap_bound. lia.
Qed.

#[export] Instance stream_kind_key :
  IndexKey stream_by_kind_idx_codec STREAM_KIND_INDEX (fun _ => True).
Proof.
  apply (index_key_intro _ _ _ 2); [done|]. intros k _.
  split; [apply uint_length, StreamKind_u16_range|intros r; apply stream_kind_rt].
Qed.

#[export] Instance message_kind_key :
  IndexKey message_kind_idx_codec MESSAGE_KIND_INDEX (fun _ => True).
Proof.
  apply (index_key_intro _ _ _ 2); [done|]. intros k _.
  split; [apply uint_length, MessageType_tag_range|intros r; apply message_type_rt].
Qed.

End Keys.

(** * Lists *)

Lemma StronglySorted_fmap {A B} (f : A -> B) (RA : A -> A -> Prop) (RB : B -> B -> Prop) (l : list A) :
  (forall x y, x ∈ l -> y ∈ l -> RB (f x) (f y) -> RA x y) ->
  StronglySorted RB (f <$> l) -> StronglySorted RA l.
Proof.
  induction l as [|x l IH]; intros HR HS; [constructor|]. cbn in HS.
  apply StronglySorted_inv in HS as [HS HF]. constructor.
  - apply IH; [|done]. intros a b Ha Hb. apply HR; by right.
  - rewrite Forall_fmap, Forall_forall in HF. apply Forall_forall. intros y Hy.
    apply HR; [by left|by right|]. by apply HF.
Qed.

Lemma take_while_app_stop {A} (p : A -> bool) (l r : list A) :
  Forall (fun x => p x = true) l -> Forall (fun x => p x = false) r ->
  take_while p (l ++ r) = l.
Proof.
  intros Hl Hr. induction Hl as [|x l Hx Hl IH]; cbn; [|by rewrite Hx, IH].
  destruct Hr as [|y r Hy Hr]; cbn; [done|]. by rewrite Hy.
Qed.

Lemma omap_fmap_id {A B} (f : A -> option B) (g : B -> A) (l : list B) :
  (forall x, x ∈ l -> f (g x) = Some x) -> omap f (g <$> l) = l.
Proof.
  induction l as [|x l IH]; intros Hf; [done|]. cbn. rewrite (Hf x) by (by left).
  f_equal. apply IH. intros y Hy. apply Hf. by right.
Qed.

(** Every item of a list described by a parameter: the list of the parameters. *)
Lemma list_choice {A B} (f : B -> A) (ok : B -> Prop) (l : list A) :
  (forall a, a ∈ l -> exists b, ok b /\ a = f b) ->
  exists bs, l = f <$> bs /\ Forall ok bs.
Proof.
  induction l as [|a l IH]; intros Hl; [by exists []|].
  destruct (Hl a) as (b & Hb & ->); [by left|].
  destruct IH as (bs & -> & Hbs); [intros x Hx; apply Hl; by right|].
  exists (b :: bs). split; [done|]. by constructor.
Qed.

(** * Scanning an index *)

Lemma lt_dir_key (d : Direction) (pre : bytes) (a b : Z) :
  uint_ok 8 a -> uint_ok 8 b ->
  key_before (rocks_direction d) (pre ++ be_encode 8 a) (pre ++ be_encode 8 b)
  <-> lt_dir (is_forward d) a b.
Proof.
  intros Ha Hb. destruct d; cbn [key_before rocks_direction lt_dir is_forward];
    rewrite key_cmp_app, key_cmp_be by done; apply Z.compare_lt_iff.
Qed.

Lemma lt_dir_be (d : Direction) (a b : Z) :
  uint_ok 8 a -> uint_ok 8 b ->
  key_before (rocks_direction d) (be_encode 8 a) (be_encode 8 b) <-> lt_dir (is_forward d) a b.
Proof. apply (lt_dir_key d []). Qed.

Lemma not_lt_dir (forward : bool) (a b : Z) : ~ lt_dir forward a b <-> le_dir forward b a.
Proof. unfold lt_dir, le_dir. destruct forward; lia. Qed.

Lemma be_encode_inj (n : nat) (a b : Z) : uint_ok n a -> uint_ok n b -> be_encode n a = be_encode n b -> a = b.
Proof. intros Ha Hb E. rewrite <- (be_decode_encode n a), <- (be_decode_encode n b) by done. by rewrite E. Qed.

Section Scan.
Context `{RadiationLaws} {R : Type} `{!Rocks R, !RocksLaws R}.
Context {P E : Type} `{!EqDecision P} (CI : Codec (Idx P)) (cf : CF) (ok : P -> Prop)
  `{!IndexKey CI cf ok}.

(** The family [cf] of [r] files every entry [e] of [A] under the prefixes
    [sel e], and nothing else. *)
Definition indexes (sel : E -> list P) (A : gmap Z E) (r : R) : Prop :=
  forall k, is_Some (contents r cf !! k) <->
    exists id e p, A !! id = Some e /\ p ∈ sel e /\ k = @emit _ _ CI (mkIdx p id).

Definition indexable (sel : E -> list P) (A : gmap Z E) : Prop :=
  forall id e, A !! id = Some e -> uint_ok 8 id /\ Forall ok (sel e).

Lemma emit_inj (p p' : P) (id id' : Z) :
  ok p -> ok p' -> uint_ok 8 id -> uint_ok 8 id' ->
  @emit _ _ CI (mkIdx p id) = @emit _ _ CI (mkIdx p' id') -> p = p' /\ id = id'.
Proof.
  intros Hp Hp' Hi Hi' E'. pose proof (ik_absorb p id Hp Hi) as K. rewrite E' in K.
  rewrite ik_absorb in K by done. by simplify_eq.
Qed.

(** A stored key is the key of an entry, with well-formed parts. *)
Lemma indexes_inv (sel : E -> list P) (A : gmap Z E) (r : R) (k : bytes) :
  indexes sel A r -> indexable sel A -> is_Some (contents r cf !! k) ->
  exists id e p, A !! id = Some e /\ p ∈ sel e /\ k = @emit _ _ CI (mkIdx p id) /\
    ok p /\ uint_ok 8 id.
Proof.
  intros HI HA (id & e & p & He & Hp & ->)%HI. destruct (HA _ _ He) as [Hid Hok].
  rewrite Forall_forall in Hok. exists id, e, p. auto 10.
Qed.

Lemma decode_index_keys (l : list (bytes * bytes)) :
  omap (decode_index CI) (Some <$> l) = omap (@absorb_ext _ _ CI) l.*1.
Proof. induction l as [|[k v] l IH]; [done|]. cbn. by rewrite IH. Qed.

(** The bytes of a prefix decide it. *)
Lemma same_prefix (p p' : P) (pre : bytes) (i : Z) :
  prefix_extractor cf = Some (length pre) ->
  (forall id, uint_ok 8 id -> @emit _ _ CI (mkIdx p id) = pre ++ be_encode 8 id) ->
  ok p -> ok p' -> uint_ok 8 i ->
  take (length pre) (@emit _ _ CI (mkIdx p' i)) = pre ->
  p' = p /\ @emit _ _ CI (mkIdx p' i) = pre ++ be_encode 8 i.
Proof.
  intros Hn Hpre Hp Hp' Hi Ht. destruct (ik_prefix p' Hp') as (pre' & Hn' & Hpre').
  rewrite Hn in Hn'. injection Hn' as Hn'. rewrite Hpre' in Ht by done.
  rewrite Hn', take_app_length in Ht. subst pre'. pose proof (Hpre' i Hi) as E'.
  split; [|done]. rewrite <- Hpre in E' by done. by apply emit_inj in E' as [-> _].
Qed.

(** The items an iterator gives for the prefix [pre] of [p]. *)
Lemma prefix_items (sel : E -> list P) (A : gmap Z E) (r : R) (d : RDirection) (Q : bytes -> Prop)
    (p : P) (pre : bytes) (items : list (bytes * bytes)) :
  indexes sel A r -> indexable sel A -> ok p -> prefix_extractor cf = Some (length pre) ->
  (forall id, uint_ok 8 id -> @emit _ _ CI (mkIdx p id) = pre ++ be_encode 8 id) ->
  scan_spec d (fun k => take (length pre) k = pre /\ Q k) (contents r cf) items ->
  exists ids, items.*1 = (fun i => pre ++ be_encode 8 i) <$> ids /\ Forall (uint_ok 8) ids /\
    omap (decode_index CI) (Some <$> items) = mkIdx p <$> ids /\
    forall x, x ∈ ids <-> (exists e, A !! x = Some e /\ p ∈ sel e) /\ Q (pre ++ be_encode 8 x).
Proof.
  intros HI HA Hp Hn Hpre [_ HM].
  destruct (list_choice (fun i => pre ++ be_encode 8 i) (uint_ok 8) items.*1) as (ids & Ei & Hids).
  { intros k ((k' & v) & -> & Hkv)%list_elem_of_fmap. apply HM in Hkv as [Hv [Ht _]].
    destruct (indexes_inv sel A _ k' HI HA) as (i & e & p' & He & Hp' & -> & Hok & Hi); [by eexists|].
    exists i. split; [done|]. by apply (same_prefix p p' pre i Hn Hpre). }
  exists ids. split_and!; [done..| |].
  - rewrite decode_index_keys, Ei. clear -Hids Hpre Hp IndexKey0.
    induction Hids as [|i ids Hi Hids IH]; [done|]. cbn. rewrite <- Hpre, ik_absorb by done.
    by f_equal.
  - rewrite Forall_forall in Hids. intros x. split.
    + intros Hx. assert (Hx' : pre ++ be_encode 8 x ∈ items.*1)
        by (rewrite Ei; by apply (list_elem_of_fmap_2 (fun i => pre ++ be_encode 8 i))).
      apply list_elem_of_fmap in Hx' as ((k & v) & Ek & [Hv [_ HQ]]%HM). cbn in Ek. subst k.
      split; [|done].
      destruct (indexes_inv sel A r (pre ++ be_encode 8 x) HI HA)
        as (j & e & q & He & Hq & Ej & Hok & Hj); [by eexists|].
      rewrite <- Hpre in Ej by auto. apply emit_inj in Ej as [<- <-]; [|by auto..]. by exists e.
    + intros [(e & He & Hq) HQ]. destruct (HA _ _ He) as [Hx _].
      assert (is_Some (contents r cf !! (pre ++ be_encode 8 x))) as [v Hv].
      { apply HI. exists x, e, p. by rewrite Hpre. }
      assert (Hin : (pre ++ be_encode 8 x, v) ∈ items).
      { apply HM. split; [done|]. split; [by rewrite take_app_length|done]. }
      apply (list_elem_of_fmap_2 fst) in Hin. rewrite Ei in Hin.
      apply list_elem_of_fmap in Hin as (y & Ey & Hy). cbn in Ey.
      apply app_inv_head, be_encode_inj in Ey; [by subst y|by auto..].
Qed.

(** The items after them have another prefix. *)
Lemma other_items (sel : E -> list P) (A : gmap Z E) (r : R) (p : P) (pre : bytes)
    (rest : list (bytes * bytes)) :
  indexes sel A r -> indexable sel A ->
  (forall id, uint_ok 8 id -> @emit _ _ CI (mkIdx p id) = pre ++ be_encode 8 id) ->
  Forall (fun kv => is_Some (contents r cf !! kv.1) /\ take (length pre) kv.1 <> pre) rest ->
  Forall (fun i => bool_decide (idx_prefix i = p) = false) (omap (decode_index CI) (Some <$> rest)).
Proof.
  intros HI HA Hpre Hrest. rewrite decode_index_keys. apply Forall_forall. intros [p' i] Hi.
  apply list_elem_of_omap in Hi as (k & ((k' & v) & -> & Hkv)%list_elem_of_fmap & Hk').
  rewrite Forall_forall in Hrest. destruct (Hrest _ Hkv) as [Hs Hne]. cbn in *.
  apply bool_decide_eq_false. intros ->. apply Hne.
  destruct (indexes_inv sel A _ k' HI HA Hs) as (j & e & q & _ & _ & -> & Hok & Hj).
  rewrite ik_absorb in Hk' by done. simplify_eq/=. by rewrite Hpre, take_app_length.
Qed.

Lemma index_scan_spec (sel : E -> list P) (A : gmap Z E) (db : DbCore R) (p : P) (id : Z)
    (d : Direction) :
  healthy (db_inner db) -> indexes sel A (db_inner db) -> indexable sel A -> ok p -> uint_ok 8 id ->
  let l := index_scan CI cf p id d db in
  StronglySorted (lt_dir (is_forward d)) l /\
  forall x, x ∈ l <-> (exists e, A !! x = Some e /\ p ∈ sel e) /\ le_dir (is_forward d) id x.
Proof.
  intros Hh HI HA Hp Hid l. destruct (ik_prefix p Hp) as (pre & Hn & Hpre).
  unfold l, index_scan. rewrite (Hpre id Hid).
  destruct (iter_prefix_ok (db_inner db) cf (pre ++ be_encode 8 id) (rocks_direction d) _ Hh Hn)
    as (items & rest & -> & Hscan & Hrest); [rewrite length_app; lia|].
  rewrite take_app_length in *.
  destruct (prefix_items sel A _ _ _ p pre items HI HA Hp Hn Hpre Hscan) as (ids & Ei & Hids & Hit & HM).
  rewrite fmap_app, omap_app, Hit, take_while_app_stop;
    [|apply Forall_fmap, Forall_true; cbn; intros; by apply bool_decide_eq_true
     |by apply (other_items sel A (db_inner db) p pre)].
  rewrite <- list_fmap_compose. change (idx_id ∘ mkIdx p) with (@Datatypes.id Z). rewrite list_fmap_id.
  rewrite Forall_forall in Hids. split.
  - destruct Hscan as [HS _]. rewrite Ei in HS. eapply StronglySorted_fmap; [|exact HS].
    intros a b Ha Hb. apply lt_dir_key; auto.
  - intros x. rewrite HM, <- not_lt_dir. split; intros [(e & He & Hq) Hle]; (split; [by exists e|]);
      [rewrite <- (lt_dir_key d pre)|rewrite (lt_dir_key d pre)]; try done; by apply (HA _ _ He).
Qed.

End Scan.
