(* ===== verification/DbSpec.v ===== *)
(** What the database promises: a log of messages with their connections, and
    queries that select from it. [represents] relates the log to the column
    families; writing a message extends the log, and [fetch_messages] answers a
    query as the log does. *)

From stdpp Require Import base list gmap sorting.
From Stdlib Require Import ZArith Lia.
From S2P Require Import Prelude Types Handle Coding SortedIntersect Params Rocks DbCore DbIndex.

(** * The abstract database *)

(** A stored message with the address and the types it is filed under. *)
Record Entry : Type := mkEntry {
  e_addr : SocketAddr;
  e_msg : Message;
  e_tys : list MessageType;
}.

Abbreviation Log := (gmap Z Entry).

Definition entry_stream (e : Entry) : StreamFullId :=
  mkStreamFullId (connection_id (e_msg e)) (m_stream_id (e_msg e)).

(** The filters of a query, on one entry. *)
Definition stream_matches (f : StreamFilter) (e : Entry) : Prop :=
  match f with
  | AnyStreamByAddr a => a = e_addr e
  | AnyStreamInConnection c => c = connection_id (e_msg e)
  | Stream s => s = entry_stream e
  end.

Definition kind_matches (f : KindFilter) (e : Entry) : Prop :=
  match f with
  | AnyMessageInStream ks => exists k, k ∈ ks /\ k = stream_kind (e_msg e)
  | ByMessage ks => exists k, k ∈ ks /\ k ∈ e_tys e
  end.

Definition entry_matches (params : ValidParams) (e : Entry) : Prop :=
  match stream_filter params with Some f => stream_matches f e | None => True end /\
  match kind_filter params with Some f => kind_matches f e | None => True end.

(** No entry can match a kind filter twice. *)
Definition single_kind (params : ValidParams) : Prop :=
  match kind_filter params with
  | Some (AnyMessageInStream ks) => (length ks <= 1)%nat
  | Some (ByMessage ks) => (length ks <= 1)%nat
  | None => True
  end \/ is_Some (stream_filter params).

Definition filter_ok (params : ValidParams) : Prop :=
  match stream_filter params with
  | Some (AnyStreamByAddr a) => addr_ok a
  | Some (AnyStreamInConnection c) => uint_ok 8 c
  | Some (Stream s) => well_formed s
  | None => True
  end.

(** The ids a query looks at: from its start on; without filter and without an
    explicit start, all of them. *)
Definition in_range (params : ValidParams) (start : bool * Z) (x : Z) : Prop :=
  let after := le_dir (is_forward (direction (coordinate params))) start.2 x in
  match stream_filter params, kind_filter params with
  | None, None => if start.1 then after else True
  | _, _ => after
  end.

(** How an entry is shown. *)
Definition entry_details {J} `{!Json J} (e : Entry) (c : Connection) : FullMessage J :=
  mkFullMessage (connection_id (e_msg e)) (addr (info c)) (m_incoming (e_msg e))
    (m_timestamp (e_msg e)) (m_stream_id (e_msg e)) (stream_kind (e_msg e))
    (json_string (brief (e_msg e))) (size (e_msg e)).

Definition show {J} `{!Json J} (A : Log) (C : gmap Z Connection) (id : Z) : option (Z * FullMessage J) :=
  e ← A !! id; c ← C !! connection_id (e_msg e); Some (id, entry_details e c).

(** * Representation *)

Section Spec.
Context `{RadiationLaws} {R : Type} `{!Rocks R, !RocksLaws R}.
Implicit Types (A : Log) (C : gmap Z Connection) (r : R) (db : DbCore R).

Record entry_ok (C : gmap Z Connection) (id : Z) (e : Entry) : Prop := {
  eo_id : uint_ok 8 id;
  eo_addr : addr_ok (e_addr e);
  eo_msg : well_formed (e_msg e);
  eo_cn : is_Some (C !! connection_id (e_msg e));
}.

Record represents A C r : Prop := {
  rep_healthy : healthy r;
  rep_entries : forall id e, A !! id = Some e -> entry_ok C id e;
  rep_messages : forall k v, contents r MESSAGES !! k = Some v <->
    exists id e, A !! id = Some e /\ k = be_encode 8 id /\ v = emit (e_msg e);
  rep_addr : indexes address_idx_codec ADDR_INDEX (fun e => [e_addr e]) A r;
  rep_connection :
    indexes connection_idx_codec CONNECTION_ID_INDEX (fun e => [connection_id (e_msg e)]) A r;
  rep_stream : indexes stream_idx_codec STREAM_ID_INDEX (fun e => [entry_stream e]) A r;
  rep_stream_kind :
    indexes stream_by_kind_idx_codec STREAM_KIND_INDEX (fun e => [stream_kind (e_msg e)]) A r;
  rep_message_kind : indexes message_kind_idx_codec MESSAGE_KIND_INDEX e_tys A r;
  rep_connections : forall id c, C !! id = Some c ->
    uint_ok 8 id /\ well_formed c /\ contents r CONNECTIONS !! be_encode 8 id = Some (emit c);
}.

(** * Writing *)

(** A sequence of writes, and its effect on one family. *)
Abbreviation write := (CF * bytes * bytes)%type.

Definition apply_writes (cf : CF) (ws : list write) (m : gmap bytes bytes) : gmap bytes bytes :=
  fold_left (fun m '(c, k, v) => if decide (cf = c) then <[k := v]> m else m) ws m.

(** [m] performs exactly the writes [ws]. *)
Definition writes (m : DbM R unit) (ws : list write) : Prop :=
  forall db, healthy (db_inner db) ->
    exists r', m db = (mkCore (cache db) r', Ok tt) /\ healthy r' /\
      forall cf, contents r' cf = apply_writes cf ws (contents (db_inner db) cf).

Lemma writes_put (cf : CF) (k v : bytes) : writes (put cf k v) [(cf, k, v)].
Proof.
  intros db Hh. destruct (put_ok (db_inner db) cf k v Hh) as (r' & E & Hh' & Hc).
  exists r'. unfold put. rewrite E. split_and!; [done..|]. intros cf'. rewrite Hc. cbn.
  by case_decide; subst.
Qed.

Lemma writes_bind (m1 m2 : DbM R unit) (ws1 ws2 : list write) :
  writes m1 ws1 -> writes m2 ws2 -> writes (m1;; m2) (ws1 ++ ws2).
Proof.
  intros H1 H2 db Hh. destruct (H1 db Hh) as (r1 & E1 & Hh1 & Hc1).
  destruct (H2 (mkCore (cache db) r1) Hh1) as (r2 & E2 & Hh2 & Hc2).
  exists r2. unfold mbind, db_bind. rewrite E1, E2. split_and!; [done..|].
  intros cf. unfold apply_writes. rewrite fold_left_app. by rewrite Hc2; cbn; rewrite Hc1.
Qed.

Lemma writes_for_each {X} (f : X -> DbM R unit) (w : X -> write) (l : list X) :
  (forall x, writes (f x) [w x]) -> writes (for_each l f) (w <$> l).
Proof.
  intros Hf. induction l as [|x l IH]; cbn.
  - intros db Hh. by exists (db_inner db); destruct db.
  - apply (writes_bind _ _ [w x] (w <$> l)); [apply Hf|apply IH].
Qed.

(** The writes of [put_message]. *)
Definition message_writes (id : Z) (e : Entry) (hashes : list LedgerHash) : list write :=
  let v := e_msg e in
  [(MESSAGES, be_encode 8 id, emit v)] ++
  [(ADDR_INDEX, @emit _ _ address_idx_codec (mkIdx (e_addr e) id), [])] ++
  [(CONNECTION_ID_INDEX, @emit _ _ connection_idx_codec (mkIdx (connection_id v) id), [])] ++
  [(STREAM_ID_INDEX, @emit _ _ stream_idx_codec (mkIdx (entry_stream e) id), [])] ++
  [(STREAM_KIND_INDEX, @emit _ _ stream_by_kind_idx_codec (mkIdx (stream_kind v) id), [])] ++
  ((fun t => (MESSAGE_KIND_INDEX, @emit _ _ message_kind_idx_codec (mkIdx t id), []))
     <$> e_tys e) ++
  ((fun h => (LEDGER_HASH_INDEX,
              emit (mkLedgerHashIdx h (offset v) (size v) (entry_stream e) id), []))
     <$> hashes).

Lemma put_message_writes (id : Z) (e : Entry) (hashes : list LedgerHash) :
  writes (put_message (e_addr e) id (e_msg e) (e_tys e) hashes) (message_writes id e hashes).
Proof.
  unfold put_message, message_writes.
  repeat (apply writes_bind; [apply writes_put || (apply writes_for_each; intros; apply writes_put)|]).
  apply writes_for_each. intros. apply writes_put.
Qed.

Lemma apply_writes_app (cf : CF) (ws1 ws2 : list write) m :
  apply_writes cf (ws1 ++ ws2) m = apply_writes cf ws2 (apply_writes cf ws1 m).
Proof. apply fold_left_app. Qed.

Lemma apply_writes_cons (cf c : CF) (k v : bytes) (ws : list write) m :
  apply_writes cf ((c, k, v) :: ws) m
  = apply_writes cf ws (if decide (cf = c) then <[k := v]> m else m).
Proof. done. Qed.

Lemma apply_writes_one (cf c : CF) (k v : bytes) m :
  apply_writes cf [(c, k, v)] m = if decide (cf = c) then <[k := v]> m else m.
Proof. done. Qed.

Lemma apply_writes_other {X} (cf c : CF) (k : X -> bytes) (v : X -> bytes) (l : list X) m :
  cf <> c -> apply_writes cf ((fun x => (c, k x, v x)) <$> l) m = m.
Proof.
  intros Hc. revert m. induction l as [|x l IH]; intros m; [done|].
  rewrite fmap_cons, apply_writes_cons, decide_False by done. apply IH.
Qed.

Lemma apply_writes_same {X} (cf : CF) (k : X -> bytes) (l : list X) m (key : bytes) :
  is_Some (apply_writes cf ((fun x => (cf, k x, [])) <$> l) m !! key) <->
  is_Some (m !! key) \/ exists x, x ∈ l /\ key = k x.
Proof.
  revert m. induction l as [|x l IH]; intros m.
  { split; [by left|]. intros [?|(x & Hx & _)]; [done|]. by apply not_elem_of_nil in Hx. }
  rewrite fmap_cons, apply_writes_cons, decide_True by done. rewrite IH, lookup_insert_is_Some'.
  setoid_rewrite elem_of_cons. clear. firstorder (subst; eauto).
Qed.

(** Filing a new entry keeps an index exact. *)
Lemma indexes_extend {P} (CI : Codec (Idx P)) (cf : CF) (sel : Entry -> list P) A r r' id e :
  A !! id = None -> indexes CI cf sel A r ->
  (forall k, is_Some (contents r' cf !! k) <->
     is_Some (contents r cf !! k) \/ exists p, p ∈ sel e /\ k = @emit _ _ CI (mkIdx p id)) ->
  indexes CI cf sel (<[id := e]> A) r'.
Proof.
  intros Hn HI Hc k. rewrite Hc, (HI k). split.
  - intros [(i & e' & p & He & Hp & ->)|(p & Hp & ->)].
    + exists i, e', p. rewrite lookup_insert_ne by (intros ->; congruence). done.
    + exists id, e, p. by rewrite lookup_insert_eq.
  - intros (i & e' & p & He & Hp & ->). apply lookup_insert_Some in He as [[<- <-]|[_ He]]; eauto 10.
Qed.

Lemma insert_key {P} (f : P -> bytes) (p : P) (m : gmap bytes bytes) (k v : bytes) :
  is_Some (<[f p := v]> m !! k) <-> is_Some (m !! k) \/ exists q, q ∈ [p] /\ k = f q.
Proof.
  rewrite lookup_insert_is_Some'. setoid_rewrite list_elem_of_singleton.
  clear. firstorder (subst; eauto).
Qed.

(** What [put_message] does to each family. *)
Lemma message_writes_family (cf : CF) id e hashes m :
  apply_writes cf (message_writes id e hashes) m =
  match cf with
  | MESSAGES => <[be_encode 8 id := emit (e_msg e)]> m
  | ADDR_INDEX => <[@emit _ _ address_idx_codec (mkIdx (e_addr e) id) := []]> m
  | CONNECTION_ID_INDEX =>
      <[@emit _ _ connection_idx_codec (mkIdx (connection_id (e_msg e)) id) := []]> m
  | STREAM_ID_INDEX => <[@emit _ _ stream_idx_codec (mkIdx (entry_stream e) id) := []]> m
  | STREAM_KIND_INDEX =>
      <[@emit _ _ stream_by_kind_idx_codec (mkIdx (stream_kind (e_msg e)) id) := []]> m
  | MESSAGE_KIND_INDEX =>
      apply_writes MESSAGE_KIND_INDEX
        ((fun t => (MESSAGE_KIND_INDEX, @emit _ _ message_kind_idx_codec (mkIdx t id), []))
           <$> e_tys e) m
  | LEDGER_HASH_INDEX =>
      apply_writes LEDGER_HASH_INDEX
        ((fun h => (LEDGER_HASH_INDEX, emit (mkLedgerHashIdx h (offset (e_msg e)) (size (e_msg e))
                                              (entry_stream e) id), [])) <$> hashes) m
  | _ => m
  end.
Proof.
  unfold message_writes. cbv zeta. rewrite !apply_writes_app. rewrite !apply_writes_cons.
  destruct cf; rewrite ?decide_True, ?decide_False by done;
    rewrite ?(apply_writes_other _ MESSAGE_KIND_INDEX), ?(apply_writes_other _ LEDGER_HASH_INDEX) by done;
    done.
Qed.

Lemma represents_put_message A C db id e hashes :
  represents A C (db_inner db) -> A !! id = None -> entry_ok C id e ->
  exists r', put_message (e_addr e) id (e_msg e) (e_tys e) hashes db
             = (mkCore (cache db) r', Ok tt) /\
    represents (<[id := e]> A) C r' /\
    forall cf, cf = BLOBS \/ cf = DEFAULT_CF \/ cf = CONNECTIONS ->
      contents r' cf = contents (db_inner db) cf.
Proof.
  intros HR Hn He.
  destruct (put_message_writes id e hashes db (rep_healthy _ _ _ HR)) as (r' & Hput & Hh & Hc).
  setoid_rewrite message_writes_family in Hc. exists r'. split; [done|].
  split; [|by intros cf [->|[->| ->]]; rewrite Hc].
  destruct HR as [_ Hents Hmsg Ha Hcn Hst Hsk Hmk Hcs]. split; [done|..].
  - intros i e'. rewrite lookup_insert_Some. intros [[<- <-]|[_ Hi]]; eauto.
  - intros k v. rewrite Hc, lookup_insert_Some, (Hmsg k v). split.
    + intros [[<- <-]|[_ (i & e' & Hi & -> & ->)]]; [exists id, e; by rewrite lookup_insert_eq|].
      exists i, e'. rewrite lookup_insert_ne by (intros ->; congruence). done.
    + intros (i & e' & Hi & -> & ->). apply lookup_insert_Some in Hi as [[<- <-]|[Hne Hi]]; [by left|].
      right. split; [|by eauto]. intros E. apply Hne.
      apply (be_encode_inj 8); [apply He|by apply (Hents i e')|done].
  - eapply indexes_extend; [done..|]. intros k. rewrite Hc.
    apply (insert_key (fun p => @emit _ _ address_idx_codec (mkIdx p id))).
  - eapply indexes_extend; [done..|]. intros k. rewrite Hc.
    apply (insert_key (fun p => @emit _ _ connection_idx_codec (mkIdx p id))).
  - eapply indexes_extend; [done..|]. intros k. rewrite Hc.
    apply (insert_key (fun p => @emit _ _ stream_idx_codec (mkIdx p id))).
  - eapply indexes_extend; [done..|]. intros k. rewrite Hc.
    apply (insert_key (fun p => @emit _ _ stream_by_kind_idx_codec (mkIdx p id))).
  - eapply indexes_extend; [done..|]. intros k. rewrite Hc. apply apply_writes_same.
  - intros i c Hi. rewrite Hc. by apply Hcs.
Qed.

(** * Reading *)

Lemma db_get_ok {T} `{!Codec T, !WellFormed T, !RoundTrip T} cf key db (a : T) :
  healthy (db_inner db) -> contents (db_inner db) cf !! key = Some (emit a) -> well_formed a ->
  db_get cf key db = Ok a.
Proof. intros Hh Hc Hw. unfold db_get. rewrite get_ok, Hc by done. by rewrite absorb_ext_emit. Qed.

(** The stored messages of a list of ids. *)
Definition log_items A (ids : list Z) : list (Z * Message) :=
  omap (fun id => (fun e => (id, e_msg e)) <$> A !! id) ids.

Definition all_in A (ids : list Z) : Prop := Forall (fun id => is_Some (A !! id)) ids.

Lemma get_message_ok A C db id e :
  represents A C (db_inner db) -> A !! id = Some e ->
  db_get MESSAGES (be_encode 8 id) db = Ok (e_msg e).
Proof.
  intros HR He. apply db_get_ok; [by apply HR| |by apply (rep_entries _ _ _ HR id e)].
  apply (rep_messages _ _ _ HR). eauto.
Qed.

Lemma get_connection_ok A C db id c :
  represents A C (db_inner db) -> C !! id = Some c ->
  db_get CONNECTIONS (be_encode 8 id) db = Ok c.
Proof.
  intros HR Hc. apply (rep_connections _ _ _ HR) in Hc as (_ & Hw & Hc).
  apply db_get_ok; [by apply HR|done..].
Qed.

Lemma fetch_by_indexes_ok A C db ids :
  represents A C (db_inner db) -> all_in A ids -> fetch_messages_by_indexes ids db = log_items A ids.
Proof.
  intros HR. unfold fetch_messages_by_indexes, log_items.
  induction 1 as [|id ids [e He] Hids IH]; [done|]. cbn.
  rewrite (get_message_ok A C db id e HR He), He. cbn. by rewrite IH.
Qed.

Lemma details_ok {J} `{!Json J} A C db ids :
  represents A C (db_inner db) ->
  omap (fetch_details db) (log_items A ids) = omap (show (J := J) A C) ids.
Proof.
  intros HR. induction ids as [|id ids IH]; [done|]. unfold log_items, show in *. cbn.
  destruct (A !! id) as [e|] eqn:He; cbn; [|done].
  destruct (eo_cn _ _ _ (rep_entries _ _ _ HR _ _ He)) as [c Hc].
  rewrite (get_connection_ok A C db _ c HR Hc), Hc. cbn. by rewrite IH.
Qed.

(** An entry that is in the log is shown. *)
Lemma show_some {J} `{!Json J} A C r id :
  represents A C r -> is_Some (A !! id) -> is_Some (show (J := J) A C id).
Proof.
  intros HR [e He]. unfold show. rewrite He. cbn.
  destruct (eo_cn _ _ _ (rep_entries _ _ _ HR _ _ He)) as [c ->]. by eexists.
Qed.

(** ** The indexes *)

Lemma indexable_of {P} (ok : P -> Prop) (sel : Entry -> list P) A C r :
  represents A C r -> (forall id e, entry_ok C id e -> Forall ok (sel e)) -> indexable ok sel A.
Proof. intros HR Hok id e He. apply (rep_entries _ _ _ HR) in He as He'. split; [apply He'|eauto]. Qed.

Lemma entry_stream_ok C id e : entry_ok C id e -> well_formed (entry_stream e).
Proof. intros []. destruct eo_msg0 as (Hc & Hs & _). by split. Qed.

Lemma stream_indexes_spec A C db f id d :
  represents A C (db_inner db) ->
  match f with
  | AnyStreamByAddr a => addr_ok a
  | AnyStreamInConnection c => uint_ok 8 c
  | Stream s => well_formed s
  end -> uint_ok 8 id ->
  let l := stream_indexes f id d db in
  StronglySorted (lt_dir (is_forward d)) l /\
  forall x, x ∈ l <-> (exists e, A !! x = Some e /\ stream_matches f e) /\ le_dir (is_forward d) id x.
Proof.
  intros HR Hf Hid. pose proof (rep_healthy _ _ _ HR) as Hh.
  destruct f as [a|c|s]; cbn [stream_indexes stream_matches].
  - destruct (index_scan_spec address_idx_codec ADDR_INDEX addr_ok (fun e => [e_addr e]) A db a id d)
      as [HS HM]; [done|apply HR| |done..|].
    { eapply indexable_of; [done|]. intros ? ? []. by constructor. }
    split; [done|]. intros x. rewrite HM. by setoid_rewrite list_elem_of_singleton.
  - destruct (index_scan_spec connection_idx_codec CONNECTION_ID_INDEX (uint_ok 8)
      (fun e => [connection_id (e_msg e)]) A db c id d) as [HS HM]; [done|apply HR| |done..|].
    { eapply indexable_of; [done|]. intros ? ? []. constructor; [apply eo_msg0|done]. }
    split; [done|]. intros x. rewrite HM. by setoid_rewrite list_elem_of_singleton.
  - destruct (index_scan_spec stream_idx_codec STREAM_ID_INDEX well_formed
      (fun e => [entry_stream e]) A db s id d) as [HS HM]; [done|apply HR| |done..|].
    { eapply indexable_of; [done|]. intros ? ? He. constructor; [by eapply entry_stream_ok|done]. }
    split; [done|]. intros x. rewrite HM. by setoid_rewrite list_elem_of_singleton.
Qed.

Lemma lt_le_dir (forward : bool) (l : list Z) :
  StronglySorted (lt_dir forward) l -> StronglySorted (le_dir forward) l.
Proof.
  induction 1 as [|x l HS IH HF]; constructor; [done|]. eapply Forall_impl; [exact HF|].
  unfold lt_dir, le_dir. destruct forward; lia.
Qed.

Lemma lt_dir_NoDup (forward : bool) (l : list Z) : StronglySorted (lt_dir forward) l -> NoDup l.
Proof.
  induction 1 as [|x l HS IH HF]; constructor; [|done]. rewrite Forall_forall in HF.
  intros Hx%HF. unfold lt_dir in Hx. destruct forward; lia.
Qed.

Lemma merge_first_spec (d : Direction) (a b : Z) :
  a <> b -> merge_first d a b = true <-> lt_dir (is_forward d) a b.
Proof.
  intros Hne. unfold merge_first, lt_dir. destruct d; cbn; destruct (Z.ltb_spec a b); cbn;
    intuition lia.
Qed.

(** Merging the scans of several prefixes. *)
Lemma kmerge_scans `{ItertoolsLaws} {P} (scan : P -> list Z) (ks : list P) (d : Direction) :
  (forall k, StronglySorted (lt_dir (is_forward d)) (scan k)) ->
  let l := kmerge_by (merge_first d) (scan <$> ks) in
  StronglySorted (le_dir (is_forward d)) l /\
  (forall x, x ∈ l <-> exists k, k ∈ ks /\ x ∈ scan k) /\
  ((length ks <= 1)%nat -> NoDup l).
Proof.
  intros HS l. destruct (kmerge_sorted (is_forward d) (merge_first d) (scan <$> ks)) as [Hs Hp].
  { intros a b. apply merge_first_spec. }
  { apply Forall_fmap, Forall_true. intros k. apply lt_le_dir, HS. }
  split; [done|]. split.
  - intros x. unfold l. rewrite Hp, list_elem_of_In, in_concat. split.
    + intros (y & Hy & Hx). apply list_elem_of_In in Hy, Hx.
      apply list_elem_of_fmap in Hy as (k & -> & Hk). eauto.
    + intros (k & Hk & Hx). exists (scan k). rewrite <- !list_elem_of_In.
      split; [by apply list_elem_of_fmap_2|done].
  - intros Hl. unfold l. rewrite Hp. destruct ks as [|k [|]]; cbn in *; [constructor| |lia].
    rewrite app_nil_r. by eapply lt_dir_NoDup.
Qed.

Lemma kind_scans `{ItertoolsLaws} {P} `{!EqDecision P} (CI : Codec (Idx P)) (cf : CF)
    `{!IndexKey CI cf (fun _ => True)} (sel : Entry -> list P) A C db (ks : list P) id d :
  represents A C (db_inner db) -> indexes CI cf sel A (db_inner db) -> uint_ok 8 id ->
  let l := kmerge_by (merge_first d) ((fun k => index_scan CI cf k id d db) <$> ks) in
  StronglySorted (le_dir (is_forward d)) l /\
  (forall x, x ∈ l <->
     (exists e, A !! x = Some e /\ exists k, k ∈ ks /\ k ∈ sel e) /\ le_dir (is_forward d) id x) /\
  ((length ks <= 1)%nat -> NoDup l).
Proof.
  intros HR HI Hid l.
  assert (HA : indexable (fun _ => True) sel A).
  { eapply indexable_of; [done|]. intros. by apply Forall_true. }
  pose proof (fun k => index_scan_spec CI cf (fun _ => True) sel A db k id d (rep_healthy _ _ _ HR) HI
                         HA Logic.I Hid) as HS.
  destruct (kmerge_scans (fun k => index_scan CI cf k id d db) ks d) as (H1' & H2' & H3');
    [intros k; apply HS|].
  split; [done|]. split; [|done]. intros x. unfold l. rewrite H2'. split.
  - intros (k & Hk & Hx). apply HS in Hx as [(e & He & Hs) Hle]. eauto 10.
  - intros [(e & He & k & Hk & Hs) Hle]. exists k. split; [done|]. apply HS. eauto.
Qed.

Lemma kind_indexes_spec `{ItertoolsLaws} A C db f id d :
  represents A C (db_inner db) -> uint_ok 8 id ->
  let l := kind_indexes f id d db in
  StronglySorted (le_dir (is_forward d)) l /\
  (forall x, x ∈ l <->
     (exists e, A !! x = Some e /\ kind_matches f e) /\ le_dir (is_forward d) id x) /\
  (match f with
   | AnyMessageInStream ks => (length ks <= 1)%nat
   | ByMessage ks => (length ks <= 1)%nat
   end -> NoDup l).
Proof.
  intros HR Hid. destruct f as [ks|ks]; cbn [kind_indexes kind_matches].
  - destruct (kind_scans stream_by_kind_idx_codec STREAM_KIND_INDEX
      (fun e => [stream_kind (e_msg e)]) A C db ks id d HR (rep_stream_kind _ _ _ HR) Hid)
      as (HS & HM & HN).
    split_and!; [done| |done]. intros x. rewrite HM. by setoid_rewrite list_elem_of_singleton.
  - apply (kind_scans message_kind_idx_codec MESSAGE_KIND_INDEX e_tys A C); [done|apply HR|done].
Qed.

(** ** All the messages *)

Lemma u64_rt (z : Z) : uint_ok 8 z -> @absorb_ext _ _ u64_codec (be_encode 8 z) = Some z.
Proof.
  intros Hz. unfold absorb_ext. cbn [absorb u64_codec].
  rewrite <- (app_nil_r (be_encode 8 z)), absorb_uint_be by done. by rewrite leftover_nil.
Qed.

Lemma decode_message (i : Z) (m : Message) :
  uint_ok 8 i -> well_formed m ->
  decode u64_codec message_codec (Some (be_encode 8 i, emit m)) = Some (i, m).
Proof. intros Hi Hm. unfold decode. by rewrite u64_rt, absorb_ext_emit. Qed.

Definition stored_item (ie : Z * Entry) : bytes * bytes := (be_encode 8 ie.1, emit (e_msg ie.2)).

Lemma scan_messages A C r dd (Q : bytes -> Prop) (l : list (bytes * bytes)) :
  represents A C r -> scan_spec dd Q (contents r MESSAGES) l ->
  exists ids, omap (decode u64_codec message_codec) (Some <$> l) = log_items A ids /\
    StronglySorted (fun a b => key_before dd (be_encode 8 a) (be_encode 8 b)) ids /\
    forall x, x ∈ ids <-> is_Some (A !! x) /\ Q (be_encode 8 x).
Proof.
  intros HR [HS HM]. pose proof (rep_entries _ _ _ HR) as Hok.
  destruct (list_choice stored_item (fun ie => A !! ie.1 = Some ie.2) l) as (ies & -> & Hies).
  { intros [k v] Hkv. apply HM in Hkv as [(i & e & He & -> & ->)%(rep_messages _ _ _ HR) _].
    by exists (i, e). }
  exists ies.*1. split_and!.
  - clear HS HM. unfold log_items. induction Hies as [|[i e] ies He Hies IH]; [done|].
    cbn [fmap list_fmap omap list_omap fst snd] in *. unfold stored_item at 1. destruct (Hok _ _ He) as [Hi _ Hm _].
    rewrite decode_message, He by done. cbn. by f_equal.
  - rewrite <- list_fmap_compose in HS.
    eapply (StronglySorted_fmap (be_encode 8)); [by intros|]. rewrite <- list_fmap_compose. exact HS.
  - rewrite Forall_forall in Hies. intros x. split.
    + intros ([i e] & -> & Hin)%list_elem_of_fmap. specialize (Hies _ Hin). cbn [fst snd] in *.
      split; [by eexists|]. apply (HM (be_encode 8 i) (emit (e_msg e))).
      by apply (list_elem_of_fmap_2 stored_item _ (i, e)).
    + intros [[e He] HQ].
      assert (Hin : (be_encode 8 x, emit (e_msg e)) ∈ stored_item <$> ies).
      { apply HM. split; [|done]. apply (rep_messages _ _ _ HR). eauto. }
      apply list_elem_of_fmap in Hin as ([y e'] & Ey & Hy). apply (f_equal fst) in Ey.
      apply (be_encode_inj 8 x y) in Ey; [|apply (Hok _ _ He)|apply (Hok _ _ (Hies _ Hy))].
      subst y. by apply (list_elem_of_fmap_2 fst _ (x, e')).
Qed.

(** ** Queries *)

Lemma take_take_while {T} (p : T -> bool) (n : nat) (l : list T) :
  take n (take_while p (take n l)) = take n (take_while p l).
Proof.
  revert n. induction l as [|x l IH]; intros [|n]; cbn; [done..|].
  destruct (p x); cbn; [|done]. by rewrite IH.
Qed.

(** Cutting the ids of an intersection at the limit changes nothing. *)
Lemma limit_show_take {J} `{!Json J} A C r (c : ValidParamsCoordinate) (ids : list Z) :
  represents A C r -> all_in A ids ->
  limit_results c fm_timestamp (omap (show (J := J) A C) (take (Z.to_nat (limit c)) ids))
  = limit_results c fm_timestamp (omap (show A C) ids).
Proof.
  intros HR Hin. unfold limit_results.
  assert (E : forall n, omap (show (J := J) A C) (take n ids) = take n (omap (show A C) ids)).
  { induction Hin as [|id ids Hid Hin IH]; intros [|n]; [done..|].
    destruct (show_some (J := J) A C r id HR Hid) as [x Hx]. cbn. rewrite Hx. cbn. by rewrite IH. }
  by rewrite E, take_take_while.
Qed.

(** The ids selected by a query, before they are shown and cut. *)
Definition selects A (params : ValidParams) (start : bool * Z) (ids : list Z) : Prop :=
  StronglySorted (le_dir (is_forward (direction (coordinate params)))) ids /\
  (forall x, x ∈ ids <-> (exists e, A !! x = Some e /\ entry_matches params e) /\
                         in_range params start x) /\
  (single_kind params -> NoDup ids).

Lemma selects_all_in A params (start : bool * Z) ids : selects A params start ids -> all_in A ids.
Proof.
  intros (_ & HM & _). apply Forall_forall. intros x Hx. apply HM in Hx as [(e & He & _) _]. by exists e.
Qed.

(** Without filters. *)
Lemma select_all A C db (params : ValidParams) (start : bool * Z) :
  represents A C (db_inner db) -> stream_filter params = None -> kind_filter params = None ->
  uint_ok 8 start.2 ->
  let d := direction (coordinate params) in
  let mode := if start.1 then IFrom (be_encode 8 start.2) (rocks_direction d) else rocks_mode d in
  exists ids, omap (decode u64_codec message_codec) (iterator_cf MESSAGES mode (db_inner db))
              = log_items A ids /\ selects A params start ids.
Proof.
  intros HR Hs Hk Hid d mode. pose proof (rep_healthy _ _ _ HR) as Hh.
  assert (exists l, iterator_cf MESSAGES mode (db_inner db) = Some <$> l /\
    scan_spec (rocks_direction d) (fun k => if start.1 then ~ key_before (rocks_direction d) k (be_encode 8 start.2)
                                            else True) (contents (db_inner db) MESSAGES) l)
    as (l & -> & Hl).
  { unfold mode. destruct start.1; [by apply iter_from_ok|].
    destruct d; [by apply iter_start_ok|by apply iter_end_ok]. }
  destruct (scan_messages A C _ _ _ l HR Hl) as (ids & E & HS & HM).
  exists ids. split; [done|].
  assert (HS' : StronglySorted (lt_dir (is_forward d)) ids).
  { rewrite <- (list_fmap_id ids) in HS. eapply StronglySorted_fmap; [|exact HS].
    intros x y [[ex Hx] _]%HM [[ey Hy] _]%HM. cbn.
    apply lt_dir_be; [apply (rep_entries _ _ _ HR x ex Hx)|apply (rep_entries _ _ _ HR y ey Hy)]. }
  split_and!; [by apply lt_le_dir| |by intros _; eapply lt_dir_NoDup].
  intros x. rewrite HM. unfold in_range, entry_matches. rewrite Hs, Hk. cbv zeta. fold d.
  split; intros [Hx Hr].
  - destruct Hx as [e He]. split; [by exists e|]. destruct start.1; [|done].
    rewrite <- not_lt_dir. by rewrite lt_dir_be in Hr by (done || apply (rep_entries _ _ _ HR x e He)).
  - destruct Hx as (e & He & _). split; [by exists e|]. destruct start.1; [|done].
    rewrite lt_dir_be by (done || apply (rep_entries _ _ _ HR x e He)). by apply not_lt_dir.
Qed.

Lemma StronglySorted_filter_bool {T} (RT : T -> T -> Prop) (p : T -> bool) (l : list T) :
  StronglySorted RT l -> StronglySorted RT (List.filter p l).
Proof.
  induction 1 as [|x l HS IH HF]; cbn; [constructor|]. destruct (p x); [|done].
  constructor; [done|]. rewrite Forall_forall in *. intros y Hy%list_elem_of_In%filter_In.
  apply HF, list_elem_of_In, Hy.
Qed.

(** With filters. *)
Lemma select_filtered `{ItertoolsLaws} A C db (params : ValidParams) (start : bool * Z) :
  represents A C (db_inner db) -> filter_ok params -> uint_ok 8 start.2 ->
  let d := direction (coordinate params) in
  match (fun f => stream_indexes f start.2 d db) <$> stream_filter params,
        (fun f => kind_indexes f start.2 d db) <$> kind_filter params with
  | Some a, Some b => sorted_inputs (is_forward d) [a; b] /\ selects A params start (common [a; b])
  | Some i, None | None, Some i => selects A params start i
  | None, None => True
  end.
Proof.
  intros HR Hf Hid d. unfold filter_ok, selects, entry_matches, single_kind, in_range in *.
  destruct (stream_filter params) as [f|]; cbn.
  - destruct (stream_indexes_spec A C db f start.2 d HR Hf Hid) as [HS HM].
    destruct (kind_filter params) as [g|]; cbn.
    + destruct (kind_indexes_spec A C db g start.2 d HR Hid) as (HS' & HM' & _).
      split; [split; [done|by constructor]|].
      assert (Hc : forall x, x ∈ common [stream_indexes f start.2 d db; kind_indexes g start.2 d db]
        <-> x ∈ stream_indexes f start.2 d db /\ x ∈ kind_indexes g start.2 d db).
      { intros x. cbn [common]. rewrite list_elem_of_In, filter_In, <- list_elem_of_In.
        unfold in_all. cbn. rewrite andb_true_r, bool_decide_eq_true. done. }
      assert (HS2 : StronglySorted (lt_dir (is_forward d))
        (common [stream_indexes f start.2 d db; kind_indexes g start.2 d db]))
        by (by apply StronglySorted_filter_bool).
      split_and!; [by apply lt_le_dir| |by intros _; eapply lt_dir_NoDup].
      intros x. rewrite Hc, HM, HM'. clear. naive_solver.
    + split_and!; [by apply lt_le_dir| |by intros _; eapply lt_dir_NoDup].
      intros x. rewrite HM. clear. naive_solver.
  - destruct (kind_filter params) as [g|]; cbn; [|done].
    destruct (kind_indexes_spec A C db g start.2 d HR Hid) as (HS' & HM' & HN).
    split_and!; [done| |].
    + intros x. rewrite HM'. clear. firstorder.
    + intros [Hl|[? [=]]]. by apply HN; destruct g.
Qed.

End Spec.

(** The answer to a query in terms of the log. *)
Lemma fetch_messages_log `{RadiationLaws} {R : Type} `{!Rocks R, !RocksLaws R}
    `{ItertoolsLaws} {J} `{!Json J} (A : Log) (C : gmap Z Connection) (db : DbCore R)
    (params : ValidParams) :
  represents A C (db_inner db) -> filter_ok params -> uint_ok 8 (message_id params db).2 ->
  exists ids, fetch_messages params db
      = Ret (limit_results (coordinate params) fm_timestamp (omap (show (J := J) A C) ids)) /\
    selects A params (message_id params db) ids.
Proof.
  intros HR Hf Hid. unfold fetch_messages. destruct (message_id params db) as [present id] eqn:Em.
  pose proof (select_filtered A C db params (present, id) HR Hf Hid) as HF. cbn [fst snd] in *.
  destruct (stream_filter params) as [f|] eqn:Es, (kind_filter params) as [g|] eqn:Ek;
    cbn [fmap option_fmap option_map] in *.
  - destruct HF as [HS Hsel]. rewrite sorted_intersect_common by done.
    set (ids := common _) in *. exists ids. split; [|done].
    cbn [mbind outcome_bind]. pose proof (selects_all_in _ _ _ _ Hsel) as Hin.
    rewrite (fetch_by_indexes_ok A C), (details_ok A C) by (done || by apply Forall_take).
    by erewrite limit_show_take.
  - pose proof (selects_all_in _ _ _ _ HF) as Hin. eexists. split; [|exact HF].
    cbn [mbind outcome_bind]. by rewrite (fetch_by_indexes_ok A C), (details_ok A C).
  - pose proof (selects_all_in _ _ _ _ HF) as Hin. eexists. split; [|exact HF].
    cbn [mbind outcome_bind]. by rewrite (fetch_by_indexes_ok A C), (details_ok A C).
  - destruct (select_all A C db params (present, id) HR Es Ek Hid) as (ids & E & Hsel).
    cbn [fst snd] in E. exists ids. split; [|done]. cbn [mbind outcome_bind].
    by rewrite E, (details_ok A C).
Qed.

(** C19: [fetch_messages] answers a query as the log does. On a database that
    represents a log, the result is, in the direction of the query, the list of
    exactly the entries that satisfy the stream filter and the kind filter and
    lie at or after the start, each shown with the address of its connection,
    cut at the time limit and at the count limit. Every such entry appears once,
    unless the query asks for several kinds and no stream (the merge does not
    remove duplicates). The query always returns. *)
Theorem fetch_messages_refines `{RadiationLaws} {R : Type} `{!Rocks R, !RocksLaws R}
    `{ItertoolsLaws} {J} `{!Json J} (A : Log) (C : gmap Z Connection) (db : DbCore R)
    (params : ValidParams) :
  represents A C (db_inner db) -> filter_ok params -> uint_ok 8 (message_id params db).2 ->
  exists ids, fetch_messages params db
      = Ret (limit_results (coordinate params) fm_timestamp (omap (show (J := J) A C) ids)) /\
    selects A params (message_id params db) ids.
Proof. apply fetch_messages_log. Qed.

(** C20: storing a message extends the log. When the id is new and its
    connection is known, [put_message] succeeds, and the families then represent
    the log with the new entry; connections, raw chunks and counters are
    untouched. *)
Theorem put_message_refines `{RadiationLaws} {R : Type} `{!Rocks R, !RocksLaws R} (A : Log)
    (C : gmap Z Connection) (db : DbCore R) (id : Z) (e : Entry) (hashes : list LedgerHash) :
  represents A C (db_inner db) -> A !! id = None -> entry_ok C id e ->
  exists r', put_message (e_addr e) id (e_msg e) (e_tys e) hashes db = (mkCore (cache db) r', Ok tt) /\
    represents (<[id := e]> A) C r' /\
    forall cf, cf = BLOBS \/ cf = DEFAULT_CF \/ cf = CONNECTIONS ->
      contents r' cf = contents (db_inner db) cf.
Proof. apply represents_put_message. Qed.
