(* ===== verification/DbBlobs.v ===== *)
(** The raw chunks of [database/core.rs]: [put_blob] hands out an offset per
    connection from a cache that is empty after a restart, and stores the chunk
    under it. *)

From stdpp Require Import base list gmap sorting.
From Stdlib Require Import ZArith Lia.
From S2P Require Import Prelude Types Handle Coding Params Rocks DbCore DbIndex.

Section Blobs.
Context `{RadiationLaws} {R : Type} `{!Rocks R, !RocksLaws R}.
Implicit Types (db : DbCore R).

Definition stored db (cn off : Z) : Prop :=
  is_Some (contents (db_inner db) BLOBS !! blob_key cn off).

(** Every stored chunk has a well-formed key, and a cached position is beyond
    every stored offset of its connection. *)
Record blobs_ok db : Prop := {
  bo_healthy : healthy (db_inner db);
  bo_keys : forall k, is_Some (contents (db_inner db) BLOBS !! k) ->
    exists cn off, uint_ok 8 cn /\ uint_ok 8 off /\ k = blob_key cn off;
  bo_cache : forall cn pos, cache db !! cn = Some pos ->
    uint_ok 8 cn /\ uint_ok 8 pos /\ (pos <> 0 -> forall off, uint_ok 8 off -> stored db cn off -> off < pos);
}.

(** A restart forgets the cache only. *)
Lemma blobs_ok_restart db : blobs_ok db -> blobs_ok (mkCore ∅ (db_inner db)).
Proof. intros []. by split. Qed.

Lemma blob_key_be (cn off : Z) : uint_ok 8 cn -> uint_ok 8 off ->
  blob_key cn off = be_encode 8 cn ++ be_encode 8 off.
Proof. intros Hc Ho. unfold blob_key. cbn [emit blob_key_codec fst snd]. by rewrite !emit_uint_be. Qed.

Lemma blob_key_rt (cn off : Z) : uint_ok 8 cn -> uint_ok 8 off ->
  @absorb_ext _ _ blob_key_codec (blob_key cn off) = Some (cn, off).
Proof.
  intros Hc Ho. rewrite blob_key_be by done. unfold absorb_ext. cbn [absorb blob_key_codec].
  rewrite absorb_uint_be by done. cbn [mbind option_bind].
  rewrite <- (app_nil_r (be_encode 8 off)), absorb_uint_be by done.
  cbn [mbind option_bind]. by rewrite leftover_nil.
Qed.

Lemma blob_key_inj (cn off cn' off' : Z) :
  uint_ok 8 cn -> uint_ok 8 off -> uint_ok 8 cn' -> uint_ok 8 off' ->
  blob_key cn off = blob_key cn' off' -> cn = cn' /\ off = off'.
Proof.
  intros Hc Ho Hc' Ho' E. pose proof (blob_key_rt cn off Hc Ho) as K. rewrite E in K.
  rewrite blob_key_rt in K by done. by simplify_eq.
Qed.

(** Keys are ordered by connection, then by offset. *)
Lemma blob_key_cmp (cn off cn' off' : Z) :
  uint_ok 8 cn -> uint_ok 8 off -> uint_ok 8 cn' -> uint_ok 8 off' ->
  key_cmp (blob_key cn off) (blob_key cn' off')
  = match cn ?= cn' with Eq => off ?= off' | c => c end.
Proof.
  intros. rewrite !blob_key_be, key_cmp_app_length by (rewrite ?length_be_encode; done).
  by rewrite !key_cmp_be.
Qed.

(** The search for the first free offset. *)
Lemma next_offset_spec db (cn : Z) :
  blobs_ok db -> uint_ok 8 cn -> (forall off, uint_ok 8 off -> stored db cn off -> off + 1 < 2 ^ 64) ->
  exists off, next_offset cn db = Ok off /\ uint_ok 8 off /\
    (off = 0 \/ stored db cn (off - 1)) /\
    forall off', uint_ok 8 off' -> stored db cn off' -> off' < off.
Proof.
  intros [Hh Hk _] Hcn Hroom. assert (Hmax : uint_ok 8 (2 ^ 64 - 1)) by (unfold uint_ok; cbn; lia).
  unfold next_offset.
  destruct (iter_from_ok (db_inner db) BLOBS (blob_key cn (2 ^ 64 - 1)) RReverse Hh eq_refl)
    as (l & -> & [HS HM]).
  assert (Hin : forall off, uint_ok 8 off -> stored db cn off ->
                  exists v, (blob_key cn off, v) ∈ l).
  { intros off Ho [v Hv]. exists v. apply HM. split; [done|]. cbn [key_before].
    rewrite blob_key_cmp by done. rewrite Z.compare_refl. unfold uint_ok in Ho. cbn in *.
    rewrite Z.compare_lt_iff. lia. }
  destruct l as [|[k v] l]; cbn [fmap list_fmap].
  { exists 0. split_and!; [done|unfold uint_ok; cbn; lia|by left|].
    intros off Ho Hs. destruct (Hin off Ho Hs) as [v Hv]. by apply not_elem_of_nil in Hv. }
  destruct (proj1 (HM k v)) as [Hv Hb]; [by left|].
  destruct (Hk k) as (cn' & off' & Hc' & Ho' & ->); [by eexists|].
  rewrite blob_key_rt by done. cbn [key_before] in Hb. rewrite blob_key_cmp in Hb by done.
  (* every stored offset of [cn] is at most the head of the scan *)
  assert (Hle : forall off, uint_ok 8 off -> stored db cn off -> cn' = cn /\ off <= off').
  { intros off Ho Hs. destruct (Hin off Ho Hs) as [w Hw].
    apply elem_of_cons in Hw as [Hw|Hw].
    - apply (f_equal fst) in Hw. cbn [fst] in Hw. apply blob_key_inj in Hw as [<- <-]; [|done..]. lia.
    - cbn [fmap list_fmap] in HS. apply StronglySorted_inv in HS as [_ HF].
      rewrite Forall_forall in HF. specialize (HF _ (list_elem_of_fmap_2 fst _ _ Hw)).
      cbn [key_before fst] in HF. rewrite blob_key_cmp in HF by done.
      destruct (Z.compare_spec cn cn'), (Z.compare_spec off off'); try done; try lia; naive_solver lia. }
  destruct (Z.eqb_spec cn' cn) as [->|Hne].
  - assert (Hs : stored db cn off') by (by eexists). specialize (Hroom off' Ho' Hs).
    rewrite wrap_small by (unfold uint_ok in Ho'; cbn in *; lia). exists (off' + 1).
    split_and!; [done|unfold uint_ok in *; cbn in *; lia| |].
    + right. by rewrite Z.add_simpl_r.
    + intros off Ho Hs'. destruct (Hle off Ho Hs'). lia.
  - exists 0. split_and!; [done|unfold uint_ok; cbn; lia|by left|].
    intros off Ho Hs. by destruct (Hle off Ho Hs).
Qed.

(** Offsets are left for a chunk of [n] bytes. *)
Definition room db (cn n : Z) : Prop :=
  default 0 (cache db !! cn) + n < 2 ^ 64 /\
  forall off, uint_ok 8 off -> stored db cn off -> off + 1 + n < 2 ^ 64.

(** The offset [put_blob] uses, from the cache or from the store. *)
Definition blob_position db (cn : Z) : DbResult Z :=
  let position := default 0 (cache db !! cn) in
  if position =? 0 then next_offset cn db else Ok position.

Lemma blob_position_ok db (cn n : Z) :
  blobs_ok db -> uint_ok 8 cn -> 0 <= n -> room db cn n ->
  exists off, blob_position db cn = Ok off /\ uint_ok 8 off /\ off + n < 2 ^ 64 /\
    forall off', uint_ok 8 off' -> stored db cn off' -> off' < off.
Proof.
  intros Hok Hcn Hn [Hpos Hroom]. unfold blob_position. cbv zeta.
  set (position := default 0 (cache db !! cn)) in *.
  destruct (Z.eqb_spec position 0) as [E|E].
  - destruct (next_offset_spec db cn Hok Hcn) as (off & -> & Ho & Hprev & Hf).
    { intros off Ho Hs. specialize (Hroom off Ho Hs). lia. }
    exists off. split_and!; [done..| |done]. destruct Hprev as [->|Hs]; [lia|].
    destruct (Z.eq_dec off 0) as [->|]; [lia|].
    assert (Ho1 : uint_ok 8 (off - 1)) by (unfold uint_ok in *; lia).
    specialize (Hroom _ Ho1 Hs). lia.
  - unfold position in *. destruct (cache db !! cn) as [pos|] eqn:Ec; [|done]. cbn in *.
    destruct (bo_cache _ Hok cn pos Ec) as (_ & Hp & Hf). exists pos. split_and!; auto.
Qed.

Lemma stored_insert db (r' : R) (cn off c o : Z) (data : bytes) (m : gmap Z Z) :
  uint_ok 8 cn -> uint_ok 8 off -> uint_ok 8 c -> uint_ok 8 o ->
  contents r' BLOBS = <[blob_key cn off := data]> (contents (db_inner db) BLOBS) ->
  stored (mkCore m r') c o <-> stored db c o \/ (c = cn /\ o = off).
Proof.
  intros Hcn Ho Hc Ho' E. unfold stored. cbn [db_inner]. rewrite E, lookup_insert_is_Some'. split.
  - intros [K|K]; [|by left]. right. apply blob_key_inj in K as [-> ->]; auto.
  - intros [K|[-> ->]]; [by right|by left].
Qed.

Lemma put_blob_ok db (cn : Z) (data : bytes) :
  blobs_ok db -> uint_ok 8 cn -> data <> [] -> room db cn (blen data) ->
  exists db' off, put_blob cn data db = (db', Ok off) /\ blobs_ok db' /\
    uint_ok 8 off /\
    (forall off', uint_ok 8 off' -> stored db cn off' -> off' < off) /\
    forall cf, contents (db_inner db') cf
      = if decide (cf = BLOBS) then <[blob_key cn off := data]> (contents (db_inner db) BLOBS)
        else contents (db_inner db) cf.
Proof.
  intros Hok Hcn Hne Hr. assert (Hn : 0 < blen data)
    by (destruct data; [done|]; rewrite blen_cons; pose proof (blen_nonneg data); lia).
  destruct (blob_position_ok db cn (blen data) Hok Hcn ltac:(lia) Hr) as (off & E & Ho & Hlt & Hf).
  unfold put_blob. fold (blob_position db cn). rewrite E. unfold mbind, db_bind, put. cbn [db_inner cache].
  destruct (put_ok (db_inner db) BLOBS (blob_key cn off) data (bo_healthy _ Hok)) as (r' & -> & Hh & Hc).
  eexists _, off. split; [done|]. split; [|split_and!; [done..|apply Hc]].
  pose proof (Hc BLOBS) as Hb. rewrite decide_True in Hb by done.
  split; cbn [db_inner cache].
  - done.
  - intros k. rewrite Hb, lookup_insert_is_Some'. intros [<-|Hk]; [eauto 10|]. by apply (bo_keys _ Hok).
  - rewrite wrap_small by (unfold uint_ok in Ho; cbn in *; lia).
    intros c pos. rewrite lookup_insert_Some. intros [[<- <-]|[Hc' Hp]].
    + split_and!; [done|unfold uint_ok in *; cbn in *; lia|]. intros _ o Ho'.
      rewrite (stored_insert db r' cn off cn o data) by done. intros [Hs|[_ ->]]; [|lia].
      specialize (Hf o Ho' Hs). lia.
    + destruct (bo_cache _ Hok c pos Hp) as (Hcc & Hp' & Hf'). split_and!; [done..|].
      intros Hz o Ho'. rewrite (stored_insert db r' cn off c o data) by done. intros [Hs|[-> _]]; [by apply Hf'|done].
Qed.

(** Reading a stored chunk skips its header. *)
Lemma fetch_blob_ok db (cn off : Z) (h payload : bytes) :
  healthy (db_inner db) -> contents (db_inner db) BLOBS !! blob_key cn off = Some (h ++ payload) ->
  blen h = chunk_header_size -> fetch_blob cn off db = Ret (Ok payload).
Proof.
  intros Hh Hc Hl. unfold fetch_blob. rewrite get_ok, Hc by done.
  rewrite slice_from_within by (unfold chunk_header_size in *; len_lia). cbn [mbind outcome_bind].
  rewrite <- Hl, drop_app_within, drop_blen by lia. done.
Qed.

End Blobs.

(** Chunks are never overwritten. As long as offsets are left, [put_blob]
    succeeds and uses an offset above every offset already stored for the
    connection, whether the cache knows the connection or was emptied by a
    restart; the chunk is stored under it, no other chunk and no other family
    changes, reading it back gives what follows its eighteen byte header, and
    the next call starts from a consistent state. *)
Theorem put_blob_fresh `{RadiationLaws} {R : Type} `{!Rocks R, !RocksLaws R} (db : DbCore R)
    (cn : Z) (header payload : bytes) (restarted : bool) :
  blobs_ok db -> uint_ok 8 cn -> blen header = chunk_header_size ->
  let db0 := if restarted then mkCore ∅ (db_inner db) else db in
  room db0 cn (blen (header ++ payload)) ->
  exists db' off, put_blob cn (header ++ payload) db0 = (db', Ok off) /\ blobs_ok db' /\
    (forall off', uint_ok 8 off' -> stored db cn off' -> off' < off) /\
    fetch_blob cn off db' = Ret (Ok payload) /\
    forall cf k, (cf, k) <> (BLOBS, blob_key cn off) ->
      contents (db_inner db') cf !! k = contents (db_inner db) cf !! k.
Proof.
  intros Hok Hcn Hl db0 Hr.
  assert (Hok0 : blobs_ok db0) by (destruct restarted; [by apply blobs_ok_restart|done]).
  assert (Hi : db_inner db0 = db_inner db) by (by destruct restarted).
  destruct (put_blob_ok db0 cn (header ++ payload) Hok0 Hcn) as (db' & off & E & Hok' & Ho & Hf & Hc);
    [by destruct header|done|].
  exists db', off. split_and!; [done..| | |].
  - intros off' Ho' Hs. apply Hf; [done|]. unfold stored. by rewrite Hi.
  - eapply fetch_blob_ok; [apply Hok'| |exact Hl]. rewrite Hc. rewrite decide_True by done.
    by rewrite lookup_insert_eq.
  - intros cf k Hk. rewrite Hc, Hi. destruct (decide (cf = BLOBS)) as [->|]; [|done].
    rewrite lookup_insert_ne; [done|]. congruence.
Qed.
