(* ===== verification/DbSearch.v ===== *)
(** The search of a start by time ([DbCore::search_timestamp]): how far the
    halving steps can move, and when the answer is exact. *)

From stdpp Require Import base list gmap.
From Stdlib Require Import ZArith Lia.
From S2P Require Import Prelude Types Handle Coding Params Rocks DbCore.

(** The most the position can move with a step of [r]: the sum of the halves. *)
Fixpoint reach (r : positive) : Z :=
  match r with
  | xH => 0
  | xO r | xI r => Z.pos r + reach r
  end.

Lemma reach_bound (r : positive) : 0 <= reach r < Z.pos r.
Proof. induction r as [r IH|r IH|]; cbn [reach]; lia. Qed.

Lemma half_pos (r : positive) :
  Z.pos r / 2 = match r with xH => 0 | xO r | xI r => Z.pos r end.
Proof.
  destruct r as [r|r|]; [| |done].
  - symmetry. apply (Z.div_unique _ _ _ 1); lia.
  - symmetry. apply (Z.div_unique _ _ _ 0); lia.
Qed.

Section Search.
Context `{!Radiation} {R : Type} `{!Rocks R} {T : Type} `{!Codec T}.
Context (ts : T -> Z) (cf : CF) (db : DbCore R) (total : Z) (rec : Z -> T).

(** The records from [1] to [total - 1] are there; the time of record [i]. *)
Context (records : forall i, 1 <= i < total -> db_get cf (be_encode 8 i) db = Ok (rec i)).
Context (total_ok : total <= 2 ^ 64).

Lemma search_loop_reach (t : Z) (r : positive) (pos : Z) :
  1 <= pos - reach r -> pos + reach r < total ->
  exists p, search_loop ts cf t r pos db = Ok p /\ pos - reach r <= p <= pos + reach r.
Proof.
  revert pos. induction r as [r IH|r IH|]; intros pos Hlo Hhi; cbn [reach] in *;
    try pose proof (reach_bound r); cbn [search_loop]; rewrite records by lia.
  - rewrite half_pos. destruct (ts (rec pos) ?= t).
    + exists pos. split; [done|lia].
    + rewrite wrap_small by lia. destruct (IH (pos + Z.pos r)) as (p & E & Hp); [lia..|].
      exists p. split; [done|lia].
    + rewrite wrap_small by lia. destruct (IH (pos - Z.pos r)) as (p & E & Hp); [lia..|].
      exists p. split; [done|lia].
  - rewrite half_pos. destruct (ts (rec pos) ?= t).
    + exists pos. split; [done|lia].
    + rewrite wrap_small by lia. destruct (IH (pos + Z.pos r)) as (p & E & Hp); [lia..|].
      exists p. split; [done|lia].
    + rewrite wrap_small by lia. destruct (IH (pos - Z.pos r)) as (p & E & Hp); [lia..|].
      exists p. split; [done|lia].
  - rewrite half_pos. rewrite !Z.add_0_r, Z.sub_0_r, wrap_small by lia.
    exists pos. split; [by destruct (ts (rec pos) ?= t)|lia].
Qed.

(** What the position found means when its neighbours were compared. *)
Definition splits (t p : Z) : Prop :=
  ts (rec p) = t \/
  (ts (rec p) < t /\ (p + 1 = total \/ t < ts (rec (p + 1)))) \/
  (t < ts (rec p) /\ (p = 1 \/ ts (rec (p - 1)) < t)).

(** With a power of two the steps halve exactly. *)
Lemma search_loop_pow2 (t : Z) (k : nat) (r : positive) (pos : Z) :
  Z.pos r = 2 ^ Z.of_nat k -> 0 <= pos - Z.pos r -> pos + Z.pos r <= total ->
  (pos - Z.pos r = 0 \/ ts (rec (pos - Z.pos r)) < t) ->
  (pos + Z.pos r = total \/ t < ts (rec (pos + Z.pos r))) ->
  exists p, search_loop ts cf t r pos db = Ok p /\ 1 <= p < total /\ splits t p.
Proof.
  revert r pos. induction k as [|k IH]; intros r pos Er Hlo Hhi HL HU.
  - assert (r = xH) as -> by (cbn in Er; lia). cbn [search_loop]. rewrite records by lia.
    change (1 / 2) with 0. rewrite Z.add_0_r, Z.sub_0_r, wrap_small by lia.
    exists pos. unfold splits.
    destruct (Z.compare_spec (ts (rec pos)) t); (split; [done|]; split; [lia|]).
    + by left.
    + by right; left.
    + right; right. split; [done|]. destruct HL; [left; lia|by right].
  - rewrite Nat2Z.inj_succ, Z.pow_succ_r in Er by lia. destruct r as [r|r|]; [lia| |lia].
    assert (Er' : Z.pos r = 2 ^ Z.of_nat k) by lia. cbn [search_loop]. rewrite records by lia.
    rewrite half_pos. destruct (Z.compare_spec (ts (rec pos)) t) as [E|E|E].
    + exists pos. split; [done|]. split; [lia|by left].
    + rewrite wrap_small by lia. apply IH; [done|lia|lia| |].
      * right. by replace (pos + Z.pos r - Z.pos r) with pos by lia.
      * replace (pos + Z.pos r + Z.pos r) with (pos + Z.pos r~0) by lia. done.
    + rewrite wrap_small by lia. apply IH; [done|lia|lia| |].
      * replace (pos - Z.pos r - Z.pos r) with (pos - Z.pos r~0) by lia. done.
      * right. by replace (pos - Z.pos r + Z.pos r) with pos by lia.
Qed.

End Search.

(** C26: the start of a query given by time. With records [1] to [total - 1]
    present, the search returns, without reading outside of them, a position
    that differs from [total / 2] by at most the sum of the halves of
    [total / 2]. When [total] is a power of two and the records are in order of
    time, the position is exact: it holds the time asked for, or all the records
    before it are earlier and all the records after it later. *)
Theorem search_timestamp_spec `{!Radiation} {R : Type} `{!Rocks R} {T : Type} `{!Codec T}
    (ts : T -> Z) (cf : CF) (db : DbCore R) (total : Z) (rec : Z -> T) (seconds : Z) (r : positive) :
  total / 2 = Z.pos r -> total < 2 ^ 64 ->
  (forall i, 1 <= i < total -> db_get cf (be_encode 8 i) db = Ok (rec i)) ->
  exists p, search_timestamp ts cf total seconds db = Ok p /\
    total / 2 - reach r <= p <= total / 2 + reach r /\
    ((exists k, total = 2 ^ Z.of_nat k) ->
     (forall i j, 1 <= i <= j -> j < total -> ts (rec i) <= ts (rec j)) ->
     ts (rec p) = seconds * 10 ^ 9 \/
     forall i, 1 <= i < total ->
       (i < p -> ts (rec i) < seconds * 10 ^ 9) /\ (p < i -> seconds * 10 ^ 9 < ts (rec i))).
Proof.
  intros Hr Ht Hrec. pose proof (reach_bound r).
  assert (Htot : 2 * Z.pos r <= total <= 2 * Z.pos r + 1) by (Z.to_euclidean_division_equations; lia).
  unfold search_timestamp. rewrite Hr.
  rewrite (proj2 (Z.eqb_neq total 0)) by (intros ->; done). set (t := seconds * 10 ^ 9).
  destruct (search_loop_reach ts cf db total rec Hrec ltac:(lia) t r (Z.pos r)) as (p & E & Hp); [lia..|].
  exists p. split_and!; [done|lia|lia|]. intros [k Hk] Hsort.
  destruct k as [|k]; [cbn in Hk; lia|]. rewrite Nat2Z.inj_succ, Z.pow_succ_r in Hk by lia.
  destruct (search_loop_pow2 ts cf db total rec Hrec ltac:(lia) t k r (Z.pos r)) as (p' & E' & Hp' & Hs);
    [lia..|]. rewrite E in E'. injection E' as <-.
  destruct Hs as [Hs|[[Hs Hn]|[Hs Hn]]]; [by left|right; intros i Hi; split; intros Hip..].
  - specialize (Hsort i p ltac:(lia) ltac:(lia)). lia.
  - specialize (Hsort (p + 1) i ltac:(lia) ltac:(lia)). lia.
  - specialize (Hsort i (p - 1) ltac:(lia) ltac:(lia)). lia.
  - specialize (Hsort p i ltac:(lia) ltac:(lia)). lia.
Qed.
