(* ===== verification/Decode.v ===== *)
(** How a message is classified when it is stored: the [parse_types] functions
    of [mina-recorder/src/decode/], and the choice between them in
    [DbStream::add]. The generated protobuf code and the Mina message library
    are parameters: they give the parts of a decoded message that the code
    reads. *)

From stdpp Require Import base list gmap.
From Stdlib Require Import ZArith Lia.
From S2P Require Import Prelude Types Handle Coding MinaProtocol Noise.

(** * Decoded messages *)

(** [pb::message::MessageType] of [kad.proto] *)
Inductive KadType : Type :=
| KadPutValue | KadGetValue | KadAddProvider | KadGetProviders | KadFindNode | KadPing.

(** [pb::ControlMessage]: how many entries of each kind. *)
Record Control : Type := mkControl { ihave : nat; iwant : nat; graft : nat; prune : nat }.

(** [pb::Rpc]: the [subscribe()] flags, the [data] fields, the control part. *)
Record PbRpc : Type := mkPbRpc {
  subscriptions : list bool;
  publish : list (option bytes);
  control : option Control;
}.

(** The first pass ledger hashes of a piece of snark work: of one transition,
    or of two merged ones. *)
Inductive Work : Type :=
| OneWork (source target : bytes)
| TwoWork (first_source first_target second_source second_target : bytes).

(** [GossipNetMessageV2]: a block with its completed works (two lists, the
    second optional), a solved work, or anything else. *)
Inductive Gossip : Type :=
| NewState (diff0 : list Work) (diff1 : option (list Work))
| AddSolvedWork (w : Work)
| OtherGossip.

Class Decoders : Type := {
  kad_decode : bytes -> option KadType;
  rpc_decode : bytes -> option PbRpc;
  gossip_read : bytes -> option Gossip;
}.

(** * Kademlia ([decode/kademlia.rs]) *)

Definition kad_parse_types `{Decoders} (data : bytes) : option (list MessageType) :=
  ty ← kad_decode data;
  Some [match ty with
        | KadPutValue => PutValue
        | KadGetValue => GetValue
        | KadAddProvider => AddProvider
        | KadGetProviders => GetProviders
        | KadFindNode => FindNode
        | KadPing => Ping
        end].

(** * Gossip ([decode/meshsub.rs]) *)

(** The hashes of a completed work of a block; [h[1..]] is the hash without its
    version byte. *)
Definition block_hashes (w : Work) : list LedgerHash :=
  match w with
  | OneWork source target => [LSource (drop 1 source); LTarget (drop 1 target)]
  | TwoWork f_source f_target _ s_target =>
      [LFirstSource (drop 1 f_source); LMiddle (drop 1 f_target); LSecondTarget (drop 1 s_target)]
  end.

(** The hashes of a solved work: for a single transition the source is filed
    twice. *)
Definition solved_hashes (w : Work) : list LedgerHash :=
  match w with
  | OneWork source _ => [LSource (drop 1 source); LTarget (drop 1 source)]
  | TwoWork f_source f_target _ s_target =>
      [LFirstSource (drop 1 f_source); LMiddle (drop 1 f_target); LSecondTarget (drop 1 s_target)]
  end.

(** One published message: its type by the tag byte at offset 8, and the ledger
    hashes in it. *)
Definition publish_type `{Decoders} (index_ledger_hash : bool) (data : bytes)
    : option MessageType * list LedgerHash :=
  match data !! 8%nat with
  | None => (None, [])
  | Some tag =>
      let read := if index_ledger_hash then gossip_read (drop 8 data) else None in
      if tag =? 0 then
        (Some PublishNewState,
         match read with
         | Some (NewState diff0 diff1) => (diff0 ++ default [] diff1) ≫= block_hashes
         | _ => []
         end)
      else if tag =? 1 then
        (Some PublishSnarkPoolDiff,
         match read with Some (AddSolvedWork w) => solved_hashes w | _ => [] end)
      else if tag =? 2 then (Some PublishTransactionPoolDiff, [])
      else (None, [])
  end.

Definition control_types (c : Control) : list MessageType :=
  (if (ihave c =? 0)%nat then [] else [ControlIHave]) ++
  (if (iwant c =? 0)%nat then [] else [ControlIWant]) ++
  (if (graft c =? 0)%nat then [] else [ControlGraft]) ++
  (if (prune c =? 0)%nat then [] else [ControlPrune]).

Definition meshsub_parse_types `{Decoders} (data : bytes) (index_ledger_hash : bool)
    : option (list MessageType * list LedgerHash) :=
  rpc ← rpc_decode data;
  let subscriptions :=
    (fun s : bool => if s then Subscribe else Unsubscribe) <$> subscriptions rpc in
  let published := publish_type index_ledger_hash <$> omap (fun d => d) (publish rpc) in
  let control := match control rpc with Some c => control_types c | None => [] end in
  Some (subscriptions ++ control ++ omap fst published, published ≫= snd).

(** * Every stream kind ([DbStream::add]) *)

Definition parse_types `{Decoders, Binprot} (index_ledger_hash : bool) (stream_kind : StreamKind)
    (data : bytes) : option (list MessageType * list LedgerHash) :=
  let just tys : option (list MessageType * list LedgerHash) := Some (tys, []) in
  match stream_kind with
  | KUnknown => just []
  | Meshsub => meshsub_parse_types data index_ledger_hash
  | Kad => tys ← kad_parse_types data; just tys
  | KHandshake => just (noise_parse_types data)
  | Rpc => tys ← rpc_parse_types data; just tys
  | IpfsId => just [Identify]
  | IpfsPush => just [IdentifyPush]
  | IpfsDelta => just []
  | KPeerExchange => just [PeerExchange]
  | KBitswapExchange => just [BitswapExchange]
  | KNodeStatus => just [NodeStatus]
  | KSelect => just [Select]
  | KMplex => just [Mplex]
  | KYamux => just [Yamux]
  end.

(** * Properties *)

(** What a decoded gossip message announces. *)
Definition published (rpc : PbRpc) (tag : Z) : Prop :=
  exists d, Some d ∈ publish rpc /\ d !! 8%nat = Some tag.

Definition controls (rpc : PbRpc) (field : Control -> nat) : Prop :=
  exists c, control rpc = Some c /\ field c <> 0%nat.

Definition announces (rpc : PbRpc) (t : MessageType) : Prop :=
  match t with
  | Subscribe => true ∈ subscriptions rpc
  | Unsubscribe => false ∈ subscriptions rpc
  | PublishNewState => published rpc 0
  | PublishSnarkPoolDiff => published rpc 1
  | PublishTransactionPoolDiff => published rpc 2
  | ControlIHave => controls rpc ihave
  | ControlIWant => controls rpc iwant
  | ControlGraft => controls rpc graft
  | ControlPrune => controls rpc prune
  | _ => False
  end.

Definition tag_type (tag : Z) : option MessageType :=
  if tag =? 0 then Some PublishNewState
  else if tag =? 1 then Some PublishSnarkPoolDiff
  else if tag =? 2 then Some PublishTransactionPoolDiff
  else None.

Lemma tag_type_Some (tag : Z) (t : MessageType) :
  tag_type tag = Some t <->
  (tag = 0 /\ t = PublishNewState) \/ (tag = 1 /\ t = PublishSnarkPoolDiff) \/
  (tag = 2 /\ t = PublishTransactionPoolDiff).
Proof.
  unfold tag_type. destruct (Z.eqb_spec tag 0), (Z.eqb_spec tag 1), (Z.eqb_spec tag 2);
    intuition (congruence || lia).
Qed.

Lemma publish_type_tag `{Decoders} (idx : bool) (data : bytes) :
  (publish_type idx data).1 = data !! 8%nat ≫= tag_type.
Proof. unfold publish_type, tag_type. destruct (data !! 8%nat); cbn; [|done]. by repeat case_match. Qed.

Lemma publish_type_plain `{Decoders} (data : bytes) : (publish_type false data).2 = [].
Proof. unfold publish_type. by repeat case_match. Qed.

Lemma subscriptions_elem (l : list bool) (t : MessageType) :
  t ∈ (fun s : bool => if s then Subscribe else Unsubscribe) <$> l <->
  (t = Subscribe /\ true ∈ l) \/ (t = Unsubscribe /\ false ∈ l).
Proof.
  rewrite list_elem_of_fmap. split; [intros ([] & -> & ?); auto|].
  intros [[-> ?]|[-> ?]]; [by exists true|by exists false].
Qed.

Lemma control_elem (c : Control) (t : MessageType) :
  t ∈ control_types c <->
  (t = ControlIHave /\ ihave c <> 0%nat) \/ (t = ControlIWant /\ iwant c <> 0%nat) \/
  (t = ControlGraft /\ graft c <> 0%nat) \/ (t = ControlPrune /\ prune c <> 0%nat).
Proof.
  unfold control_types. destruct c as [a b d e]. cbn.
  destruct a, b, d, e; cbn; rewrite ?elem_of_cons, ?elem_of_nil; intuition (try done; subst; auto).
Qed.

Lemma published_elem `{Decoders} (idx : bool) (ds : list (option bytes)) (t : MessageType) :
  t ∈ omap fst (publish_type idx <$> omap (fun d => d) ds) <->
  exists d tag, Some d ∈ ds /\ d !! 8%nat = Some tag /\ tag_type tag = Some t.
Proof.
  rewrite list_elem_of_omap. split.
  - intros (x & (d & -> & (o & Ho & ->)%list_elem_of_omap)%list_elem_of_fmap & Ht).
    rewrite publish_type_tag in Ht. apply bind_Some in Ht as (tag & Hd & Ht). eauto.
  - intros (d & tag & Hd & Ht & E). exists (publish_type idx d). split.
    + apply list_elem_of_fmap_2, list_elem_of_omap. eauto.
    + rewrite publish_type_tag, Ht. done.
Qed.

(** C22: a gossip message is filed under exactly what it carries: subscriptions,
    control messages of each kind, and published blocks, snark works and
    transactions by their tag, and under nothing else. Ledger hashes are only
    collected when asked for. *)
Theorem meshsub_types_exact `{Decoders} (data : bytes) (rpc : PbRpc) (idx : bool) :
  rpc_decode data = Some rpc ->
  exists tys hashes, meshsub_parse_types data idx = Some (tys, hashes) /\
    (forall t, t ∈ tys <-> announces rpc t) /\ (idx = false -> hashes = []).
Proof.
  intros E. unfold meshsub_parse_types. rewrite E. cbn [mbind option_bind].
  eexists _, _. split; [done|]. split.
  - intros t. rewrite !elem_of_app, subscriptions_elem, published_elem.
    assert (Hc : t ∈ match control rpc with Some c => control_types c | None => [] end <->
      exists c, control rpc = Some c /\ t ∈ control_types c).
    { destruct (control rpc); [naive_solver|]. rewrite elem_of_nil. naive_solver. }
    rewrite Hc. setoid_rewrite control_elem. setoid_rewrite tag_type_Some.
    unfold announces, published, controls. clear. destruct t; naive_solver.
  - intros ->. induction (omap _ (publish rpc)) as [|d ds IH]; [done|]. cbn.
    by rewrite publish_type_plain, IH.
Qed.

Definition demo_decoders : Decoders := {|
  kad_decode _ := Some KadPing;
  rpc_decode data := Some (mkPbRpc [true] [Some data] (Some (mkControl 0 1 0 0)));
  gossip_read _ := None;
|}.

Lemma meshsub_types_exact_witness :
  exists tys hashes,
    @meshsub_parse_types demo_decoders [1; 0; 0; 0; 0; 0; 0; 0; 1; 5] false = Some (tys, hashes) /\
    PublishSnarkPoolDiff ∈ tys /\ ControlIWant ∈ tys /\ hashes = [].
Proof.
  destruct (@meshsub_types_exact demo_decoders [1; 0; 0; 0; 0; 0; 0; 0; 1; 5]
    (mkPbRpc [true] [Some [1; 0; 0; 0; 0; 0; 0; 0; 1; 5]] (Some (mkControl 0 1 0 0))) false eq_refl)
    as (tys & hashes & E & Ht & Hh).
  exists tys, hashes. split; [exact E|]. split; [|split; [|by apply Hh]].
  - apply Ht. exists [1; 0; 0; 0; 0; 0; 0; 0; 1; 5]. split; [apply list_elem_of_here|reflexivity].
  - apply Ht. exists (mkControl 0 1 0 0). split; [reflexivity|discriminate].
Defined.
