(* ===== verification/Facade.v ===== *)
(** The database as the recorder uses it ([mina-recorder/src/database/rocksdb.rs]):
    counters that number connections and messages, a group per connection, a
    stream per protocol stream, on top of [DbCore].

    The counters are atomic and shared by every group; the facade record stands
    for them and for the store. A [DbStream] holds a clone of its [DbGroup], and
    [Drop] of every clone writes the closing time of the connection:
    [group_drop] is that write, and [stream_add] of the interface performs it
    after the message is stored, when the temporary stream goes away. *)

From stdpp Require Import base list gmap sorting.
From Stdlib Require Import ZArith Lia.
From S2P Require Import Prelude Types Handle Coding MinaProtocol Params Rocks DbCore.
From S2P Require Import DbIndex DbSpec DbBlobs Decode.

(** * State *)

Record Facade (R : Type) : Type := mkFacade {
  cns : Z;
  f_messages : Z;
  rnd_cnt : Z;
  core : DbCore R;
}.
Arguments mkFacade {R}.
Arguments cns {R}.
Arguments f_messages {R}.
Arguments rnd_cnt {R}.
Arguments core {R}.

(** [DbGroup]: the counter and the database it shares are in the facade. *)
Record Group : Type := mkGroup { g_addr : SocketAddr; g_id : Z }.

Section Ops.
Context `{!Radiation, !Binprot, !Decoders} {R : Type} `{!Rocks R}.
Implicit Types (f : Facade R) (g : Group).

Definition FacadeM (A : Type) : Type := Facade R -> Facade R * DbResult A.

(** A call of [self.inner]. *)
Definition on_core {A} (m : DbM R A) : FacadeM A := fun f =>
  let '(db, r) := m (core f) in (mkFacade (cns f) (f_messages f) (rnd_cnt f) db, r).

#[export] Instance facade_ret : MRet FacadeM := fun A a f => (f, Ok a).
#[export] Instance facade_bind : MBind FacadeM := fun A B k m f =>
  match m f with
  | (f, Ok a) => k a f
  | (f, Err e) => (f, Err e)
  end.

(** [Ok(x)?] of a read or a decoder. *)
Definition lift {A} (r : Facade R -> DbResult A) : FacadeM A := fun f => (f, r f).

(** [DbFacade::open] on an opened store. *)
Definition facade_open (r : R) : DbResult (Facade R) :=
  let db := mkCore ∅ r in
  match total CONNECTIONS_CNT db, total MESSAGES_CNT db, total RANDOMNESS_CNT db with
  | Ok c, Ok m, Ok n => Ok (mkFacade c m n db)
  | Err e, _, _ => Err e
  | Ok _, Err e, _ => Err e
  | Ok _, Ok _, Err e => Err e
  end.

(** The [fetch_add]s. *)
Definition next_cn : FacadeM Z := fun f =>
  (mkFacade (wrap 64 (cns f + 1)) (f_messages f) (rnd_cnt f) (core f), Ok (cns f)).
Definition next_message : FacadeM Z := fun f =>
  (mkFacade (cns f) (wrap 64 (f_messages f + 1)) (rnd_cnt f) (core f), Ok (f_messages f)).
Definition next_rnd : FacadeM Z := fun f =>
  (mkFacade (cns f) (f_messages f) (wrap 64 (rnd_cnt f + 1)) (core f), Ok (rnd_cnt f)).

(** [DbFacade::add] *)
Definition facade_add (info : ConnectionInfo) (incoming : bool) (alias : bytes) (timestamp : Z)
    : FacadeM Group :=
  id ← next_cn;
  let v := mkConnection info incoming timestamp stats_default stats_default 0 alias in
  on_core (put_cn id v);;
  on_core (set_total CONNECTIONS_CNT id);;
  mret (mkGroup (addr info) id).

Definition add_randomness (data : bytes) : FacadeM unit :=
  id ← next_rnd; on_core (put_randomness id data).

(** [DbGroup::update] *)
Definition group_update g (stats : ConnectionStats) (incoming : bool) : FacadeM unit :=
  cn ← lift (fun f => fetch_connection (g_id g) (core f));
  let cn :=
    if incoming
    then mkConnection (info cn) (cn_incoming cn) (cn_timestamp cn)
           (stats_add_assign (stats_in cn) stats) (stats_out cn) (timestamp_close cn) (cn_alias cn)
    else mkConnection (info cn) (cn_incoming cn) (cn_timestamp cn)
           (stats_in cn) (stats_add_assign (stats_out cn) stats) (timestamp_close cn) (cn_alias cn) in
  on_core (put_cn (g_id g) cn).

(** [DbGroup::add_raw] *)
Definition group_add_raw g (status : EncryptionStatus) (incoming : bool) (time : Z) (data : bytes)
    : FacadeM Z :=
  let header := mkChunkHeader (wrap 32 (blen data)) time status incoming in
  on_core (put_blob (g_id g) (emit header ++ data)).

(** [Drop for DbGroup]: errors are logged. *)
Definition group_drop (now : Z) g : Facade R -> Facade R := fun f =>
  match fetch_connection (g_id g) (core f) with
  | Ok cn =>
      let cn := mkConnection (info cn) (cn_incoming cn) (cn_timestamp cn) (stats_in cn)
                  (stats_out cn) now (cn_alias cn) in
      (on_core (put_cn (g_id g) cn) f).1
  | Err _ => f
  end.

(** [DbStream::add]; [index_ledger_hash] is the environment variable. *)
Definition stream_add (index_ledger_hash : bool) g (s_id : StreamId) (did : DirectedId)
    (kind : StreamKind) (data : bytes) : FacadeM Z :=
  let time := md_time (metadata did) in
  offset ← group_add_raw g DecryptedNoise (incoming did) time data;
  tys_hashes ← lift (fun _ => match parse_types index_ledger_hash kind data with
                              | Some t => Ok t
                              | None => Err DbDecode
                              end);
  let '(tys, ledger_hashes) := tys_hashes in
  id ← next_message;
  let v := mkMessage (g_id g) s_id kind (incoming did) time offset (wrap 32 (blen data))
             (join_comma (MessageType_display <$> tys)) in
  on_core (put_message (g_addr g) id v tys ledger_hashes);;
  on_core (set_total MESSAGES_CNT id);;
  mret id.

End Ops.

(** * The invariant of the recorder's database *)

Section Inv.
Context `{RadiationLaws} {R : Type} `{!Rocks R, !RocksLaws R}.
Implicit Types (A : Log) (C : gmap Z Connection) (D : gmap Z bytes) (f : Facade R) (r : R).

(** [A] is the log, [C] the connections, [D] the payload of each message. *)
Record facade_ok A C D f : Prop := {
  fo_rep : represents A C (db_inner (core f));
  fo_blobs : blobs_ok (core f);
  fo_messages : uint_ok 8 (f_messages f) /\ forall id, is_Some (A !! id) -> id < f_messages f;
  fo_cns : uint_ok 8 (cns f) /\ forall id, is_Some (C !! id) -> id < cns f;
  fo_data : forall id e, A !! id = Some e -> exists h payload,
    D !! id = Some payload /\ blen h = chunk_header_size /\
    contents (db_inner (core f)) BLOBS !! blob_key (connection_id (e_msg e)) (offset (e_msg e))
    = Some (h ++ payload);
  fo_totals : forall k v, contents (db_inner (core f)) DEFAULT_CF !! [k] = Some v ->
    exists z, uint_ok 8 z /\ v = emit_uint 8 z;
}.

(** Families that do not hold the log do not matter to it. *)
Lemma represents_frame A C r r' :
  represents A C r -> healthy r' ->
  (forall cf, cf <> BLOBS -> cf <> DEFAULT_CF -> contents r' cf = contents r cf) ->
  represents A C r'.
Proof.
  intros [] Hh E. split; [done|done|..]; unfold indexes in *; intros; rewrite E by done; auto.
Qed.

Lemma blobs_ok_frame (db : DbCore R) r' :
  blobs_ok db -> healthy r' -> contents r' BLOBS = contents (db_inner db) BLOBS ->
  blobs_ok (mkCore (cache db) r').
Proof.
  intros [Hh Hk Hc] Hh' E. split; [done|..]; unfold stored in *; cbn [db_inner cache]; rewrite E; done.
Qed.

Lemma represents_put_cn A C r r' id c :
  represents A C r -> healthy r' -> uint_ok 8 id -> well_formed c ->
  (forall cf, contents r' cf = if decide (cf = CONNECTIONS)
                               then <[be_encode 8 id := emit c]> (contents r CONNECTIONS)
                               else contents r cf) ->
  represents A (<[id := c]> C) r'.
Proof.
  intros [_ Hents Hm Ha Hc Hs Hsk Hmk Hcs] Hh Hid Hw E.
  split; [done|..]; unfold indexes in *; intros; rewrite ?E, ?decide_False by done; auto.
  - destruct (Hents _ _ H1) as [? ? ? [c' Hc']]. split; [done..|].
    rewrite lookup_insert_is_Some'. right. by eexists.
  - rewrite decide_True by done. apply lookup_insert_Some in H1 as [[<- <-]|[Hne Hc']].
    + by rewrite lookup_insert_eq.
    + destruct (Hcs _ _ Hc') as (Hi & Hw' & Hg). rewrite lookup_insert_ne; [done|].
      intros Eq%be_encode_inj; done.
Qed.

(** Reading a message of the log gives the payload that was stored. *)
Lemma fetch_bin_ok A C D f id e payload :
  facade_ok A C D f -> A !! id = Some e -> D !! id = Some payload ->
  fetch_full_message_bin id (core f) = Ret (Ok payload).
Proof.
  intros [HR HB _ _ HD _] He Hp. unfold fetch_full_message_bin.
  rewrite (get_message_ok A C (core f) id e HR He).
  destruct (HD _ _ He) as (h & p & Hp' & Hl & Hc). simplify_eq.
  eapply fetch_blob_ok; [apply HR|exact Hc|done].
Qed.

Lemma total_ok f (k : Z) :
  healthy (db_inner (core f)) ->
  (forall v, contents (db_inner (core f)) DEFAULT_CF !! [k] = Some v ->
     exists z, uint_ok 8 z /\ v = emit_uint 8 z) ->
  exists z, total k (core f) = Ok z /\
    forall v, contents (db_inner (core f)) DEFAULT_CF !! [k] = Some (emit_uint 8 v) -> uint_ok 8 v -> z = v.
Proof.
  intros Hh Ht. unfold total. rewrite get_ok by done.
  destruct (contents (db_inner (core f)) DEFAULT_CF !! [k]) as [b|] eqn:E; [|by exists 0].
  destruct (Ht b eq_refl) as (z & Hz & ->). rewrite emit_uint_be, u64_rt by done.
  exists z. split; [done|]. intros v [= Ev] Hv. rewrite !emit_uint_be in Ev by done.
  by apply be_encode_inj in Ev.
Qed.

(** Storing a raw chunk keeps the invariant and gives an offset to find it at. *)
Lemma group_add_raw_ok A C D f (g : Group) status inc time data :
  facade_ok A C D f -> uint_ok 8 (g_id g) -> time_ok time ->
  room (core f) (g_id g) (18 + blen data) ->
  exists f' off h, group_add_raw g status inc time data f = (f', Ok off) /\
    facade_ok A C D f' /\ f_messages f' = f_messages f /\ cns f' = cns f /\ uint_ok 8 off /\
    blen h = chunk_header_size /\
    contents (db_inner (core f')) BLOBS !! blob_key (g_id g) off = Some (h ++ data).
Proof.
  intros [HR HB HM HC HD HT] Hg Ht Hroom. unfold group_add_raw, on_core.
  set (header := mkChunkHeader (wrap 32 (blen data)) time status inc).
  assert (Hw : well_formed header) by (split; [apply wrap_bound; lia|done]).
  pose proof (chunk_header_length header Hw) as Hl.
  assert (Hb : blen (emit header) = chunk_header_size) by (unfold blen; by rewrite Hl).
  destruct (put_blob_ok (core f) (g_id g) (emit header ++ data) HB Hg)
    as (db' & off & E & HB' & Ho & Hf & Hc).
  { by destruct (emit header). }
  { rewrite blen_app, Hb. exact Hroom. }
  rewrite E. exists (mkFacade (cns f) (f_messages f) (rnd_cnt f) db'), off, (emit header).
  split; [done|]. split; [|split_and!; [done..|]].
  2: { cbn [core]. rewrite Hc, decide_True by done. by rewrite lookup_insert_eq. }
  split; cbn [core f_messages cns]; [|done|done|done|..].
  - eapply represents_frame; [exact HR|apply HB'|]. intros cf Hne _. by rewrite Hc, decide_False.
  - intros id e He. destruct (HD id e He) as (h & p & Hp & Hh & Hk). exists h, p. split_and!; [done..|].
    rewrite Hc, decide_True by done. rewrite lookup_insert_ne; [done|].
    intros Ek. rewrite <- Ek in Hk. assert (Hs : stored (core f) (g_id g) off) by (by eexists).
    specialize (Hf off Ho Hs). lia.
  - intros k v. rewrite Hc, decide_False by done. apply HT.
Qed.

(** A counter is written. *)
Lemma set_total_ok A C D f (k z : Z) :
  facade_ok A C D f -> uint_ok 8 z ->
  exists f', on_core (set_total k z) f = (f', Ok tt) /\ facade_ok A C D f' /\
    f_messages f' = f_messages f /\ cns f' = cns f /\
    contents (db_inner (core f')) DEFAULT_CF !! [k] = Some (emit_uint 8 z).
Proof.
  intros [HR HB HM HC HD HT] Hz.
  destruct (writes_put DEFAULT_CF [k] (emit_uint 8 z) (core f) (rep_healthy _ _ _ HR)) as (r' & E & Hh & Hc).
  unfold on_core, set_total. rewrite E. eexists. split; [done|].
  split; [|split_and!; [done..|]].
  2: { cbn [core db_inner]. by rewrite Hc, apply_writes_one, decide_True, lookup_insert_eq. }
  split; cbn [core db_inner f_messages cns]; [|by apply blobs_ok_frame; [..|rewrite Hc]|done|done|..].
  - eapply represents_frame; [exact HR|done|]. intros cf _ Hne.
    by rewrite Hc, apply_writes_one, decide_False.
  - intros id e He. rewrite Hc. by apply HD.
  - intros k' v. rewrite Hc, apply_writes_one, decide_True, lookup_insert_Some by done. intros [[_ <-]|[_ Hv]]; eauto.
Qed.

(** A message is filed under the next id. *)
Lemma file_message_ok A C D f (e : Entry) hashes h payload :
  facade_ok A C D f -> entry_ok C (f_messages f) e -> f_messages f + 1 < 2 ^ 64 ->
  blen h = chunk_header_size ->
  contents (db_inner (core f)) BLOBS !! blob_key (connection_id (e_msg e)) (offset (e_msg e))
  = Some (h ++ payload) ->
  exists f', (id ← next_message;
              on_core (put_message (e_addr e) id (e_msg e) (e_tys e) hashes)) f = (f', Ok tt) /\
    facade_ok (<[f_messages f := e]> A) C (<[f_messages f := payload]> D) f' /\
    f_messages f' = f_messages f + 1 /\ cns f' = cns f.
Proof.
  intros [HR HB [HMi HM] HC HD HT] He Hlt Hh Hk.
  assert (Hn : A !! f_messages f = None).
  { destruct (A !! f_messages f) eqn:E; [|done].
    assert (f_messages f < f_messages f) by (apply HM; by eexists). lia. }
  destruct (represents_put_message A C (core f) (f_messages f) e hashes HR Hn He) as (r' & E & HR' & Hc).
  unfold mbind, facade_bind, next_message, on_core. cbn [core f_messages cns rnd_cnt]. rewrite E.
  eexists. split; [done|]. cbn [f_messages cns].
  rewrite wrap_small by (unfold uint_ok in HMi; cbn in *; lia). split; [|done].
  split; cbn [core db_inner f_messages cns];
    [done|apply blobs_ok_frame; [done|apply HR'|by apply Hc; auto]| |done|..].
  - split; [unfold uint_ok in *; cbn in *; lia|]. intros id [x Hx].
    apply lookup_insert_Some in Hx as [[<- _]|[_ Hx]]; [lia|].
    assert (id < f_messages f) by (apply HM; by eexists). lia.
  - rewrite Hc by auto. intros id e' He'. apply lookup_insert_Some in He' as [[<- <-]|[Hne He']].
    + exists h, payload. by rewrite lookup_insert_eq.
    + rewrite lookup_insert_ne by done. by apply HD.
  - rewrite Hc by auto. apply HT.
Qed.

End Inv.

(** The entry [DbStream::add] makes of a message. *)
Definition new_entry (g : Group) (s_id : StreamId) (did : DirectedId) (kind : StreamKind)
    (data : bytes) (tys : list MessageType) (off : Z) : Entry :=
  mkEntry (g_addr g)
    (mkMessage (g_id g) s_id kind (incoming did) (md_time (metadata did)) off (wrap 32 (blen data))
       (join_comma (MessageType_display <$> tys)))
    tys.

Section Record.
Context `{RadiationLaws, !Binprot, !Decoders} {R : Type} `{!Rocks R, !RocksLaws R}.
Implicit Types (A : Log) (C : gmap Z Connection) (D : gmap Z bytes) (f : Facade R).

(** What a caller of [DbStream::add] provides. *)
Record can_add C f (idx : bool) (g : Group) (s_id : StreamId) (did : DirectedId) (kind : StreamKind)
    (data : bytes) (tys : list MessageType) (hashes : list LedgerHash) : Prop := {
  ca_cn : is_Some (C !! g_id g);
  ca_addr : addr_ok (g_addr g);
  ca_sid : stream_id_ok s_id;
  ca_time : time_ok (md_time (metadata did));
  ca_types : parse_types idx kind data = Some (tys, hashes);
  ca_brief : blen (join_comma (MessageType_display <$> tys)) < 2 ^ 32;
  ca_room : room (core f) (g_id g) (18 + blen data);
  ca_id : f_messages f + 1 < 2 ^ 64;
}.

Lemma stream_add_ok A C D f idx g s_id did kind data tys hashes :
  facade_ok A C D f -> can_add C f idx g s_id did kind data tys hashes ->
  exists f' off, stream_add idx g s_id did kind data f = (f', Ok (f_messages f)) /\
    facade_ok (<[f_messages f := new_entry g s_id did kind data tys off]> A) C
      (<[f_messages f := data]> D) f' /\
    f_messages f' = f_messages f + 1 /\ cns f' = cns f /\
    contents (db_inner (core f')) DEFAULT_CF !! [MESSAGES_CNT] = Some (emit_uint 8 (f_messages f)).
Proof.
  intros Hok [[c Hc] Ha Hs Ht Hty Hbr Hroom Hid].
  destruct (rep_connections _ _ _ (fo_rep _ _ _ _ Hok) _ _ Hc) as (Hg & _ & _).
  destruct (group_add_raw_ok A C D f g DecryptedNoise (incoming did) _ data Hok Hg Ht Hroom)
    as (f1 & off & h & E1 & Hok1 & Em1 & Ec1 & Ho & Hh & Hk).
  set (e := new_entry g s_id did kind data tys off).
  assert (He : entry_ok C (f_messages f1) e).
  { split; [apply (fo_messages _ _ _ _ Hok1)|done| |by exists c].
    split_and!; [done..|apply wrap_bound; lia|done]. }
  destruct (file_message_ok A C D f1 e hashes h data Hok1 He) as (f2 & E2 & Hok2 & Em2 & Ec2);
    [by rewrite Em1|done|done|].
  destruct (set_total_ok _ _ _ f2 MESSAGES_CNT (f_messages f) Hok2) as (f3 & E3 & Hok3 & Em3 & Ec3 & Ht3);
    [apply (fo_messages _ _ _ _ Hok)|].
  exists f3, off. rewrite Em1 in *. split_and!; [|done|by rewrite Em3|congruence|done].
  unfold stream_add. unfold mbind, facade_bind in *. rewrite E1. unfold lift. rewrite Hty.
  unfold next_message in *. cbv beta iota in E2 |- *. rewrite Em1 in *.
  unfold e, new_entry in E2. cbn [e_addr e_msg e_tys] in E2. rewrite E2, E3. done.
Qed.

End Record.

(** * Connections *)

Section Connections.
Context `{RadiationLaws} {R : Type} `{!Rocks R, !RocksLaws R}.
Implicit Types (A : Log) (C : gmap Z Connection) (D : gmap Z bytes) (f : Facade R) (c : Connection).

Lemma put_cn_ok A C D f id c :
  facade_ok A C D f -> uint_ok 8 id -> id < cns f -> well_formed c ->
  exists f', on_core (put_cn id c) f = (f', Ok tt) /\ facade_ok A (<[id := c]> C) D f' /\
    f_messages f' = f_messages f /\ cns f' = cns f.
Proof.
  intros [HR HB HM [HCi HC] HD HT] Hid Hlt Hw. unfold put_cn. rewrite emit_uint_be by done.
  destruct (writes_put CONNECTIONS (be_encode 8 id) (emit c) (core f) (rep_healthy _ _ _ HR))
    as (r' & E & Hh & Hc).
  assert (Hf : forall cf, cf <> CONNECTIONS -> contents r' cf = contents (db_inner (core f)) cf)
    by (intros cf Hne; by rewrite Hc, apply_writes_one, decide_False).
  unfold on_core. rewrite E. eexists. split; [done|]. split; [|done].
  split; cbn [core db_inner f_messages cns]; [|by apply blobs_ok_frame; [..|rewrite Hf]|done|..].
  - eapply represents_put_cn; [exact HR|done..|]. intros cf. rewrite Hc, apply_writes_one.
    by destruct (decide (cf = CONNECTIONS)) as [->|].
  - split; [done|]. intros i. rewrite lookup_insert_is_Some'. intros [<-|Hi]; [done|by apply HC].
  - intros i e He. rewrite Hf by done. by apply HD.
  - rewrite Hf by done. apply HT.
Qed.

Lemma fetch_connection_ok A C D f id c :
  facade_ok A C D f -> C !! id = Some c -> fetch_connection id (core f) = Ok c.
Proof. intros Hok Hc. eapply get_connection_ok; [apply Hok|done]. Qed.

(** [cn.stats_in += stats] or [cn.stats_out += stats] *)
Definition add_stats (c : Connection) (u : ConnectionStats * bool) : Connection :=
  let '(s, inc) := u in
  if inc : bool
  then mkConnection (info c) (cn_incoming c) (cn_timestamp c) (stats_add_assign (stats_in c) s)
         (stats_out c) (timestamp_close c) (cn_alias c)
  else mkConnection (info c) (cn_incoming c) (cn_timestamp c) (stats_in c)
         (stats_add_assign (stats_out c) s) (timestamp_close c) (cn_alias c).

Lemma stats_add_wf (s s' : ConnectionStats) : well_formed (stats_add_assign s s').
Proof. repeat split; apply wrap_bound; lia. Qed.

Lemma add_stats_wf c u : well_formed c -> well_formed (add_stats c u).
Proof.
  intros (Hi & Ht & Hsi & Hso & Htc & Ha).
  destruct u as [s []]; split_and!; cbn; done || apply stats_add_wf.
Qed.

Lemma group_update_ok A C D f (g : Group) c (u : ConnectionStats * bool) :
  facade_ok A C D f -> C !! g_id g = Some c ->
  exists f', group_update g u.1 u.2 f = (f', Ok tt) /\
    facade_ok A (<[g_id g := add_stats c u]> C) D f' /\
    f_messages f' = f_messages f /\ cns f' = cns f.
Proof.
  intros Hok Hc. destruct (rep_connections _ _ _ (fo_rep _ _ _ _ Hok) _ _ Hc) as (Hg & Hw & _).
  destruct (put_cn_ok A C D f (g_id g) (add_stats c u) Hok Hg) as (f' & E & Hok' & ? & ?);
    [apply (fo_cns _ _ _ _ Hok); by eexists|by apply add_stats_wf|].
  exists f'. split; [|done]. unfold group_update, mbind, facade_bind, lift.
  rewrite (fetch_connection_ok A C D f _ c Hok Hc), <- E. by destruct u as [s []].
Qed.

(** A sequence of updates of one connection. *)
Fixpoint group_updates (g : Group) (us : list (ConnectionStats * bool)) : FacadeM unit :=
  match us with
  | [] => mret tt
  | u :: us => group_update g u.1 u.2;; group_updates g us
  end.

(** The statistics of one direction. *)
Definition sum_stats (inc : bool) (us : list (ConnectionStats * bool)) (s : ConnectionStats) :=
  fold_left (fun s u => if Bool.eqb u.2 inc then stats_add_assign s u.1 else s) us s.

Lemma add_stats_sum (us : list (ConnectionStats * bool)) c :
  fold_left add_stats us c
  = mkConnection (info c) (cn_incoming c) (cn_timestamp c) (sum_stats true us (stats_in c))
      (sum_stats false us (stats_out c)) (timestamp_close c) (cn_alias c).
Proof.
  revert c. induction us as [|[s []] us IH]; intros c; [by destruct c|..]; cbn [fold_left];
    rewrite IH; done.
Qed.

Lemma group_updates_ok A (us : list (ConnectionStats * bool)) : forall C D f (g : Group) c,
  facade_ok A C D f -> C !! g_id g = Some c ->
  exists f', group_updates g us f = (f', Ok tt) /\
    facade_ok A (<[g_id g := fold_left add_stats us c]> C) D f'.
Proof.
  induction us as [|u us IH]; intros C D f g c Hok Hc.
  - exists f. split; [done|]. cbn. by rewrite insert_id.
  - destruct (group_update_ok A C D f g c u Hok Hc) as (f1 & E & Hok1 & _).
    destruct (IH _ D f1 g (add_stats c u) Hok1) as (f2 & E2 & Hok2); [by rewrite lookup_insert_eq|].
    exists f2. rewrite insert_insert_eq in Hok2. split; [|done].
    cbn [group_updates]. unfold mbind, facade_bind. by rewrite E.
Qed.

Lemma facade_add_ok A C D f info inc alias time :
  facade_ok A C D f -> cns f + 1 < 2 ^ 64 ->
  well_formed (mkConnection info inc time stats_default stats_default 0 alias) ->
  exists f1, facade_add info inc alias time f = (f1, Ok (mkGroup (addr info) (cns f))) /\
    C !! cns f = None /\
    facade_ok A (<[cns f := mkConnection info inc time stats_default stats_default 0 alias]> C) D f1.
Proof.
  intros Hok Hlt Hw. pose proof (fo_cns _ _ _ _ Hok) as [Hci HC].
  set (f0 := mkFacade (cns f + 1) (f_messages f) (rnd_cnt f) (core f)).
  assert (Hok0 : facade_ok A C D f0).
  { destruct Hok. split; cbn; try done. split; [unfold uint_ok in *; cbn in *; lia|].
    intros i Hi. specialize (HC i Hi). lia. }
  destruct (put_cn_ok A C D f0 (cns f) _ Hok0 Hci ltac:(cbn; lia) Hw) as (f1 & E1 & Hok1 & _).
  destruct (set_total_ok _ _ _ f1 CONNECTIONS_CNT (cns f) Hok1 Hci) as (f2 & E2 & Hok2 & _).
  exists f2. split_and!; [| |done].
  - unfold facade_add, mbind, facade_bind, next_cn.
    rewrite wrap_small by (unfold uint_ok in Hci; cbn in *; lia). fold f0. by rewrite E1, E2.
  - destruct (C !! cns f) eqn:Ec; [|done].
    assert (cns f < cns f) by (apply HC; by eexists). lia.
Qed.

Lemma indexes_empty {P} (CI : Codec (Idx P)) cf (sel : Entry -> list P) r :
  contents r cf = ∅ -> indexes CI cf sel (∅ : Log) r.
Proof.
  intros E k. rewrite E, lookup_empty. split; [by intros []|].
  intros (? & ? & ? & He & _). by rewrite lookup_empty in He.
Qed.

(** A database nothing was written to. *)
Lemma facade_ok_empty r :
  healthy r -> (forall cf, contents r cf = ∅) -> facade_ok ∅ ∅ ∅ (mkFacade 0 0 0 (mkCore ∅ r)).
Proof.
  intros Hh E. split; cbn [core f_messages cns db_inner].
  - split; try (apply indexes_empty, E); [done|by intros ? ?; rewrite lookup_empty| |
      by intros ? ?; rewrite lookup_empty].
    intros k v. rewrite E, lookup_empty. split; [done|].
    intros (? & ? & He & _). by rewrite lookup_empty in He.
  - split; [done|..]; cbn [db_inner cache].
    + intros k. rewrite E, lookup_empty. by intros [].
    + intros cn pos. by rewrite lookup_empty.
  - split; [unfold uint_ok; cbn; lia|]. intros id. rewrite lookup_empty. by intros [].
  - split; [unfold uint_ok; cbn; lia|]. intros id. rewrite lookup_empty. by intros [].
  - intros id e. by rewrite lookup_empty.
  - intros k v. by rewrite E, lookup_empty.
Qed.

End Connections.

(** A recorded message can be read back. On a consistent database,
    [DbStream::add] of a message that can be classified returns the next message
    id, which was not in use; the log is extended by an entry with the
    connection, stream, kind, direction, time, size and types of the message,
    the database stays consistent, and [fetch_full_message_bin] gives, for the
    new id, exactly the bytes of the message, and for every earlier id what it
    gave before. *)
Theorem stream_add_records `{RadiationLaws, !Binprot, !Decoders} {R : Type} `{!Rocks R, !RocksLaws R}
    (A : Log) (C : gmap Z Connection) (D : gmap Z bytes) (f : Facade R) (idx : bool) (g : Group)
    (s_id : StreamId) (did : DirectedId) (kind : StreamKind) (data : bytes)
    (tys : list MessageType) (hashes : list LedgerHash) :
  facade_ok A C D f -> can_add C f idx g s_id did kind data tys hashes ->
  let id := f_messages f in
  exists f' off, stream_add idx g s_id did kind data f = (f', Ok id) /\ A !! id = None /\
    facade_ok (<[id := new_entry g s_id did kind data tys off]> A) C (<[id := data]> D) f' /\
    f_messages f' = id + 1 /\
    fetch_full_message_bin id (core f') = Ret (Ok data) /\
    forall id', is_Some (A !! id') ->
      fetch_full_message_bin id' (core f') = fetch_full_message_bin id' (core f).
Proof.
  intros Hok Hca id. destruct (stream_add_ok A C D f idx g s_id did kind data tys hashes Hok Hca)
    as (f' & off & E & Hok' & Em & _ & _).
  assert (Hlt : forall i, is_Some (A !! i) -> i < id) by apply (fo_messages _ _ _ _ Hok).
  exists f', off. split_and!; [done| |done|done| |].
  - destruct (A !! id) eqn:Ei; [|done]. assert (id < id) by (apply Hlt; by eexists). lia.
  - eapply fetch_bin_ok; [exact Hok'|..]; by rewrite lookup_insert_eq.
  - intros i [e He]. assert (Hi : i < id) by (apply Hlt; by eexists).
    destruct (fo_data _ _ _ _ Hok _ _ He) as (h & p & Hp & _ & _).
    rewrite (fetch_bin_ok A C D f i e p) by done.
    eapply fetch_bin_ok; [exact Hok'|..]; rewrite lookup_insert_ne by (fold id; lia); eauto.
Qed.

(** What a restart does to the ids. The stored counter is the id of the
    last message, not the next one: opening the database again succeeds, but
    numbering continues at the id of the last recorded message, so the first
    message recorded after a restart takes an id that is already in use. *)
Theorem reopen_reuses_id `{RadiationLaws, !Binprot, !Decoders} {R : Type} `{!Rocks R, !RocksLaws R}
    (A : Log) (C : gmap Z Connection) (D : gmap Z bytes) (f : Facade R) (idx : bool) (g : Group)
    (s_id : StreamId) (did : DirectedId) (kind : StreamKind) (data : bytes)
    (tys : list MessageType) (hashes : list LedgerHash) :
  facade_ok A C D f -> can_add C f idx g s_id did kind data tys hashes ->
  exists f' f'', stream_add idx g s_id did kind data f = (f', Ok (f_messages f)) /\
    facade_open (db_inner (core f')) = Ok f'' /\
    f_messages f' = f_messages f + 1 /\ f_messages f'' = f_messages f /\
    exists off, represents (<[f_messages f'' := new_entry g s_id did kind data tys off]> A) C
                  (db_inner (core f'')).
Proof.
  intros Hok Hca. destruct (stream_add_ok A C D f idx g s_id did kind data tys hashes Hok Hca)
    as (f' & off & E & Hok' & Em & _ & Ht).
  pose proof (rep_healthy _ _ _ (fo_rep _ _ _ _ Hok')) as Hh.
  assert (HT : forall k, exists z, total k (mkCore ∅ (db_inner (core f'))) = Ok z /\ _)
    by (intros k; apply (total_ok f' k Hh), (fo_totals _ _ _ _ Hok')).
  destruct (HT CONNECTIONS_CNT) as (c & Ec & _), (HT MESSAGES_CNT) as (m & Emm & Hm),
    (HT RANDOMNESS_CNT) as (n & En & _).
  specialize (Hm _ Ht (proj1 (fo_messages _ _ _ _ Hok))). subst m.
  exists f', (mkFacade c (f_messages f) n (mkCore ∅ (db_inner (core f')))).
  split_and!; [done| |done|done|].
  - unfold facade_open. by rewrite Ec, Emm, En.
  - exists off. apply (fo_rep _ _ _ _ Hok').
Qed.

(** A connection from its opening on. [DbFacade::add] registers it under an
    id that was not in use, and any sequence of [DbGroup::update]s succeeds and
    leaves, for each direction, the sum of the statistics reported for that
    direction; the rest of its record, the other connections and the log are
    untouched. *)
Theorem connection_statistics `{RadiationLaws} {R : Type} `{!Rocks R, !RocksLaws R} (A : Log)
    (C : gmap Z Connection) (D : gmap Z bytes) (f : Facade R) (info : ConnectionInfo) (inc : bool)
    (alias : bytes) (time : Z) (us : list (ConnectionStats * bool)) :
  facade_ok A C D f -> cns f + 1 < 2 ^ 64 ->
  well_formed (mkConnection info inc time stats_default stats_default 0 alias) ->
  let c := mkConnection info inc time (sum_stats true us stats_default)
             (sum_stats false us stats_default) 0 alias in
  exists f1 f2 g, facade_add info inc alias time f = (f1, Ok g) /\
    g = mkGroup (addr info) (cns f) /\ C !! g_id g = None /\
    group_updates g us f1 = (f2, Ok tt) /\
    facade_ok A (<[g_id g := c]> C) D f2 /\ fetch_connection (g_id g) (core f2) = Ok c.
Proof.
  intros Hok Hlt Hw c.
  destruct (facade_add_ok A C D f info inc alias time Hok Hlt Hw) as (f1 & E1 & Hn & Hok1).
  set (g := mkGroup (addr info) (cns f)).
  destruct (group_updates_ok A us _ D f1 g _ Hok1 (lookup_insert_eq _ _ _)) as (f2 & E2 & Hok2).
  rewrite insert_insert_eq, add_stats_sum in Hok2.
  exists f1, f2, g. split_and!; [done..|].
  eapply fetch_connection_ok; [exact Hok2|]. by rewrite lookup_insert_eq.
Qed.

(** * The interface of the connection layers *)

(** What a layer sees: the database, its group, whether ledger hashes are
    indexed, and the clock. *)
Record World (R : Type) : Type := mkWorld {
  w_facade : Facade R;
  w_group : Group;
  w_index : bool;
  w_now : Z;
}.
Arguments mkWorld {R}.
Arguments w_facade {R}.
Arguments w_group {R}.
Arguments w_index {R}.
Arguments w_now {R}.

Section Interface.
Context `{!Radiation, !Binprot, !Decoders} {R : Type} `{!Rocks R}.

Definition set_facade (f : Facade R) (w : World R) : World R :=
  mkWorld f (w_group w) (w_index w) (w_now w).

#[export] Instance group_db : DbGroup (World R) := {|
  db_add_raw status inc time data w :=
    let '(f, r) := group_add_raw (w_group w) status inc time data (w_facade w) in (set_facade f w, r);
  db_update stats inc w :=
    let '(f, r) := group_update (w_group w) stats inc (w_facade w) in (set_facade f w, r);
  db_stream_add sid did kind data w :=
    let '(f, r) := stream_add (w_index w) (w_group w) sid did kind data (w_facade w) in
    (set_facade (group_drop (w_now w) (w_group w) f) w, r);
|}.

End Interface.

(** The connection as [group_drop] leaves it. *)
Definition closed_at (now : Z) (c : Connection) : Connection :=
  mkConnection (info c) (cn_incoming c) (cn_timestamp c) (stats_in c) (stats_out c) now (cn_alias c).

Lemma group_drop_ok `{RadiationLaws} {R : Type} `{!Rocks R, !RocksLaws R} A C D (f : Facade R)
    (g : Group) c now :
  facade_ok A C D f -> C !! g_id g = Some c -> time_ok now ->
  facade_ok A (<[g_id g := closed_at now c]> C) D (group_drop now g f) /\
  f_messages (group_drop now g f) = f_messages f.
Proof.
  intros Hok Hc Hn. destruct (rep_connections _ _ _ (fo_rep _ _ _ _ Hok) _ _ Hc) as (Hg & Hw & _).
  destruct (put_cn_ok A C D f (g_id g) (closed_at now c) Hok Hg) as (f' & E & Hok' & ? & ?).
  { apply (fo_cns _ _ _ _ Hok). by eexists. }
  { destruct Hw as (Hi & Ht & Hsi & Hso & _ & Ha). by split_and!. }
  unfold group_drop. rewrite (fetch_connection_ok A C D f _ c Hok Hc).
  fold (closed_at now c). by rewrite E.
Qed.

(** The database behind the interface of the layers. A layer that stores a
    message through [db.get(stream).add(..)] gets the next message id, and the
    message is recorded as by [DbStream::add]; in addition the connection gets a
    closing time, although it is still open, because the temporary stream holds
    a clone of the group and [Drop] of any clone writes it. *)
Theorem interface_add_records `{RadiationLaws, !Binprot, !Decoders} {R : Type}
    `{!Rocks R, !RocksLaws R} (A : Log) (C : gmap Z Connection) (D : gmap Z bytes) (w : World R)
    (c : Connection) (s_id : StreamId) (did : DirectedId) (kind : StreamKind) (data : bytes)
    (tys : list MessageType) (hashes : list LedgerHash) :
  facade_ok A C D (w_facade w) -> C !! g_id (w_group w) = Some c -> time_ok (w_now w) ->
  can_add C (w_facade w) (w_index w) (w_group w) s_id did kind data tys hashes ->
  let id := f_messages (w_facade w) in
  exists w' off, db_stream_add s_id did kind data w = (w', Ok id) /\
    facade_ok (<[id := new_entry (w_group w) s_id did kind data tys off]> A)
      (<[g_id (w_group w) := closed_at (w_now w) c]> C) (<[id := data]> D) (w_facade w') /\
    fetch_full_message_bin id (core (w_facade w')) = Ret (Ok data) /\
    fetch_connection (g_id (w_group w)) (core (w_facade w')) = Ok (closed_at (w_now w) c).
Proof.
  intros Hok Hc Hn Hca id.
  destruct (stream_add_ok A C D (w_facade w) (w_index w) (w_group w) s_id did kind data tys hashes Hok Hca)
    as (f' & off & E & Hok' & Em & _).
  destruct (group_drop_ok _ C _ f' (w_group w) c (w_now w) Hok' Hc Hn) as [Hok2 Em2].
  exists (set_facade (group_drop (w_now w) (w_group w) f') w), off. cbn [db_stream_add group_db].
  rewrite E. split_and!; [done|done| |].
  - eapply fetch_bin_ok; [exact Hok2|..]; by rewrite lookup_insert_eq.
  - eapply fetch_connection_ok; [exact Hok2|]. by rewrite lookup_insert_eq.
Qed.
