(* ===== verification/DbDemo.v ===== *)
(** A concrete database: the in-memory store of [Rocks.v], concrete codecs, and
    a recorder that stored a connection and a message. The theorems on the
    database apply to it. *)

From stdpp Require Import base list gmap sorting strings.
From Stdlib Require Import ZArith Lia.
From S2P Require Import Prelude Types Handle Coding MinaProtocol SortedIntersect Params Rocks DbCore.
From S2P Require Import DbIndex DbSpec DbBlobs DbSearch Decode Facade.

#[local] Existing Instance demo_radiation.
#[local] Existing Instance demo_radiation_laws.
#[local] Existing Instance demo_binprot.
#[local] Existing Instance demo_decoders.
#[local] Existing Instance mem_rocks.
#[local] Existing Instance mem_laws.

(** A merge that sorts. *)
Fixpoint demo_insert (first : Z -> Z -> bool) (x : Z) (l : list Z) : list Z :=
  match l with
  | [] => [x]
  | y :: l => if first x y then x :: y :: l else y :: demo_insert first x l
  end.

#[local] Instance demo_itertools : Itertools := fun first ls =>
  foldr (demo_insert first) [] (concat ls).

Lemma demo_insert_perm (first : Z -> Z -> bool) (x : Z) (l : list Z) :
  demo_insert first x l ≡ₚ x :: l.
Proof.
  induction l as [|y l IH]; cbn; [done|]. destruct (first x y); [done|].
  rewrite IH. apply Permutation_swap.
Qed.

#[local] Instance demo_itertools_laws : ItertoolsLaws.
Proof.
  intros forward first ls Hf _. unfold kmerge_by, demo_itertools.
  induction (concat ls) as [|x l [IHs IHp]]; cbn; [split; constructor|].
  split; [|by rewrite demo_insert_perm, IHp].
  clear IHp. induction IHs as [|y l' HS IH HF]; cbn; [repeat constructor|].
  destruct (first x y) eqn:E.
  - assert (le_dir forward x y).
    { destruct (Z.eq_dec x y) as [->|Hne]; [unfold le_dir; destruct forward; lia|].
      apply Hf in E; [|done]. unfold lt_dir, le_dir in *. destruct forward; lia. }
    constructor; [by constructor|]. constructor; [done|]. eapply Forall_impl; [exact HF|].
    unfold le_dir in *. cbn. destruct forward; lia.
  - constructor; [done|]. rewrite demo_insert_perm. constructor; [|done].
    destruct (Z.eq_dec x y) as [->|Hne]; [unfold le_dir; destruct forward; lia|].
    assert (~ lt_dir forward x y) by (intros H%Hf; [congruence|done]).
    unfold lt_dir, le_dir in *. destruct forward; lia.
Qed.

#[local] Instance demo_json : Json bytes := fun s => s.

(** * A recorder with one connection *)

Definition demo_store : MemStore := fun _ => ∅.
Definition demo_empty : Facade MemStore := mkFacade 0 0 0 (mkCore ∅ demo_store).

Lemma demo_empty_ok : facade_ok ∅ ∅ ∅ demo_empty.
Proof. by apply facade_ok_empty. Qed.

Definition demo_info : ConnectionInfo := mkConnectionInfo (mkSocketAddr (V4 [10; 0; 0; 1]) 8302) 7 9.
Definition demo_conn : Connection :=
  mkConnection demo_info true (5 * 10 ^ 9) stats_default stats_default 0 (str "node").
Definition demo_group : Group := mkGroup (addr demo_info) 0.

Lemma demo_conn_wf : well_formed demo_conn.
Proof. vm_compute. intuition (congruence || (repeat constructor; congruence)). Qed.

Definition demo_facade : Facade MemStore :=
  (facade_add demo_info true (str "node") (5 * 10 ^ 9) demo_empty).1.

Lemma demo_facade_ok : facade_ok ∅ {[0 := demo_conn]} ∅ demo_facade.
Proof.
  destruct (facade_add_ok ∅ ∅ ∅ demo_empty demo_info true (str "node") (5 * 10 ^ 9) demo_empty_ok)
    as (f1 & E & _ & Hok); [done|exact demo_conn_wf|].
  unfold demo_facade. rewrite E. exact Hok.
Qed.

Definition demo_did : DirectedId := mkDirectedId default_metadata (str "node") true 0.

Lemma demo_can_add : can_add {[0 := demo_conn]} demo_facade false demo_group (Forward 2) demo_did KSelect
  [1; 2; 3] [Select] [].
Proof.
  split; [by exists demo_conn|exact (proj1 (proj1 demo_conn_wf))|vm_compute; intuition congruence
         |vm_compute; intuition congruence|done|done| |done].
  split; [done|]. intros off _ [v Hv]. vm_compute in Hv. done.
Qed.

Lemma stream_add_records_witness :
  exists f', stream_add false demo_group (Forward 2) demo_did KSelect [1; 2; 3] demo_facade = (f', Ok 0) /\
    fetch_full_message_bin 0 (core f') = Ret (Ok [1; 2; 3]).
Proof.
  destruct (stream_add_records ∅ {[0 := demo_conn]} ∅ demo_facade false demo_group (Forward 2) demo_did
    KSelect [1; 2; 3] [Select] [] demo_facade_ok demo_can_add) as (f' & off & E & _ & _ & _ & Hf & _).
  exists f'. split; [exact E|exact Hf].
Defined.

Lemma reopen_reuses_id_witness :
  exists f' f'', stream_add false demo_group (Forward 2) demo_did KSelect [1; 2; 3] demo_facade = (f', Ok 0) /\
    facade_open (db_inner (core f')) = Ok f'' /\ f_messages f'' = 0.
Proof.
  destruct (reopen_reuses_id ∅ {[0 := demo_conn]} ∅ demo_facade false demo_group (Forward 2) demo_did
    KSelect [1; 2; 3] [Select] [] demo_facade_ok demo_can_add) as (f' & f'' & E & Ho & _ & Em & _).
  exists f', f''. split; [exact E|]. split; [exact Ho|exact Em].
Defined.

Lemma interface_add_records_witness :
  exists w', db_stream_add (Forward 2) demo_did KSelect [1; 2; 3]
               (mkWorld demo_facade demo_group false (9 * 10 ^ 9)) = (w', Ok 0) /\
    fetch_connection 0 (core (w_facade w')) = Ok (closed_at (9 * 10 ^ 9) demo_conn).
Proof.
  destruct (interface_add_records ∅ {[0 := demo_conn]} ∅
    (mkWorld demo_facade demo_group false (9 * 10 ^ 9)) demo_conn (Forward 2) demo_did KSelect [1; 2; 3]
    [Select] [] demo_facade_ok eq_refl ltac:(vm_compute; intuition congruence) demo_can_add)
    as (w' & off & E & _ & _ & Hc).
  exists w'. split; [exact E|exact Hc].
Defined.

Lemma connection_statistics_witness :
  exists f1 f2, facade_add demo_info true (str "node") (5 * 10 ^ 9) demo_empty = (f1, Ok demo_group) /\
    group_updates demo_group [(mkStats 5 4 1 1, true); (mkStats 7 0 0 0, false); (mkStats 1 0 0 0, true)] f1
    = (f2, Ok tt) /\
    fetch_connection 0 (core f2)
    = Ok (mkConnection demo_info true (5 * 10 ^ 9) (mkStats 6 4 1 1) (mkStats 7 0 0 0) 0 (str "node")).
Proof.
  destruct (connection_statistics ∅ ∅ ∅ demo_empty demo_info true (str "node") (5 * 10 ^ 9)
    [(mkStats 5 4 1 1, true); (mkStats 7 0 0 0, false); (mkStats 1 0 0 0, true)] demo_empty_ok eq_refl
    demo_conn_wf) as (f1 & f2 & g & E & Hg & _ & E2 & _ & Hf).
  subst g. exists f1, f2. split; [exact E|]. split; [exact E2|exact Hf].
Defined.

Lemma put_blob_fresh_witness :
  exists db' off, put_blob 0 (repeat 0 18 ++ [7; 8]) (mkCore ∅ (db_inner (core demo_facade))) = (db', Ok off) /\
    fetch_blob 0 off db' = Ret (Ok [7; 8]).
Proof.
  destruct (put_blob_fresh (core demo_facade) 0 (repeat 0 18) [7; 8] true (fo_blobs _ _ _ _ demo_facade_ok)
    ltac:(vm_compute; intuition congruence) eq_refl) as (db' & off & E & _ & _ & Hf & _).
  { split; [done|]. intros off _ [v Hv]. vm_compute in Hv. done. }
  exists db', off. split; [exact E|exact Hf].
Defined.

(** * A stored message *)

Definition demo_entry : Entry :=
  mkEntry (addr demo_info) (mkMessage 0 (Forward 2) KSelect true (6 * 10 ^ 9) 0 3 (str "select")) [Select].

Lemma demo_entry_ok : entry_ok {[0 := demo_conn]} 4 demo_entry.
Proof.
  split; [vm_compute; intuition congruence|exact (proj1 (proj1 demo_conn_wf))
         |vm_compute; intuition congruence|by exists demo_conn].
Qed.

Definition demo_db : DbCore MemStore :=
  (put_message (addr demo_info) 4 (e_msg demo_entry) [Select] [] (core demo_facade)).1.

Lemma demo_db_represents : represents {[4 := demo_entry]} {[0 := demo_conn]} (db_inner demo_db).
Proof.
  destruct (represents_put_message ∅ {[0 := demo_conn]} (core demo_facade) 4 demo_entry []
    (fo_rep _ _ _ _ demo_facade_ok) eq_refl demo_entry_ok) as (r' & E & HR & _).
  unfold demo_db. change (put_message (addr demo_info) 4 (e_msg demo_entry) [Select] [])
    with (put_message (e_addr demo_entry) 4 (e_msg demo_entry) (e_tys demo_entry) []).
  rewrite E. exact HR.
Qed.

Lemma put_message_refines_witness :
  exists r', put_message (addr demo_info) 4 (e_msg demo_entry) [Select] [] (core demo_facade)
             = (mkCore (cache (core demo_facade)) r', Ok tt) /\
    represents {[4 := demo_entry]} {[0 := demo_conn]} r'.
Proof.
  destruct (put_message_refines ∅ {[0 := demo_conn]} (core demo_facade) 4 demo_entry []
    (fo_rep _ _ _ _ demo_facade_ok) eq_refl demo_entry_ok) as (r' & E & HR & _).
  exists r'. split; [exact E|exact HR].
Defined.

Definition demo_query : ValidParams :=
  mkValidParams (mkCoordinate (ById 0 false) 16 None DForward) (Some (AnyStreamInConnection 0))
    (Some (ByMessage [Select; Mplex])).

Lemma fetch_messages_refines_witness :
  exists ids, fetch_messages demo_query demo_db
      = Ret (limit_results (coordinate demo_query) fm_timestamp
               (omap (show {[4 := demo_entry]} {[0 := demo_conn]}) ids)) /\
    4 ∈ ids /\ NoDup ids.
Proof.
  destruct (fetch_messages_refines {[4 := demo_entry]} {[0 := demo_conn]} demo_db demo_query
    demo_db_represents ltac:(vm_compute; intuition congruence) ltac:(vm_compute; intuition congruence))
    as (ids & E & _ & HM & HN).
  exists ids. split; [exact E|]. split; [|apply HN; right; by eexists].
  apply HM. split; [|vm_compute; congruence]. exists demo_entry. split; [reflexivity|].
  split; [reflexivity|]. exists Select. split; apply list_elem_of_here.
Defined.

(** The query evaluated: the entry is found. *)
Example demo_fetch :
  fetch_messages demo_query demo_db
  = Ret [(4, entry_details (J := bytes) demo_entry demo_conn)].
Proof. vm_compute. reflexivity. Qed.

(** * Search by time *)

Definition demo_timed (i : Z) : Message :=
  mkMessage 0 SHandshake KSelect true (10 * i * 10 ^ 9) 0 0 [].

Definition demo_times : DbCore MemStore :=
  mkCore ∅ (fun cf => match cf with
                      | MESSAGES => list_to_map ((fun i => (be_encode 8 i, emit (demo_timed i))) <$> [1; 2; 3])
                      | _ => ∅
                      end).

Lemma search_timestamp_spec_witness :
  exists p, search_timestamp m_timestamp MESSAGES 4 25 demo_times = Ok p /\ 1 <= p <= 3.
Proof.
  destruct (search_timestamp_spec m_timestamp MESSAGES demo_times 4 demo_timed 25 2 eq_refl eq_refl)
    as (p & E & Hp & _).
  { intros i Hi. assert (i = 1 \/ i = 2 \/ i = 3) as [->|[->| ->]] by lia; vm_compute; reflexivity. }
  exists p. split; [exact E|]. exact Hp.
Defined.

(** With six records after the first, the last two cannot be reached. *)
Example search_misses : reach 3 = 1 /\ 7 / 2 + reach 3 = 4.
Proof. split; reflexivity. Qed.
