(* ===== verification/Text.v ===== *)
(** Parsing of text by the standard library: [str::split] on a character and on a
    string, [str::parse] to [u32] and to [IpAddr]. The recorder uses them on the
    alias of a process ([recorder.rs]) and on test messages ([stats.rs],
    [libp2p_helper/mod.rs]). *)

From stdpp Require Import base list strings.
From Stdlib Require Import ZArith Lia.
From S2P Require Import Prelude Types.

(** [s.split(c)]: at least one piece. *)
Fixpoint split_on (c : Z) (s : bytes) : list bytes :=
  match s with
  | [] => [[]]
  | b :: s =>
      if b =? c then [] :: split_on c s
      else match split_on c s with
           | w :: ws => (b :: w) :: ws
           | [] => [[b]]
           end
  end.

(** [s.split(p)] for a string [p] that is not empty; [skip] characters belong to
    the occurrence found last. *)
Fixpoint split_str_from (p s : bytes) (skip : nat) : list bytes :=
  match s with
  | [] => [[]]
  | b :: s' =>
      match skip with
      | S skip => split_str_from p s' skip
      | O =>
          if starts_with p s then [] :: split_str_from p s' (length p - 1)
          else match split_str_from p s' 0 with
               | w :: ws => (b :: w) :: ws
               | [] => [[b]]
               end
      end
  end.

Definition split_str (p s : bytes) : list bytes := split_str_from p s 0.

(** * Numbers *)

Definition digit (radix c : Z) : option Z :=
  match from_hex_digit c with
  | Some d => if d <? radix then Some d else None
  | None => None
  end.

(** The digits at the start of the text: their value, how many there are, and
    the rest; at most [max] of them are allowed. *)
Fixpoint read_digits (radix : Z) (s : bytes) (acc : Z) (n : nat) : Z * nat * bytes :=
  match s with
  | [] => (acc, n, [])
  | c :: s' =>
      match digit radix c with
      | Some d => read_digits radix s' (acc * radix + d) (S n)
      | None => (acc, n, s)
      end
  end.

(** [read_number(radix, Some(max), allow_zero_prefix)] of a type with values
    below [bound]. *)
Definition read_number (radix : Z) (max : nat) (zero_prefix : bool) (bound : Z) (s : bytes)
    : option (Z * bytes) :=
  let '(v, n, rest) := read_digits radix s 0 0 in
  let leading_zero := match s with 48 :: _ => true | _ => false end in
  if (n =? 0)%nat then None
  else if (max <? n)%nat then None
  else if negb zero_prefix && leading_zero && (1 <? n)%nat then None
  else if v <? bound then Some (v, rest) else None.

Definition read_char (c : Z) (s : bytes) : option bytes :=
  match s with b :: s => if b =? c then Some s else None | [] => None end.

Definition strip_plus (s : bytes) : bytes := match s with 43 :: s => s | _ => s end.

(** [s.parse()] to an unsigned integer below [bound]: an optional plus sign and
    decimal digits. *)
Definition parse_unsigned (bound : Z) (s : bytes) : option Z :=
  let '(v, n, rest) := read_digits 10 (strip_plus s) 0 0 in
  match rest with
  | [] => if (n =? 0)%nat then None else if v <? bound then Some v else None
  | _ => None
  end.

Definition parse_u32 : bytes -> option Z := parse_unsigned (2 ^ 32).
Definition parse_u64 : bytes -> option Z := parse_unsigned (2 ^ 64).

Lemma read_digits_nonneg (radix : Z) (s : bytes) : forall acc n,
  0 <= radix -> 0 <= acc -> 0 <= (read_digits radix s acc n).1.1.
Proof.
  induction s as [|c s IH]; intros acc n Hr Ha; cbn; [done|]. unfold digit.
  destruct (from_hex_digit c) as [d|] eqn:E; [|done]. destruct (d <? radix); [|done]. apply IH; [done|].
  unfold from_hex_digit in E. split_matches_in E; simplify_eq; to_prop; destruct_and?; nia.
Qed.

Lemma parse_unsigned_bound (bound : Z) (s : bytes) (v : Z) : parse_unsigned bound s = Some v -> 0 <= v < bound.
Proof.
  unfold parse_unsigned. set (s' := strip_plus s).
  pose proof (read_digits_nonneg 10 s' 0 0 ltac:(lia) ltac:(lia)) as Hn.
  destruct (read_digits 10 s' 0 0) as [[x n] [|]]; [|done]. destruct (n =? 0)%nat; [done|].
  destruct (Z.ltb_spec x bound); [|done]. intros [= <-]. done.
Qed.

(** [message.split("slot: ").nth(1)?.parse().ok()]: the height in a test
    message. *)
Definition parse_block_height (s : bytes) : option Z :=
  split_str (str "slot: ") s !! 1%nat ≫= parse_u32.

Example parse_block_height_examples :
  parse_block_height (str "slot: 17") = Some 17 /\ parse_block_height (str "a slot: 42slot: 7") = Some 42 /\
  parse_block_height (str "a slot: 42") = Some 42 /\ parse_block_height (str "slot 17") = None /\
  split_str (str "ab") (str "xababy") = [str "x"; []; str "y"].
Proof. vm_compute. done. Qed.

(** * Addresses *)

Definition read_octet (s : bytes) : option (Z * bytes) := read_number 10 3 false 256 s.

Definition read_ipv4 (s : bytes) : option (bytes * bytes) :=
  '(a, s) ← read_octet s;
  s ← read_char 46 s; '(b, s) ← read_octet s;
  s ← read_char 46 s; '(c, s) ← read_octet s;
  s ← read_char 46 s; '(d, s) ← read_octet s;
  Some ([a; b; c; d], s).

(** [read_groups]: up to [limit] groups of two bytes, the last two of which may
    be an IPv4 address; [i] of them were read already. *)
Fixpoint read_groups (limit : nat) (first : bool) (s : bytes) : list Z * bool * bytes :=
  match limit with
  | O => ([], false, s)
  | S limit' =>
      let after := if first then Some s else read_char 58 s in
      let v4 := if (0 <? limit')%nat then after ≫= read_ipv4 else None in
      match v4 with
      | Some ([a; b; c; d], s) => ([a * 256 + b; c * 256 + d], true, s)
      | _ =>
          match after ≫= read_number 16 4 true 65536 with
          | Some (g, s) =>
              let '(gs, v4, s) := read_groups limit' false s in (g :: gs, v4, s)
          | None => ([], false, s)
          end
      end
  end.

Definition groups_bytes (gs : list Z) : bytes := gs ≫= be_encode 2.

Definition read_ipv6 (s : bytes) : option (bytes * bytes) :=
  let '(head, head_v4, s) := read_groups 8 true s in
  if (length head =? 8)%nat then Some (groups_bytes head, s)
  else if head_v4 : bool then None
  else
    s ← read_char 58 s;
    s ← read_char 58 s;
    let '(tail, _, s) := read_groups (7 - length head) true s in
    Some (groups_bytes (head ++ repeat 0 (8 - length head - length tail) ++ tail), s).

(** [s.parse::<IpAddr>()] *)
Definition parse_ip (s : bytes) : option IpAddr :=
  let all (f : bytes -> IpAddr) (r : option (bytes * bytes)) :=
    match r with Some (a, []) => Some (f a) | _ => None end in
  match read_ipv4 s with
  | Some (a, rest) => match rest with [] => Some (V4 a) | _ => None end
  | None => all V6 (read_ipv6 s)
  end.

Example parse_ip_examples :
  parse_ip (str "10.0.0.2") = Some (V4 [10; 0; 0; 2]) /\ parse_ip (str "10.0.0.256") = None /\
  parse_ip (str "010.0.0.1") = None /\ parse_ip (str "1.2.3") = None /\
  parse_ip (str "::1") = Some (V6 (repeat 0 15 ++ [1])) /\
  parse_ip (str "::ffff:10.0.0.1") = Some (V6 (repeat 0 10 ++ [255; 255; 10; 0; 0; 1])) /\
  parse_ip (str "2001:db8::7:8") = Some (V6 ([32; 1; 13; 184] ++ repeat 0 8 ++ [0; 7; 0; 8])) /\
  parse_ip (str "1:2:3:4:5:6:7:8") = Some (V6 [0; 1; 0; 2; 0; 3; 0; 4; 0; 5; 0; 6; 0; 7; 0; 8]) /\
  parse_ip (str "1:2:3:4:5:6:7:8:9") = None.
Proof. vm_compute. done. Qed.

(** * Printing *)

(** [Display] of an unsigned number, and [{:x}]: at least one digit, no leading
    zeros; [fuel] bounds the number of digits. *)
Fixpoint show_radix (fuel : nat) (radix n : Z) : bytes :=
  match fuel with
  | O => []
  | S fuel =>
      (if n <? radix then [] else show_radix fuel radix (n / radix)) ++ [hex_digit (n mod radix)]
  end.

Definition show_u8 (n : Z) : bytes := show_radix 3 10 n.
Definition show_u16 (n : Z) : bytes := show_radix 5 10 n.
Definition show_x16 (n : Z) : bytes := show_radix 4 16 n.

Definition show_u32 (n : Z) : bytes := show_radix 10 10 n.

Fixpoint join_with (sep : bytes) (l : list bytes) : bytes :=
  match l with
  | [] => []
  | [w] => w
  | w :: l => w ++ sep ++ join_with sep l
  end.

Definition show_ipv4 (o : bytes) : bytes := join_with [46] (List.map show_u8 o).

Fixpoint segments (o : bytes) : list Z :=
  match o with
  | a :: b :: o => a * 256 + b :: segments o
  | _ => []
  end.

(** The first longest run of zeros: where it starts and how long it is. *)
Fixpoint zero_span (i : nat) (cur longest : nat * nat) (s : list Z) : nat * nat :=
  match s with
  | [] => longest
  | x :: s =>
      if x =? 0 then
        let cur := if (cur.2 =? 0)%nat then (i, 1%nat) else (cur.1, S cur.2) in
        zero_span (S i) cur (if (longest.2 <? cur.2)%nat then cur else longest) s
      else zero_span (S i) (0%nat, 0%nat) longest s
  end.

Definition show_ipv6 (o : bytes) : bytes :=
  if decide (take 12 o = repeat 0 10 ++ [255; 255]) then str "::ffff:" ++ show_ipv4 (drop 12 o)
  else
    let s := segments o in
    let chunk l := join_with [58] (List.map show_x16 l) in
    let '(start, len) := zero_span 0 (0%nat, 0%nat) (0%nat, 0%nat) s in
    if (1 <? len)%nat then chunk (take start s) ++ [58; 58] ++ chunk (drop (start + len) s) else chunk s.

Definition show_ip (a : IpAddr) : bytes := match a with V4 o => show_ipv4 o | V6 o => show_ipv6 o end.

(** [SocketAddr::to_string] *)
Definition show_addr (a : SocketAddr) : bytes :=
  match ip a with
  | V4 o => show_ipv4 o ++ [58] ++ show_u16 (port a)
  | V6 o => [91] ++ show_ipv6 o ++ [93; 58] ++ show_u16 (port a)
  end.

Example show_addr_examples :
  show_addr (mkSocketAddr (V4 [10; 0; 0; 255]) 8302) = str "10.0.0.255:8302" /\
  show_addr (mkSocketAddr (V6 (repeat 0 15 ++ [1])) 0) = str "[::1]:0" /\
  show_ip (V6 (repeat 0 16)) = str "::" /\
  show_ip (V6 (repeat 0 10 ++ [255; 255; 10; 0; 0; 1])) = str "::ffff:10.0.0.1" /\
  show_ip (V6 ([32; 1; 13; 184] ++ repeat 0 8 ++ [0; 7; 0; 8])) = str "2001:db8::7:8" /\
  show_ip (V6 [0; 0; 0; 0; 0; 1; 0; 0; 0; 0; 0; 0; 0; 2; 0; 0]) = str "0:0:1::2:0" /\
  show_ip (V6 [0; 1; 0; 0; 0; 3; 0; 4; 0; 5; 0; 6; 0; 7; 0; 8]) = str "1:0:3:4:5:6:7:8".
Proof. vm_compute. done. Qed.

(** A printed number is read back, whatever follows it. *)
Lemma hex_digit_read (d : Z) : 0 <= d < 10 -> digit 10 (hex_digit d) = Some d.
Proof.
  intros Hd. unfold digit, hex_digit. rewrite (proj2 (Z.ltb_lt d 10)) by lia. unfold from_hex_digit.
  rewrite (proj2 (Z.leb_le 48 (48 + d))), (proj2 (Z.leb_le (48 + d) 57)) by lia. cbn.
  replace (48 + d - 48) with d by lia. by rewrite (proj2 (Z.ltb_lt d 10)) by lia.
Qed.

Lemma read_show_digits (fuel : nat) : forall (n : Z) (k : nat) (s : bytes),
  (0 < fuel)%nat -> 0 <= n < 10 ^ Z.of_nat fuel ->
  read_digits 10 (show_radix fuel 10 n ++ s) 0 k = read_digits 10 s n (k + length (show_radix fuel 10 n)).
Proof.
  induction fuel as [|fuel IH]; intros n k s Hf Hn; [lia|]. cbn [show_radix].
  pose proof (Z.div_mod n 10 ltac:(lia)) as Hdm. pose proof (Z.mod_pos_bound n 10 ltac:(lia)) as Hm.
  rewrite Nat2Z.inj_succ, Z.pow_succ_r in Hn by lia.
  assert (read_digits 10 ([hex_digit (n mod 10)] ++ s) (n / 10) (k + length (if n <? 10 then [] else show_radix fuel 10 (n / 10)))
          = read_digits 10 s n (k + length ((if n <? 10 then [] else show_radix fuel 10 (n / 10)) ++ [hex_digit (n mod 10)]))) as Hlast.
  { cbn [read_digits app]. rewrite hex_digit_read by done. rewrite length_app. cbn [length].
    f_equal; lia. }
  rewrite <- app_assoc. destruct (Z.ltb_spec n 10) as [Hl|Hge].
  - cbn [app length] in *. rewrite <- Hlast. f_equal; [|lia]. rewrite Z.div_small; lia.
  - rewrite IH; [exact Hlast| |].
    + destruct fuel; [|lia]. cbn in Hn. lia.
    + split; [apply Z.div_pos; lia|]. apply Z.div_lt_upper_bound; lia.
Qed.

Lemma show_radix_length (fuel : nat) (radix n : Z) : (0 < fuel)%nat -> (0 < length (show_radix fuel radix n))%nat.
Proof. destruct fuel; [lia|]. intros _. cbn. rewrite length_app. cbn. lia. Qed.

Lemma parse_show_u32 (n : Z) : 0 <= n < 2 ^ 32 -> parse_u32 (show_u32 n) = Some n.
Proof.
  intros Hn. unfold parse_u32, parse_unsigned, show_u32.
  pose proof (read_show_digits 10 n 0 [] ltac:(lia) ltac:(lia)) as Hr. rewrite app_nil_r in Hr. cbn [read_digits] in Hr.
  pose proof (show_radix_length 10 10 n ltac:(lia)) as Hl.
  assert (Hplus : strip_plus (show_radix 10 10 n) = show_radix 10 10 n).
  { destruct (show_radix 10 10 n) as [|c s] eqn:E; [done|].
    assert (digit 10 c <> None) as Hd.
    { intros Hd. cbn [read_digits] in Hr. rewrite Hd in Hr. injection Hr as ? Hr. cbn in Hr. lia. }
    destruct (decide (c = 43)) as [->|Hne]; [by destruct Hd|].
    destruct c as [|p|p]; try done. do 6 (destruct p as [p|p|]; try done). }
  rewrite Hplus, Hr. rewrite (proj2 (Nat.eqb_neq _ _)) by lia. by rewrite (proj2 (Z.ltb_lt _ _)) by lia.
Qed.
