(* ===== verification/RingBuffer.v ===== *)
(** The reader of the kernel's ring buffer ([bpf-ring-buffer/src/lib.rs]).

    The kernel appends records to a memory region that is mapped twice in a row
    and publishes how far it has written; the reader walks over the records and
    publishes how far the kernel may overwrite. [Shared] is the memory as one
    read sees it. The kernel's side is given by its documented contract: the log
    of records it ever reserved, what the memory holds of it ([holds]) and how it
    grows ([log_le], [room]). The system of both sides is the step relation
    [ring_step]. *)

From stdpp Require Import base list relations.
From Stdlib Require Import ZArith Lia.
From S2P Require Import Prelude.

(** * The reader *)

(** [trait RingBufferData]; [Panic] stands also for the end of the process. *)
Class RingBufferData (D : Type) : Type :=
  from_rb_slice : bytes -> outcome (result (option D) unit).

Inductive Error : Type := Overflown | WouldBlock.

(** [observer.producer_pos] and [observer.data], written by the kernel. *)
Record Shared : Type := mkShared { producer_pos : Z; rb_data : bytes }.

(** [RingBuffer] with [observer.consumer_pos], which only the reader writes. *)
Record RingBuffer : Type := mkRingBuffer {
  mask : Z;
  consumer_pos_value : Z;
  consumer_pos : Z;
  previous_distance : Z;
}.

(** [RingBuffer::new] *)
Definition rb_new (max_length : Z) : RingBuffer := mkRingBuffer (max_length - 1) 0 0 0.

Definition HEADER_SIZE : Z := 8.
Definition BUSY_BIT : Z := 2 ^ 31.
Definition DISCARD_BIT : Z := 2 ^ 30.

Definition set_distance (d : Z) (rb : RingBuffer) : RingBuffer :=
  mkRingBuffer (mask rb) (consumer_pos_value rb) (consumer_pos rb) d.
Definition set_consumer (p : Z) (rb : RingBuffer) : RingBuffer :=
  mkRingBuffer (mask rb) p (consumer_pos rb) (previous_distance rb).

(** [self.observer.data[i].load()]: the [i]-th word of eight bytes. *)
Definition load_word (i : Z) (data : bytes) : outcome Z :=
  w ← slice (8 * i) (8 * i + 8) data; Ret (le_decode w).

(** [read_slice]. Making a slice that ends outside of the mapping is undefined
    behaviour and shown as [Panic]. *)
Definition read_slice {D} `{!RingBufferData D} (sh : Shared) (rb : RingBuffer)
    : outcome (RingBuffer * result (option D * Z) Error) :=
  let pr_pos := producer_pos sh in
  if consumer_pos_value rb <? pr_pos then
    let distance := pr_pos - consumer_pos_value rb in
    if mask rb + 1 <? distance then Ret (rb, Err Overflown)
    else
      let rb := set_distance distance rb in
      let masked_pos := Z.land (consumer_pos_value rb) (mask rb) in
      word ← load_word (masked_pos / 8) (rb_data sh);
      let header := Z.land word 4294967295 in
      let data_offset := masked_pos + HEADER_SIZE in
      if negb (Z.land header BUSY_BIT =? 0) then Ret (rb, Err WouldBlock)
      else
        let length := Z.land header (Z.lnot DISCARD_BIT) in
        let discard := negb (Z.land header DISCARD_BIT =? 0) in
        let rb := set_consumer
          (wrap 64 (consumer_pos_value rb + (HEADER_SIZE + (length + 7) / 8 * 8))) rb in
        let distance := wrap 64 (pr_pos - consumer_pos_value rb) in
        if negb discard then
          s ← slice data_offset (data_offset + length) (rb_data sh);
          v ← from_rb_slice s;
          match v with
          | Err _ => Ret (rb, Ok (None, distance))
          | Ok None => Ret (rb, Ok (None, distance))
          | Ok (Some value) => Ret (rb, Ok (Some value, distance))
          end
        else Ret (rb, Ok (None, distance))
  else Ret (rb, Err WouldBlock).

Definition read_finish (rb : RingBuffer) : RingBuffer :=
  mkRingBuffer (mask rb) (consumer_pos_value rb) (consumer_pos_value rb) (previous_distance rb).

Definition read_value {D} `{!RingBufferData D} (sh : Shared) (rb : RingBuffer)
    : outcome (RingBuffer * result (option D * Z) Error) :=
  '(rb, r) ← read_slice sh rb;
  match r with
  | Err e => Ret (rb, Err e)
  | Ok (v, remaining) =>
      let rb := match v with Some _ => read_finish rb | None => rb end in
      Ret (rb, Ok (v, remaining))
  end.

Inductive IoError : Type := Terminate | Overflow.

(** [read_blocking]: one attempt for each element of [env], the memory the
    attempt finds and whether termination was asked for by the time the wait
    after it ends. *)
Fixpoint read_blocking {D} `{!RingBufferData D} (env : list (Shared * bool)) (rb : RingBuffer)
    : outcome (RingBuffer * result (option D * Z) IoError) :=
  match env with
  | [] => OutOfFuel
  | (sh, terminating) :: env =>
      '(rb, r) ← read_value sh rb;
      match r with
      | Err WouldBlock => if terminating : bool then Ret (rb, Err Terminate) else read_blocking env rb
      | Err Overflown => Ret (rb, Err Overflow)
      | Ok value => Ret (rb, Ok value)
      end
  end.

(** * The kernel's side *)

Inductive RecState : Type :=
| Busy
| Discarded
| Committed (payload : bytes).

#[export] Instance RecState_eq_dec : EqDecision RecState.
Proof. solve_decision. Defined.

Record Rec : Type := mkRec { r_len : Z; r_state : RecState }.

(** A header of eight bytes and the payload, padded to a multiple of eight. *)
Definition rec_size (r : Rec) : Z := 8 + (r_len r + 7) / 8 * 8.

Definition log_pos (log : list Rec) : Z := foldr (fun r n => rec_size r + n) 0 log.

Definition rec_header (r : Rec) : Z :=
  Z.lor (r_len r) (match r_state r with Busy => 2 ^ 31 | Discarded => 2 ^ 30 | Committed _ => 0 end).

Definition wf_rec (r : Rec) : Prop :=
  0 <= r_len r < 2 ^ 30 /\
  match r_state r with Committed p => blen p = r_len r | _ => True end.

(** The bytes of a record at an offset of the memory: the low half of the header
    word and, once it is committed, the payload. *)
Definition rec_at (data : bytes) (off : Z) (r : Rec) : Prop :=
  take 4 (drop (Z.to_nat off) data) = le_encode 4 (rec_header r) /\
  match r_state r with
  | Committed p => take (length p) (drop (Z.to_nat (off + 8)) data) = p
  | _ => True
  end.

(** What the kernel promises of the memory when it has reserved the records
    [log] and the first [p] of them are released. *)
Record holds (size : Z) (p : nat) (log : list Rec) (sh : Shared) : Prop := {
  holds_pos : producer_pos sh = log_pos log;
  holds_len : blen (rb_data sh) = 2 * size;
  holds_rec : forall i r, (p <= i)%nat -> log !! i = Some r ->
                rec_at (rb_data sh) (log_pos (take i log) mod size) r;
}.

(** How the log grows: records are appended, and a busy one is committed or
    discarded with the length it was reserved with. *)
Definition rec_le (r r' : Rec) : Prop :=
  r_len r = r_len r' /\ (r_state r = Busy \/ r_state r = r_state r').

Definition log_le (log log' : list Rec) : Prop :=
  Forall2 rec_le log (take (length log) log') /\ (length log <= length log')%nat.

(** The kernel reserves only what fits behind the position the reader published;
    positions are 64-bit counters. *)
Record room (size : Z) (log : list Rec) (rb : RingBuffer) : Prop := {
  room_wf : Forall wf_rec log;
  room_fits : log_pos log - consumer_pos rb <= size;
  room_bound : log_pos log < 2 ^ 64;
}.

(** * Positions *)

Lemma log_pos_app (l1 l2 : list Rec) : log_pos (l1 ++ l2) = log_pos l1 + log_pos l2.
Proof. induction l1 as [|r l IH]; [done|]. cbn. unfold log_pos in *. lia. Qed.

Lemma rec_size_ge (r : Rec) : 0 <= r_len r -> 8 + r_len r <= rec_size r.
Proof. unfold rec_size. intros. pose proof (Z.div_mod (r_len r + 7) 8).
  pose proof (Z.mod_pos_bound (r_len r + 7) 8). lia. Qed.

Lemma log_pos_nonneg (l : list Rec) : Forall wf_rec l -> 0 <= log_pos l.
Proof.
  induction 1 as [|r l [[Hr _] _] _ IH]; [done|]. cbn. unfold log_pos in IH.
  pose proof (rec_size_ge r Hr). lia.
Qed.

Lemma log_pos_aligned (l : list Rec) : log_pos l mod 8 = 0.
Proof.
  induction l as [|r l IH]; [done|]. cbn. unfold log_pos in IH. unfold rec_size.
  rewrite <- Z.add_assoc, (Z.add_comm (_ * 8)), Z.add_assoc, Z.mod_add by lia.
  rewrite Z.add_comm. rewrite <- (Z.mul_1_l 8) at 1. by rewrite Z.mod_add by lia.
Qed.

Lemma log_pos_S (log : list Rec) (k : nat) (r : Rec) :
  log !! k = Some r -> log_pos (take (S k) log) = log_pos (take k log) + rec_size r.
Proof. intros H. rewrite (take_S_r _ _ _ H), log_pos_app. cbn. lia. Qed.

Lemma log_pos_split (log : list Rec) (k : nat) :
  log_pos log = log_pos (take k log) + log_pos (drop k log).
Proof. by rewrite <- log_pos_app, take_drop. Qed.

Lemma log_pos_take_le (log : list Rec) (k : nat) :
  Forall wf_rec log -> 0 <= log_pos (take k log) <= log_pos log.
Proof.
  intros Hw. rewrite (log_pos_split log k).
  pose proof (log_pos_nonneg _ (Forall_take _ k _ Hw)).
  pose proof (log_pos_nonneg _ (Forall_drop _ k _ Hw)). lia.
Qed.

Lemma log_le_pos (log log' : list Rec) (k : nat) :
  log_le log log' -> (k <= length log)%nat -> log_pos (take k log') = log_pos (take k log).
Proof.
  intros [H Hl] Hk. apply (Forall2_take _ _ _ k) in H. rewrite take_take, Nat.min_l in H by done.
  induction H as [|r r' l l' [E _] _ IH]; [done|]. cbn. unfold log_pos, rec_size in *. by rewrite E, IH.
Qed.

(** * Header words *)

Lemma land_below (x k : Z) : 0 <= k -> 0 <= x < 2 ^ k -> Z.land x (2 ^ k) = 0.
Proof.
  intros Hk Hx. apply Z.bits_inj'. intros i Hi. rewrite Z.land_spec, Z.bits_0.
  destruct (Z.eq_dec i k) as [->|Hne].
  - assert (Z.testbit x k = false) as -> by (apply Z.testbit_false; [done|by rewrite Z.div_small]).
    done.
  - rewrite Z.pow2_bits_false by done. apply andb_false_r.
Qed.

Lemma ldiff_below (x k : Z) : 0 <= k -> 0 <= x < 2 ^ k -> Z.land x (Z.lnot (2 ^ k)) = x.
Proof.
  intros Hk Hx. rewrite <- Z.ldiff_land. rewrite <- (Z.lor_ldiff_and x (2 ^ k)) at 2.
  by rewrite (land_below x k), Z.lor_0_r.
Qed.

Lemma rec_header_bound (r : Rec) : wf_rec r -> 0 <= rec_header r < 2 ^ 32.
Proof.
  intros [H _]. unfold rec_header.
  assert (forall k, 30 <= k <= 31 -> 0 <= Z.lor (r_len r) (2 ^ k) < 2 ^ 32).
  { intros k Hk. assert (r_len r < 2 ^ k) by (assert (2 ^ 30 <= 2 ^ k) by (apply Z.pow_le_mono_r; lia); lia).
    assert (2 ^ k <= 2 ^ 31) by (apply Z.pow_le_mono_r; lia).
    assert (Z.lor (r_len r) (2 ^ k) = r_len r + 2 ^ k) as ->.
    { pose proof (Z.add_lor_land (r_len r) (2 ^ k)). rewrite land_below in *; lia. }
    pose proof (Z.pow_nonneg 2 k). lia. }
  destruct (r_state r); [apply (H0 31); lia|apply (H0 30); lia|].
  rewrite Z.lor_0_r. lia.
Qed.

(** What the reader makes of the header of a record. *)
Lemma header_bits (r : Rec) :
  wf_rec r ->
  (Z.land (rec_header r) BUSY_BIT =? 0) = negb (bool_decide (r_state r = Busy)) /\
  (r_state r <> Busy ->
    Z.land (rec_header r) (Z.lnot DISCARD_BIT) = r_len r /\
    (Z.land (rec_header r) DISCARD_BIT =? 0) = negb (bool_decide (r_state r = Discarded))).
Proof.
  intros [H _]. unfold rec_header, BUSY_BIT, DISCARD_BIT.
  assert (r_len r < 2 ^ 31) by lia.
  destruct (r_state r); rewrite ?Z.lor_0_r, ?Z.land_lor_distr_l, ?(land_below (r_len r)),
    ?(ldiff_below (r_len r)) by lia; (split; [done|]); try done; intros _; split; try done.
  apply Z.lor_0_r.
Qed.

(** The low half of a loaded word. *)
Lemma be_decode_app (l1 l2 : bytes) :
  be_decode (l1 ++ l2) = be_decode l1 * 256 ^ blen l2 + be_decode l2.
Proof.
  induction l2 as [|b l2 IH] using rev_ind; [rewrite app_nil_r, blen_nil; change (be_decode []) with 0; lia|].
  rewrite app_assoc, !be_decode_snoc, IH. unfold blen. rewrite length_app, Nat.add_comm. cbn [length plus].
  rewrite Nat2Z.inj_succ, Z.pow_succ_r by lia. lia.
Qed.

Lemma low_word (w : bytes) (h : Z) :
  take 4 w = le_encode 4 h -> 0 <= h < 2 ^ 32 -> Z.land (le_decode w) 4294967295 = h.
Proof.
  intros Ht Hh. change 4294967295 with (Z.ones 32). rewrite Z.land_ones by lia.
  rewrite <- (take_drop 4 w), Ht. unfold le_decode, le_encode. rewrite rev_app_distr, rev_involutive.
  rewrite be_decode_app, blen_be_encode, be_decode_encode by (cbn; lia).
  change (256 ^ Z.of_nat 4) with (2 ^ 32). rewrite Z.add_comm, Z.mod_add by lia. by apply Z.mod_small.
Qed.

Lemma load_word_at (data : bytes) (off size : Z) (r : Rec) :
  rec_at data off r -> wf_rec r -> off mod 8 = 0 -> 0 <= off -> off + 8 <= blen data ->
  exists w, load_word (off / 8) data = Ret w /\ Z.land w 4294967295 = rec_header r.
Proof.
  intros [Ht _] Hw Ha H0 Hb. pose proof (Z.div_mod off 8 ltac:(lia)) as Hd.
  unfold load_word. replace (8 * (off / 8)) with off by lia.
  rewrite slice_within by lia. cbn [mbind outcome_bind]. eexists. split; [done|].
  apply low_word; [|by apply rec_header_bound].
  rewrite take_take, Nat.min_l by lia. exact Ht.
Qed.

Lemma mod_aligned (n x : Z) : 3 <= n -> x mod 8 = 0 -> (x mod 2 ^ n) mod 8 = 0.
Proof.
  intros Hn Hx. replace (2 ^ n) with (8 * 2 ^ (n - 3)).
  - rewrite Z.rem_mul_r by lia. rewrite Hx, Z.add_0_l, Z.mul_comm. by apply Z.mod_mul.
  - change 8 with (2 ^ 3). rewrite <- Z.pow_add_r by lia. f_equal. lia.
Qed.

(** * One read *)

Section read.
Context {D : Type} `{!RingBufferData D}.
Context (n : Z) (Hn : 3 <= n <= 62).

(** The reader stands before record [k] of the log; [p] records are released. *)
Record reader_at (p k : nat) (log : list Rec) (rb : RingBuffer) : Prop := {
  at_mask : mask rb = 2 ^ n - 1;
  at_value : consumer_pos_value rb = log_pos (take k log);
  at_pos : consumer_pos rb = log_pos (take p log);
  at_order : (p <= k <= length log)%nat;
}.

(** What is read at record [r] of a log. *)
Definition value_of (r : Rec) : outcome (option D) :=
  match r_state r with
  | Committed s => v ← from_rb_slice s; Ret (match v with Ok x => x | Err _ => None end)
  | _ => Ret None
  end.

(** The reader once it has passed [k] records. *)
Definition passed (k : nat) (log : list Rec) (rb : RingBuffer) : RingBuffer :=
  set_consumer (log_pos (take k log)) rb.

Definition seen (k : nat) (log : list Rec) (rb : RingBuffer) : RingBuffer :=
  set_distance (log_pos log - log_pos (take k log)) rb.

Definition read_result (k : nat) (log : list Rec) (rb : RingBuffer)
    : outcome (RingBuffer * result (option D * Z) Error) :=
  match log !! k with
  | None => Ret (rb, Err WouldBlock)
  | Some r =>
      if bool_decide (r_state r = Busy) then Ret (seen k log rb, Err WouldBlock)
      else
        v ← value_of r;
        Ret (passed (S k) log (seen k log rb), Ok (v, log_pos log - log_pos (take (S k) log)))
  end.

Lemma reader_room (p k : nat) (log : list Rec) (rb : RingBuffer) (r : Rec) :
  room (2 ^ n) log rb -> reader_at p k log rb -> log !! k = Some r ->
  wf_rec r /\ log_pos (take k log) + rec_size r <= log_pos log /\
  0 < log_pos log - log_pos (take k log) <= 2 ^ n.
Proof.
  intros [Hw Hf _] [_ _ Hp Ho] Hk. pose proof (Forall_lookup_1 _ _ _ _ Hw Hk) as Hr.
  assert (log_pos (take p log) <= log_pos (take k log)).
  { rewrite <- (Nat.min_l p k), <- take_take by lia. apply log_pos_take_le. by apply Forall_take. }
  pose proof (log_pos_take_le log (S k) Hw). rewrite (log_pos_S _ _ _ Hk) in *.
  pose proof (rec_size_ge r (proj1 (proj1 Hr))). destruct Hr as [Hr Hs].
  split; [done|]. lia.
Qed.

Lemma read_slice_spec (p k : nat) (log : list Rec) (rb : RingBuffer) (sh : Shared) :
  room (2 ^ n) log rb -> reader_at p k log rb -> holds (2 ^ n) p log sh ->
  read_slice sh rb = read_result k log rb.
Proof.
  intros Hroom Hat Hh. pose proof Hroom as [Hw _ Hb]. pose proof Hat as [Hm Hv _ Ho].
  unfold read_slice, read_result. rewrite (holds_pos _ _ _ _ Hh), Hv.
  destruct (log !! k) as [r|] eqn:Hk; cycle 1.
  { apply lookup_ge_None_1 in Hk. rewrite take_ge by done. by rewrite Z.ltb_irrefl. }
  destruct (reader_room p k log rb r Hroom Hat Hk) as (Hr & Hs & Hd).
  pose proof (proj1 Hr) as Hrl. pose proof (rec_size_ge r (proj1 Hrl)) as Hsz.
  pose proof (log_pos_take_le log k Hw) as Hnn.
  assert ((log_pos (take k log) <? log_pos log) = true) as -> by lia.
  assert ((mask rb + 1 <? log_pos log - log_pos (take k log)) = false) as -> by lia.
  set (pos := log_pos (take k log)) in *. cbn [set_distance consumer_pos_value mask].
  rewrite Hv. rewrite Hm. replace (2 ^ n - 1) with (Z.ones n) by (rewrite Z.ones_equiv; lia).
  rewrite Z.land_ones by lia.
  pose proof (Z.mod_pos_bound pos (2 ^ n) ltac:(lia)) as Hmod.
  pose proof (holds_rec _ _ _ _ Hh k r ltac:(lia) Hk) as Hat'. fold pos in Hat'.
  pose proof (holds_len _ _ _ _ Hh) as Hlen.
  destruct (load_word_at (rb_data sh) (pos mod 2 ^ n) (2 ^ n) r Hat' Hr) as (w & -> & Hwd);
    [apply mod_aligned; [lia|apply log_pos_aligned]|lia|lia|].
  cbn [mbind outcome_bind]. rewrite Hwd. destruct (header_bits r Hr) as [-> Hh2].
  rewrite negb_involutive. unfold seen. fold pos.
  destruct (bool_decide_reflect (r_state r = Busy)) as [|Hnb]; [done|].
  destruct (Hh2 Hnb) as [-> ->]. rewrite negb_involutive.
  cbn [set_consumer set_distance consumer_pos_value mask consumer_pos previous_distance].
  change (HEADER_SIZE + (r_len r + 7) / 8 * 8) with (rec_size r).
  rewrite !wrap_small by lia. unfold value_of, passed. rewrite (log_pos_S _ _ _ Hk). fold pos.
  destruct Hat' as [_ Hpay]. destruct Hr as [Hr Hpl].
  destruct (r_state r) as [| |s] eqn:E; [done|done|]. cbn [bool_decide negb].
  unfold HEADER_SIZE in *. rewrite slice_within by lia. cbn [mbind outcome_bind].
  replace (pos mod 2 ^ n + 8 + r_len r - (pos mod 2 ^ n + 8)) with (r_len r) by lia.
  unfold blen in Hpl. rewrite <- Hpl, Nat2Z.id, Hpay.
  destruct (from_rb_slice s) as [[[v|]|]| |]; done.
Qed.

(** A read and the release of the space behind it. *)
Lemma read_value_at (p k : nat) (log : list Rec) (rb : RingBuffer) (sh : Shared) :
  room (2 ^ n) log rb -> reader_at p k log rb -> holds (2 ^ n) p log sh ->
  match log !! k with
  | None => read_value sh rb = Ret (rb, Err WouldBlock)
  | Some r =>
      if bool_decide (r_state r = Busy) then
        exists rb', read_value sh rb = Ret (rb', Err WouldBlock) /\ reader_at p k log rb'
      else match value_of r with
      | Ret v => exists rb', read_value sh rb = Ret (rb', Ok (v, log_pos (drop (S k) log))) /\
                             reader_at (match v with Some _ => S k | None => p end) (S k) log rb'
      | Panic => read_value sh rb = Panic
      | OutOfFuel => read_value sh rb = OutOfFuel
      end
  end.
Proof.
  intros Hroom Hat Hh. unfold read_value. rewrite (read_slice_spec p k log rb sh Hroom Hat Hh).
  unfold read_result. destruct (log !! k) as [r|] eqn:Hk; [|done].
  destruct Hat as [Hm Hv Hp Ho]. case_bool_decide.
  - eexists. split; [done|]. by constructor.
  - destruct (value_of r) as [v| |]; [|done|done]. eexists. split.
    + cbn. by rewrite (log_pos_split log (S k)), Z.add_simpl_l.
    + apply lookup_lt_Some in Hk. by destruct v; constructor; try done; cbn; lia.
Qed.

(** * The system of the kernel and the reader *)

Definition values (l : list Rec) : list D :=
  omap (fun r => match value_of r with Ret v => v | _ => None end) l.

(** The number of records up to the last one that gave a value. *)
Definition published (l : list Rec) : nat :=
  (foldl (fun '(p, i) r => match value_of r with Ret (Some _) => (S i, S i) | _ => (p, S i) end)
         (0%nat, 0%nat) l).1.

(** The log of the kernel, the reader and the values it has given out. *)
Inductive ring_step : list Rec * RingBuffer * list D -> list Rec * RingBuffer * list D -> Prop :=
| kernel_step log log' rb out :
    log_le log log' -> room (2 ^ n) log' rb -> ring_step (log, rb, out) (log', rb, out)
| read_step log rb rb' out sh p r :
    consumer_pos rb = log_pos (take p log) -> (p <= length log)%nat -> holds (2 ^ n) p log sh ->
    read_value sh rb = Ret (rb', r) ->
    ring_step (log, rb, out)
              (log, rb', out ++ match r with Ok (Some v, _) => [v] | _ => [] end).

Definition not_busy (r : Rec) : Prop := r_state r <> Busy.

Lemma published_snoc (l : list Rec) (r : Rec) :
  published (l ++ [r])
  = match value_of r with Ret (Some _) => S (length l) | _ => published l end.
Proof.
  unfold published. rewrite foldl_app. cbn.
  assert (forall i, (foldl (fun '(p, i) r => match value_of r with
                                       | Ret (Some _) => (S i, S i) | _ => (p, S i) end)
                     i l).2 = (i.2 + length l)%nat) as E.
  { induction l as [|x l IH]; intros [p i]; cbn; [lia|]. rewrite IH. by repeat case_match; cbn; lia. }
  specialize (E (0%nat, 0%nat)). destruct (foldl _ _ l) as [q j]. cbn in *. subst j. by repeat case_match.
Qed.

Lemma published_le (l : list Rec) : (published l <= length l)%nat.
Proof.
  induction l as [|r l IH] using rev_ind; [done|]. rewrite published_snoc, length_app. cbn.
  repeat case_match; lia.
Qed.

Lemma log_pos_lt (log : list Rec) (p q : nat) :
  Forall wf_rec log -> (p < q <= length log)%nat -> log_pos (take p log) < log_pos (take q log).
Proof.
  intros Hw Hpq. destruct (lookup_lt_is_Some_2 log p ltac:(lia)) as [r Hr].
  pose proof (Forall_lookup_1 _ _ _ _ Hw Hr) as [[H0 _] _]. pose proof (rec_size_ge r H0).
  pose proof (log_pos_take_le (take q log) (S p) (Forall_take _ q _ Hw)) as Hle.
  rewrite take_take, Nat.min_l in Hle by lia. rewrite (log_pos_S _ _ _ Hr) in Hle. lia.
Qed.

Lemma log_pos_inj (log : list Rec) (p q : nat) :
  Forall wf_rec log -> (p <= length log)%nat -> (q <= length log)%nat ->
  log_pos (take p log) = log_pos (take q log) -> p = q.
Proof.
  intros Hw Hp Hq E. destruct (Nat.lt_trichotomy p q) as [H|[H|H]]; [|done|].
  - pose proof (log_pos_lt log p q Hw (conj H Hq)). lia.
  - pose proof (log_pos_lt log q p Hw (conj H Hp)). lia.
Qed.

(** Records that are not busy stay as they are. *)
Lemma log_le_take (log log' : list Rec) (k : nat) :
  log_le log log' -> (k <= length log)%nat -> Forall not_busy (take k log) -> take k log' = take k log.
Proof.
  intros [H Hl] Hk Hb. apply (Forall2_take _ _ _ k) in H. rewrite take_take, Nat.min_l in H by done.
  induction H as [|r r' l l' [E Hs] _ IH]; [done|]. apply Forall_cons_1 in Hb as [Hr Hb].
  rewrite (IH Hb). f_equal. destruct r, r'. unfold not_busy in Hr. cbn in *. destruct Hs; [done|congruence].
Qed.

(** The invariant: [k] records are behind the reader, all finished, their values
    were given out, and the space up to the last value is released. *)
Definition ring_inv (s : list Rec * RingBuffer * list D) : Prop :=
  let '(log, rb, out) := s in
  room (2 ^ n) log rb /\
  exists k, reader_at (published (take k log)) k log rb /\ Forall not_busy (take k log) /\
            out = values (take k log).

Lemma room_move (log : list Rec) (rb rb' : RingBuffer) (p k p' k' : nat) :
  room (2 ^ n) log rb -> reader_at p k log rb -> reader_at p' k' log rb' -> (p <= p')%nat ->
  room (2 ^ n) log rb'.
Proof.
  intros [Hw Hf Hb] [_ _ Hp Ho] [_ _ Hp' Ho'] Hle. split; [done| |done].
  rewrite Hp in Hf. rewrite Hp'. destruct (decide (p = p')) as [<-|Hne]; [done|].
  pose proof (log_pos_lt log p p' Hw ltac:(lia)). lia.
Qed.

Lemma ring_inv_init : ring_inv ([], rb_new (2 ^ n), []).
Proof.
  split; [|exists 0%nat; by repeat split]. split; [done| |done].
  cbn. apply Z.pow_nonneg. lia.
Qed.

Lemma ring_inv_step s s' : ring_step s s' -> ring_inv s -> ring_inv s'.
Proof.
  intros [log log' rb out Hle Hroom|log rb rb' out sh p r Hp Hpl Hh Hrd] [Hroom0 (k & Hat & Hb & Ho)].
  - split; [done|]. exists k. destruct Hat as [Hm Hv Hpos Hord]. pose proof (proj2 Hle).
    rewrite (log_le_take log log' k) by (done || lia).
    split; [|done]. split; [done| | |lia].
    + by rewrite Hv, (log_le_pos log log') by (done || lia).
    + rewrite Hpos. by rewrite (log_le_pos log log') by (done || lia).
  - assert (p = published (take k log)) as ->.
    { apply (log_pos_inj log); [apply Hroom0|done|destruct Hat; lia|].
      rewrite <- Hp. apply Hat. }
    pose proof (read_value_at _ k log rb sh Hroom0 Hat Hh) as R.
    destruct (log !! k) as [x|] eqn:Hk.
    + case_bool_decide; [|destruct (value_of x) as [v| |] eqn:Hv; [|congruence|congruence]];
        destruct R as (rb1 & R & Hat1); rewrite R in Hrd; simplify_eq.
      * rewrite app_nil_r. split; [by eapply room_move|by exists k].
      * split; [eapply room_move; [done|done|done|]|].
        { destruct v; [|done]. pose proof (published_le (take k log)) as Hpl'.
          rewrite length_take in Hpl'. lia. }
        exists (S k). rewrite (take_S_r _ _ _ Hk), published_snoc, Hv.
        rewrite length_take, Nat.min_l by (destruct Hat; lia).
        split; [by destruct v|]. split; [apply Forall_app; by repeat constructor|].
        unfold values. rewrite omap_app. cbn. rewrite Hv. by destruct v.
    + rewrite R in Hrd. simplify_eq. rewrite app_nil_r. split; [done|by exists k].
Qed.

Lemma ring_inv_reachable s s' : rtc ring_step s s' -> ring_inv s -> ring_inv s'.
Proof. intros H. exact (rtc_preserves _ _ _ _ ring_inv_step H). Qed.

(** The reader of a blocked read only differs in its distance. *)
Lemma reader_same (p k : nat) (log log' : list Rec) (rb rb' : RingBuffer) :
  reader_at p k log rb -> reader_at p k log rb' ->
  room (2 ^ n) log' rb /\ reader_at p k log' rb -> room (2 ^ n) log' rb' /\ reader_at p k log' rb'.
Proof.
  intros [Hm1 Hv1 Hp1 _] [Hm2 Hv2 Hp2 _] [[Hw Hf Hb] [Hm Hv Hp Ho]].
  split; split; try done; congruence.
Qed.

(** The memory [sh] of a log in which record [k] is not there or not finished. *)
Definition blocked (p k : nat) (rb : RingBuffer) (ls : list Rec * Shared) : Prop :=
  room (2 ^ n) ls.1 rb /\ reader_at p k ls.1 rb /\ holds (2 ^ n) p ls.1 ls.2 /\
  match ls.1 !! k with Some r => r_state r = Busy | None => True end.

(** A blocking read waits for the next record, however often it finds the
    kernel not done with it, and returns what the record holds as soon as it is
    committed (nothing, if it was discarded or cannot be parsed) with the number of
    bytes behind it; the reader then stands at the following record, and the space
    is given back to the kernel exactly when the record gave a value. *)
Theorem ring_read_blocking (p k : nat) (pre : list (list Rec * Shared)) (log : list Rec)
    (sh : Shared) (term : bool) (rb : RingBuffer) (r : Rec) (v : option D) :
  Forall (blocked p k rb) pre ->
  room (2 ^ n) log rb -> reader_at p k log rb -> holds (2 ^ n) p log sh ->
  log !! k = Some r -> r_state r <> Busy -> value_of r = Ret v ->
  exists rb', read_blocking (((fun ls => (ls.2, false)) <$> pre) ++ [(sh, term)]) rb
      = Ret (rb', Ok (v, log_pos (drop (S k) log))) /\
    reader_at (match v with Some _ => S k | None => p end) (S k) log rb'.
Proof.
  intros Hpre Hroom Hat Hh Hk Hb Hv. revert rb Hpre Hroom Hat.
  induction pre as [|[l s] pre IH]; intros rb Hpre Hroom Hat.
  - pose proof (read_value_at p k log rb sh Hroom Hat Hh) as R.
    rewrite Hk, bool_decide_eq_false_2, Hv in R by done. destruct R as (rb' & R & Hat').
    exists rb'. cbn. by rewrite R.
  - apply Forall_cons_1 in Hpre as [(Hr1 & Hat1 & Hh1 & Hb1) Hpre]. cbn [fst snd] in *.
    assert (exists rb1, read_value (D := D) s rb = Ret (rb1, Err WouldBlock) /\ reader_at p k l rb1)
      as (rb1 & R & Hat2).
    { pose proof (read_value_at p k l rb s Hr1 Hat1 Hh1) as R. destruct (l !! k) as [x|].
      - rewrite bool_decide_eq_true_2 in R by done. done.
      - by exists rb. }
    cbn [fmap list_fmap app read_blocking snd]. rewrite R. cbn [mbind outcome_bind].
    destruct (reader_same p k l log rb rb1 Hat1 Hat2 (conj Hroom Hat)). apply IH; [|done|done].
    eapply Forall_impl; [exact Hpre|]. intros [l' s'] (A & B & C & E).
    by destruct (reader_same p k l l' rb rb1 Hat1 Hat2 (conj A B)) as [A' B'].
Qed.

(** C31: however the kernel and the reader interleave, the values given out are
    those of the first records of the kernel's log, in the order of reservation,
    each once: the values of the [k] records behind the reader, which are all
    finished; and the position published to the kernel is that of the last record
    that gave a value, so that no unread record is ever overwritten. *)
Theorem ring_fifo (log : list Rec) (rb : RingBuffer) (out : list D) :
  rtc ring_step ([], rb_new (2 ^ n), []) (log, rb, out) ->
  exists k, (k <= length log)%nat /\ out = values (take k log) /\ Forall not_busy (take k log) /\
    consumer_pos_value rb = log_pos (take k log) /\
    consumer_pos rb = log_pos (take (published (take k log)) log) /\
    consumer_pos rb <= consumer_pos_value rb /\ log_pos log - consumer_pos rb <= 2 ^ n.
Proof.
  intros H. destruct (ring_inv_reachable _ _ H ring_inv_init) as [Hroom (k & Hat & Hb & Ho)].
  exists k. destruct Hat as [_ Hv Hp Hord]. split; [lia|]. do 4 (split; [done|]). split; [|apply Hroom].
  rewrite Hv, Hp, <- (Nat.min_l (published (take k log)) k), <- take_take by lia.
  apply log_pos_take_le, Forall_take, Hroom.
Qed.

(** C32: records that give no value are not released on their own. Once the
    buffer is filled by records that were discarded or cannot be parsed, before
    any value was given out, the kernel finds no room for another record and the
    reader never gives out a value. *)
Theorem ring_discards_stall (log : list Rec) (rb : RingBuffer) (out : list D)
    (log' : list Rec) (rb' : RingBuffer) (out' : list D) :
  rtc ring_step ([], rb_new (2 ^ n), []) (log, rb, out) ->
  log_pos log = 2 ^ n -> Forall (fun r => not_busy r /\ value_of r = Ret None) log ->
  rtc ring_step (log, rb, out) (log', rb', out') -> log' = log /\ out' = [].
Proof.
  intros Hreach Hfull Hnone. apply (fun H => ring_inv_reachable _ _ H ring_inv_init) in Hreach.
  assert (forall k, published (take k log) = 0%nat /\ values (take k log) = []) as Hpub.
  { intros k. pose proof (Forall_take _ k _ Hnone) as Hn'. revert Hn'. generalize (take k log) as l.
    induction l as [|r l IH] using rev_ind; [done|]. intros [Hl Hr]%Forall_app.
    apply Forall_cons_1 in Hr as [[_ Hr] _]. destruct (IH Hl) as [IHp IHv].
    unfold values in *. rewrite published_snoc, omap_app, IHv. cbn. by rewrite Hr. }
  remember (log, rb, out) as s eqn:Es. remember (log', rb', out') as s' eqn:Es'. intros Hrun.
  revert rb out Es Hreach. induction Hrun as [s|s1 s2 s3 Hst Hrun IH]; intros rb out -> Hinv.
  - simplify_eq. destruct Hinv as [_ (k & _ & _ & ->)]. split; [done|]. apply Hpub.
  - destruct s2 as [[log2 rb2] out2].
    assert (log2 = log) as ->; [|by eapply IH; [done|done|eapply ring_inv_step]].
    pose proof (ring_inv_step _ _ Hst Hinv) as [Hroom2 _].
    inversion Hst as [? ? ? ? Hle Hroom|]; simplify_eq; [|done].
    destruct Hinv as [Hroom1 (k & [_ _ Hp _] & _)]. rewrite (proj1 (Hpub k)) in Hp. cbn in Hp.
    pose proof (log_le_take log log2 (length log) Hle ltac:(done)) as Et.
    rewrite (take_ge log) in Et by done. specialize (Et ltac:(eapply Forall_impl; [exact Hnone|by intros ? []])).
    destruct (decide (length log < length log2)%nat) as [Hlt|Hge];
      [|by rewrite take_ge in Et by (destruct Hle; lia)].
    assert (length log < length log2 <= length log2)%nat as Hlt2 by (split; [exact Hlt|done]).
    pose proof (log_pos_lt log2 _ _ (room_wf _ _ _ Hroom2) Hlt2) as Hpos.
    rewrite Et, (take_ge log2), Hfull in Hpos by done. destruct Hroom as [_ Hf _].
    rewrite take_0 in Hp. cbn in Hp. exfalso. lia.
Qed.

End read.

(** * A small buffer *)

(** Records whose payload is the value; an empty one gives none. *)
#[export] Instance demo_data : RingBufferData bytes :=
  fun s => Ret (Ok (match s with [] => None | _ => Some s end)).

(** A buffer of 64 bytes with a record of three bytes at its beginning, and one
    filled by four discarded records of eight bytes. *)
Definition demo_rec : Rec := mkRec 3 (Committed [7; 8; 9]).
Definition demo_memory : bytes := le_encode 4 3 ++ [0; 0; 0; 0; 7; 8; 9] ++ repeat 0 117.
Definition demo_shared : Shared := mkShared 16 demo_memory.

Lemma demo_holds : holds (2 ^ 6) 0 [demo_rec] demo_shared.
Proof. split; [done|done|]. intros [|i] r _ Hi; [|done]. cbn in Hi. by simplify_eq. Qed.

Lemma demo_room (log : list Rec) :
  Forall wf_rec log -> log_pos log <= 64 -> room (2 ^ 6) log (rb_new (2 ^ 6)).
Proof. intros. split; [done|cbn; lia|lia]. Qed.

Lemma demo_wf : Forall wf_rec [demo_rec].
Proof. repeat constructor; cbn; lia. Qed.

Lemma ring_read_blocking_witness :
  exists rb', read_blocking [(mkShared 0 (repeat 0 128), false); (demo_shared, false)] (rb_new (2 ^ 6))
    = Ret (rb', Ok (Some [7; 8; 9], 0)) /\ consumer_pos rb' = 16.
Proof.
  destruct (ring_read_blocking 6 ltac:(lia) 0 0 [([], mkShared 0 (repeat 0 128))] [demo_rec]
    demo_shared false (rb_new (2 ^ 6)) demo_rec (Some [7; 8; 9])) as (rb' & E & H).
  - apply Forall_cons_2; [|apply Forall_nil_2].
    split; [apply demo_room; [apply Forall_nil_2|done]|]. split; [split; [done|done|done|cbn; lia]|].
    split; [|done]. split; [done|done|]. intros [|i] r _ Hi; discriminate Hi.
  - apply demo_room; [apply demo_wf|done].
  - split; [done|done|done|cbn; lia].
  - apply demo_holds.
  - done.
  - done.
  - done.
  - exists rb'. split; [exact E|apply H].
Defined.

(** The kernel commits the record and the reader reads it. *)
Lemma ring_fifo_witness :
  exists k rb, (k <= 1)%nat /\ values (D := bytes) (take k [demo_rec]) = [[7; 8; 9]] /\
    rtc (ring_step (D := bytes) 6) ([], rb_new (2 ^ 6), []) ([demo_rec], rb, [[7; 8; 9]]).
Proof.
  assert (rtc (ring_step (D := bytes) 6) ([], rb_new (2 ^ 6), [])
    ([demo_rec], mkRingBuffer 63 16 16 16, [[7; 8; 9]])) as R.
  { eapply rtc_l; [apply (kernel_step 6 [] [demo_rec])|].
    - split; [constructor|cbn; lia].
    - apply demo_room; [apply demo_wf|done].
    - apply rtc_once.
      exact (read_step 6 [demo_rec] (rb_new (2 ^ 6)) _ [] demo_shared 0 (Ok (Some [7; 8; 9], 0))
               eq_refl ltac:(cbn; lia) demo_holds eq_refl). }
  destruct (ring_fifo 6 ltac:(lia) _ _ _ R) as (k & Hk & E & _).
  exists k. eexists. split; [exact Hk|]. split; [exact (eq_sym E)|exact R].
Defined.

Definition demo_discards : list Rec := repeat (mkRec 8 Discarded) 4.
Definition demo_full : Shared :=
  mkShared 64 (concat (repeat (le_encode 8 (2 ^ 30 + 8) ++ repeat 0 8) 8)).

Lemma demo_discards_wf : Forall wf_rec demo_discards.
Proof. repeat constructor; cbn; lia. Qed.

(** The first discarded record is read: it gives no value and no room. *)
Lemma ring_discards_stall_witness :
  exists log rb out, read_value demo_full (rb_new (2 ^ 6)) = Ret (rb, Ok (None : option bytes, 48)) /\
    rtc (ring_step (D := bytes) 6) (demo_discards, rb_new (2 ^ 6), []) (log, rb, out) /\
    log = demo_discards /\ out = [].
Proof.
  assert (rtc (ring_step (D := bytes) 6) (demo_discards, rb_new (2 ^ 6), [])
                        (demo_discards, mkRingBuffer 63 16 0 64, [])) as R.
  { apply rtc_once.
    refine (read_step 6 demo_discards (rb_new (2 ^ 6)) _ [] demo_full 0 (Ok (None, 48))
              eq_refl ltac:(cbn; lia) _ eq_refl).
    split; [done|done|]. intros [|[|[|[|i]]]] r _ Hi; cbn in Hi; by simplify_eq. }
  do 3 eexists. split; [reflexivity|]. split; [exact R|].
  eapply (ring_discards_stall 6 ltac:(lia) demo_discards (rb_new (2 ^ 6)) [] demo_discards _ []).
  - apply rtc_once. apply (kernel_step 6 [] demo_discards); [split; [constructor|cbn; lia]|].
    apply demo_room; [apply demo_discards_wf|done].
  - done.
  - repeat constructor; done.
  - exact R.
Defined.
