(* ===== verification/BpfEvent.v ===== *)
(** The records of the eBPF recorder: how the probes in the kernel write them
    ([bpf-recorder/src/send.rs]) and how the recorder reads them
    ([bpf-recorder/src/lib.rs], [sniffer_event]). The bytes of [Event] are those of
    a [repr(C)] struct on a little-endian machine. *)

From stdpp Require Import base list strings.
From Stdlib Require Import ZArith Lia.
From S2P Require Import Prelude Types RingBuffer.

(** * Events *)

Inductive DataTag : Type :=
| Debug | Close | Connect | Bind | Listen | Accept | Write | Read | Alias | Random
| GetSockOpt | SnarkWorker.

#[export] Instance DataTag_eq_dec : EqDecision DataTag.
Proof. solve_decision. Defined.

Definition DataTag_values : list DataTag :=
  [Debug; Close; Connect; Bind; Listen; Accept; Write; Read; Alias; Random; GetSockOpt; SnarkWorker].

(** [v as u32] *)
Definition tag_to_u32 (t : DataTag) : Z :=
  match t with
  | Debug => 0 | Close => 1 | Connect => 2 | Bind => 3 | Listen => 4 | Accept => 5
  | Write => 6 | Read => 7 | Alias => 8 | Random => 9 | GetSockOpt => 10 | SnarkWorker => 11
  end.

Definition from_u32 (c : Z) : option DataTag :=
  snd <$> list_find (fun v => tag_to_u32 v = c) DataTag_values.

Record Event : Type := mkEvent {
  ev_fd : Z;
  ev_pid : Z;
  ev_tid : Z;
  ev_ts0 : Z;
  ev_ts1 : Z;
  ev_tag : DataTag;
  ev_size : Z;
}.

Definition event_new (pid tid ts0 ts1 : Z) : Event := mkEvent 0 pid tid ts0 ts1 Debug 0.
Definition set_tag_fd (tag : DataTag) (fd : Z) (e : Event) : Event :=
  mkEvent fd (ev_pid e) (ev_tid e) (ev_ts0 e) (ev_ts1 e) tag (ev_size e).
Definition set_size (s : Z) (e : Event) : Event :=
  mkEvent (ev_fd e) (ev_pid e) (ev_tid e) (ev_ts0 e) (ev_ts1 e) (ev_tag e) s.
(** [size as i32] of a [u64] and [code as i32] of an [i64]. *)
Definition set_ok (size : Z) (e : Event) : Event := set_size (to_signed 32 (wrap 32 size)) e.
Definition set_err (code : Z) (e : Event) : Event := set_size (to_signed 32 (wrap 32 code)) e.

(** [mem::size_of::<Event>()] and the bytes of an event: three [u32], four bytes
    of padding, two [u64], the tag and the size. *)
Definition EVENT_SIZE : Z := 40.

Definition event_bytes (pad : bytes) (e : Event) : bytes :=
  le_encode 4 (ev_fd e) ++ le_encode 4 (ev_pid e) ++ le_encode 4 (ev_tid e) ++ pad ++
  le_encode 8 (ev_ts0 e) ++ le_encode 8 (ev_ts1 e) ++ le_encode 4 (tag_to_u32 (ev_tag e)) ++
  le_encode 4 (wrap 32 (ev_size e)).

Definition field (off len : nat) (s : bytes) : Z := le_decode (take len (drop off s)).

(** [ptr::read::<Event>]; a tag that is none of [DataTag] is undefined
    behaviour. *)
Definition event_read (s : bytes) : outcome Event :=
  match from_u32 (field 32 4 s) with
  | Some tag => Ret (mkEvent (field 0 4 s) (field 4 4 s) (field 8 4 s) (field 16 8 s) (field 24 8 s)
                             tag (to_signed 32 (field 36 4 s)))
  | None => Panic
  end.

(** * Reading: [sniffer_event] *)

Inductive SnifferEventVariant : Type :=
| NewApp (alias : bytes)
| NewSnarkWorkerApp
| BindEv (addr : SocketAddr)
| IncomingConnection (addr : SocketAddr)
| OutgoingConnection (addr : SocketAddr)
| Disconnected
| IncomingData (data : bytes)
| OutgoingData (data : bytes)
| RandomEv (data : bytes)
| GetSockOptEv (data : bytes)
| ErrorEv (tag : DataTag) (code : Z).

Record SnifferEvent : Type := mkSnifferEvent {
  sn_pid : Z;
  sn_tid : Z;
  sn_fd : Z;
  sn_ts0 : Z;
  sn_ts1 : Z;
  sn_variant : SnifferEventVariant;
}.

(** The socket address a system call was given: family in the order of the
    machine, port in network order. *)
Definition read_sockaddr (data : bytes) : outcome (option SocketAddr) :=
  fam ← slice 0 2 data;
  port ← slice 2 4 data;
  let port := be_decode port in
  if le_decode fam =? 2 then ip ← slice 4 8 data; Ret (Some (mkSocketAddr (V4 ip) port))
  else if le_decode fam =? 10 then ip ← slice 8 24 data; Ret (Some (mkSocketAddr (V6 ip) port))
  else Ret None.

(** The part of [from_rb_slice] after the header: what [data] means for [tag]. *)
Definition read_variant (tag : DataTag) (data : bytes) : outcome (option SnifferEventVariant) :=
  match tag with
  | Accept => a ← read_sockaddr data; Ret (option_map IncomingConnection a)
  | Connect => a ← read_sockaddr data; Ret (option_map OutgoingConnection a)
  | Bind => a ← read_sockaddr data; Ret (option_map BindEv a)
  | Read => Ret (Some (IncomingData data))
  | Write => Ret (Some (OutgoingData data))
  | Close => Ret (Some Disconnected)
  | Alias =>
      s ← slice_to (wrap 64 (blen data - 1)) data;
      Ret (Some (NewApp (if utf8_valid s then s else str "invalid_uft8_alias")))
  | Random => Ret (Some (RandomEv data))
  | GetSockOpt => Ret (Some (GetSockOptEv data))
  | SnarkWorker => Ret (Some NewSnarkWorkerApp)
  | Debug | Listen => Ret None
  end.

(** [from_rb_slice]; the process exits on a body that is too short. *)
Definition sniffer_from_rb_slice (s : bytes) : outcome (result (option SnifferEvent) unit) :=
  match s with
  | [] => Ret (Ok None)
  | _ =>
      if blen s <? EVENT_SIZE then Ret (Ok None)
      else
        event ← event_read s;
        let ret variant :=
          Some (mkSnifferEvent (ev_pid event) (ev_tid event) (ev_fd event) (ev_ts0 event)
                               (ev_ts1 event) variant) in
        if ev_size event <? 0 then Ret (Ok (ret (ErrorEv (ev_tag event) (ev_size event))))
        else if blen s <? EVENT_SIZE + ev_size event then Panic
        else
          data ← slice EVENT_SIZE (EVENT_SIZE + ev_size event) s;
          v ← read_variant (ev_tag event) data;
          Ret (Ok (v ≫= ret))
  end.

#[export] Instance SnifferEvent_data : RingBufferData SnifferEvent := sniffer_from_rb_slice.

(** * Writing: [send] *)

(** What the probe uses of the kernel: [reserve n] gives [n] bytes of the ring
    buffer or an error, and [probe_read n] tries to copy [n] bytes of the watched
    process ([probe_read_user] or [probe_read_kernel]); it gives the bytes that end
    up in the buffer and the helper's return value. *)
Record Kernel : Type := mkKernel {
  reserve : Z -> result bytes Z;
  probe_read : Z -> bytes * Z;
}.

(** [ptr::write] of an event to the start of a buffer: its padding is whatever
    the compiler leaves there. *)
Definition write_event (pad : bytes) (e : Event) (buffer : bytes) : bytes :=
  event_bytes pad e ++ drop 40 buffer.

(** [send::sized]: the record submitted to the ring buffer. *)
Definition sized (S : Z) (k : Kernel) (pad : bytes) (event : Event) : result bytes Z :=
  let fallback (event : Event) :=
    match reserve k EVENT_SIZE with
    | Err e => Err e
    | Ok buffer => Ok (write_event pad event buffer)
    end in
  if (0 <? ev_size event) && (ev_size event <=? S) then
    match reserve k (S + EVENT_SIZE) with
    | Ok buffer =>
        let to_copy := wrap 32 (Z.land (ev_size event - 1) (S - 1) + 1) in
        let '(copied, result) := probe_read k to_copy in
        let buffer := take 40 buffer ++ copied ++ drop (40 + Z.to_nat to_copy) buffer in
        let event := if 0 <? result then set_size (to_signed 32 (wrap 32 result)) event else event in
        Ok (write_event pad event buffer)
    | Err _ => fallback (set_size (-90) event)
    end
  else fallback event.

(** The chain of [else if] of [send::dyn_sized]: the least power of two from
    [2 ^ 8] to [2 ^ 27] that the size fits in. *)
Fixpoint dyn_sized_from (fuel : nat) (n : Z) (k : Kernel) (pad : bytes) (event : Event)
    : result bytes Z :=
  match fuel with
  | O => Err 0
  | Datatypes.S fuel =>
      if ev_size event <=? 2 ^ n then sized (2 ^ n) k pad event
      else dyn_sized_from fuel (n + 1) k pad event
  end.

Definition dyn_sized (k : Kernel) (pad : bytes) (event : Event) : result bytes Z :=
  if ev_size event <=? 0 then sized 0 k pad event else dyn_sized_from 20 8 k pad event.

(** * What is written is read *)

Lemma tag_u32_roundtrip (t : DataTag) : from_u32 (tag_to_u32 t) = Some t.
Proof. by destruct t. Qed.

Definition wf_event (e : Event) : Prop :=
  0 <= ev_fd e < 2 ^ 32 /\ 0 <= ev_pid e < 2 ^ 32 /\ 0 <= ev_tid e < 2 ^ 32 /\
  0 <= ev_ts0 e < 2 ^ 64 /\ 0 <= ev_ts1 e < 2 ^ 64 /\ - 2 ^ 31 <= ev_size e < 2 ^ 31.

Lemma field_skip (off k n : nat) (a s : bytes) :
  length a = off -> field (off + k) n (a ++ s) = field k n s.
Proof. intros <-. unfold field. by rewrite drop_app_add. Qed.

Lemma field_here (n : nat) (z : Z) (s : bytes) :
  0 <= z < 256 ^ Z.of_nat n -> field 0 n (le_encode n z ++ s) = z.
Proof.
  intros H. unfold field. rewrite drop_0, take_app_length' by (symmetry; apply length_le_encode).
  by apply le_decode_encode.
Qed.

Lemma event_bytes_length (pad : bytes) (e : Event) : length pad = 4%nat -> length (event_bytes pad e) = 40%nat.
Proof. intros H. unfold event_bytes. rewrite !length_app, !length_le_encode. lia. Qed.

Lemma event_read_write (pad : bytes) (e : Event) (rest : bytes) :
  length pad = 4%nat -> wf_event e -> event_read (event_bytes pad e ++ rest) = Ret e.
Proof.
  intros Hp (H1 & H2 & H3 & H4 & H5 & H6). unfold event_read, event_bytes. rewrite <- !app_assoc.
  pose proof (length_le_encode 4) as L4. pose proof (length_le_encode 8) as L8.
  pose proof (wrap_bound 32 (ev_size e) ltac:(lia)).
  assert (0 <= tag_to_u32 (ev_tag e) < 12) by (destruct (ev_tag e); cbn; lia).
  rewrite (field_skip 4 28), (field_skip 4 24), (field_skip 4 20), (field_skip 4 16), (field_skip 8 8),
    (field_skip 8 0), field_here, tag_u32_roundtrip by (done || cbn; lia).
  rewrite field_here by (cbn; lia).
  rewrite (field_skip 4 0), field_here by (done || cbn; lia).
  rewrite (field_skip 4 4), (field_skip 4 0), field_here by (done || cbn; lia).
  rewrite (field_skip 4 12), (field_skip 4 8), (field_skip 4 4), (field_skip 4 0), field_here by (done || cbn; lia).
  rewrite (field_skip 4 20), (field_skip 4 16), (field_skip 4 12), (field_skip 4 8), (field_skip 8 0), field_here by (done || cbn; lia).
  rewrite (field_skip 4 32), (field_skip 4 28), (field_skip 4 24), (field_skip 4 20), (field_skip 8 12),
    (field_skip 8 4), (field_skip 4 0), field_here by (done || cbn; lia).
  rewrite to_signed_wrap by (cbn; lia). by destruct e.
Qed.

Definition sniffer_event (e : Event) (v : SnifferEventVariant) : SnifferEvent :=
  mkSnifferEvent (ev_pid e) (ev_tid e) (ev_fd e) (ev_ts0 e) (ev_ts1 e) v.

(** A record is an event followed by the announced number of bytes. *)
Lemma sniffer_read (pad : bytes) (e : Event) (data rest : bytes) :
  length pad = 4%nat -> wf_event e -> ev_size e = blen data ->
  sniffer_from_rb_slice (event_bytes pad e ++ data ++ rest)
  = (v ← read_variant (ev_tag e) data; Ret (Ok (option_map (sniffer_event e) v))).
Proof.
  intros Hp Hw Hs. pose proof (event_bytes_length pad e Hp) as Hl.
  pose proof (blen_nonneg data). pose proof (blen_nonneg rest).
  assert (blen (event_bytes pad e ++ data ++ rest) = 40 + blen data + blen rest) as Hb.
  { rewrite !blen_app. unfold blen at 1. rewrite Hl. lia. }
  unfold sniffer_from_rb_slice.
  destruct (event_bytes pad e ++ data ++ rest) as [|b s] eqn:E; [rewrite blen_nil in Hb; lia|]. rewrite <- E in *.
  rewrite Hb. unfold EVENT_SIZE.
  rewrite (proj2 (Z.ltb_ge (40 + blen data + blen rest) 40)) by lia.
  rewrite event_read_write by done. cbn [mbind outcome_bind]. rewrite Hs.
  rewrite (proj2 (Z.ltb_ge (blen data) 0)), (proj2 (Z.ltb_ge _ (40 + blen data))) by lia.
  rewrite slice_within by lia. cbn [mbind outcome_bind].
  change (Z.to_nat 40) with 40%nat. rewrite drop_app_length' by done.
  replace (40 + blen data - 40) with (blen data) by lia. unfold blen at 1. rewrite Nat2Z.id, take_app_length.
  by destruct (read_variant _ _) as [[v|]| |].
Qed.

Lemma sniffer_read_error (pad : bytes) (e : Event) (rest : bytes) :
  length pad = 4%nat -> wf_event e -> ev_size e < 0 ->
  sniffer_from_rb_slice (event_bytes pad e ++ rest)
  = Ret (Ok (Some (sniffer_event e (ErrorEv (ev_tag e) (ev_size e))))).
Proof.
  intros Hp Hw Hs. pose proof (event_bytes_length pad e Hp) as Hl. pose proof (blen_nonneg rest).
  assert (blen (event_bytes pad e ++ rest) = 40 + blen rest) as Hb.
  { rewrite !blen_app. unfold blen at 1. rewrite Hl. lia. }
  unfold sniffer_from_rb_slice. destruct (event_bytes pad e ++ rest) as [|b s] eqn:E; [rewrite blen_nil in Hb; lia|].
  rewrite <- E in *. rewrite Hb. unfold EVENT_SIZE. rewrite (proj2 (Z.ltb_ge (40 + blen rest) 40)) by lia.
  rewrite event_read_write by done. cbn [mbind outcome_bind]. by rewrite (proj2 (Z.ltb_lt _ 0)) by lia.
Qed.

(** The power of two a size is rounded up to. *)
Definition size_class (size m : Z) : Prop :=
  8 <= m <= 27 /\ 0 < size <= 2 ^ m /\ (m = 8 \/ 2 ^ (m - 1) < size).

Lemma dyn_sized_class (k : Kernel) (pad : bytes) (e : Event) (m : Z) :
  size_class (ev_size e) m -> dyn_sized k pad e = sized (2 ^ m) k pad e.
Proof.
  intros (Hm & Hs & Hl). unfold dyn_sized. rewrite (proj2 (Z.leb_gt _ 0)) by lia.
  assert (forall fuel n, 8 <= n <= m -> m < n + Z.of_nat fuel ->
            dyn_sized_from fuel n k pad e = sized (2 ^ m) k pad e) as H; [|apply H; lia].
  induction fuel as [|fuel IH]; intros n Hn Hf; [lia|]. cbn [dyn_sized_from].
  destruct (decide (n = m)) as [->|Hne]; [by rewrite (proj2 (Z.leb_le _ _)) by lia|].
  destruct Hl as [->|Hl]; [lia|].
  assert (2 ^ n <= 2 ^ (m - 1)) by (apply Z.pow_le_mono_r; lia).
  rewrite (proj2 (Z.leb_gt _ _)) by lia. apply IH; lia.
Qed.

Lemma to_copy_size (size m : Z) :
  0 <= m <= 31 -> 0 < size <= 2 ^ m -> wrap 32 (Z.land (size - 1) (2 ^ m - 1) + 1) = size.
Proof.
  intros Hm Hs. replace (2 ^ m - 1) with (Z.ones m) by (rewrite Z.ones_equiv; lia).
  assert (2 ^ m <= 2 ^ 31) by (apply Z.pow_le_mono_r; lia).
  rewrite Z.land_ones, Z.mod_small by lia. rewrite wrap_small; lia.
Qed.

(** C33: what a probe sends is what the recorder gets. A payload of any size up
    to 2^27 is put in a record of the next power of two and read back exactly,
    with the identity, times and tag of its event; if the ring buffer has no room
    for it the recorder gets an error event of code -90 in its place, and if there is
    not even room for that the probe fails with the error of the ring buffer. The
    negative result of a failed copy is not reported: the record is sent as if the
    bytes found in the buffer were the payload. *)
Theorem event_roundtrip (k : Kernel) (pad payload : bytes) (e : Event) (m res : Z) :
  length pad = 4%nat -> wf_event e -> (forall n b, 0 <= n -> reserve k n = Ok b -> blen b = n) ->
  size_class (ev_size e) m ->
  probe_read k (ev_size e) = (payload, res) -> blen payload = ev_size e -> res <= 0 ->
  match reserve k (2 ^ m + 40), reserve k 40 with
  | Ok _, _ => exists s, dyn_sized k pad e = Ok s /\ blen s = 2 ^ m + 40 /\
      from_rb_slice s = (v ← read_variant (ev_tag e) payload; Ret (Ok (option_map (sniffer_event e) v)))
  | Err _, Ok _ => exists s, dyn_sized k pad e = Ok s /\ blen s = 40 /\
      from_rb_slice s = Ret (Ok (Some (sniffer_event e (ErrorEv (ev_tag e) (-90)))))
  | Err _, Err c => dyn_sized k pad e = Err c
  end.
Proof.
  intros Hp Hw Hres Hc Hr Hpl Hneg. rewrite (dyn_sized_class k pad e m Hc). destruct Hc as (Hm & Hs & _).
  unfold sized. rewrite (proj2 (Z.ltb_lt 0 _)), (proj2 (Z.leb_le _ (2 ^ m))) by lia. cbn [andb].
  rewrite to_copy_size by lia. rewrite Hr, (proj2 (Z.ltb_ge 0 res)) by lia. unfold EVENT_SIZE.
  pose proof (event_bytes_length pad) as Hl.
  destruct (reserve k (2 ^ m + 40)) as [buf|c] eqn:Eb; cycle 1.
  { destruct (reserve k 40) as [buf|] eqn:Eb2; [|done]. pose proof (Hres 40 buf ltac:(lia) Eb2) as Hb.
    eexists. split; [done|]. unfold write_event. rewrite drop_ge by (unfold blen in Hb; lia). split.
    - rewrite app_nil_r. unfold blen. by rewrite Hl.
    - apply (sniffer_read_error pad (set_size (-90) e) []); [done| |done].
      destruct Hw as (?&?&?&?&?&_). unfold wf_event. cbn. lia. }
  pose proof (Hres (2 ^ m + 40) buf ltac:(lia) Eb) as Hb. unfold blen in Hb.
  eexists. split; [done|]. unfold write_event.
  rewrite drop_app_length' by (rewrite length_take; lia). split.
  - unfold blen in *. rewrite !length_app, Hl, length_drop by done. lia.
  - by apply sniffer_read.
Qed.

(** ** A read of three bytes *)
Definition demo_event : Event := set_ok 3 (set_tag_fd Read 9 (event_new 1000 1001 5 6)).
Definition demo_kernel : Kernel :=
  mkKernel (fun n => Ok (repeat 0 (Z.to_nat n))) (fun n => (take (Z.to_nat n) [97; 98; 99], 0)).

Lemma event_roundtrip_witness :
  exists s, dyn_sized demo_kernel [0; 0; 0; 0] demo_event = Ok s /\
    from_rb_slice s = Ret (Ok (Some (mkSnifferEvent 1000 1001 9 5 6 (IncomingData [97; 98; 99])))).
Proof.
  assert (forall n b, 0 <= n -> reserve demo_kernel n = Ok b -> blen b = n) as Hres.
  { intros n b Hn E. injection E as <-. unfold blen. rewrite repeat_length. lia. }
  destruct (event_roundtrip demo_kernel [0; 0; 0; 0] [97; 98; 99] demo_event 8 0 eq_refl
    ltac:(repeat split; vm_compute; congruence) Hres
    ltac:(split; [lia|split; [split; vm_compute; congruence|by left]]) eq_refl eq_refl ltac:(lia))
    as (s & E & _ & H).
  exists s. split; [exact E|exact H].
Defined.
