(* ===== verification/Probes.v ===== *)
(** The probes on system calls ([bpf-recorder/src/main.rs], [impl App], and
    [bpf-recorder/src/context.rs]): the parameters of a call are kept from its
    entry to its exit, and the exit decides which event is sent. [connections] holds
    the sockets that are followed. The probes on [execve], which fill the tables
    of processes, are in [Execve].

    The maps of the kernel are an interface ([BpfMap]) with the documented
    behaviour of a hash map that may refuse an insertion. *)

From stdpp Require Import base list gmap relations.
From Stdlib Require Import ZArith Lia.
From S2P Require Import Prelude Types RingBuffer BpfEvent.

(** * Maps of the kernel *)

Class BpfMap (K V M : Type) : Type := {
  bm_get : K -> M -> option V;
  bm_insert : K -> V -> M -> result M Z;
  bm_remove : K -> M -> result (option V * M) Z;
}.

Class BpfMapLaws (K V M : Type) `{!BpfMap K V M} : Prop := {
  bm_get_insert : forall k v m m' k', bm_insert k v m = Ok m' ->
    (k' = k -> bm_get k' m' = Some v) /\ (k' <> k -> bm_get k' m' = bm_get k' m);
  bm_get_remove : forall k m o m' k', bm_remove k m = Ok (o, m') -> o = bm_get k m /\
    (k' = k -> bm_get k' m' = None) /\ (k' <> k -> bm_get k' m' = bm_get k' m);
}.

(** A map of at most 0x4000 keys. *)
#[export] Instance gmap_bpf {K V} `{Countable K} : BpfMap K V (gmap K V) := {|
  bm_get k m := m !! k;
  bm_insert k v m :=
    if bool_decide (is_Some (m !! k)) || (Z.of_nat (size m) <? 16384) then Ok (<[k := v]> m) else Err (-7);
  bm_remove k m := Ok (m !! k, delete k m);
|}.

#[export] Instance gmap_bpf_laws {K V} `{Countable K} : BpfMapLaws K V (gmap K V).
Proof.
  split; cbn.
  - intros k v m m' k' E. destruct (_ || _); simplify_eq.
    split; [intros ->; by rewrite lookup_insert_eq|intros; by rewrite lookup_insert_ne].
  - intros k m o m' k' E. simplify_eq. split; [done|].
    split; [intros ->; by rewrite lookup_delete_eq|intros; by rewrite lookup_delete_ne].
Qed.

(** * Parameters of a call ([context.rs]) *)

Inductive Variant : Type :=
| VEmpty (ptr len : Z)
| VBind (fd addr_ptr addr_len : Z)
| VConnect (fd addr_ptr addr_len : Z)
| VAccept (listen_on_fd addr_ptr addr_len_ptr : Z)
| VWrite (fd data_ptr pad : Z)
| VRead (fd data_ptr pad : Z)
| VSend (fd data_ptr pad : Z)
| VRecv (fd data_ptr pad : Z)
| VGetRandom (fd data_ptr data_len : Z)
| VGetSockOptL1O4 (fd val_ptr len_ptr : Z)
| VGetSockOptIrrelevant (fd val_ptr len_ptr : Z).

Record Parameters : Type := mkParameters { p_data : Variant; p_ts : Z }.

Definition variant_ptr (v : Variant) : Z :=
  match v with
  | VEmpty ptr _ => ptr
  | VBind _ p _ | VConnect _ p _ | VAccept _ p _ | VWrite _ p _ | VRead _ p _ | VSend _ p _
  | VRecv _ p _ | VGetRandom _ p _ | VGetSockOptL1O4 _ p _ | VGetSockOptIrrelevant _ p _ => p
  end.

(** * The state of the probes and what they use of the kernel *)

Record App (M P : Type) : Type := mkApp {
  event_queue : list bytes;
  app_pid : M;
  pid_snark_worker : M;
  context_parameters : P;
  connections : M;
}.
Arguments mkApp {M P}. Arguments event_queue {M P}. Arguments app_pid {M P}.
Arguments pid_snark_worker {M P}. Arguments context_parameters {M P}. Arguments connections {M P}.

(** [get_current_pid_tgid], [ktime_get_boot_ns], [reserve] of the ring buffer
    (given what was submitted), [probe_read_user] of a pointer and a length (the
    bytes found and the helper's result) and the padding of a written event. *)
Record Env : Type := mkEnv {
  e_pid : Z;
  e_tid : Z;
  e_ts : Z;
  e_reserve : list bytes -> Z -> result bytes Z;
  e_read : Z -> Z -> bytes * Z;
  e_pad : bytes;
}.

(** [ctx.read_here::<u64>(offset)] of a tracepoint. *)
Definition Context : Type := Z -> Z.

Section probes.
Context {M P : Type} `{!BpfMap Z Z M, !BpfMap Z Parameters P}.

Abbreviation App := (App M P).
Abbreviation res := (App * result unit Z)%type.

Definition set_queue (q : list bytes) (a : App) : App :=
  mkApp q (app_pid a) (pid_snark_worker a) (context_parameters a) (connections a).
Definition set_contexts (p : P) (a : App) : App :=
  mkApp (event_queue a) (app_pid a) (pid_snark_worker a) p (connections a).
Definition set_connections (m : M) (a : App) : App :=
  mkApp (event_queue a) (app_pid a) (pid_snark_worker a) (context_parameters a) m.

Definition watched (pid : Z) (m : M) : bool :=
  match bm_get pid m with Some flags => flags =? 4294967295 | None => false end.

Definition check_pid (env : Env) (a : App) : result unit Z :=
  if watched (e_pid env) (app_pid a) then Ok tt else Err 0.
Definition check_pid_snark_worker (env : Env) (a : App) : result unit Z :=
  if watched (e_pid env) (pid_snark_worker a) then Ok tt else Err 0.

(** [send::dyn_sized] on the event queue; [ptr::null()] is pointer 0. *)
Definition send (env : Env) (event : Event) (ptr : Z) (a : App) : res :=
  match dyn_sized (mkKernel (e_reserve env (event_queue a)) (e_read env ptr)) (e_pad env) event with
  | Ok s => (set_queue (event_queue a ++ [s]) a, Ok tt)
  | Err c => (a, Err c)
  end.

Definition enter (env : Env) (snark_worker : bool) (data : Variant) (a : App) : res :=
  let checked :=
    match check_pid env a with
    | Ok _ => Ok tt
    | Err e => if snark_worker then check_pid_snark_worker env a else Err e
    end in
  match checked with
  | Err e => (a, Err e)
  | Ok _ =>
      match bm_insert (e_tid env) (mkParameters data (e_ts env)) (context_parameters a) with
      | Ok p => (set_contexts p a, Ok tt)
      | Err e => (a, Err e)
      end
  end.

(** [check_addr]: the numbers that look like ports are compared with the
    address family. *)
Definition check_addr (env : Env) (ptr : Z) : result bytes Z :=
  let '(ty, c) := e_read env ptr 2 in
  if negb (c =? 0) then Err 0
  else
    let ty := le_decode ty in
    let ip :=
      if ty =? 2 then
        let '(b, c) := e_read env (ptr + 4) 4 in
        if negb (c =? 0) then Err 0 else Ok ([0; 0; 0; 0; 0; 0; 0; 0; 0; 0; 255; 255] ++ b)
      else if ty =? 10 then
        let '(b, c) := e_read env (ptr + 8) 16 in if negb (c =? 0) then Err 0 else Ok b
      else Err 0 in
    match ip with
    | Err e => Err e
    | Ok ip =>
        let '(_, c) := e_read env (ptr + 2) 2 in
        if negb (c =? 0) then Err 0
        else if (ty =? 0) || (ty =? 53) || (ty =? 443) || (ty =? 80) || (ty =? 65535) then Err 0
        else Ok ip
    end.

Definition socket_id (fd pid : Z) : Z := wrap 64 (Z.shiftl fd 32 + pid).

Definition EAGAIN : Z := -11.
Definition EINPROGRESS : Z := -115.

(** The branch of a read or a write: [tag] is the event's. *)
Definition on_transfer (env : Env) (tag : DataTag) (fd ret ptr : Z) (event : Event) (a : App) : res :=
  let event := set_tag_fd tag fd event in
  if (fd =? 0) || (fd =? 1) || (fd =? 2) then
    if 0 <=? ret then send env (set_ok ret event) ptr a else (a, Ok tt)
  else
    let sid := socket_id fd (ev_pid event) in
    match bm_get sid (connections a) with
    | None => (a, Ok tt)
    | Some _ =>
        if ret <? 0 then
          match bm_remove sid (connections a) with
          | Err e => (a, Err e)
          | Ok (None, m) => (set_connections m a, Ok tt)
          | Ok (Some _, m) =>
              let a := set_connections m a in
              let close_ev := set_tag_fd Close fd event in
              match send env (set_err ret event) 0 a with
              | (a, Err e) => (a, Err e)
              | (a, Ok _) => send env close_ev ptr a
              end
          end
        else send env (set_ok ret event) ptr a
    end.

(** A socket that is followed from now on. *)
Definition track (fd pid : Z) (a : App) : res :=
  match bm_insert (socket_id fd pid) 1 (connections a) with
  | Ok m => (set_connections m a, Ok tt)
  | Err e => (a, Err e)
  end.

Definition on_ret (env : Env) (ret : Z) (data : Variant) (ts0 ts1 : Z) (a : App) : res :=
  if ret =? EAGAIN then (a, Ok tt)
  else
    let pid := e_pid env in
    let event := event_new pid (e_tid env) ts0 ts1 in
    let ptr := variant_ptr data in
    match data with
    | VEmpty _ len =>
        let event := set_tag_fd Debug 0 event in
        send env (if ret <? 0 then set_err ret event else set_ok len event) ptr a
    | VBind fd _ addr_len =>
        let event := set_tag_fd Bind fd event in
        send env (if ret <? 0 then set_err ret event else set_ok addr_len event) ptr a
    | VConnect fd _ addr_len =>
        match check_addr env ptr with
        | Err e => (a, Err e)
        | Ok _ =>
            let event := set_tag_fd Connect fd event in
            if (ret <? 0) && negb (ret =? EINPROGRESS) then send env (set_err ret event) ptr a
            else match track fd pid a with
            | (a, Err e) => (a, Err e)
            | (a, Ok _) => send env (set_ok addr_len event) ptr a
            end
        end
    | VGetSockOptL1O4 fd _ len_ptr =>
        let event := set_tag_fd GetSockOpt fd event in
        if ret <? 0 then send env (set_err ret event) ptr a
        else
          let '(b, c) := e_read env len_ptr 4 in
          if negb (c =? 0) then (a, Err 0) else send env (set_ok (le_decode b) event) ptr a
    | VGetSockOptIrrelevant _ _ _ => (a, Ok tt)
    | VAccept _ _ addr_len_ptr =>
        let fd := wrap 32 ret in
        let event := set_tag_fd Accept fd event in
        if ret <? 0 then send env (set_err ret event) ptr a
        else match check_addr env ptr with
        | Err e => (a, Err e)
        | Ok _ =>
            match track fd pid a with
            | (a, Err e) => (a, Err e)
            | (a, Ok _) =>
                let '(b, c) := e_read env addr_len_ptr 4 in
                if negb (c =? 0) then (a, Err 0) else send env (set_ok (le_decode b) event) ptr a
            end
        end
    | VSend fd _ _ | VWrite fd _ _ => on_transfer env Write fd ret ptr event a
    | VRecv fd _ _ | VRead fd _ _ => on_transfer env Read fd ret ptr event a
    | VGetRandom _ _ data_len => send env (set_ok data_len (set_tag_fd Random 0 event)) ptr a
    end.

Definition on_ret_snark_worker (env : Env) (ret : Z) (data : Variant) (ts0 ts1 : Z) (a : App) : res :=
  let event := event_new (e_pid env) (e_tid env) ts0 ts1 in
  let ptr := variant_ptr data in
  let sent tag fd :=
    if 0 <=? ret then send env (set_ok ret (set_tag_fd tag fd event)) ptr a else (a, Ok tt) in
  match data with
  | VWrite fd _ _ => sent Write fd
  | VRead fd _ _ => sent Read fd
  | _ => (a, Ok tt)
  end.

Definition exit (env : Env) (ctx : Context) (a : App) : res :=
  let checked :=
    match check_pid env a with
    | Ok _ => Ok false
    | Err _ => match check_pid_snark_worker env a with Ok _ => Ok true | Err e => Err e end
    end in
  match checked with
  | Err e => (a, Err e)
  | Ok snark_worker =>
      match bm_remove (e_tid env) (context_parameters a) with
      | Err e => (a, Err e)
      | Ok (None, p) => (set_contexts p a, Err (-1))
      | Ok (Some c, p) =>
          let a := set_contexts p a in
          let ret := to_signed 64 (ctx 16) in
          if snark_worker : bool then on_ret_snark_worker env ret (p_data c) (p_ts c) (e_ts env) a
          else on_ret env ret (p_data c) (p_ts c) (e_ts env) a
      end
  end.

Definition enter_close (env : Env) (ctx : Context) (a : App) : res :=
  match check_pid env a with
  | Err e => (a, Err e)
  | Ok _ =>
      let fd := wrap 32 (ctx 16) in
      let pid := e_pid env in
      match bm_remove (socket_id fd pid) (connections a) with
      | Err e => (a, Err e)
      | Ok (None, m) => (set_connections m a, Ok tt)
      | Ok (Some _, m) =>
          send env (set_tag_fd Close fd (event_new pid (e_tid env) (e_ts env) (e_ts env))) 0
               (set_connections m a)
      end
  end.

(** The entries: the arguments of the call as the tracepoint shows them. *)
Definition enter_bind (env : Env) (ctx : Context) : App -> res :=
  enter env false (VBind (wrap 32 (ctx 16)) (ctx 24) (ctx 32)).
Definition enter_connect (env : Env) (ctx : Context) : App -> res :=
  enter env false (VConnect (wrap 32 (ctx 16)) (ctx 24) (ctx 32)).
Definition enter_getsockopt (env : Env) (ctx : Context) : App -> res :=
  if (ctx 24 =? 1) && (ctx 32 =? 4)
  then enter env false (VGetSockOptL1O4 (wrap 32 (ctx 16)) (ctx 40) (ctx 48))
  else enter env false (VGetSockOptIrrelevant (wrap 32 (ctx 16)) (ctx 40) (ctx 48)).
Definition enter_accept4 (env : Env) (ctx : Context) : App -> res :=
  enter env false (VAccept (wrap 32 (ctx 16)) (ctx 24) (ctx 32)).
Definition enter_write (env : Env) (ctx : Context) : App -> res :=
  enter env true (VWrite (wrap 32 (ctx 16)) (ctx 24) 0).
Definition enter_read (env : Env) (ctx : Context) : App -> res :=
  enter env true (VRead (wrap 32 (ctx 16)) (ctx 24) 0).
Definition enter_sendto (env : Env) (ctx : Context) : App -> res :=
  enter env false (VSend (wrap 32 (ctx 16)) (ctx 24) 0).
Definition enter_recvfrom (env : Env) (ctx : Context) : App -> res :=
  enter env false (VRecv (wrap 32 (ctx 16)) (ctx 24) 0).
Definition enter_getrandom (env : Env) (ctx : Context) : App -> res :=
  enter env false (VGetRandom 0 (ctx 16) (ctx 24)).

Inductive Probe : Type :=
| EnterBind | EnterConnect | EnterGetSockOpt | EnterAccept4 | EnterWrite | EnterRead | EnterSendTo
| EnterRecvFrom | EnterGetRandom | EnterClose | EnterShutdown | Exit.

(** One probe runs; its result is only seen by the kernel. *)
Definition probe (p : Probe) (env : Env) (ctx : Context) (a : App) : App :=
  (match p with
   | EnterBind => enter_bind env ctx a
   | EnterConnect => enter_connect env ctx a
   | EnterGetSockOpt => enter_getsockopt env ctx a
   | EnterAccept4 => enter_accept4 env ctx a
   | EnterWrite => enter_write env ctx a
   | EnterRead => enter_read env ctx a
   | EnterSendTo => enter_sendto env ctx a
   | EnterRecvFrom => enter_recvfrom env ctx a
   | EnterGetRandom => enter_getrandom env ctx a
   | EnterClose | EnterShutdown => enter_close env ctx a
   | Exit => exit env ctx a
   end).1.

Definition probes (calls : list (Probe * Env * Context)) (a : App) : App :=
  foldl (fun a '(p, env, ctx) => probe p env ctx a) a calls.

(** * What the recorder can rely on *)

(** The events in the queue. *)
Definition events (a : App) : list Event :=
  omap (fun s => match event_read s with Ret e => Some e | _ => None end) (event_queue a).

(** The ring buffer has room and the helper does not claim to have copied more
    than it was asked for. *)
Record quiet (env : Env) : Prop := {
  q_reserve : forall q n, 0 <= n -> exists b, e_reserve env q n = Ok b /\ blen b = n;
  q_read : forall p n, 0 <= n -> blen (e_read env p n).1 = n /\ (e_read env p n).2 <= 0;
  q_pad : length (e_pad env) = 4%nat;
  q_pid : 0 <= e_pid env < 2 ^ 32;
  q_tid : 0 <= e_tid env < 2 ^ 32;
  q_ts : 0 <= e_ts env < 2 ^ 64;
}.

Lemma sized_quiet (S : Z) (env : Env) (q : list bytes) (ptr : Z) (e : Event) :
  quiet env -> wf_event e -> 0 <= S ->
  exists s, sized S (mkKernel (e_reserve env q) (e_read env ptr)) (e_pad env) e = Ok s /\
            event_read s = Ret e.
Proof.
  intros [Hres Hread Hp _ _ _] Hw HS. unfold sized. cbn [reserve probe_read].
  assert (forall S, 0 <= S -> exists b, e_reserve env q S = Ok b) as Hr.
  { intros n Hn. destruct (Hres q n Hn) as (b & ? & _). by exists b. }
  destruct (Hr EVENT_SIZE ltac:(done)) as [b40 ->].
  destruct ((0 <? ev_size e) && (ev_size e <=? S)) eqn:E;
    [|eexists; split; [done|]; by apply event_read_write].
  destruct (Hr (S + EVENT_SIZE) ltac:(unfold EVENT_SIZE; lia)) as [b ->].
  assert (0 <= wrap 32 (Z.land (ev_size e - 1) (S - 1) + 1)) as Hc by (apply wrap_bound; lia).
  pose proof (Hread ptr _ Hc) as [_ Hneg]. destruct (e_read env ptr _) as [c r]. cbn in Hneg.
  rewrite (proj2 (Z.ltb_ge 0 r)) by lia. eexists. split; [done|]. by apply event_read_write.
Qed.

Lemma dyn_sized_quiet (env : Env) (q : list bytes) (ptr : Z) (e : Event) :
  quiet env -> wf_event e ->
  match dyn_sized (mkKernel (e_reserve env q) (e_read env ptr)) (e_pad env) e with
  | Ok s => event_read s = Ret e
  | Err _ => 2 ^ 27 < ev_size e
  end.
Proof.
  intros Hq Hw. unfold dyn_sized. destruct (Z.leb_spec (ev_size e) 0).
  { by destruct (sized_quiet 0 env q ptr e Hq Hw ltac:(done)) as (s & -> & ?). }
  assert (forall fuel n, 0 < n -> 2 ^ (n - 1) < ev_size e \/ (0 < fuel)%nat ->
    match dyn_sized_from fuel n (mkKernel (e_reserve env q) (e_read env ptr)) (e_pad env) e with
    | Ok s => event_read s = Ret e | Err _ => 2 ^ (n - 1 + Z.of_nat fuel) < ev_size e end) as Hd;
    [|apply (Hd 20%nat 8); lia].
  induction fuel as [|fuel IH]; intros n Hn Hs; cbn [dyn_sized_from].
  - rewrite Z.add_0_r. destruct Hs; [done|lia].
  - destruct (Z.leb_spec (ev_size e) (2 ^ n)).
    + by destruct (sized_quiet (2 ^ n) env q ptr e Hq Hw ltac:(lia)) as (s & -> & ?).
    + specialize (IH (n + 1) ltac:(lia)). replace (n + 1 - 1) with n in IH by lia.
      specialize (IH (or_introl H0)). case_match; [done|].
      by replace (n - 1 + Z.of_nat (S fuel)) with (n + Z.of_nat fuel) by lia.
Qed.

Lemma send_events (env : Env) (e : Event) (ptr : Z) (a : App) :
  quiet env -> wf_event e ->
  let a' := (send env e ptr a).1 in
  app_pid a' = app_pid a /\ connections a' = connections a /\
  context_parameters a' = context_parameters a /\
  (events a' = events a ++ [e] \/ events a' = events a /\ 2 ^ 27 < ev_size e).
Proof.
  intros Hq Hw. pose proof (dyn_sized_quiet env (event_queue a) ptr e Hq Hw) as Hd.
  unfold send. destruct (dyn_sized _ _ _) as [s|c]; cbn.
  - do 3 (split; [done|]). left. unfold events. cbn. rewrite omap_app. cbn. by rewrite Hd.
  - do 3 (split; [done|]). by right.
Qed.

Lemma send_returns (env : Env) (e : Event) (ptr : Z) (a : App) :
  quiet env -> wf_event e -> ev_size e <= 2 ^ 27 -> (send env e ptr a).2 = Ok tt.
Proof.
  intros Hq Hw Hs. pose proof (dyn_sized_quiet env (event_queue a) ptr e Hq Hw) as Hd.
  unfold send. destruct (dyn_sized _ _ _); [done|lia].
Qed.

(** ** The protocol of a socket

    [None]: the protocol was broken; [Some open]: the socket is open or not. A
    connection opens it, data and errors of transfers come while it is open, and
    one [Close] ends it. *)
Definition follow (pid fd : Z) (s : option bool) (e : Event) : option bool :=
  match s with
  | None => None
  | Some open =>
      if (ev_pid e =? pid) && (ev_fd e =? fd) then
        match ev_tag e with
        | Connect | Accept => Some (open || (0 <=? ev_size e))
        | Close => if open then Some false else None
        | Read | Write => if open then Some true else None
        | _ => Some open
        end
      else Some open
  end.

Definition history (pid fd : Z) (es : list Event) : option bool :=
  foldl (follow pid fd) (Some false) es.

Definition tracked (pid fd : Z) (a : App) : bool :=
  match bm_get (socket_id fd pid) (connections a) with Some _ => true | None => false end.

(** The sockets of a watched process; descriptors 0, 1 and 2 are not sockets. *)
Definition socket_of (pid fd : Z) (a : App) : Prop :=
  watched pid (app_pid a) = true /\ 0 <= pid < 2 ^ 32 /\ 3 <= fd < 2 ^ 32.

(** The events of each socket follow the protocol and leave it in the state [h];
    the table agrees with the events when that is what it says. *)
Definition agree_with (h : Z -> Z -> bool) (a : App) : Prop :=
  forall pid fd, socket_of pid fd a -> history pid fd (events a) = Some (h pid fd).

Definition agree (a : App) : Prop := agree_with (fun pid fd => tracked pid fd a) a.

Lemma history_snoc (pid fd : Z) (es : list Event) (e : Event) :
  history pid fd (es ++ [e]) = follow pid fd (history pid fd es) e.
Proof. unfold history. by rewrite foldl_app. Qed.

Lemma socket_id_inj (fd pid fd' pid' : Z) :
  0 <= fd < 2 ^ 32 -> 0 <= pid < 2 ^ 32 -> 0 <= fd' < 2 ^ 32 -> 0 <= pid' < 2 ^ 32 ->
  socket_id fd pid = socket_id fd' pid' -> fd = fd' /\ pid = pid'.
Proof.
  intros H1 H2 H3 H4. unfold socket_id. rewrite !Z.shiftl_mul_pow2 by lia. rewrite !wrap_small by lia. lia.
Qed.

Lemma send_agree (env : Env) (e : Event) (ptr : Z) (h0 h1 : Z -> Z -> bool) (a : App) :
  quiet env -> wf_event e -> agree_with h0 a ->
  (forall pid fd, socket_of pid fd a ->
     follow pid fd (Some (h0 pid fd)) e = Some (h1 pid fd) /\
     (ev_size e <= 2 ^ 27 \/ h1 pid fd = h0 pid fd)) ->
  agree_with h1 (send env e ptr a).1.
Proof.
  intros Hq Hw Ha Hf pid fd Hs. pose proof (send_events env e ptr a Hq Hw) as (Ep & _ & _ & Ee).
  unfold socket_of in Hs. rewrite Ep in Hs. destruct (Hf pid fd Hs) as [Hf1 Hf2].
  destruct Ee as [->|[-> Hbig]].
  - by rewrite history_snoc, (Ha pid fd Hs).
  - rewrite (Ha pid fd Hs). destruct Hf2 as [| ->]; [lia|done].
Qed.

(** Events that no socket of the agreement is concerned with. *)
Lemma follow_other (e : Event) (pid fd : Z) (o : bool) :
  (ev_tag e <> Connect /\ ev_tag e <> Accept /\ ev_tag e <> Close /\ ev_tag e <> Read /\ ev_tag e <> Write)
  \/ ev_fd e < 3 \/ ev_pid e <> pid \/ ((ev_tag e = Connect \/ ev_tag e = Accept) /\ ev_size e < 0) ->
  3 <= fd -> follow pid fd (Some o) e = Some o.
Proof.
  intros H Hfd. unfold follow. destruct (Z.eqb_spec (ev_pid e) pid), (Z.eqb_spec (ev_fd e) fd); try done.
  cbn [andb]. destruct H as [(?&?&?&?&?)|[?|[?|[[Ht|Ht] Hs]]]]; [|lia|done| |].
  - by destruct (ev_tag e).
  - rewrite Ht, (proj2 (Z.leb_gt 0 _)) by done. by rewrite orb_false_r.
  - rewrite Ht, (proj2 (Z.leb_gt 0 _)) by done. by rewrite orb_false_r.
Qed.

Section laws.
Context `{!BpfMapLaws Z Z M, !BpfMapLaws Z Parameters P}.

Lemma tracked_insert (fd pid : Z) (a : App) (m : M) (fd' pid' : Z) :
  bm_insert (socket_id fd pid) 1 (connections a) = Ok m ->
  0 <= fd < 2 ^ 32 -> 0 <= pid < 2 ^ 32 -> 0 <= fd' < 2 ^ 32 -> 0 <= pid' < 2 ^ 32 ->
  tracked pid' fd' (set_connections m a)
  = ((pid =? pid') && (fd =? fd')) || tracked pid' fd' a.
Proof.
  intros E H1 H2 H3 H4. destruct (bm_get_insert _ _ _ _ (socket_id fd' pid') E) as [He Hne].
  unfold tracked. cbn. destruct (decide (socket_id fd' pid' = socket_id fd pid)) as [Es|Es].
  - rewrite (He Es). apply socket_id_inj in Es as [-> ->]; [|done..]. by rewrite !Z.eqb_refl.
  - rewrite (Hne Es). destruct (Z.eqb_spec pid pid'), (Z.eqb_spec fd fd'); subst; done.
Qed.

Lemma tracked_remove (fd pid : Z) (a : App) (o : option Z) (m : M) (fd' pid' : Z) :
  bm_remove (socket_id fd pid) (connections a) = Ok (o, m) ->
  0 <= fd < 2 ^ 32 -> 0 <= pid < 2 ^ 32 -> 0 <= fd' < 2 ^ 32 -> 0 <= pid' < 2 ^ 32 ->
  (match o with Some _ => true | None => false end) = tracked pid fd a /\
  tracked pid' fd' (set_connections m a)
  = (if (pid =? pid') && (fd =? fd') then false else tracked pid' fd' a).
Proof.
  intros E H1 H2 H3 H4. destruct (bm_get_remove _ _ _ _ (socket_id fd' pid') E) as [-> [He Hne]].
  split; [done|].
  unfold tracked. cbn. destruct (decide (socket_id fd' pid' = socket_id fd pid)) as [Es|Es].
  - rewrite (He Es). apply socket_id_inj in Es as [-> ->]; [|done..]. by rewrite !Z.eqb_refl.
  - rewrite (Hne Es). destruct (Z.eqb_spec pid pid'), (Z.eqb_spec fd fd'); subst; done.
Qed.

(** The events the probes make are well formed. *)
Lemma signed_bound (z : Z) : - 2 ^ 31 <= to_signed 32 (wrap 32 z) < 2 ^ 31.
Proof.
  pose proof (wrap_bound 32 z ltac:(lia)). unfold to_signed.
  change (2 ^ (32 - 1)) with (2 ^ 31) in *. destruct (Z.ltb_spec (wrap 32 z) (2 ^ 31)); lia.
Qed.

Lemma wf_event_new (env : Env) (tag : DataTag) (fd ts0 ts1 : Z) :
  quiet env -> 0 <= fd < 2 ^ 32 -> 0 <= ts0 < 2 ^ 64 -> 0 <= ts1 < 2 ^ 64 ->
  wf_event (set_tag_fd tag fd (event_new (e_pid env) (e_tid env) ts0 ts1)).
Proof. intros [_ _ _ ? ? _] ? ? ?. unfold wf_event. cbn. lia. Qed.

Lemma wf_event_size (z : Z) (e : Event) : wf_event e -> wf_event (set_size (to_signed 32 (wrap 32 z)) e).
Proof. intros (?&?&?&?&?&_). pose proof (signed_bound z). unfold wf_event. cbn. lia. Qed.

(** An event that changes no socket is sent. *)
Lemma send_neutral (env : Env) (e : Event) (ptr : Z) (a : App) :
  quiet env -> wf_event e -> agree a ->
  (forall pid fd, socket_of pid fd a ->
     follow pid fd (Some (tracked pid fd a)) e = Some (tracked pid fd a)) ->
  agree (send env e ptr a).1.
Proof.
  intros Hq Hw Ha Hf. unfold agree.
  assert (connections (send env e ptr a).1 = connections a) as Ec by by apply send_events.
  assert (forall pid fd, tracked pid fd (send env e ptr a).1 = tracked pid fd a) as Et.
  { intros. unfold tracked. by rewrite Ec. }
  intros pid fd Hs. rewrite Et. revert pid fd Hs. apply send_agree with (h0 := fun pid fd => tracked pid fd a); [done..|].
  intros pid fd Hs. split; [by apply Hf|by right].
Qed.

(** The end of a socket: the error of a transfer, if there was one, and the
    [Close]. *)
Lemma close_agree (env : Env) (e : Event) (ptr : Z) (a b : App) (o : option Z) :
  quiet env -> wf_event e -> ev_tag e = Close -> ev_size e <= 0 ->
  bm_remove (socket_id (ev_fd e) (ev_pid e)) (connections a) = Ok (o, connections b) ->
  agree_with (fun pid fd => tracked pid fd a) b -> tracked (ev_pid e) (ev_fd e) a = true ->
  agree (send env e ptr b).1.
Proof.
  intros Hq Hw Htag Hsz Er Ha Ht. unfold agree.
  assert (connections (send env e ptr b).1 = connections b) as Ec by by apply send_events.
  intros pid fd Hs.
  assert (tracked pid fd (send env e ptr b).1
          = if (ev_pid e =? pid) && (ev_fd e =? fd) then false else tracked pid fd a) as ->.
  { transitivity (tracked pid fd (set_connections (connections b) a)); [unfold tracked; by rewrite Ec|].
    destruct Hs as (_&?&?). apply (tracked_remove _ _ a o _ fd pid Er); try apply Hw; lia. }
  revert pid fd Hs. apply (send_agree env e ptr _ _ _ Hq Hw Ha). intros pid fd _. split; [|lia].
  unfold follow. destruct (Z.eqb_spec (ev_pid e) pid), (Z.eqb_spec (ev_fd e) fd); try done.
  subst. cbn. by rewrite Htag, Ht.
Qed.

Lemma on_transfer_agree (env : Env) (tag : DataTag) (fd ret ptr : Z) (event : Event) (a : App) :
  quiet env -> agree a -> (tag = Read \/ tag = Write) -> 0 <= fd < 2 ^ 32 ->
  (forall tag, wf_event (set_tag_fd tag fd event)) ->
  ev_size event = 0 -> -4096 < ret -> agree (on_transfer env tag fd ret ptr event a).1.
Proof.
  intros Hq Ha Htag Hfd Hw H0 Hret. unfold on_transfer. cbn [ev_pid set_tag_fd].
  pose proof (Hw tag) as Hwt. assert (0 <= ev_pid event < 2 ^ 32) as Hpid by apply Hwt.
  destruct ((fd =? 0) || (fd =? 1) || (fd =? 2)) eqn:Estd.
  { destruct (0 <=? ret); [|done]. apply send_neutral; [done|by apply wf_event_size|done|].
    intros p f (_ & _ & Hf). apply follow_other; [|lia]. right; left. cbn. lia. }
  destruct (bm_get _ _) as [x|] eqn:Eg; [|done].
  assert (tracked (ev_pid event) fd a = true) as Ht by (unfold tracked; by rewrite Eg).
  assert (forall z p f, follow p f (Some (tracked p f a)) (set_size z (set_tag_fd tag fd event))
                        = Some (tracked p f a)) as Hft.
  { intros z p f. unfold follow. cbn. destruct (Z.eqb_spec (ev_pid event) p), (Z.eqb_spec fd f); try done.
    subst. cbn. rewrite Ht. by destruct Htag as [->| ->]. }
  destruct (Z.ltb_spec ret 0) as [Hneg|]; [|apply send_neutral; [done|by apply wf_event_size|done|intros p f _; exact (Hft _ p f)]].
  destruct (bm_remove _ _) as [[o m]|] eqn:Er; [|done].
  pose proof (tracked_remove fd (ev_pid event) a o m fd (ev_pid event) Er Hfd Hpid Hfd Hpid) as [Ho _].
  destruct o as [y|]; [|congruence].
  assert (ev_size (set_err ret (set_tag_fd tag fd event)) = ret) as Hsz
    by (cbn; apply to_signed_wrap; lia).
  pose proof (wf_event_size ret _ Hwt) as Hwe. fold (set_err ret (set_tag_fd tag fd event)) in Hwe.
  pose proof (send_agree env (set_err ret (set_tag_fd tag fd event)) 0 _
    (fun p f => tracked p f a) (set_connections m a) Hq Hwe Ha
    ltac:(intros p f _; split; [exact (Hft _ p f)|by right])) as H1.
  pose proof (send_events env _ 0 (set_connections m a) Hq Hwe) as (_ & Ec & _ & He).
  pose proof (send_returns env _ 0 (set_connections m a) Hq Hwe ltac:(lia)) as Hr.
  destruct (send env _ 0 _) as [a1 r]. cbn [fst snd] in *. subst r.
  apply (close_agree env _ ptr a a1 (Some y)); [done|apply Hw|done|cbn; lia|cbn; by rewrite Er, Ec|exact H1|exact Ht].
Qed.

(** The beginning of a socket. *)
Lemma open_agree (env : Env) (e : Event) (ptr : Z) (a : App) :
  quiet env -> wf_event e -> ev_tag e = Connect \/ ev_tag e = Accept -> 0 <= ev_size e <= 2 ^ 27 ->
  agree a ->
  agree (match track (ev_fd e) (ev_pid e) a with
         | (a, Err c) => (a, Err c)
         | (a, Ok _) => send env e ptr a
         end).1.
Proof.
  intros Hq Hw Htag Hsz Ha. unfold track. destruct (bm_insert _ _ _) as [m|] eqn:Ei; [|done].
  pose proof (send_events env e ptr (set_connections m a) Hq Hw) as (_ & Ec & _).
  unfold agree. intros pid fd Hs.
  assert (tracked pid fd (send env e ptr (set_connections m a)).1
          = ((ev_pid e =? pid) && (ev_fd e =? fd)) || tracked pid fd a) as ->.
  { transitivity (tracked pid fd (set_connections m a)); [unfold tracked; by rewrite Ec|].
    destruct Hs as (_&?&?). apply (tracked_insert _ _ a m fd pid Ei); try apply Hw; lia. }
  revert pid fd Hs. apply (send_agree env e ptr (fun p f => tracked p f a) _ (set_connections m a) Hq Hw Ha).
  intros pid fd _. split; [|lia].
  unfold follow. destruct (Z.eqb_spec (ev_pid e) pid), (Z.eqb_spec (ev_fd e) fd); try done.
  subst. cbn [andb orb]. rewrite (proj2 (Z.leb_le 0 _)), orb_true_r by lia. by destruct Htag as [->| ->].
Qed.

Definition u32 (z : Z) : Prop := 0 <= z < 2 ^ 32.

(** What is known of stored parameters: descriptors are 32-bit, and an address
    given to [connect] is not longer than a record can be. *)
Definition wf_params (c : Parameters) : Prop :=
  0 <= p_ts c < 2 ^ 64 /\
  match p_data c with
  | VConnect fd _ len => u32 fd /\ 0 <= len <= 2 ^ 27
  | VBind fd _ _ | VWrite fd _ _ | VRead fd _ _ | VSend fd _ _ | VRecv fd _ _ | VGetSockOptL1O4 fd _ _ => u32 fd
  | _ => True
  end.

(** What the kernel guarantees of a call that ends: its result is an error code or
    a value, and after a successful [accept] the length of the address can be read
    and is not longer than a record can be. *)
Definition benign_ret (env : Env) (ret : Z) (data : Variant) : Prop :=
  -4096 < ret /\
  match data with
  | VAccept _ _ lp => (e_read env lp 4).2 = 0 /\ le_decode (e_read env lp 4).1 <= 2 ^ 27
  | _ => True
  end.

Lemma set_ok_size (z : Z) (e : Event) : 0 <= z <= 2 ^ 27 -> ev_size (set_ok z e) = z.
Proof. intros H. cbn. rewrite to_signed_wrap; lia. Qed.

Lemma send_unrelated (env : Env) (e : Event) (ptr : Z) (a : App) :
  quiet env -> wf_event e -> agree a ->
  (ev_tag e <> Connect /\ ev_tag e <> Accept /\ ev_tag e <> Close /\ ev_tag e <> Read /\ ev_tag e <> Write)
  \/ ((ev_tag e = Connect \/ ev_tag e = Accept) /\ ev_size e < 0) ->
  agree (send env e ptr a).1.
Proof.
  intros Hq Hw Ha Hn. apply send_neutral; [done..|]. intros pid fd (_ & _ & Hf).
  apply follow_other; [|lia]. destruct Hn; [by left|by right; right; right].
Qed.

Lemma le_decode_nonneg (b : bytes) : 0 <= le_decode b.
Proof. apply be_decode_bound. Qed.

Lemma on_ret_agree (env : Env) (ret : Z) (c : Parameters) (a : App) :
  quiet env -> agree a -> wf_params c -> benign_ret env ret (p_data c) ->
  agree (on_ret env ret (p_data c) (p_ts c) (e_ts env) a).1.
Proof.
  intros Hq Ha [Hts Hd] [Hret Hb]. unfold on_ret. destruct (ret =? EAGAIN); [done|].
  pose proof (q_ts env Hq) as Hts1.
  assert (forall tag fd, u32 fd ->
    wf_event (set_tag_fd tag fd (event_new (e_pid env) (e_tid env) (p_ts c) (e_ts env)))) as Hw
    by (intros; by apply wf_event_new).
  assert (u32 0) as H0 by done.
  assert (u32 (wrap 32 ret)) as Hwr by (apply wrap_bound; lia).
  destruct (p_data c) as [p l|fd p l|fd p l|lf p lp|fd p x|fd p x|fd p x|fd p x|fd p l|fd p lp|fd p lp];
    cbn [variant_ptr].
  - destruct (ret <? 0); apply send_unrelated; try done; try (by apply wf_event_size, Hw); by left.
  - destruct (ret <? 0); apply send_unrelated; try done; try (by apply wf_event_size, Hw); by left.
  - destruct (check_addr env p); [|done]. destruct Hd as [Hfd Hl].
    destruct ((ret <? 0) && negb (ret =? EINPROGRESS)) eqn:E.
    + apply send_unrelated; [done|by apply wf_event_size, Hw|done|]. right. split; [by left|].
      cbn. rewrite to_signed_wrap; lia.
    + pose proof (open_agree env (set_ok l (set_tag_fd Connect fd
        (event_new (e_pid env) (e_tid env) (p_ts c) (e_ts env)))) p a Hq) as O.
      apply O; [by apply wf_event_size, Hw|left; reflexivity| |exact Ha].
      by rewrite set_ok_size.
  - destruct (Z.ltb_spec ret 0).
    + apply send_unrelated; [done|by apply wf_event_size, Hw|done|]. right. split; [by right|].
      cbn. rewrite to_signed_wrap; lia.
    + destruct (check_addr env p); [|done]. destruct Hb as [Hc Hl].
      destruct (e_read env lp 4) as [b r]. cbn in Hc, Hl. subst r.
      pose proof (le_decode_nonneg b).
      pose proof (open_agree env (set_ok (le_decode b) (set_tag_fd Accept (wrap 32 ret)
        (event_new (e_pid env) (e_tid env) (p_ts c) (e_ts env)))) p a Hq) as O.
      cbn [negb Z.eqb]. apply O; [by apply wf_event_size, Hw|right; reflexivity| |exact Ha].
      by rewrite set_ok_size.
  - apply on_transfer_agree; auto; intros; by apply Hw.
  - apply on_transfer_agree; auto; intros; by apply Hw.
  - apply on_transfer_agree; auto; intros; by apply Hw.
  - apply on_transfer_agree; auto; intros; by apply Hw.
  - apply send_unrelated; try done; try (by apply wf_event_size, Hw); by left.
  - destruct (ret <? 0); [apply send_unrelated; try done; try (by apply wf_event_size, Hw); by left|].
    destruct (e_read env lp 4) as [b r]. destruct (negb (r =? 0)); [done|].
    apply send_unrelated; try done; try (by apply wf_event_size, Hw); by left.
  - done.
Qed.

(** Sending leaves the stored parameters alone. *)
Lemma send_contexts (env : Env) (e : Event) (ptr : Z) (a : App) :
  context_parameters (send env e ptr a).1 = context_parameters a.
Proof. unfold send. by case_match. Qed.

Lemma on_transfer_contexts (env : Env) (tag : DataTag) (fd ret ptr : Z) (event : Event) (a : App) :
  context_parameters (on_transfer env tag fd ret ptr event a).1 = context_parameters a.
Proof.
  unfold on_transfer. repeat case_match; rewrite ?send_contexts; try done;
    match goal with E : send ?v ?e ?p ?b = _ |- _ =>
      pose proof (send_contexts v e p b) as Hc; rewrite E in Hc; exact Hc end.
Qed.

Lemma on_ret_contexts (env : Env) (ret : Z) (data : Variant) (ts0 ts1 : Z) (a : App) :
  context_parameters (on_ret env ret data ts0 ts1 a).1 = context_parameters a.
Proof.
  assert (forall fd pid, context_parameters (track fd pid a).1 = context_parameters a) as Ht.
  { intros. unfold track. by case_match. }
  unfold on_ret. repeat case_match; rewrite ?send_contexts, ?on_transfer_contexts; try done;
    by match goal with E : track ?f ?p a = _ |- _ => pose proof (Ht f p) as Hc; rewrite E in Hc end.
Qed.

Definition probe_inv (a : App) : Prop :=
  agree a /\ forall tid c, bm_get tid (context_parameters a) = Some c -> wf_params c.

Definition benign (p : Probe) (env : Env) (ctx : Context) (a : App) : Prop :=
  match p with
  | EnterConnect => ctx 32 <= 2 ^ 27
  | Exit => forall c, bm_get (e_tid env) (context_parameters a) = Some c ->
                      benign_ret env (to_signed 64 (ctx 16)) (p_data c)
  | _ => True
  end.

Inductive probe_step : App -> App -> Prop :=
| probe_runs p env ctx a :
    quiet env -> (forall o, 0 <= ctx o < 2 ^ 64) -> benign p env ctx a ->
    probe_step a (probe p env ctx a).

Lemma enter_inv (env : Env) (b : bool) (v : Variant) (a : App) :
  probe_inv a -> wf_params (mkParameters v (e_ts env)) -> probe_inv (enter env b v a).1.
Proof.
  intros [Ha Hc] Hv. unfold enter.
  destruct (match check_pid env a with Ok _ => _ | Err _ => _ end); [|done].
  destruct (bm_insert _ _ _) as [p'|] eqn:Ei; [|done].
  split; [exact Ha|]. intros tid c Hg. cbn in Hg.
  destruct (bm_get_insert _ _ _ _ tid Ei) as [He Hne].
  destruct (decide (tid = e_tid env)) as [E|E]; [|rewrite (Hne E) in Hg; by apply (Hc tid)].
  rewrite (He E) in Hg. by simplify_eq.
Qed.

Lemma exit_inv (env : Env) (ctx : Context) (a : App) :
  quiet env -> benign Exit env ctx a -> probe_inv a -> probe_inv (exit env ctx a).1.
Proof.
  intros Hq Hb [Ha Hc]. unfold exit.
  destruct (match check_pid env a with Ok _ => _ | Err _ => _ end) as [snark|] eqn:Ek; [|done].
  destruct (bm_remove (e_tid env) (context_parameters a)) as [[o p]|] eqn:Er; [|done].
  assert (o = bm_get (e_tid env) (context_parameters a)) as -> by by apply (bm_get_remove _ _ _ _ 0 Er).
  assert (forall tid c, bm_get tid p = Some c -> wf_params c) as Hp.
  { intros tid c Hg. destruct (bm_get_remove _ _ _ _ tid Er) as [_ [He Hne]].
    destruct (decide (tid = e_tid env)) as [E|E]; [rewrite (He E) in Hg; done|].
    rewrite (Hne E) in Hg. by apply (Hc tid). }
  destruct (bm_get (e_tid env) (context_parameters a)) as [c|] eqn:Eg; [|by split].
  pose proof (Hc _ _ Eg) as Hwc. pose proof (Hb c Eg) as Hbr.
  destruct snark; (split; [|]).
  - unfold on_ret_snark_worker. unfold check_pid in Ek.
    destruct (watched (e_pid env) (app_pid a)) eqn:Ew; [congruence|].
    destruct Hwc as [Hts Hd]. pose proof (q_ts env Hq).
    destruct (p_data c); try exact Ha; destruct (0 <=? _); try exact Ha;
      (apply send_neutral; [done|by apply wf_event_size, wf_event_new|exact Ha|]);
      intros pid' fd' (Hwp & _ & Hf); cbn in Hwp; apply follow_other; try lia; right; right; left; cbn; congruence.
  - unfold on_ret_snark_worker. intros tid c'. by repeat case_match; rewrite ?send_contexts; cbn; apply Hp.
  - by apply on_ret_agree.
  - rewrite on_ret_contexts. exact Hp.
Qed.

Lemma enter_close_inv (env : Env) (ctx : Context) (a : App) :
  quiet env -> probe_inv a -> probe_inv (enter_close env ctx a).1.
Proof.
  intros Hq [Ha Hc]. unfold enter_close. destruct (check_pid env a); [|done].
  assert (u32 (wrap 32 (ctx 16))) as Hfd by (apply wrap_bound; lia). pose proof (q_ts env Hq).
  set (e := set_tag_fd Close (wrap 32 (ctx 16)) (event_new (e_pid env) (e_tid env) (e_ts env) (e_ts env))).
  assert (wf_event e) as Hw by (by apply wf_event_new).
  destruct (bm_remove _ _) as [[o m]|] eqn:Er; [|done].
  pose proof (q_pid env Hq) as Hpid.
  assert (forall pid fd, socket_of pid fd a -> tracked pid fd (set_connections m a)
    = if (e_pid env =? pid) && (wrap 32 (ctx 16) =? fd) then false else tracked pid fd a) as Ht.
  { intros pid fd (_&?&?). apply (tracked_remove _ _ a o m fd pid Er); try done; lia. }
  pose proof (tracked_remove _ _ a o m (wrap 32 (ctx 16)) (e_pid env) Er Hfd Hpid Hfd Hpid) as [Ho _].
  destruct o as [x|].
  - split; [|by rewrite send_contexts]. by apply (close_agree env e 0 a (set_connections m a) (Some x)).
  - split; [|exact Hc]. intros pid fd Hs.
    transitivity (Some (tracked pid fd a)); [exact (Ha pid fd Hs)|]. f_equal. cbn [fst]. rewrite Ht by done.
    destruct (Z.eqb_spec (e_pid env) pid), (Z.eqb_spec (wrap 32 (ctx 16)) fd); try done.
    subst. by rewrite <- Ho.
Qed.

Lemma probe_step_inv (a a' : App) : probe_step a a' -> probe_inv a -> probe_inv a'.
Proof.
  intros [p env ctx b Hq Hctx Hb] Ha. pose proof (q_ts env Hq) as Hts.
  assert (u32 (wrap 32 (ctx 16))) as Hfd by (apply wrap_bound; lia).
  destruct p;
    try (apply enter_inv; [exact Ha|by split]); try by apply enter_close_inv.
  - apply enter_inv; [exact Ha|]. split; [done|]. split; [done|]. split; [apply Hctx|exact Hb].
  - unfold probe, enter_getsockopt. case_match; apply enter_inv; try exact Ha; by split.
  - by apply exit_inv.
Qed.


End laws.

End probes.

(** ** A process that connects and reads three bytes *)

Definition demo_user : bytes := [2; 0; 31; 144; 127; 0; 0; 1].
Definition demo_env : Env :=
  mkEnv 1000 1001 5 (fun _ n => Ok (repeat 0 (Z.to_nat n)))
        (fun _ n => (take (Z.to_nat n) (demo_user ++ repeat 0 (Z.to_nat n)), 0)) [0; 0; 0; 0].

Definition demo_app : App (gmap Z Z) (gmap Z Parameters) :=
  mkApp [] {[1000 := 4294967295]} ∅ ∅ ∅.

(** Descriptor 9, a pointer, a length of 16; the results of the calls. *)
Definition demo_args : Context := fun o => if o =? 16 then 9 else if o =? 32 then 16 else 100.
Definition demo_result (r : Z) : Context := fun _ => r.

Lemma demo_quiet : quiet demo_env.
Proof.
  split; cbn [demo_env e_pid e_tid e_ts e_pad e_reserve e_read]; [| |done|lia|lia|lia].
  - intros q n Hn. eexists. split; [done|]. unfold blen. rewrite repeat_length. lia.
  - intros p n Hn. cbn [fst snd]. split; [|done]. unfold blen.
    rewrite length_take, length_app, repeat_length. lia.
Qed.

Lemma demo_args_bound (o : Z) : 0 <= demo_args o < 2 ^ 64.
Proof. unfold demo_args. repeat case_match; lia. Qed.

Definition demo_connected : App (gmap Z Z) (gmap Z Parameters) :=
  probe Exit demo_env (demo_result 0) (probe EnterConnect demo_env demo_args demo_app).

Definition demo_reading : App (gmap Z Z) (gmap Z Parameters) :=
  probe Exit demo_env (demo_result 3) (probe EnterRead demo_env demo_args demo_connected).

