(* ===== verification/Execve.v ===== *)
(** The probes on [execve] and [execveat] ([bpf-recorder/src/main.rs]): they look
    at the arguments and the environment of a program that is about to run and
    decide whether its system calls will be recorded. Each string is read into a
    piece of the ring buffer that is reserved and given back, so the model keeps the
    pieces that are held. The processes they enter into the tables are those the
    probes of [Probes] follow. *)

From stdpp Require Import base list gmap strings.
From Stdlib Require Import ZArith Lia.
From S2P Require Import Prelude Types RingBuffer BpfEvent Probes.

(** [probe_read_user_str] of a pointer and the size of the buffer: the bytes it
    writes and its result, the length with the final zero or an error. *)
Record XEnv : Type := mkXEnv {
  x_env :> Env;
  x_read_str : Z -> Z -> bytes * Z;
}.

(** A buffer of the ring after the helper wrote to its start. *)
Definition overlay (s buffer : bytes) : bytes := s ++ drop (length s) buffer.

(** The chains [buffer[0] == b'B' && buffer[1] == b'P' && ...] are [starts_with]. *)
Definition ALIAS_PREFIX : bytes := str "BPF_ALIAS".
Definition CODA_PREFIX : bytes := str "coda-libp2p_helper".
Definition OPENMINA_PREFIX : bytes := str "openmina".
Definition SNARK_PREFIX : bytes := str "snark-worker".

Section exec.
Context {M P : Type} `{!BpfMap Z Z M, !BpfMap Z Parameters P}.

Abbreviation App := (App M P).

(** The application and the sizes of the reserved pieces of the ring buffer that
    were neither submitted nor discarded. *)
Record XState : Type := mkXState { x_app : App; x_held : list Z }.

Definition X (A : Type) : Type := XState -> XState * result A Z.
Definition xret {A} (x : A) : X A := fun st => (st, Ok x).
Definition xfail {A} (e : Z) : X A := fun st => (st, Err e).
(** [e?; ...] *)
Definition xbind {A B} (x : X A) (f : A -> X B) : X B := fun st =>
  match x st with (st, Ok v) => f v st | (st, Err e) => (st, Err e) end.
(** [match e { Ok(v) => ..., Err(e) => ... }] *)
Definition xmatch {A B} (x : X A) (f : A -> X B) (g : Z -> X B) : X B := fun st =>
  match x st with (st, Ok v) => f v st | (st, Err e) => g e st end.
Notation "x '<~' e ; f" := (xbind e (fun x => f)) (at level 60, e at next level, right associativity).

Definition reserve_buf (env : XEnv) (n : Z) : X bytes := fun st =>
  match e_reserve env (event_queue (x_app st)) n with
  | Ok b => (mkXState (x_app st) (n :: x_held st), Ok b)
  | Err e => (st, Err e)
  end.

Fixpoint release (n : Z) (held : list Z) : list Z :=
  match held with
  | [] => []
  | m :: held => if m =? n then held else m :: release n held
  end.

Definition discard (n : Z) : X unit := fun st =>
  (mkXState (x_app st) (release n (x_held st)), Ok tt).

Definition send_x (env : XEnv) (event : Event) (ptr : Z) : X unit := fun st =>
  let '(a, r) := send env event ptr (x_app st) in (mkXState a (x_held st), r).

Definition insert_pid (env : XEnv) : X unit := fun st =>
  let a := x_app st in
  match bm_insert (e_pid env) 4294967295 (app_pid a) with
  | Ok m => (mkXState (mkApp (event_queue a) m (pid_snark_worker a) (context_parameters a)
                             (connections a)) (x_held st), Ok tt)
  | Err e => (st, Err e)
  end.

Definition insert_pid_snark_worker (env : XEnv) : X unit := fun st =>
  let a := x_app st in
  match bm_insert (e_pid env) 4294967295 (pid_snark_worker a) with
  | Ok m => (mkXState (mkApp (event_queue a) (app_pid a) m (context_parameters a)
                             (connections a)) (x_held st), Ok tt)
  | Err e => (st, Err e)
  end.

Definition check_env_entry (env : XEnv) (entry : Z) : X Z :=
  str_bytes <~ reserve_buf env 512;
  let '(s, c) := x_read_str env entry 512 in
  let str_bytes := overlay s str_bytes in
  if negb ((9 <=? c) && (c <=? 512)) then _ <~ discard 512; xfail (to_signed 32 (wrap 32 c))
  else
    let prefix := starts_with ALIAS_PREFIX str_bytes in
    _ <~ discard 512;
    if prefix then xret (wrap 32 (c - 10)) else xfail 0.

(** The branch of [check_env_flag] that found the alias. *)
Definition found_alias (env : XEnv) (entry len : Z) : X unit :=
  _ <~ discard 8;
  let event := event_new (e_pid env) (e_tid env) (e_ts env) (e_ts env) in
  let event := set_ok len (set_tag_fd Alias 0 event) in
  _ <~ send_x env event (entry + 10);
  insert_pid env.

(** The loop of [check_env_flag] from entry [i]. [fuel] bounds the entries that
    are still looked at: the code stops at 0x100. *)
Fixpoint env_loop (fuel : nat) (env : XEnv) (envp i : Z) : X unit :=
  match fuel with
  | O => _ <~ discard 8; xfail 0
  | S fuel =>
      let '(env_str, c) := e_read env (envp + 8 * i) 8 in
      if negb (c =? 0) then _ <~ discard 8; xfail 0
      else
        let entry := le_decode env_str in
        if entry =? 0 then _ <~ discard 8; xfail 0
        else
          xmatch (check_env_entry env entry)
            (fun len => found_alias env entry len)
            (fun _ =>
               if 256 <=? i + 1 then _ <~ discard 8; xfail 0
               else env_loop fuel env envp (i + 1))
  end.

Definition check_env_flag (env : XEnv) (envp : Z) : X unit :=
  if envp =? 0 then xfail 0
  else _ <~ reserve_buf env 8; env_loop 256 env envp 0.

Definition check_arg_entry (env : XEnv) (entry : Z) : X unit :=
  str_bytes <~ reserve_buf env 512;
  let '(s, c) := x_read_str env entry 512 in
  let str_bytes := overlay s str_bytes in
  if negb ((8 <=? c) && (c <=? 512)) then _ <~ discard 512; xfail (to_signed 32 (wrap 32 c))
  else
    let prefix_coda := starts_with CODA_PREFIX str_bytes in
    let prefix_openmina := starts_with OPENMINA_PREFIX str_bytes in
    _ <~ discard 512;
    if prefix_coda || prefix_openmina then xret tt else xfail 0.

Definition check_name (env : XEnv) (argv : Z) : X unit :=
  if argv =? 0 then xfail 0
  else
    _ <~ reserve_buf env 8;
    let '(arg_str, c) := e_read env argv 8 in
    if negb (c =? 0) then _ <~ discard 8; xfail 0
    else
      let entry := le_decode arg_str in
      if entry =? 0 then _ <~ discard 8; xfail 0
      else
        xmatch (check_arg_entry env entry)
          (fun _ => _ <~ discard 8; xret tt)
          (fun _ => _ <~ discard 8; xfail 0).

Definition check_snark_worker (env : XEnv) (argv : Z) : X bool :=
  if argv =? 0 then xfail 0
  else
    _ <~ reserve_buf env 8;
    xmatch (reserve_buf env 16)
      (fun str_bytes =>
         let no := _ <~ discard 16; _ <~ discard 8; xret false in
         let '(arg_str, c) := e_read env (argv + 16) 8 in
         if negb (c =? 0) then no
         else
           let entry := le_decode arg_str in
           if entry =? 0 then no
           else
             let '(s, c) := x_read_str env entry 16 in
             let str_bytes := overlay s str_bytes in
             if c <? 12 then no
             else
               let prefix := starts_with SNARK_PREFIX str_bytes in
               _ <~ discard 16;
               _ <~ discard 8;
               if prefix then
                 let event := event_new (e_pid env) (e_tid env) (e_ts env) (e_ts env) in
                 let event := set_ok 0 (set_tag_fd SnarkWorker 0 event) in
                 _ <~ send_x env event 0;
                 _ <~ insert_pid_snark_worker env;
                 xret prefix
               else xret prefix)
      (fun err => _ <~ discard 8; xfail err).

Definition exec_checks (env : XEnv) (argv envp : Z) : X unit :=
  xmatch (check_snark_worker env argv)
    (fun b : bool => if b then xret tt else _ <~ check_name env argv; check_env_flag env envp)
    (fun _ => _ <~ check_name env argv; check_env_flag env envp).

Definition execve (env : XEnv) (ctx : Context) : X unit := exec_checks env (ctx 24) (ctx 32).
Definition execveat (env : XEnv) (ctx : Context) : X unit := exec_checks env (ctx 32) (ctx 40).



(** * Nothing of the ring buffer stays reserved *)

(** [x] gives back the pieces [k] that were held when it started, and what it
    reserved itself. *)
Definition uses {A} (k : list Z) (x : X A) : Prop :=
  forall st h, x_held st = k ++ h -> x_held (x st).1 = h.

Lemma uses_ret {A} (v : A) : uses [] (xret v).
Proof. by intros st h. Qed.
Lemma uses_fail {A} (e : Z) : uses [] (xfail (A := A) e).
Proof. by intros st h. Qed.
Lemma uses_send (env : XEnv) (e : Event) (ptr : Z) : uses [] (send_x env e ptr).
Proof. intros st h H. unfold send_x. by destruct (send env e ptr (x_app st)). Qed.
Lemma uses_insert (env : XEnv) : uses [] (insert_pid env).
Proof. intros st h H. unfold insert_pid. by case_match. Qed.
Lemma uses_insert_snark (env : XEnv) : uses [] (insert_pid_snark_worker env).
Proof. intros st h H. unfold insert_pid_snark_worker. by case_match. Qed.

Lemma uses_discard {A} (n : Z) (k : list Z) (x : X A) :
  uses k x -> uses (n :: k) (xbind (discard n) (fun _ => x)).
Proof.
  intros Hx st h H. unfold xbind, discard. apply Hx. cbn. rewrite H. cbn. by rewrite Z.eqb_refl.
Qed.

Lemma uses_reserve {A} (env : XEnv) (n : Z) (f : bytes -> X A) :
  (forall b, uses [n] (f b)) -> uses [] (xbind (reserve_buf env n) f).
Proof.
  intros Hf st h H. unfold xbind, reserve_buf. case_match; simplify_eq; case_match; simplify_eq; [|done].
  apply Hf. cbn. by rewrite H.
Qed.

Lemma uses_reserve_match {A} (env : XEnv) (n : Z) (k : list Z) (f : bytes -> X A) (g : Z -> X A) :
  (forall b, uses (n :: k) (f b)) -> (forall e, uses k (g e)) ->
  uses k (xmatch (reserve_buf env n) f g).
Proof.
  intros Hf Hg st h H. unfold xmatch, reserve_buf. case_match; simplify_eq; case_match; simplify_eq.
  - apply Hf. cbn. by rewrite H.
  - by apply Hg.
Qed.

Lemma uses_bind {A B} (k : list Z) (x : X A) (f : A -> X B) :
  uses k x -> (forall v, uses [] (f v)) -> uses k (xbind x f).
Proof.
  intros Hx Hf st h H. specialize (Hx st h H). unfold xbind. destruct (x st) as [st' [v|e]]; [|done].
  by apply Hf.
Qed.

Lemma uses_match {A B} (k : list Z) (x : X A) (f : A -> X B) (g : Z -> X B) :
  uses [] x -> (forall v, uses k (f v)) -> (forall e, uses k (g e)) -> uses k (xmatch x f g).
Proof.
  intros Hx Hf Hg st h H. specialize (Hx st (k ++ h) H). unfold xmatch.
  destruct (x st) as [st' [v|e]]; [by apply Hf|by apply Hg].
Qed.

Ltac balance :=
  repeat match goal with
  | |- forall _, _ => intros ?
  | |- uses [] (xret _) => apply uses_ret
  | |- uses [] (xfail _) => apply uses_fail
  | |- uses [] (send_x _ _ _) => apply uses_send
  | |- uses [] (insert_pid _) => apply uses_insert
  | |- uses [] (insert_pid_snark_worker _) => apply uses_insert_snark
  | |- uses (_ :: _) (xbind (discard _) _) => apply uses_discard
  | |- uses [] (xbind (reserve_buf _ _) _) => apply uses_reserve
  | |- uses _ (xmatch (reserve_buf _ _) _ _) => apply uses_reserve_match
  | |- uses _ (xmatch _ _ _) => apply uses_match
  | |- uses [] (xbind _ _) => apply uses_bind
  | |- uses _ (let '(_, _) := ?e in _) => destruct e
  | |- uses _ (if ?b then _ else _) => destruct b
  | _ => progress cbv zeta
  end.

Lemma uses_check_env_entry (env : XEnv) (entry : Z) : uses [] (check_env_entry env entry).
Proof. unfold check_env_entry. balance. Qed.

Lemma uses_found_alias (env : XEnv) (entry len : Z) : uses [8] (found_alias env entry len).
Proof. unfold found_alias. balance. Qed.

Lemma uses_env_loop (fuel : nat) (env : XEnv) (envp i : Z) : uses [8] (env_loop fuel env envp i).
Proof.
  revert i. induction fuel as [|fuel IH]; intros i; cbn [env_loop]; balance;
    eauto using uses_check_env_entry, uses_found_alias.
Qed.

Lemma uses_check_arg_entry (env : XEnv) (entry : Z) : uses [] (check_arg_entry env entry).
Proof. unfold check_arg_entry. balance. Qed.

Lemma uses_check_name (env : XEnv) (argv : Z) : uses [] (check_name env argv).
Proof. unfold check_name. balance. apply uses_check_arg_entry. Qed.

Lemma uses_check_env_flag (env : XEnv) (envp : Z) : uses [] (check_env_flag env envp).
Proof. unfold check_env_flag. balance. apply uses_env_loop. Qed.

Lemma uses_check_snark_worker (env : XEnv) (argv : Z) : uses [] (check_snark_worker env argv).
Proof. unfold check_snark_worker. balance. Qed.

Lemma uses_exec_checks (env : XEnv) (argv envp : Z) : uses [] (exec_checks env argv envp).
Proof.
  unfold exec_checks. balance; auto using uses_check_snark_worker, uses_check_name, uses_check_env_flag.
Qed.


(** * What the probes decide *)

(** ** The memory of the process *)

Definition Memory : Type := Z -> option Z.

Fixpoint load (mem : Memory) (p : Z) (n : nat) : option bytes :=
  match n with
  | O => Some []
  | S n => b ← mem p; s ← load mem (p + 1) n; Some (b :: s)
  end.

(** A zero-terminated string. *)
Definition cstr_at (mem : Memory) (p : Z) (s : bytes) : Prop :=
  load mem p (length s + 1) = Some (s ++ [0]) /\ 0 ∉ s.

(** An array of pointers to strings that ends with a null pointer. *)
Fixpoint strings_at (mem : Memory) (p : Z) (ss : list bytes) : Prop :=
  match ss with
  | [] => load mem p 8 = Some (le_encode 8 0)
  | s :: ss =>
      (exists q, load mem p 8 = Some (le_encode 8 q) /\ 0 < q < 2 ^ 64 /\ cstr_at mem q s) /\
      strings_at mem (p + 8) ss
  end.

(** The helpers copy from memory that is there; a string is cut to the size of
    the buffer and always ended with a zero. *)
Record helpers (env : XEnv) (mem : Memory) : Prop := {
  h_quiet : quiet env;
  h_read : forall p n s, load mem p n = Some s -> e_read env p (Z.of_nat n) = (s, 0);
  h_str : forall p n s, 0 < n -> cstr_at mem p s ->
    let t := take (Z.to_nat (n - 1)) s in x_read_str env p n = (t ++ [0], blen t + 1);
}.

Inductive Verdict : Type :=
| Ignored
| IsSnarkWorker
| IsWatched (entry : bytes).

(** The third argument makes a snark worker; the first one makes a node, which is
    watched if one of its first 256 environment variables names an alias. *)
Definition classify (args envs : list bytes) : Verdict :=
  if from_option (starts_with SNARK_PREFIX) false (args !! 2%nat) then IsSnarkWorker
  else if from_option (fun a => starts_with CODA_PREFIX a || starts_with OPENMINA_PREFIX a) false
                      (args !! 0%nat) then
    match List.find (starts_with ALIAS_PREFIX) (take 256 envs) with
    | Some entry => IsWatched entry
    | None => Ignored
    end
  else Ignored.

(** How the recorder sees the alias: without the prefix and the character after
    it, cut at 501 bytes. For an entry that is only the prefix the probe sends no
    bytes, and the recorder takes one away from that. *)
Definition alias_seen (entry : bytes) : outcome (option SnifferEventVariant) :=
  if blen entry =? 9 then Panic
  else
    let s := take 501 (drop 10 entry) in
    Ret (Some (NewApp (if utf8_valid s then s else str "invalid_uft8_alias"))).

Section decision.
Context (env : XEnv) (mem : Memory) (Hh : helpers env mem).

Lemma load_sub (p : Z) (n k m : nat) (s : bytes) :
  load mem p n = Some s -> (k + m <= n)%nat ->
  load mem (p + Z.of_nat k) m = Some (take m (drop k s)).
Proof.
  revert p n s. induction k as [|k IH]; intros p n s H Hn.
  - rewrite Z.add_0_r, drop_0. revert p n s H Hn.
    induction m as [|m IHm]; intros p [|n] s H Hn; cbn in *; try lia; [done|done|].
    destruct (mem p) as [b|]; [|done]. cbn in *. destruct (load mem (p + 1) n) as [t|] eqn:E; [|done].
    cbn in H. simplify_eq. rewrite (IHm _ _ _ E) by lia. done.
  - destruct n as [|n]; [lia|]. cbn in H. destruct (mem p) as [b|]; [|done]. cbn in *.
    destruct (load mem (p + 1) n) as [t|] eqn:E; [|done]. cbn in H. simplify_eq.
    specialize (IH _ _ _ E ltac:(lia)). cbn [drop]. rewrite <- IH. f_equal. lia.
Qed.

Lemma read_ptr (p q : Z) :
  load mem p 8 = Some (le_encode 8 q) -> 0 <= q < 2 ^ 64 ->
  exists s, e_read env p 8 = (s, 0) /\ le_decode s = q.
Proof.
  intros H Hq. exists (le_encode 8 q). split; [apply (h_read _ _ Hh p 8 _ H)|].
  by apply le_decode_encode.
Qed.

(** The reused bytes of the buffer never decide: the zero at the end of a short
    string stops the comparison. *)
Lemma starts_with_overlay (name s buffer : bytes) (n : nat) :
  0 ∉ name -> (length name <= n)%nat ->
  starts_with name (overlay (take n s ++ [0]) buffer) = starts_with name s.
Proof.
  unfold overlay. generalize (drop (length (take n s ++ [0])) buffer) as rest. intros rest.
  rewrite <- app_assoc. cbn [app].
  revert s n. induction name as [|a name IH]; intros s n Hz Hn; [by destruct (take n s)|].
  destruct n as [|n]; cbn in Hn; [lia|]. apply not_elem_of_cons in Hz as [Ha Hz].
  destruct s as [|b s]; cbn.
  - by rewrite (proj2 (Z.eqb_neq a 0)) by done.
  - by rewrite IH by (done || lia).
Qed.

Lemma starts_with_length (p s : bytes) : starts_with p s = true -> (length p <= length s)%nat.
Proof. intros [r ->]%starts_with_true. rewrite length_app. lia. Qed.

Lemma reserve_ok (n : Z) (st : XState) :
  0 <= n -> exists b, reserve_buf env n st = (mkXState (x_app st) (n :: x_held st), Ok b).
Proof.
  intros Hn. unfold reserve_buf.
  destruct (q_reserve _ (h_quiet _ _ Hh) (event_queue (x_app st)) n Hn) as (b & -> & _). eauto.
Qed.

Lemma discard_held (n : Z) (a : App) (held : list Z) :
  discard n (mkXState a (n :: held)) = (mkXState a held, Ok tt).
Proof. unfold discard. cbn. by rewrite Z.eqb_refl. Qed.

(** How many bytes of the entry follow the tenth, with its zero. *)
Definition alias_len (entry : bytes) : Z := Z.min (blen entry) 511 - 9.

Lemma check_env_entry_spec (p : Z) (e : bytes) (st : XState) :
  cstr_at mem p e ->
  exists r, check_env_entry env p st = (st, r) /\
    match r with
    | Ok len => starts_with ALIAS_PREFIX e = true /\ len = alias_len e /\ 9 <= blen e
    | Err _ => starts_with ALIAS_PREFIX e = false
    end.
Proof.
  intros He. unfold check_env_entry, xbind. destruct (reserve_ok 512 st ltac:(lia)) as [b ->].
  rewrite (h_str _ _ Hh p 512 e) by (done || lia). change (Z.to_nat (512 - 1)) with 511%nat.
  assert (blen (take 511 e) = Z.min (blen e) 511) as Hl by (unfold blen; rewrite length_take; lia).
  rewrite Hl, starts_with_overlay by (set_solver || cbn; lia).
  destruct st as [a held]. cbn [x_app x_held].
  pose proof (starts_with_length ALIAS_PREFIX e) as Hp. change (length ALIAS_PREFIX) with 9%nat in Hp.
  unfold alias_len.
  destruct (negb _) eqn:Ec; [|destruct (starts_with ALIAS_PREFIX e)];
    rewrite discard_held; eexists; (split; [done|]).
  - to_prop. destruct (starts_with ALIAS_PREFIX e); [|done]. specialize (Hp eq_refl). unfold blen in *. lia.
  - specialize (Hp eq_refl). unfold blen in *. rewrite wrap_small by lia. lia.
  - done.
Qed.

Lemma check_arg_entry_spec (p : Z) (s : bytes) (st : XState) :
  cstr_at mem p s ->
  exists r, check_arg_entry env p st = (st, r) /\
    (match r with Ok _ => true | Err _ => false end) = (starts_with CODA_PREFIX s || starts_with OPENMINA_PREFIX s).
Proof.
  intros He. unfold check_arg_entry, xbind. destruct (reserve_ok 512 st ltac:(lia)) as [b ->].
  rewrite (h_str _ _ Hh p 512 s) by (done || lia). change (Z.to_nat (512 - 1)) with 511%nat.
  assert (blen (take 511 s) = Z.min (blen s) 511) as Hl by (unfold blen; rewrite length_take; lia).
  rewrite Hl, !starts_with_overlay by (set_solver || cbn; lia).
  destruct st as [a held]. cbn [x_app x_held].
  pose proof (starts_with_length CODA_PREFIX s) as Hc. pose proof (starts_with_length OPENMINA_PREFIX s) as Ho.
  change (length CODA_PREFIX) with 18%nat in Hc. change (length OPENMINA_PREFIX) with 8%nat in Ho.
  destruct (negb _) eqn:Ec; [|destruct (_ || _)];
    rewrite discard_held; eexists; (split; [done|]); try done.
  to_prop. unfold blen in *. destruct (starts_with CODA_PREFIX s); [specialize (Hc eq_refl); lia|].
  destruct (starts_with OPENMINA_PREFIX s); [specialize (Ho eq_refl); lia|done].
Qed.

Lemma check_name_spec (argv : Z) (args : list bytes) (st : XState) :
  argv <> 0 -> strings_at mem argv args ->
  check_name env argv st =
    (st, if from_option (fun a => starts_with CODA_PREFIX a || starts_with OPENMINA_PREFIX a) false
                        (args !! 0%nat) then Ok tt else Err 0).
Proof.
  intros Hn Ha. unfold check_name, xbind, xmatch. rewrite (proj2 (Z.eqb_neq argv 0) Hn).
  destruct (reserve_ok 8 st ltac:(lia)) as [b ->]. destruct st as [a held]. cbn [x_app x_held].
  destruct args as [|s args]; cbn [strings_at] in Ha.
  - destruct (read_ptr argv 0 Ha ltac:(lia)) as (bs & -> & ->). cbn [Z.eqb negb]. by rewrite discard_held.
  - destruct Ha as [(q & Hq & Hr & Hs) _].
    destruct (read_ptr argv q Hq ltac:(lia)) as (bs & -> & ->). cbn [negb Z.eqb].
    rewrite (proj2 (Z.eqb_neq q 0)) by lia.
    destruct (check_arg_entry_spec q s (mkXState a (8 :: held)) Hs) as (r & -> & Er).
    cbn [lookup list_lookup from_option]. rewrite <- Er. by destruct r; rewrite discard_held.
Qed.

Lemma env_loop_spec (fuel : nat) (envp i : Z) (envs : list bytes) (a : App) (held : list Z) :
  i + Z.of_nat fuel = 256 -> strings_at mem (envp + 8 * i) envs ->
  match List.find (starts_with ALIAS_PREFIX) (take fuel envs) with
  | Some e => exists q, cstr_at mem q e /\ 9 <= blen e /\
      env_loop fuel env envp i (mkXState a (8 :: held))
      = found_alias env q (alias_len e) (mkXState a (8 :: held))
  | None => env_loop fuel env envp i (mkXState a (8 :: held)) = (mkXState a held, Err 0)
  end.
Proof.
  revert i envs. induction fuel as [|fuel IH]; intros i envs Hi Hs; cbn [env_loop take].
  { unfold xbind. by rewrite discard_held. }
  destruct envs as [|e envs]; cbn [strings_at] in Hs.
  - destruct (read_ptr _ 0 Hs ltac:(lia)) as (bs & -> & ->). cbn [take List.find negb Z.eqb].
    unfold xbind. by rewrite discard_held.
  - destruct Hs as [(q & Hq & Hr & Hc) Hs].
    destruct (read_ptr _ q Hq ltac:(lia)) as (bs & -> & ->). cbn [take List.find negb Z.eqb].
    rewrite (proj2 (Z.eqb_neq q 0)) by lia. unfold xmatch.
    destruct (check_env_entry_spec q e (mkXState a (8 :: held)) Hc) as ([len|err] & -> & Hv).
    + destruct Hv as (-> & -> & ?). by exists q.
    + rewrite Hv. replace (envp + 8 * i + 8) with (envp + 8 * (i + 1)) in Hs by lia.
      destruct (Z.leb_spec 256 (i + 1)).
      * replace fuel with 0%nat by lia. cbn [take List.find]. unfold xbind. by rewrite discard_held.
      * apply IH; [lia|done].
Qed.

(** A record of at most 512 bytes reaches the recorder. *)
Lemma send_record (e : Event) (ptr : Z) (payload : bytes) (a : App) :
  wf_event e -> ev_size e = blen payload -> blen payload <= 512 ->
  e_read env ptr (blen payload) = (payload, 0) ->
  exists s, send env e ptr a = (set_queue (event_queue a ++ [s]) a, Ok tt) /\
    from_rb_slice s
    = (v ← read_variant (ev_tag e) payload; Ret (Ok (option_map (sniffer_event e) v))).
Proof.
  intros Hw Hs Hl Hr. destruct (h_quiet _ _ Hh) as [Hres _ Hp _ _ _]. pose proof (blen_nonneg payload).
  pose proof (event_bytes_length (e_pad env) e Hp) as He. unfold send.
  destruct (decide (blen payload = 0)) as [H0|Hne].
  - assert (payload = []) as -> by (apply blen_0_inv; lia). change (ev_size e = 0) in Hs.
    unfold dyn_sized, sized. rewrite Hs. cbn [Z.leb Z.compare]. cbn [andb Z.ltb Z.compare reserve].
    destruct (Hres (event_queue a) EVENT_SIZE ltac:(done)) as (b & -> & Hb).
    eexists. split; [done|]. unfold write_event. rewrite drop_ge by (unfold blen, EVENT_SIZE in Hb; lia).
    apply (sniffer_read (e_pad env) e [] []); [done|done|by rewrite Hs].
  - assert (exists m, size_class (ev_size e) m) as [m Hc].
    { unfold size_class. rewrite Hs. destruct (Z.leb_spec (blen payload) 256);
        [exists 8; repeat split; (left || idtac); cbn; lia|exists 9; repeat split; (right || idtac); cbn; lia]. }
    rewrite (dyn_sized_class _ _ _ m Hc). destruct Hc as (Hm & Hsz & _). unfold sized.
    rewrite (proj2 (Z.ltb_lt 0 _)), (proj2 (Z.leb_le _ (2 ^ m))) by lia. cbn [andb reserve probe_read].
    rewrite to_copy_size by lia.
    destruct (Hres (event_queue a) (2 ^ m + EVENT_SIZE) ltac:(unfold EVENT_SIZE; lia)) as (b & -> & Hb).
    rewrite Hs, Hr. cbn [Z.ltb Z.compare]. eexists. split; [done|]. unfold write_event.
    rewrite drop_app_length' by (rewrite length_take; unfold blen, EVENT_SIZE in Hb; lia).
    by apply sniffer_read.
Qed.

Lemma exec_event_wf (tag : DataTag) (len : Z) :
  0 <= len <= 512 ->
  wf_event (set_ok len (set_tag_fd tag 0 (event_new (e_pid env) (e_tid env) (e_ts env) (e_ts env)))) /\
  ev_size (set_ok len (set_tag_fd tag 0 (event_new (e_pid env) (e_tid env) (e_ts env) (e_ts env)))) = len.
Proof.
  intros Hl. destruct (h_quiet _ _ Hh) as [_ _ _ Hp Ht Hs]. unfold wf_event. cbn [set_ok set_size ev_fd ev_pid
    ev_tid ev_ts0 ev_ts1 ev_size set_tag_fd event_new].
  rewrite to_signed_wrap by lia. repeat split; lia.
Qed.

(** What the recorder makes of a record of this process. *)
Definition seen (v : option SnifferEventVariant) : outcome (result (option SnifferEvent) unit) :=
  Ret (Ok (option_map (mkSnifferEvent (e_pid env) (e_tid env) 0 (e_ts env) (e_ts env)) v)).

Lemma found_alias_spec (q : Z) (e : bytes) (a : App) (held : list Z) (m : M) :
  cstr_at mem q e -> 9 <= blen e -> bm_insert (e_pid env) 4294967295 (app_pid a) = Ok m ->
  exists s, found_alias env q (alias_len e) (mkXState a (8 :: held))
    = (mkXState (mkApp (event_queue a ++ [s]) m (pid_snark_worker a) (context_parameters a) (connections a))
                held, Ok tt) /\
    from_rb_slice s = (v ← alias_seen e; seen v).
Proof.
  intros [Hc _] He Hm. unfold found_alias, xbind. rewrite discard_held.
  set (len := alias_len e). assert (0 <= len <= 502) as Hlen by (unfold len, alias_len; lia).
  destruct (exec_event_wf Alias len ltac:(lia)) as [Hw Hsz].
  set (payload := take (Z.to_nat len) (drop 10 (e ++ [0]))).
  assert (blen payload = len) as Hpl.
  { unfold payload. rewrite blen_take; [done|]. unfold blen in *. rewrite length_drop, length_app. cbn.
    unfold len, alias_len, blen. lia. }
  assert (e_read env (q + 10) (blen payload) = (payload, 0)) as Hr.
  { rewrite Hpl, <- (Z2Nat.id len) by lia. apply (h_read _ _ Hh).
    apply (load_sub q _ 10 _ _ Hc). unfold len, alias_len in *. unfold blen in *. lia. }
  destruct (send_record _ (q + 10) payload a Hw ltac:(by rewrite Hsz, Hpl) ltac:(lia) Hr) as (s & Es & Hs).
  unfold send_x. cbn [x_app x_held]. rewrite Es. unfold insert_pid. cbn [x_app app_pid set_queue]. rewrite Hm.
  exists s. split; [done|]. rewrite Hs. unfold alias_seen. cbn [ev_tag set_ok set_size set_tag_fd read_variant].
  destruct (Z.eqb_spec (blen e) 9) as [H9|H9].
  - assert (len = 0) as H0 by (unfold len, alias_len; lia). unfold slice_to, slice. rewrite !Hpl, H0. done.
  - assert (1 <= len) by (unfold len, alias_len; lia).
    rewrite Hpl, wrap_small by lia. rewrite slice_to_within by lia. cbn [mbind outcome_bind].
    replace (take (Z.to_nat (len - 1)) payload) with (take 501 (drop 10 e)); [done|].
    unfold payload. rewrite take_take. rewrite drop_app_le by (unfold blen in *; lia).
    destruct (Z.leb_spec (blen e) 511).
    + rewrite take_ge by (rewrite length_drop; unfold blen in *; lia).
      rewrite take_app_length' by (rewrite length_drop; unfold len, alias_len, blen in *; lia). done.
    + rewrite take_app_le by (rewrite length_drop; unfold len, alias_len, blen in *; lia).
      f_equal. unfold len, alias_len. lia.
Qed.

Lemma check_snark_worker_spec (argv : Z) (args : list bytes) (a : App) (held : list Z) (m : M) :
  argv <> 0 -> strings_at mem argv args -> (2 <= length args)%nat ->
  bm_insert (e_pid env) 4294967295 (pid_snark_worker a) = Ok m ->
  if from_option (starts_with SNARK_PREFIX) false (args !! 2%nat) then
    exists s, check_snark_worker env argv (mkXState a held)
      = (mkXState (mkApp (event_queue a ++ [s]) (app_pid a) m (context_parameters a) (connections a)) held, Ok true) /\
      from_rb_slice s = seen (Some NewSnarkWorkerApp)
  else check_snark_worker env argv (mkXState a held) = (mkXState a held, Ok false).
Proof.
  intros Hn Ha Hl Hm. assert (strings_at mem (argv + 16) (drop 2 args)) as Ha2.
  { destruct args as [|a0 [|a1 args]]; cbn in Hl; [lia|lia|]. destruct Ha as [_ [_ Ha]].
    cbn [drop]. by replace (argv + 16) with (argv + 8 + 8) by lia. }
  unfold check_snark_worker, xbind, xmatch. rewrite (proj2 (Z.eqb_neq argv 0) Hn).
  destruct (reserve_ok 8 (mkXState a held) ltac:(lia)) as [b8 ->]. cbn [x_app x_held].
  destruct (reserve_ok 16 (mkXState a (8 :: held)) ltac:(lia)) as [b16 ->]. cbn [x_app x_held].
  replace (args !! 2%nat) with (drop 2 args !! 0%nat) by (by rewrite lookup_drop).
  destruct (drop 2 args) as [|s rest]; cbn [strings_at lookup list_lookup from_option] in *.
  { destruct (read_ptr _ 0 Ha2 ltac:(lia)) as (bs & -> & ->). cbn [negb Z.eqb]. by rewrite !discard_held. }
  destruct Ha2 as [(q & Hq & Hr & Hs) _]. destruct (read_ptr _ q Hq ltac:(lia)) as (bs & -> & ->).
  cbn [negb Z.eqb]. rewrite (proj2 (Z.eqb_neq q 0)) by lia.
  rewrite (h_str _ _ Hh q 16 s) by (done || lia). change (Z.to_nat (16 - 1)) with 15%nat.
  assert (blen (take 15 s) = Z.min (blen s) 15) as Hls by (unfold blen; rewrite length_take; lia).
  rewrite Hls, starts_with_overlay by (set_solver || cbn; lia).
  pose proof (starts_with_length SNARK_PREFIX s) as Hp. change (length SNARK_PREFIX) with 12%nat in Hp.
  destruct (Z.ltb_spec (Z.min (blen s) 15 + 1) 12) as [Hc|Hc]; rewrite !discard_held.
  { destruct (starts_with SNARK_PREFIX s); [|done]. specialize (Hp eq_refl). unfold blen in Hc. lia. }
  destruct (starts_with SNARK_PREFIX s); [|done].
  destruct (exec_event_wf SnarkWorker 0 ltac:(lia)) as [Hw Hsz].
  destruct (send_record _ 0 [] a Hw ltac:(by rewrite Hsz) ltac:(done)
    (h_read _ _ Hh 0 0 [] eq_refl)) as (r & Er & Hv).
  unfold send_x. cbn [x_app x_held]. rewrite Er. unfold insert_pid_snark_worker.
  cbn [x_app pid_snark_worker set_queue]. rewrite Hm. by exists r.
Qed.

End decision.

Lemma watched_insert `{!BpfMapLaws Z Z M} (pid : Z) (t t' : M) :
  bm_insert pid 4294967295 t = Ok t' -> watched pid t' = true.
Proof. intros H. unfold watched. by rewrite (proj1 (bm_get_insert _ _ _ _ pid H)). Qed.

(** C29: the probes on [execve] and [execveat] decide as specified. For a program
    with at least two arguments, with room in the ring buffer and in the tables, what
    happens is what [classify] says of the arguments and the environment: a program
    of no interest leaves every table, the queue and the ring buffer as they were; a
    snark worker is entered in its table and announced; a node whose environment
    names an alias is entered in the table of watched processes, so that the probes
    on its calls run from then on, and the recorder reads the announced alias, cut at 501 bytes, or a placeholder for text that is
    not UTF-8. The comparisons never depend on the old bytes of the reused buffer. An
    environment entry that is the nine letters of the prefix and nothing else makes
    the recorder panic. *)
Theorem exec_classifies `{!BpfMapLaws Z Z M} (env : XEnv) (mem : Memory) (ctx : Context) (at_call : bool)
    (args envs : list bytes) (a : App) (held : list Z) (m ms : M) :
  let argv := ctx (if at_call then 32 else 24) in
  let envp := ctx (if at_call then 40 else 32) in
  helpers env mem -> argv <> 0 -> envp <> 0 -> strings_at mem argv args -> strings_at mem envp envs ->
  (2 <= length args)%nat ->
  bm_insert (e_pid env) 4294967295 (app_pid a) = Ok m ->
  bm_insert (e_pid env) 4294967295 (pid_snark_worker a) = Ok ms ->
  let run := (if at_call then execveat env ctx else execve env ctx) (mkXState a held) in
  match classify args envs with
  | Ignored => run = (mkXState a held, Err 0)
  | IsSnarkWorker => exists s,
      run = (mkXState (mkApp (event_queue a ++ [s]) (app_pid a) ms (context_parameters a) (connections a))
                      held, Ok tt) /\
      from_rb_slice s = seen env (Some NewSnarkWorkerApp) /\
      check_pid_snark_worker env (x_app run.1) = Ok tt
  | IsWatched e => exists s,
      run = (mkXState (mkApp (event_queue a ++ [s]) m (pid_snark_worker a) (context_parameters a) (connections a))
                      held, Ok tt) /\
      from_rb_slice s = (v ← alias_seen e; seen env v) /\
      check_pid env (x_app run.1) = Ok tt
  end.
Proof.
  intros argv envp Hh Hav Hep Ha He Hl Hm Hms run.
  assert (run = exec_checks env argv envp (mkXState a held)) as -> by (unfold run; by destruct at_call).
  unfold exec_checks, xmatch, xbind, classify.
  pose proof (check_snark_worker_spec env mem Hh argv args a held ms Hav Ha Hl Hms) as Hsw.
  destruct (from_option (starts_with SNARK_PREFIX) false (args !! 2%nat)).
  { destruct Hsw as (s & -> & Hs). exists s. split_and!; [done..|]. unfold check_pid_snark_worker. cbn.
    by rewrite (watched_insert _ _ _ Hms). }
  rewrite Hsw, (check_name_spec env mem Hh argv args) by done.
  destruct (from_option _ false (args !! 0%nat)); [|done].
  unfold check_env_flag, xbind. rewrite (proj2 (Z.eqb_neq envp 0) Hep).
  destruct (reserve_ok env mem Hh 8 (mkXState a held) ltac:(lia)) as [b ->]. cbn [x_app x_held].
  pose proof (env_loop_spec env mem Hh 256 envp 0 envs a held eq_refl
    ltac:(by rewrite Z.mul_0_r, Z.add_0_r)) as Hf.
  destruct (List.find _ _) as [e|]; [|done]. destruct Hf as (q & Hq & Hb & ->).
  destruct (found_alias_spec env mem Hh q e a held m Hq Hb Hm) as (s & -> & Hs).
  exists s. split_and!; [done..|]. unfold check_pid. cbn. by rewrite (watched_insert _ _ _ Hm).
Qed.

End exec.

(** * A memory and the helpers on it *)

Fixpoint read_str_from (mem : Memory) (p : Z) (n : nat) : option bytes :=
  match n with
  | O => Some []
  | S n => b ← mem p; if b =? 0 then Some [] else cons b <$> read_str_from mem (p + 1) n
  end.

Definition mem_env (mem : Memory) (pid tid ts : Z) : XEnv :=
  mkXEnv (mkEnv pid tid ts (fun _ n => Ok (repeat 0 (Z.to_nat n)))
            (fun p n => match load mem p (Z.to_nat n) with
                        | Some s => (s, 0)
                        | None => (repeat 0 (Z.to_nat n), -14)
                        end)
            [0; 0; 0; 0])
         (fun p n => match read_str_from mem p (Z.to_nat (n - 1)) with
                     | Some t => (t ++ [0], blen t + 1)
                     | None => ([], -14)
                     end).

Lemma load_length (mem : Memory) (p : Z) (n : nat) (s : bytes) : load mem p n = Some s -> length s = n.
Proof.
  revert p s. induction n as [|n IH]; intros p s H; cbn in H; [by simplify_eq|].
  destruct (mem p); [|done]. cbn in H. destruct (load mem (p + 1) n) as [t|] eqn:E; [|done].
  cbn in H. simplify_eq. cbn. by rewrite (IH _ _ E).
Qed.

Lemma read_str_cstr (mem : Memory) (p : Z) (n : nat) (s : bytes) :
  cstr_at mem p s -> read_str_from mem p n = Some (take n s).
Proof.
  revert p s. induction n as [|n IH]; intros p s [H Hz]; [done|].
  destruct s as [|b s]; cbn in *; destruct (mem p) as [c|]; try done; cbn in *.
  - by simplify_eq.
  - destruct (load mem (p + 1) (length s + 1)) as [t|] eqn:E; [|done]. cbn in H. simplify_eq.
    apply not_elem_of_cons in Hz as [Hb Hz]. rewrite (proj2 (Z.eqb_neq b 0)) by done.
    by rewrite (IH (p + 1) s).
Qed.

Lemma mem_helpers (mem : Memory) (pid tid ts : Z) :
  0 <= pid < 2 ^ 32 -> 0 <= tid < 2 ^ 32 -> 0 <= ts < 2 ^ 64 -> helpers (mem_env mem pid tid ts) mem.
Proof.
  intros Hp Ht Hs. split.
  - split; try done.
    + intros q n Hn. eexists. split; [done|]. unfold blen. rewrite repeat_length. lia.
    + intros p n Hn. cbn. destruct (load mem p (Z.to_nat n)) as [s|] eqn:E; cbn; unfold blen.
      * rewrite (load_length _ _ _ _ E). lia.
      * rewrite repeat_length. lia.
  - intros p n s H. cbn. by rewrite Nat2Z.id, H.
  - intros p n s Hn H. cbn. by rewrite (read_str_cstr _ _ _ _ H).
Qed.

(** The bytes [s] from address [base] on. *)
Definition mem_at (base : Z) (s : bytes) : Memory := fun p =>
  if base <=? p then s !! Z.to_nat (p - base) else None.

(** Two arguments, one variable, and the strings behind them. *)
Definition demo_memory : Memory :=
  mem_at 4096 (le_encode 8 4144 ++ le_encode 8 4163 ++ le_encode 8 0 ++
               le_encode 8 4166 ++ le_encode 8 0 ++ le_encode 8 0 ++
               str "coda-libp2p_helper" ++ [0] ++ str "-x" ++ [0] ++ str "BPF_ALIAS=seed" ++ [0]).

Definition demo_exec_env : XEnv := mem_env demo_memory 77 78 1000.
Definition demo_exec_ctx : Context := fun o => if o =? 24 then 4096 else 4120.

Lemma demo_args_at : strings_at demo_memory 4096 [str "coda-libp2p_helper"; str "-x"].
Proof.
  split; [exists 4144|split; [exists 4163|vm_compute; reflexivity]];
    (split; [vm_compute; reflexivity|]); (split; [lia|]); (split; [vm_compute; reflexivity|]);
    apply (bool_decide_unpack _); vm_compute; exact I.
Qed.

Lemma demo_envs_at : strings_at demo_memory 4120 [str "BPF_ALIAS=seed"].
Proof.
  split; [exists 4166|vm_compute; reflexivity].
  split; [vm_compute; reflexivity|]. split; [lia|]. split; [vm_compute; reflexivity|].
  apply (bool_decide_unpack _); vm_compute; exact I.
Qed.

Lemma demo_verdict :
  classify [str "coda-libp2p_helper"; str "-x"] [str "BPF_ALIAS=seed"] = IsWatched (str "BPF_ALIAS=seed").
Proof. vm_compute. reflexivity. Qed.

Lemma exec_classifies_witness :
  exists s, execve demo_exec_env demo_exec_ctx (mkXState demo_app [])
    = (mkXState (mkApp [s] (<[77 := 4294967295]> (app_pid demo_app)) (pid_snark_worker demo_app)
                       (context_parameters demo_app) (connections demo_app)) [], Ok tt) /\
    from_rb_slice s = Ret (Ok (Some (mkSnifferEvent 77 78 0 1000 1000 (NewApp (str "seed"))))) /\
    check_pid demo_exec_env (x_app (execve demo_exec_env demo_exec_ctx (mkXState demo_app [])).1) = Ok tt.
Proof.
  assert (Hmap : forall t : gmap Z Z, (Z.of_nat (size t) <? 16384) = true ->
    bm_insert 77 4294967295 t = Ok (<[77 := 4294967295]> t)).
  { intros t Ht. cbn. by rewrite Ht, orb_true_r. }
  pose proof (exec_classifies demo_exec_env demo_memory demo_exec_ctx false
    [str "coda-libp2p_helper"; str "-x"] [str "BPF_ALIAS=seed"] demo_app []
    (<[77 := 4294967295]> (app_pid demo_app)) (<[77 := 4294967295]> (pid_snark_worker demo_app))
    (mem_helpers demo_memory 77 78 1000 ltac:(lia) ltac:(lia) ltac:(lia)) ltac:(done) ltac:(done)
    demo_args_at demo_envs_at ltac:(done) (Hmap (app_pid demo_app) eq_refl) (Hmap (pid_snark_worker demo_app) eq_refl)) as H.
  cbv zeta in H. rewrite demo_verdict in H. destruct H as (s & E & F & G).
  exists s. split; [exact E|]. split; [|exact G]. rewrite F. vm_compute. reflexivity.
Defined.

(** ** A program with a single argument

    The third argument is read without looking at how many there are: what follows
    the null pointer of a shorter array decides. Here it is a pointer to the text
    [snark-worker], and the node is taken for a snark worker. *)
Definition short_memory : Memory :=
  mem_at 4096 (le_encode 8 4144 ++ le_encode 8 0 ++ le_encode 8 4163 ++
               le_encode 8 4176 ++ le_encode 8 0 ++ le_encode 8 0 ++
               str "coda-libp2p_helper" ++ [0] ++ str "snark-worker" ++ [0] ++ str "BPF_ALIAS=seed" ++ [0]).

Lemma short_args_at : strings_at short_memory 4096 [str "coda-libp2p_helper"].
Proof.
  split; [exists 4144|vm_compute; reflexivity].
  split; [vm_compute; reflexivity|]. split; [lia|]. split; [vm_compute; reflexivity|].
  apply (bool_decide_unpack _); vm_compute; exact I.
Qed.

Lemma third_argument_past_the_end :
  let env := mem_env short_memory 77 78 1000 in
  let st := (execve env demo_exec_ctx (mkXState demo_app [])).1 in
  check_pid_snark_worker env (x_app st) = Ok tt /\ check_pid env (x_app st) = Err 0.
Proof. vm_compute. done. Qed.
