(* ===== verification/Firewall.v ===== *)
(** The firewall: the program at the network interface that drops packets
    ([disable_connections] of [bpf-recorder/src/main.rs]) and the server that
    changes its tables and reports what was dropped
    ([mina-recorder/src/application.rs]).

    The headers of a packet are read at the offsets of Ethernet, IPv4, IPv6 and
    TCP headers without options, as the [network_types] structures give them. *)

From stdpp Require Import base list gmap sorting.
From Stdlib Require Import ZArith Lia.
From S2P Require Import Prelude Types Probes.

(** * Walking over the keys of a map *)

(** The keys in the order of [bpf_map_get_next_key]. *)
Class BpfKeys (K M : Type) : Type := bm_keys : M -> list K.

Class BpfKeysLaws (K V M : Type) `{!BpfMap K V M, !BpfKeys K M} : Prop := {
  bm_keys_nodup : forall m : M, NoDup (bm_keys m);
  bm_keys_elem : forall (m : M) (k : K), k ∈ bm_keys m <-> is_Some (bm_get (V := V) k m);
}.

(** [get_mut_unsafe]: writing through the pointer to an existing value. *)
Class BpfMut (K V M : Type) : Type := bm_set : K -> V -> M -> M.

Class BpfMutLaws (K V M : Type) `{!BpfMap K V M, !BpfMut K V M} : Prop :=
  bm_get_set : forall (k k' : K) (v : V) (m : M), is_Some (bm_get (V := V) k m) ->
    (k' = k -> bm_get k' (bm_set k v m) = Some v) /\
    (k' <> k -> bm_get (V := V) k' (bm_set k v m) = bm_get k' m).

(** [bpf_map_get_next_key]: the first key for a null pointer or for a key that is
    not in the map, else the one after it. *)
Fixpoint next_after {K} `{!EqDecision K} (k : K) (l : list K) : option K :=
  match l with
  | [] => None
  | x :: l => if decide (x = k) then head l else next_after k l
  end.

Definition next_key {K M} `{!EqDecision K, !BpfKeys K M} (key : option K) (m : M) : option K :=
  match key with
  | None => head (bm_keys m)
  | Some k => if decide (k ∈ bm_keys m) then next_after k (bm_keys m) else head (bm_keys m)
  end.

(** * Packets *)

Inductive Action : Type := Aborted | Drop | Pass.

Record StatsBlocked : Type := mkStatsBlocked { packets : Z; bl_bytes : Z }.

Definition ETH_LEN : Z := 14.
Definition IPV4_LEN : Z := 20.
Definition IPV6_LEN : Z := 40.
Definition TCP_LEN : Z := 20.

Definition at_ (off len : Z) (data : bytes) : bytes := take (Z.to_nat len) (drop (Z.to_nat off) data).

Definition zeros16 : bytes := repeat 0 16.
Definition mapped_prefix : bytes := repeat 0 10 ++ [255; 255].

Section firewall.
Context {W B : Type} `{!BpfMap bytes Z W, !BpfMap bytes StatsBlocked B, !BpfMut bytes StatsBlocked B}.

Record Firewall : Type := mkFirewall { whitelist : W; whitelist_ports : W; blocked : B }.

Definition present (k : bytes) (m : W) : bool :=
  match bm_get k m with Some _ => true | None => false end.

(** The packet is counted and dropped. *)
Definition block (key : bytes) (packet_size : Z) (fw : Firewall) : Firewall * result Action Z :=
  let size := wrap 32 packet_size in
  match bm_get key (blocked fw) with
  | Some v =>
      let v := mkStatsBlocked (wrap 32 (packets v + 1)) (wrap 32 (bl_bytes v + size)) in
      (mkFirewall (whitelist fw) (whitelist_ports fw) (bm_set key v (blocked fw)), Ok Drop)
  | None =>
      match bm_insert key (mkStatsBlocked 1 size) (blocked fw) with
      | Ok b => (mkFirewall (whitelist fw) (whitelist_ports fw) b, Ok Drop)
      | Err e => (fw, Err e)
      end
  end.

(** The branches of the two versions: where the TCP header starts, the protocol
    byte and the two addresses. *)
Definition on_tcp (tcp : Z) (src_ip dst_ip : bytes) (data : bytes) (fw : Firewall)
    : Firewall * result Action Z :=
  if blen data <? tcp + TCP_LEN then (fw, Ok Aborted)
  else
    let packet_size := blen data - tcp + TCP_LEN in
    let src_port := at_ tcp 2 data in
    let dst_port := at_ (tcp + 2) 2 data in
    if negb (present src_port (whitelist_ports fw)) && negb (present dst_port (whitelist_ports fw))
    then (fw, Ok Pass)
    else if present src_ip (whitelist fw) then (fw, Ok Pass)
    else block (src_ip ++ src_port ++ dst_ip ++ dst_port) packet_size fw.

Definition disable_connections (data : bytes) (fw : Firewall) : Firewall * result Action Z :=
  if present zeros16 (whitelist fw) then (fw, Ok Pass)
  else if blen data <=? ETH_LEN then (fw, Ok Aborted)
  else
    let ether_type := be_decode (at_ 12 2 data) in
    if ether_type =? 2048 then
      if blen data <=? ETH_LEN + IPV4_LEN then (fw, Ok Aborted)
      else if negb (be_decode (at_ (ETH_LEN + 9) 1 data) =? 6) then (fw, Ok Pass)
      else on_tcp (ETH_LEN + IPV4_LEN) (mapped_prefix ++ at_ (ETH_LEN + 12) 4 data)
                  (mapped_prefix ++ at_ (ETH_LEN + 16) 4 data) data fw
    else if ether_type =? 34525 then
      if blen data <=? ETH_LEN + IPV6_LEN then (fw, Ok Aborted)
      else if negb (be_decode (at_ (ETH_LEN + 6) 1 data) =? 6) then (fw, Ok Pass)
      else on_tcp (ETH_LEN + IPV6_LEN) (at_ (ETH_LEN + 8) 16 data) (at_ (ETH_LEN + 24) 16 data) data fw
    else (fw, Ok Pass).

(** * The server *)

Context `{!BpfKeys bytes W, !BpfKeys bytes B}.

(** One of the loops of [clear_whitelist]; the [unwrap] of a failed removal is a
    panic. *)
Fixpoint clear_loop (fuel : nat) (key : option bytes) (m : W) : outcome W :=
  match fuel with
  | O => OutOfFuel
  | S fuel =>
      match next_key key m with
      | None => Ret m
      | Some k =>
          match bm_remove k m with
          | Err _ => Panic
          | Ok (_, m) => clear_loop fuel (Some k) m
          end
      end
  end.

Definition clear_map (m : W) : outcome W := clear_loop (S (length (bm_keys m))) None m.

Definition clear_whitelist (fw : Firewall) : outcome Firewall :=
  w ← clear_map (whitelist fw);
  p ← clear_map (whitelist_ports fw);
  Ret (mkFirewall w p (blocked fw)).

Definition unwrap {A E} (r : result A E) : outcome A := match r with Ok a => Ret a | Err _ => Panic end.

Fixpoint insert_all (ks : list bytes) (m : W) : outcome W :=
  match ks with
  | [] => Ret m
  | k :: ks => m ← unwrap (bm_insert k 1 m); insert_all ks m
  end.

(** [ip.to_ipv6_mapped().octets()] *)
Definition octets6 (a : IpAddr) : bytes :=
  match a with V4 o => mapped_prefix ++ o | V6 o => o end.

(** [Ipv6Addr::to_ipv4_mapped] *)
Definition to_ipv4_mapped (o : bytes) : option IpAddr :=
  if decide (take 12 o = mapped_prefix) then Some (V4 (drop 12 o)) else None.

Inductive ApplicationCommand : Type :=
| EnableWhitelist (ips : list IpAddr) (ports : list Z)
| DisableWhitelist
| GetFirewallStats
| Terminate.

(** [run] on one command other than [GetFirewallStats] and [Terminate]; [defaults]
    are the addresses of [FIREWALL_DEFAULT_WHITELIST]. *)
Definition enable_whitelist (defaults ips : list IpAddr) (ports : list Z) (fw : Firewall)
    : outcome Firewall :=
  fw ← clear_whitelist fw;
  let w := match bm_remove zeros16 (whitelist fw) with Ok (_, w) => w | Err _ => whitelist fw end in
  w ← insert_all (octets6 <$> ips ++ defaults) w;
  p ← insert_all (be_encode 2 <$> ports) (whitelist_ports fw);
  Ret (mkFirewall w p (blocked fw)).

Definition disable_whitelist (fw : Firewall) : outcome Firewall :=
  fw ← clear_whitelist fw;
  w ← unwrap (bm_insert zeros16 1 (whitelist fw));
  Ret (mkFirewall w (whitelist_ports fw) (blocked fw)).

(** [list]: the source and the destination of a key. *)
Definition stats_item (key : bytes) : SocketAddr * SocketAddr :=
  let src := at_ 0 16 key in
  let src_ip := match to_ipv4_mapped src with Some a => a | None => V6 src end in
  let dst := at_ 18 16 key in
  let dst_ip := match to_ipv4_mapped dst with Some a => a | None => src_ip end in
  (mkSocketAddr src_ip (be_decode (at_ 16 2 key)), mkSocketAddr dst_ip (be_decode (at_ 34 2 key))).

Fixpoint list_loop (fuel : nat) (it : option bytes) (b : B)
    (acc : gmap (SocketAddr * SocketAddr) StatsBlocked) : outcome (gmap (SocketAddr * SocketAddr) StatsBlocked) :=
  match fuel with
  | O => OutOfFuel
  | S fuel =>
      match next_key it b with
      | None => Ret acc
      | Some k =>
          match bm_get k b with
          | None => Panic
          | Some v => list_loop fuel (Some k) b (<[stats_item k := v]> acc)
          end
      end
  end.

Definition list_stats (b : B) : outcome (gmap (SocketAddr * SocketAddr) StatsBlocked) :=
  list_loop (S (length (bm_keys b))) None b ∅.

(** The loop of the server: the firewall at the end and the answers given. *)
Fixpoint run (defaults : list IpAddr) (cmds : list ApplicationCommand) (fw : Firewall)
    (out : list (gmap (SocketAddr * SocketAddr) StatsBlocked))
    : outcome (Firewall * list (gmap (SocketAddr * SocketAddr) StatsBlocked)) :=
  match cmds with
  | [] => Ret (fw, out)
  | EnableWhitelist ips ports :: cmds => fw ← enable_whitelist defaults ips ports fw; run defaults cmds fw out
  | DisableWhitelist :: cmds => fw ← disable_whitelist fw; run defaults cmds fw out
  | GetFirewallStats :: cmds => l ← list_stats (blocked fw); run defaults cmds fw (out ++ [l])
  | Terminate :: _ => Ret (fw, out)
  end.

(** * Clearing and filling the tables *)

Section laws.
Context `{!BpfMapLaws bytes Z W, !BpfKeysLaws bytes Z W}.

Lemma next_key_first (key : option bytes) (m : W) :
  (forall k, key = Some k -> bm_get (V := Z) k m = None) -> next_key key m = head (bm_keys m).
Proof.
  intros H. destruct key as [k|]; [|done]. cbn. rewrite decide_False; [done|].
  rewrite bm_keys_elem, (H k eq_refl). apply is_Some_None.
Qed.

Lemma keys_shrink (k : bytes) (m m' : W) (o : option Z) :
  bm_remove k m = Ok (o, m') -> k ∈ bm_keys m -> (length (bm_keys m') < length (bm_keys m))%nat.
Proof.
  intros Er Hk. assert (k :: bm_keys m' ⊆+ bm_keys m) as Hs; [|apply submseteq_length in Hs; cbn in Hs; lia].
  apply NoDup_submseteq.
  - apply NoDup_cons. split; [|apply bm_keys_nodup]. rewrite bm_keys_elem.
    destruct (bm_get_remove _ _ _ _ k Er) as (_ & -> & _); [apply is_Some_None|done].
  - intros x [->|Hx]%elem_of_cons; [done|]. apply bm_keys_elem in Hx. apply bm_keys_elem.
    destruct (bm_get_remove _ _ _ _ x Er) as (_ & He & Hne).
    destruct (decide (x = k)) as [E|E]; [rewrite (He E) in Hx; by apply is_Some_None in Hx|].
    by rewrite <- (Hne E).
Qed.

Lemma clear_loop_ok (fuel : nat) (key : option bytes) (m : W) :
  (length (bm_keys m) < fuel)%nat -> (forall k, key = Some k -> bm_get (V := Z) k m = None) ->
  match clear_loop fuel key m with
  | Ret m' => forall k, bm_get (V := Z) k m' = None
  | Panic => True
  | OutOfFuel => False
  end.
Proof.
  revert key m. induction fuel as [|fuel IH]; intros key m Hf Hk; [lia|].
  cbn [clear_loop]. rewrite (next_key_first key m Hk).
  destruct (bm_keys m) as [|k ks] eqn:Ek; cbn [head].
  - intros k. destruct (bm_get k m) eqn:E; [|done].
    assert (k ∈ bm_keys m) as Hin by (apply bm_keys_elem; by rewrite E). rewrite Ek in Hin. by apply not_elem_of_nil in Hin.
  - destruct (bm_remove k m) as [[o m']|] eqn:Er; [|done].
    assert (k ∈ bm_keys m) as Hin by (rewrite Ek; by left).
    pose proof (keys_shrink k m m' o Er Hin). rewrite Ek in *. cbn in *.
    apply IH; [lia|]. intros ? [= <-]. by apply (bm_get_remove _ _ _ _ k Er).
Qed.

Lemma clear_map_ok (m : W) :
  match clear_map m with
  | Ret m' => forall k, bm_get (V := Z) k m' = None
  | Panic => True
  | OutOfFuel => False
  end.
Proof. apply clear_loop_ok; [lia|done]. Qed.

Lemma insert_all_ok (ks : list bytes) (m : W) :
  match insert_all ks m with
  | Ret m' => forall k, present k m' = bool_decide (k ∈ ks) || present k m
  | Panic => True
  | OutOfFuel => False
  end.
Proof.
  revert m. induction ks as [|x ks IH]; intros m; [done|]. cbn [insert_all].
  destruct (bm_insert x 1 m) as [m'|] eqn:Ei; [|done]. cbn [unwrap mbind outcome_bind].
  specialize (IH m'). destruct (insert_all ks m'); [|done|done]. intros k. rewrite IH.
  destruct (bm_get_insert _ _ _ _ k Ei) as [He Hne]. unfold present at 1.
  destruct (decide (k = x)) as [->|E].
  - rewrite (He eq_refl), (bool_decide_eq_true_2 (x ∈ x :: ks)) by by left. by rewrite orb_true_r.
  - rewrite (Hne E). fold (present k m). f_equal. apply bool_decide_ext. rewrite elem_of_cons. naive_solver.
Qed.

(** * Who may talk to whom *)

(** A TCP packet with the two addresses and ports it carries. *)
Inductive tcp_packet (data : bytes) : IpAddr -> IpAddr -> Z -> Z -> Prop :=
| tcp4 :
    54 <= blen data -> be_decode (at_ 12 2 data) = 2048 -> be_decode (at_ 23 1 data) = 6 ->
    tcp_packet data (V4 (at_ 26 4 data)) (V4 (at_ 30 4 data))
               (be_decode (at_ 34 2 data)) (be_decode (at_ 36 2 data))
| tcp6 :
    74 <= blen data -> be_decode (at_ 12 2 data) = 34525 -> be_decode (at_ 20 1 data) = 6 ->
    tcp_packet data (V6 (at_ 22 16 data)) (V6 (at_ 38 16 data))
               (be_decode (at_ 54 2 data)) (be_decode (at_ 56 2 data)).

(** How often a packet of this kind was dropped. *)
Definition count (src dst : IpAddr) (sp dp : Z) (fw : Firewall) : Z :=
  match bm_get (octets6 src ++ be_encode 2 sp ++ octets6 dst ++ be_encode 2 dp) (blocked fw) with
  | Some v => packets v
  | None => 0
  end.

Lemma at_port (tcp : Z) (data : bytes) :
  wf_bytes data -> 0 <= tcp -> tcp + 2 <= blen data ->
  at_ tcp 2 data = be_encode 2 (be_decode (at_ tcp 2 data)).
Proof.
  intros Hw H0 Hl. unfold at_. set (p := take _ _).
  assert (length p = 2%nat) as Hp by (unfold p, blen in *; rewrite length_take, length_drop; lia).
  transitivity (be_encode (length p) (be_decode p)); [|by rewrite Hp].
  symmetry. apply be_encode_decode. by apply Forall_take, Forall_drop.
Qed.

Lemma be_encode_2_inj (a b : Z) :
  0 <= a < 2 ^ 16 -> 0 <= b < 2 ^ 16 -> be_encode 2 a = be_encode 2 b -> a = b.
Proof.
  intros Ha Hb E. rewrite <- (be_decode_encode 2 a), <- (be_decode_encode 2 b) by (cbn; lia). by rewrite E.
Qed.

Lemma port_present (p : Z) (ports : list Z) :
  0 <= p < 2 ^ 16 -> Forall (fun x => 0 <= x < 2 ^ 16) ports ->
  bool_decide (be_encode 2 p ∈ be_encode 2 <$> ports) = bool_decide (p ∈ ports).
Proof.
  intros Hp Hall. apply bool_decide_ext. rewrite list_elem_of_fmap. split.
  - intros (q & E & Hq). rewrite Forall_forall in Hall.
    by rewrite (be_encode_2_inj p q Hp (Hall q Hq) E).
  - intros H. by exists p.
Qed.

Lemma at_port_bound (tcp : Z) (data : bytes) : 0 <= be_decode (at_ tcp 2 data) < 2 ^ 16.
Proof.
  pose proof (be_decode_bound (at_ tcp 2 data)) as [? Hb]. split; [done|].
  eapply Z.lt_le_trans; [exact Hb|]. change (2 ^ 16) with (256 ^ 2).
  apply Z.pow_le_mono_r; [lia|]. unfold at_, blen. rewrite length_take. lia.
Qed.

Context `{!BpfMapLaws bytes StatsBlocked B, !BpfMutLaws bytes StatsBlocked B}.

Definition count_key (key : bytes) (fw : Firewall) : Z :=
  match bm_get key (blocked fw) with Some v => packets v | None => 0 end.

Lemma block_spec (key : bytes) (size : Z) (fw : Firewall) :
  (exists c, block key size fw = (fw, Err c)) \/
  exists fw', block key size fw = (fw', Ok Drop) /\ whitelist fw' = whitelist fw /\
    whitelist_ports fw' = whitelist_ports fw /\ count_key key fw' = wrap 32 (count_key key fw + 1).
Proof.
  unfold block, count_key. destruct (bm_get key (blocked fw)) as [v|] eqn:Eg.
  - right. eexists. split; [done|]. do 2 (split; [done|]). cbn.
    by rewrite (proj1 (bm_get_set key key _ (blocked fw) (mk_is_Some _ _ Eg))).
  - destruct (bm_insert _ _ _) as [b|] eqn:Ei; [|left; by eexists].
    right. eexists. split; [done|]. do 2 (split; [done|]). cbn.
    by rewrite (proj1 (bm_get_insert _ _ _ _ key Ei)).
Qed.

(** The decision on a TCP packet, given what the tables hold. *)
Lemma on_tcp_spec (tcp : Z) (src dst : IpAddr) (data : bytes) (fw : Firewall) (ports : list Z)
    (allowed : list bytes) :
  wf_bytes data -> 0 <= tcp -> tcp + 20 <= blen data -> Forall (fun x => 0 <= x < 2 ^ 16) ports ->
  (forall k, present k (whitelist fw) = bool_decide (k ∈ allowed)) ->
  (forall k, present k (whitelist_ports fw) = bool_decide (k ∈ be_encode 2 <$> ports)) ->
  let sp := be_decode (at_ tcp 2 data) in let dp := be_decode (at_ (tcp + 2) 2 data) in
  if bool_decide ((sp ∉ ports /\ dp ∉ ports) \/ octets6 src ∈ allowed)
  then on_tcp tcp (octets6 src) (octets6 dst) data fw = (fw, Ok Pass)
  else (exists c, on_tcp tcp (octets6 src) (octets6 dst) data fw = (fw, Err c)) \/
       exists fw', on_tcp tcp (octets6 src) (octets6 dst) data fw = (fw', Ok Drop) /\
                   whitelist fw' = whitelist fw /\ whitelist_ports fw' = whitelist_ports fw /\
                   count src dst sp dp fw' = wrap 32 (count src dst sp dp fw + 1).
Proof.
  intros Hw H0 Hl Hports Hwl Hwp sp dp. unfold on_tcp, TCP_LEN.
  rewrite (proj2 (Z.ltb_ge _ _)) by lia.
  rewrite (at_port tcp), (at_port (tcp + 2)) by (done || lia). fold sp dp.
  rewrite !Hwp, Hwl, !port_present by (done || apply at_port_bound).
  pose proof (block_spec (octets6 src ++ be_encode 2 sp ++ octets6 dst ++ be_encode 2 dp)
    (blen data - tcp + 20) fw) as Hblock.
  repeat case_bool_decide; cbn [andb negb]; (done || tauto).
Qed.

Lemma enable_tables (defaults ips : list IpAddr) (ports : list Z) (fw : Firewall) :
  match enable_whitelist defaults ips ports fw with
  | Ret fw' =>
      (forall k, present k (whitelist fw') = bool_decide (k ∈ octets6 <$> ips ++ defaults)) /\
      (forall k, present k (whitelist_ports fw') = bool_decide (k ∈ be_encode 2 <$> ports)) /\
      blocked fw' = blocked fw
  | Panic => True
  | OutOfFuel => False
  end.
Proof.
  unfold enable_whitelist, clear_whitelist.
  pose proof (clear_map_ok (whitelist fw)) as Hw. destruct (clear_map (whitelist fw)) as [w| |]; [|done|done].
  pose proof (clear_map_ok (whitelist_ports fw)) as Hp.
  destruct (clear_map (whitelist_ports fw)) as [p| |]; [|done|done]. cbn [mbind outcome_bind whitelist whitelist_ports blocked].
  set (w1 := match bm_remove zeros16 w with Ok (_, w) => w | Err _ => w end).
  assert (forall k, present k w1 = false) as Hw1.
  { intros k. unfold present, w1. destruct (bm_remove zeros16 w) as [[o w']|] eqn:Er; [|by rewrite Hw].
    destruct (bm_get_remove _ _ _ _ k Er) as (_ & He & Hne).
    destruct (decide (k = zeros16)) as [E|E]; [by rewrite (He E)|by rewrite (Hne E), Hw]. }
  pose proof (insert_all_ok (octets6 <$> ips ++ defaults) w1) as Hi.
  destruct (insert_all _ w1) as [w2| |]; [|done|done]. cbn [mbind outcome_bind].
  pose proof (insert_all_ok (be_encode 2 <$> ports) p) as Hi2.
  destruct (insert_all _ p) as [p2| |]; [|done|done]. cbn [mbind outcome_bind whitelist whitelist_ports blocked].
  split; [intros k; by rewrite Hi, Hw1, orb_false_r|]. split; [|done].
  intros k. rewrite Hi2. unfold present. by rewrite Hp, orb_false_r.
Qed.

(** The verdict on a packet once the whitelist is enabled. *)
Lemma enabled_verdict (defaults ips : list IpAddr) (ports : list Z) (fw : Firewall)
    (data : bytes) (src dst : IpAddr) (sp dp : Z) :
  wf_bytes data -> Forall (fun x => 0 <= x < 2 ^ 16) ports ->
  zeros16 ∉ octets6 <$> ips ++ defaults -> tcp_packet data src dst sp dp ->
  match enable_whitelist defaults ips ports fw with
  | Ret fw' =>
      if bool_decide ((sp ∉ ports /\ dp ∉ ports) \/ octets6 src ∈ octets6 <$> ips ++ defaults)
      then disable_connections data fw' = (fw', Ok Pass)
      else (exists c, disable_connections data fw' = (fw', Err c)) \/
           exists fw'', disable_connections data fw' = (fw'', Ok Drop) /\
             whitelist fw'' = whitelist fw' /\ whitelist_ports fw'' = whitelist_ports fw' /\
             count src dst sp dp fw'' = wrap 32 (count src dst sp dp fw' + 1)
  | Panic => True
  | OutOfFuel => False
  end.
Proof.
  intros Hw Hports Hz Hpkt. pose proof (enable_tables defaults ips ports fw) as He.
  destruct (enable_whitelist defaults ips ports fw) as [fw'| |]; [|done|done].
  destruct He as (Hwl & Hwp & _). unfold disable_connections, ETH_LEN, IPV4_LEN, IPV6_LEN.
  rewrite Hwl, (bool_decide_eq_false_2 _ Hz).
  destruct Hpkt as [Hl Ht Hproto|Hl Ht Hproto]; rewrite (proj2 (Z.leb_gt _ 14)), Ht by lia; cbn [Z.eqb Pos.eqb].
  - rewrite (proj2 (Z.leb_gt _ _)) by lia. change (14 + 9) with 23. rewrite Hproto. cbn [Z.eqb Pos.eqb negb].
    by apply (on_tcp_spec 34 (V4 (at_ 26 4 data)) (V4 (at_ 30 4 data)) data fw' ports); try lia.
  - rewrite (proj2 (Z.leb_gt _ _)) by lia. change (14 + 6) with 20. rewrite Hproto. cbn [Z.eqb Pos.eqb negb].
    by apply (on_tcp_spec 54 (V6 (at_ 22 16 data)) (V6 (at_ 38 16 data)) data fw' ports); try lia.
Qed.

(** C35: after the whitelist was enabled with some addresses and ports (and the
    default addresses), a TCP packet of IPv4 or IPv6 passes exactly when neither of
    its ports is one of the ports or its source is one of the addresses; else it
    is dropped and counted under its source and destination (or refused by an error
    when the table of counts is full). The update of the tables never runs
    without end. The address [::] must not be listed: it is the mark of a disabled
    firewall. *)
Theorem firewall_whitelist (defaults ips : list IpAddr) (ports : list Z) (fw : Firewall)
    (data : bytes) (src dst : IpAddr) (sp dp : Z) :
  wf_bytes data -> Forall (fun x => 0 <= x < 2 ^ 16) ports ->
  zeros16 ∉ octets6 <$> ips ++ defaults -> tcp_packet data src dst sp dp ->
  match enable_whitelist defaults ips ports fw with
  | Ret fw' =>
      if bool_decide ((sp ∉ ports /\ dp ∉ ports) \/ octets6 src ∈ octets6 <$> ips ++ defaults)
      then disable_connections data fw' = (fw', Ok Pass)
      else (exists c, disable_connections data fw' = (fw', Err c)) \/
           exists fw'', disable_connections data fw' = (fw'', Ok Drop) /\
             whitelist fw'' = whitelist fw' /\ whitelist_ports fw'' = whitelist_ports fw' /\
             count src dst sp dp fw'' = wrap 32 (count src dst sp dp fw' + 1)
  | Panic => True
  | OutOfFuel => False
  end.
Proof. apply enabled_verdict. Qed.

End laws.

End firewall.

(** * A firewall in memory *)

#[export] Instance gmap_keys {K V} `{Countable K} : BpfKeys K (gmap K V) := fun m => (map_to_list m).*1.

#[export] Instance gmap_keys_laws {K V} `{Countable K} : BpfKeysLaws K V (gmap K V).
Proof.
  split; intros m; [apply NoDup_fst_map_to_list|]. intros k. unfold bm_keys, gmap_keys. rewrite list_elem_of_fmap.
  split.
  - intros ([k' v] & -> & Hin). apply elem_of_map_to_list in Hin. by exists v.
  - intros [v Hv]. exists (k, v). split; [done|]. by apply elem_of_map_to_list.
Qed.

#[export] Instance gmap_mut {K V} `{Countable K} : BpfMut K V (gmap K V) := fun k v m => <[k := v]> m.

#[export] Instance gmap_mut_laws {K V} `{Countable K} : BpfMutLaws K V (gmap K V).
Proof.
  intros k k' v m _. cbn. unfold bm_set, gmap_mut.
  split; [intros ->; by rewrite lookup_insert_eq|intros; by rewrite lookup_insert_ne].
Qed.

Abbreviation DemoFirewall := (@Firewall (gmap bytes Z) (gmap bytes StatsBlocked)).

(** The mark of a disabled firewall is the only entry, as [main] leaves it. *)
Definition demo_fw : DemoFirewall := mkFirewall {[zeros16 := 1]} ∅ ∅.

(** A TCP packet from 10.0.0.2:8302 to 10.0.0.1:40000. *)
Definition demo_packet : bytes :=
  repeat 0 12 ++ [8; 0] ++ repeat 0 9 ++ [6; 0; 0] ++ [10; 0; 0; 2; 10; 0; 0; 1] ++
  [32; 110; 156; 64] ++ repeat 0 16.

(** Only 10.0.0.3 is allowed on port 8302: the packet is not let through. *)
Lemma firewall_whitelist_witness :
  exists fw', enable_whitelist [V4 [10; 0; 0; 3]] [] [8302] demo_fw = Ret fw' /\
    (disable_connections demo_packet fw').2 <> Ok Pass.
Proof.
  destruct (enable_whitelist [V4 [10; 0; 0; 3]] [] [8302] demo_fw) as [fw'| |] eqn:E;
    [|vm_compute in E; discriminate E..].
  exists fw'. split; [done|].
  assert (wf_bytes demo_packet) as Hw
    by (repeat (apply Forall_cons_2; [unfold is_byte; lia|]); apply Forall_nil_2).
  assert (Forall (fun x => 0 <= x < 2 ^ 16) [8302]) as Hp
    by (apply Forall_cons_2; [lia|apply Forall_nil_2]).
  assert (zeros16 ∉ octets6 <$> [] ++ [V4 [10; 0; 0; 3]]) as Hz by (apply (bool_decide_unpack _); vm_compute; exact I).
  assert (tcp_packet demo_packet (V4 [10; 0; 0; 2]) (V4 [10; 0; 0; 1]) 8302 40000) as Ht
    by (apply (tcp4 demo_packet); vm_compute; congruence).
  pose proof (firewall_whitelist _ _ _ demo_fw demo_packet _ _ _ _ Hw Hp Hz Ht) as T.
  rewrite E in T. rewrite bool_decide_eq_false_2 in T by (apply (bool_decide_unpack _); vm_compute; exact I).
  destruct T as [[c T]|(fw'' & T & _)]; rewrite T; cbn [snd]; congruence.
Defined.
