(* ===== verification/Checksum.v ===== *)
(** Checksums of byte streams ([mina-ipc/src/message/checksum.rs]) and the report of
    the debugger that carries them ([simulator/src/registry/messages.rs]).

    A checksum remembers the CRCs of the stream at its last four chunk ends, so
    that two observers of the same stream agree although one of them is some chunks
    ahead. The [crc64] crate is a parameter: its running value of a concatenation is
    that of the second part started from that of the first. *)

From stdpp Require Import base list.
From Stdlib Require Import ZArith Lia.
From S2P Require Import Prelude Types.

Class Crc64 : Type := crc64 : Z -> bytes -> Z.

Class Crc64Laws `{!Crc64} : Prop := {
  crc64_nil : forall c, crc64 c [] = c;
  crc64_app : forall c a b, crc64 c (a ++ b) = crc64 (crc64 c a) b;
}.

Record Checksum : Type := mkChecksum {
  crc_pos : nat;
  crc : list Z;
  cs_len : Z;
  cs_cnt : Z;
}.

Definition NUM : nat := 4.
Definition checksum_default : Checksum := mkChecksum 0 (repeat 0 NUM) 0 0.

Section checksum.
Context `{!Crc64}.

(** [+= data] *)
Definition add_assign (c : Checksum) (data : bytes) : Checksum :=
  let new_pos := ((crc_pos c + 1) mod NUM)%nat in
  mkChecksum new_pos (<[new_pos := crc64 (crc c !!! crc_pos c) data]> (crc c))
             (wrap 64 (cs_len c + blen data)) (wrap 64 (cs_cnt c + 1)).

Definition checksum_matches (a b : Checksum) : bool :=
  existsb (fun l => existsb (fun r => l =? r) (crc b)) (crc a).

Record ChecksumPair : Type := mkPair { cp_0 : Checksum; cp_1 : Checksum }.
Definition pair_default : ChecksumPair := mkPair checksum_default checksum_default.

Definition pair_matches (a b : ChecksumPair) : bool :=
  checksum_matches (cp_0 a) (cp_1 b) && checksum_matches (cp_1 a) (cp_0 b).

(** [crc.into_iter().find(..)]: the first value both have. *)
Definition common (a b : Checksum) : option Z :=
  List.find (fun l => existsb (fun r => l =? r) (crc b)) (crc a).

Definition matches_ext (a b : ChecksumPair) : option (Z * Z) :=
  match common (cp_0 a) (cp_1 b), common (cp_1 a) (cp_0 b) with
  | Some x, Some y => Some (x, y)
  | _, _ => None
  end.

Definition pair_matches_ (a b : ChecksumPair) : bool :=
  checksum_matches (cp_0 a) (cp_0 b) && checksum_matches (cp_1 a) (cp_1 b).

Definition bytes_number (p : ChecksumPair) : Z := wrap 64 (cs_len (cp_0 p) + cs_len (cp_1 p)).

Definition too_short (p : ChecksumPair) : bool := (cs_cnt (cp_0 p) <? 8) || (cs_cnt (cp_1 p) <? 8).

(** A stream of chunks. *)
Definition checksum_of (chunks : list bytes) : Checksum := foldl add_assign checksum_default chunks.

Context `{!Crc64Laws}.

(** The CRCs are those of the stream at its last chunk ends. *)
Lemma checksum_current (chunks : list bytes) :
  let c := checksum_of chunks in
  (crc_pos c < NUM)%nat /\ length (crc c) = NUM /\ crc c !! crc_pos c = Some (crc64 0 (concat chunks)).
Proof.
  induction chunks as [|d chunks IH] using rev_ind; [cbn; by rewrite crc64_nil; repeat split; unfold NUM; lia|].
  unfold checksum_of in *. rewrite foldl_app. cbn [foldl]. destruct IH as (Hp & Hl & Hc).
  cbn [add_assign crc crc_pos]. assert ((crc_pos (foldl add_assign checksum_default chunks) + 1) mod NUM < NUM)%nat
    as Hm by (apply Nat.mod_upper_bound; done).
  split; [done|]. rewrite length_insert. split; [done|].
  rewrite list_lookup_insert_eq by lia. apply list_lookup_total_correct in Hc. rewrite Hc.
  by rewrite concat_app, crc64_app; cbn; rewrite app_nil_r.
Qed.

Lemma checksum_matches_spec (a b : Checksum) :
  checksum_matches a b = true <-> exists v, v ∈ crc a /\ v ∈ crc b.
Proof.
  unfold checksum_matches. rewrite existsb_exists. split.
  - intros (l & Hl & Hr). apply existsb_exists in Hr as (r & Hr & E). apply Z.eqb_eq in E. subst r.
    exists l. by rewrite !list_elem_of_In.
  - intros (v & Ha & Hb). rewrite list_elem_of_In in Ha, Hb. exists v. split; [done|].
    apply existsb_exists. exists v. split; [done|]. apply Z.eqb_refl.
Qed.

(** Two observers of the same bytes agree, however each of them cut the stream. *)
Lemma checksum_same_stream (chunks chunks' : list bytes) :
  concat chunks = concat chunks' -> checksum_matches (checksum_of chunks) (checksum_of chunks') = true.
Proof.
  intros E. apply checksum_matches_spec. exists (crc64 0 (concat chunks)).
  destruct (checksum_current chunks) as (_ & _ & H1). destruct (checksum_current chunks') as (_ & _ & H2).
  split; [by eapply list_elem_of_lookup_2|]. rewrite E. by eapply list_elem_of_lookup_2.
Qed.

End checksum.

(** * Reports *)

Record ConnectionMetadata : Type := mkCnMeta {
  cm_ip : IpAddr;
  cm_counter : nat;
  cm_incoming : bool;
  cm_fd : Z;
  cm_checksum : ChecksumPair;
  cm_timestamp : Z;
}.

Record DebuggerReport : Type := mkReport {
  rp_ipc : ChecksumPair;
  rp_network : list ConnectionMetadata;
}.
