(* ===== verification/Meshsub.v ===== *)
(** Decoding of a gossip message ([mina-recorder/src/decode/meshsub.rs], [parse_it]):
    what the statistics of [stats.rs] and the presentation of stored messages read
    of it.

    The generated protobuf code, the Mina message library, [PeerId] and blake2 are
    parameters; they give the parts of a message that the code reads. The iterator
    is lazy: it is the list of what each of its steps does, which for a published
    message can be a panic. *)

From stdpp Require Import base list strings.
From Stdlib Require Import ZArith Lia.
From S2P Require Import Prelude Types Text.

(** * Decoded messages *)

(** [pb::Message], [pb::ControlMessage] and [pb::Rpc] of [gossipsub.proto]. *)
Record PbMessage : Type := mkPbMessage {
  pm_from : option bytes;
  pm_data : option bytes;
  pm_seqno : option bytes;
  pm_topic : bytes;
  pm_signature : option bytes;
  pm_key : option bytes;
}.

Record PbPrune : Type := mkPbPrune {
  pp_topic_id : option bytes;
  pp_peers : list (option bytes * option bytes);
  pp_backoff : option Z;
}.

Record PbControl : Type := mkPbControl {
  pc_ihave : list (option bytes * list bytes);
  pc_iwant : list (list bytes);
  pc_graft : list (option bytes);
  pc_prune : list PbPrune;
}.

Record PbRpc : Type := mkPbRpc {
  pb_subscriptions : list (bool * option bytes);
  pb_publish : list PbMessage;
  pb_control : option PbControl;
}.

(** The source and the target ledger of a transition, 32 bytes each, and a piece
    of work on one or two of them. *)
Record Statement : Type := mkStatement { st_source : bytes; st_target : bytes }.

Inductive Proofs : Type :=
| One (p : Statement)
| Two (l r : Statement).

(** [MinaBaseUserCommandStableV2]: only the signature matters. *)
Inductive UserCommand : Type :=
| SignedCommand (signature : bytes * bytes)
| ZkappCommand.

(** A command and a completed work of a block with their encoding, which is what
    is stored of them. *)
Record BlockCommand : Type := mkBlockCommand { bc_data : UserCommand; bc_raw : bytes }.
Record BlockWork : Type := mkBlockWork { bw_proofs : Proofs; bw_raw : bytes }.

(** One of the two parts of a staged ledger diff. *)
Record Diff : Type := mkDiff { d_commands : list BlockCommand; d_works : list BlockWork }.

Record Block : Type := mkBlock {
  blockchain_length : Z;
  global_slot_since_genesis : Z;
  diff_0 : Diff;
  diff_1 : option Diff;
}.

Inductive SnarkPoolDiff : Type :=
| AddSolvedWork (statement proof : Proofs)
| EmptyDiff.

Inductive GossipNetMessageV2 : Type :=
| NewState (b : Block)
| SnarkPool (m : SnarkPoolDiff)
| TransactionPool (txs : list UserCommand).

Inductive GossipNetMessagePreview : Type :=
| PreviewNewState | PreviewSnarkPoolDiff | PreviewTransactionPoolDiff.

(** [GossipNetMessageV1] is only shown: its kind and its encoding. *)
Record GossipNetMessageV1 : Type := mkV1 { v1_kind : GossipNetMessagePreview; v1_raw : bytes }.

Class Blake2 : Type := {
  blake2b : bytes -> bytes;
  blake2b_mac : bytes -> bytes -> bytes;
}.

(** The simplest hash, for concrete runs. *)
#[export] Instance demo_blake2 : Blake2 := {| blake2b data := data; blake2b_mac _ data := data |}.

Class GossipLib : Type := {
  rpc_decode_delimited : bytes -> option PbRpc;
  gossip_v2_read : bytes -> option GossipNetMessageV2;
  gossip_v1_read : bytes -> option GossipNetMessageV1;
  (** [PeerId::from_bytes]; a [PeerId] is its bytes. *)
  peer_id_from_bytes : bytes -> option bytes;
}.

(** * Events *)

Inductive Event : Type :=
| ESubscribe (topic : bytes)
| EUnsubscribe (topic : bytes)
| EPublish (from seqno signature key : option bytes) (topic : bytes) (message : GossipNetMessageV1)
| EPublishV2 (from seqno signature key : option bytes) (topic : bytes) (message : GossipNetMessageV2)
             (hash : bytes)
| EPublishPreview (topic : bytes) (message : GossipNetMessagePreview)
| EPublishTestingMessage (from topic message hash : bytes)
| EControl (ihave : list (option bytes * list bytes)) (iwant : list (list bytes))
           (graft : list (option bytes)) (prune : list PbPrune).

(** [hex::decode] *)
Fixpoint hex_decode (s : bytes) : option bytes :=
  match s with
  | [] => Some []
  | a :: b :: s =>
      match from_hex_digit a, from_hex_digit b, hex_decode s with
      | Some x, Some y, Some r => Some (16 * x + y :: r)
      | _, _, _ => None
      end
  | _ => None
  end.

(** [ControlIHave::hashes] and [ControlIWant::hashes] *)
Definition hashes (message_ids : list bytes) : list bytes :=
  omap (fun id => h ← hex_decode id; if (length h =? 32)%nat then Some h else None) message_ids.

Definition preview_v2 (m : GossipNetMessageV2) : GossipNetMessagePreview :=
  match m with
  | NewState _ => PreviewNewState
  | SnarkPool _ => PreviewSnarkPoolDiff
  | TransactionPool _ => PreviewTransactionPoolDiff
  end.

(** The hashes [SnarkWithHash] shows of a piece of work: of a leaf, or of a merge. *)
Inductive SnarkWithHash : Type :=
| Leaf (source target : bytes)
| Merge (first middle second : bytes).

Definition snark_of (p : Proofs) : SnarkWithHash :=
  match p with
  | One w => Leaf (st_source w) (st_target w)
  | Two l r => Merge (st_source l) (st_target l) (st_target r)
  end.

Definition try_from_inner (inner : SnarkPoolDiff) : option SnarkWithHash :=
  match inner with AddSolvedWork statement _ => Some (snark_of statement) | EmptyDiff => None end.

(** The two parts of a diff, one after the other. *)
Definition both {A} (f : Diff -> list A) (b : Block) : list A :=
  f (diff_0 b) ++ match diff_1 b with Some d => f d | None => [] end.

Definition try_from_block (b : Block) : list SnarkWithHash :=
  (fun w => snark_of (bw_proofs w)) <$> both d_works b.

Section parse.
Context `{!Blake2, !GossipLib}.

(** The hash that names a message: blake2b keyed by the topic. *)
Definition message_hash (calc_hash : bool) (topic data : bytes) : bytes :=
  if calc_hash then
    let key := if blen topic <=? 64 then topic else blake2b topic in
    blake2b_mac key data
  else repeat 0 32.

(** The [filter_map] over the published messages that have data. *)
Definition parse_publish (preview calc_hash : bool) (data : bytes) (m : PbMessage) : outcome (option Event) :=
  body ← slice_from 8 data;
  let topic := pm_topic m in
  match gossip_v2_read body with
  | Some msg =>
      Ret (Some (if preview then EPublishPreview topic (preview_v2 msg)
                 else EPublishV2 (pm_from m ≫= peer_id_from_bytes) (hex_encode <$> pm_seqno m)
                        (hex_encode <$> pm_signature m) (hex_encode <$> pm_key m) topic msg
                        (message_hash calc_hash topic data)))
  | None =>
      match body with
      | 3 :: message =>
          Ret (if utf8_valid message then
                 from ← pm_from m ≫= peer_id_from_bytes;
                 Some (EPublishTestingMessage from topic message (message_hash calc_hash topic data))
               else None)
      | _ =>
          Ret (match gossip_v1_read body with
               | Some msg =>
                   Some (if preview then EPublishPreview topic (v1_kind msg)
                         else EPublish (hex_encode <$> pm_from m) (hex_encode <$> pm_seqno m)
                                (hex_encode <$> pm_signature m) (hex_encode <$> pm_key m) topic msg)
               | None => None
               end)
      end
  end.

Definition parse_control (c : PbControl) : Event :=
  EControl (List.map (fun '(t, ids) => (t, List.map hex_encode ids)) (pc_ihave c))
    (List.map (List.map hex_encode) (pc_iwant c)) (pc_graft c)
    (List.map (fun p => mkPbPrune (pp_topic_id p)
                 (List.map (fun '(i, r) => (option_map hex_encode i, option_map hex_encode r)) (pp_peers p))
                 (pp_backoff p))
       (pc_prune c)).

(** [parse_it]: the steps of the iterator; a step that gives nothing is one of the
    messages filtered out. *)
Definition parse_it (data : bytes) (preview calc_hash : bool) : option (list (outcome (option Event))) :=
  match rpc_decode_delimited data with
  | None => None
  | Some rpc =>
      let subscriptions :=
        (fun '(subscribe, topic) =>
           Ret (Some ((if subscribe : bool then ESubscribe else EUnsubscribe) (default [] topic))))
        <$> pb_subscriptions rpc in
      let publish :=
        omap (fun m => data ← pm_data m; Some (parse_publish preview calc_hash data m)) (pb_publish rpc) in
      let control :=
        (fun c => Ret (Some (parse_control c))) <$> option_list (pb_control rpc) in
      Some (subscriptions ++ publish ++ control)
  end.

End parse.

(** The ids of a control message survive the detour through text. *)
Lemma hex_decode_encode (b : bytes) : wf_bytes b -> hex_decode (hex_encode b) = Some b.
Proof.
  induction 1 as [|x b Hx Hb IH]; [done|]. unfold hex_encode in *. rewrite bind_cons.
  cbn [hex_min app hex_decode]. unfold is_byte in Hx. pose proof (Z.div_mod x 16). pose proof (Z.mod_pos_bound x 16).
  assert (0 <= x / 16 < 16) by (split; [apply Z.div_pos; lia|apply Z.div_lt_upper_bound; lia]).
  rewrite (Z.mod_small (x / 16)) by lia. rewrite !from_hex_digit_digit by lia.
  cbn [hex_min app] in IH. rewrite IH. do 2 f_equal. lia.
Qed.

Lemma hashes_encode (ids : list bytes) :
  Forall wf_bytes ids -> hashes (List.map hex_encode ids) = List.filter (fun h => length h =? 32)%nat ids.
Proof.
  induction 1 as [|h ids Hh Hids IH]; [done|]. unfold hashes in *. cbn.
  rewrite hex_decode_encode by done. cbn. destruct (length h =? 32)%nat; cbn; [by rewrite IH|done].
Qed.
