(* ===== verification/Capnp.v ===== *)
(** The reader of the messages between the node and its network helper
    ([mina-recorder/src/libp2p_helper/mod.rs]): a process writes capnp messages to a
    pipe, the recorder reassembles them and keeps the gossip it finds in them.

    The capnp library with the generated accessors is the class [CapnpLib]: it takes
    one message off a byte string and shows the parts of it that the code reads.
    So is the Mina message library. *)

From stdpp Require Import base list gmap strings.
From Stdlib Require Import ZArith Lia.
From S2P Require Import Prelude Types Framing Handle Text Meshsub.

(** * Messages *)

(** [rpc_request]: the requests with an effect. *)
Inductive Request : Type :=
| Configure (network_id : bytes)
| Publish (topic data : bytes)
| Subscribe (id : Z) (topic : bytes)
| OtherRequest.

(** [daemon_interface::message]: only received gossip has an effect. *)
Inductive Response : Type :=
| GossipReceived (peer_id peer_host : bytes) (peer_port : Z) (data : bytes) (subscription : Z)
| OtherResponse.

(** [capnp::Error]: the input ends too early, or anything else. *)
Inductive CapnpError : Type := FailedToFill | OtherError.

Class CapnpLib : Type := {
  read_request : bytes -> result (Request * bytes) CapnpError;
  read_response : bytes -> result (Response * bytes) CapnpError;
  (** [GossipNetMessageV2::binprot_read]: the height of a block, [None] for
      another message or an error. *)
  gossip_height : bytes -> option Z;
}.

Inductive CapnpEvent : Type :=
| EvReceivedGossip (peer_id peer_host : bytes) (peer_port : Z) (msg hash : bytes)
| EvPublish (msg hash : bytes).

Definition event_msg (e : CapnpEvent) : bytes :=
  match e with EvReceivedGossip _ _ _ msg _ => msg | EvPublish msg _ => msg end.

(** [put_capnp] of the database: height and time are the key. *)
Class CapnpDb (W : Type) : Type :=
  put_capnp : Z -> Z -> Z -> SocketAddr -> list CapnpEvent -> W -> W * DbResult unit.

Section capnp.
Context `{!CapnpLib, !Blake2}.

Definition calc_hash (data topic : bytes) : bytes :=
  let key := if blen topic <=? 64 then topic else blake2b topic in
  blake2b_mac key data.

(** What a message changes besides the buffer: the events, the topics of the
    subscriptions and the chain. *)
Record Found : Type := mkFound {
  events : list CapnpEvent;
  topics : gmap Z bytes;
  chain_id : bytes;
}.

Definition default_topic : bytes := str "coda/consensus-messages/0.0.1".

(** The effect of [process_request] once the message is read; [data[8..]] may be
    out of range. *)
Definition on_request (m : Request) (s : Found) : outcome Found :=
  match m with
  | Configure network_id => Ret (mkFound (events s) (topics s) (str "/coda/0.0.1/" ++ network_id))
  | Publish topic data =>
      msg ← slice_from 8 data;
      Ret (mkFound (events s ++ [EvPublish msg (calc_hash data topic)]) (topics s) (chain_id s))
  | Subscribe id topic => Ret (mkFound (events s) (<[id := topic]> (topics s)) (chain_id s))
  | OtherRequest => Ret s
  end.

Definition on_response (m : Response) (s : Found) : outcome Found :=
  match m with
  | GossipReceived peer_id host port data sub =>
      let topic := match topics s !! sub with Some t => t | None => default_topic end in
      msg ← slice_from 8 data;
      Ret (mkFound (events s ++ [EvReceivedGossip peer_id host port msg (calc_hash data topic)])
                   (topics s) (chain_id s))
  | OtherResponse => Ret s
  end.

(** [process_request] and [process_response]: the rest of the buffer and what was
    found. *)
Definition process_one (incoming : bool) (buffer : bytes) (s : Found)
    : outcome (result (bytes * Found) CapnpError) :=
  if incoming then
    match read_request buffer with
    | Err e => Ret (Err e)
    | Ok (m, rest) => s ← on_request m s; Ret (Ok (rest, s))
    end
  else
    match read_response buffer with
    | Err e => Ret (Err e)
    | Ok (m, rest) => s ← on_response m s; Ret (Ok (rest, s))
    end.

(** The loop of [process]: the buffer, what was found, and whether to go on. *)
Fixpoint process_loop (fuel : nat) (incoming : bool) (buffer : bytes) (s : Found)
    : outcome (bytes * Found * bool) :=
  match fuel with
  | O => OutOfFuel
  | S fuel =>
      match buffer with
      | [] => Ret ([], s, true)
      | _ =>
          r ← process_one incoming buffer s;
          match r with
          | Ok (rest, s) => process_loop fuel incoming rest s
          | Err FailedToFill => Ret (buffer, s, true)
          | Err OtherError => Ret (buffer, s, false)
          end
      end
  end.

(** The height an event announces; [msg[0]] may be out of range. *)
Definition event_height (e : CapnpEvent) : outcome (option Z) :=
  match event_msg e with
  | [] => Panic
  | b :: rest =>
      if b =? 0 then Ret (gossip_height (event_msg e))
      else if b =? 3 then Ret (if utf8_valid rest then parse_block_height rest else None)
      else Ret None
  end.

(** [events.iter().find_map(..)] *)
Fixpoint find_height (es : list CapnpEvent) : outcome (option Z) :=
  match es with
  | [] => Ret None
  | e :: es => h ← event_height e; match h with Some h => Ret (Some h) | None => find_height es end
  end.

(** [CapnpReader::process] on the buffer, with the shared topics and the chain of
    the process; an error of the database is only logged. *)
Definition process {W} `{!CapnpDb W} (incoming : bool) (node_address : SocketAddr) (time real_time : Z)
    (buffer : bytes) (subscriptions : gmap Z bytes) (chain : bytes) (w : W)
    : outcome (bytes * gmap Z bytes * bytes * W * bool) :=
  '(buffer, s, go_on) ← process_loop (S (length buffer)) incoming buffer (mkFound [] subscriptions chain);
  let done w := Ret (buffer, topics s, chain_id s, w, go_on) in
  match go_on, events s with
  | true, _ :: _ =>
      h ← find_height (events s);
      match h with
      | Some height => done (put_capnp height time real_time node_address (events s) w).1
      | None => done w
      end
  | _, _ => done w
  end.

(** * Reassembly *)

(** What the library promises: a message is taken off the front of the input
    whatever follows it, and an error that is not the end of the input stays. *)
Class CapnpLaws : Prop := {
  request_ok : forall l m r, read_request l = Ok (m, r) ->
    (length r < length l)%nat /\ forall x, read_request (l ++ x) = Ok (m, r ++ x);
  request_err : forall l x, read_request l = Err OtherError -> read_request (l ++ x) = Err OtherError;
  response_ok : forall l m r, read_response l = Ok (m, r) ->
    (length r < length l)%nat /\ forall x, read_response (l ++ x) = Ok (m, r ++ x);
  response_err : forall l x, read_response l = Err OtherError -> read_response (l ++ x) = Err OtherError;
}.

Definition read_message (incoming : bool) (l : bytes) : result ((Request + Response) * bytes) CapnpError :=
  if incoming then match read_request l with Ok (m, r) => Ok (inl m, r) | Err e => Err e end
  else match read_response l with Ok (m, r) => Ok (inr m, r) | Err e => Err e end.

Definition cstep (incoming : bool) (l : bytes) : verdict (Request + Response) :=
  match l with
  | [] => Need
  | _ => match read_message incoming l with
         | Ok (m, r) => Frame m r
         | Err FailedToFill => Need
         | Err OtherError => Bad
         end
  end.

Definition on_message (s : Found) (m : Request + Response) : outcome Found :=
  match m with inl m => on_request m s | inr m => on_response m s end.

Fixpoint on_messages (ms : list (Request + Response)) (s : Found) : outcome Found :=
  match ms with [] => Ret s | m :: ms => s ← on_message s m; on_messages ms s end.

(** The chunks of a pipe one after the other, until the reader is given up. *)
Fixpoint process_chunks (incoming : bool) (chunks : list bytes) (buffer : bytes) (s : Found)
    : outcome (bytes * Found * bool) :=
  match chunks with
  | [] => Ret (buffer, s, true)
  | c :: cs =>
      '(buffer, s, go_on) ← process_loop (S (length (buffer ++ c))) incoming (buffer ++ c) s;
      if go_on : bool then process_chunks incoming cs buffer s else Ret (buffer, s, false)
  end.

Section laws.
Context `{!CapnpLaws}.

#[export] Instance cstep_framer (incoming : bool) : Framer (cstep incoming).
Proof.
  split; unfold cstep, read_message.
  - intros l m r Hx0f. destruct l as [|b l]; [done|]. destruct incoming.
    + destruct (read_request (b :: l)) as [[m' r']|[]] eqn:E; simplify_eq. by eapply request_ok.
    + destruct (read_response (b :: l)) as [[m' r']|[]] eqn:E; simplify_eq. by eapply response_ok.
  - intros l m r x Hf. destruct l as [|b l]; [done|]. rewrite <- app_comm_cons. destruct incoming.
    + destruct (read_request (b :: l)) as [[m' r']|[]] eqn:E; simplify_eq.
      by rewrite app_comm_cons, (proj2 (request_ok _ _ _ E)).
    + destruct (read_response (b :: l)) as [[m' r']|[]] eqn:E; simplify_eq.
      by rewrite app_comm_cons, (proj2 (response_ok _ _ _ E)).
  - intros l x Hf. destruct l as [|b l]; [done|]. rewrite <- app_comm_cons. destruct incoming.
    + destruct (read_request (b :: l)) as [[m' r']|[]] eqn:E; simplify_eq.
      by rewrite app_comm_cons, (request_err _ _ E).
    + destruct (read_response (b :: l)) as [[m' r']|[]] eqn:E; simplify_eq.
      by rewrite app_comm_cons, (response_err _ _ E).
Qed.

Lemma process_one_step (incoming : bool) (b : Z) (l : bytes) (s : Found) :
  process_one incoming (b :: l) s =
  match read_message incoming (b :: l) with
  | Ok (m, rest) => s ← on_message s m; Ret (Ok (rest, s))
  | Err e => Ret (Err e)
  end.
Proof.
  unfold process_one, read_message. destruct incoming.
  - by destruct (read_request (b :: l)) as [[]|].
  - by destruct (read_response (b :: l)) as [[]|].
Qed.

Lemma capnp_process_loop_parse (fuel : nat) (incoming : bool) (l : bytes) (s : Found) :
  (length l < fuel)%nat ->
  process_loop fuel incoming l s =
  (let '(ms, r, bad) := parse (cstep incoming) l in
   s ← on_messages ms s; Ret (r, s, negb bad)).
Proof.
  revert l s. induction fuel as [|fuel IH]; intros l s Hf; [lia|]. rewrite (parse_unfold (cstep incoming)).
  destruct l as [|b l]; [done|]. cbn [process_loop]. rewrite process_one_step. unfold cstep at 1.
  destruct (read_message incoming (b :: l)) as [[m r]|[]] eqn:E; [|done|done].
  assert (cstep incoming (b :: l) = Frame m r) as Es by (unfold cstep; by rewrite E).
  apply framer_shrinks in Es. destruct (parse (cstep incoming) r) as [[ms r'] bad] eqn:Ep.
  cbn [on_messages]. destruct (on_message s m) as [s'| |]; [|done|done]. cbn [mbind outcome_bind].
  rewrite IH, Ep by (cbn in *; lia). done.
Qed.

Lemma on_messages_app (ms ms' : list (Request + Response)) (s : Found) :
  on_messages (ms ++ ms') s = (s ← on_messages ms s; on_messages ms' s).
Proof.
  revert s. induction ms as [|m ms IH]; intros s; [done|]. cbn.
  destruct (on_message s m); [apply IH|done|done].
Qed.


End laws.

End capnp.

(** ** A toy encoding: a tag, a length and a body *)
Definition demo_frame (l : bytes) : result (Z * bytes * bytes) CapnpError :=
  match l with
  | tag :: len :: body =>
      if (len <? 0) || (255 <? len) then Err OtherError
      else if blen body <? len then Err FailedToFill
      else Ok (tag, take (Z.to_nat len) body, drop (Z.to_nat len) body)
  | _ => Err FailedToFill
  end.

#[export] Instance demo_capnp : CapnpLib := {|
  read_request l :=
    match demo_frame l with
    | Ok (tag, body, r) => Ok (if tag =? 1 then Configure body else if tag =? 2 then Publish [] body else OtherRequest, r)
    | Err e => Err e
    end;
  read_response l :=
    match demo_frame l with Ok (_, body, r) => Ok (GossipReceived [] [] 0 body 0, r) | Err e => Err e end;
  gossip_height l := head (drop 1 l);
|}.

Lemma demo_frame_ok (l : bytes) t b r :
  demo_frame l = Ok (t, b, r) ->
  (length r < length l)%nat /\ forall x, demo_frame (l ++ x) = Ok (t, b, r ++ x).
Proof.
  destruct l as [|tag [|len body]]; cbn [demo_frame app]; try done.
  destruct ((len <? 0) || (255 <? len)) eqn:E1; [done|].
  destruct (blen body <? len) eqn:E2; [done|]. intros [= <- <- <-]. to_prop. split.
  - rewrite length_drop. cbn. lia.
  - intros x. rewrite blen_app. pose proof (blen_nonneg x).
    rewrite (proj2 (Z.ltb_ge _ len)) by lia. by rewrite take_app_within, drop_app_within by lia.
Qed.

Lemma demo_frame_err (l x : bytes) : demo_frame l = Err OtherError -> demo_frame (l ++ x) = Err OtherError.
Proof.
  destruct l as [|tag [|len body]]; cbn [demo_frame app]; try done.
  destruct (_ || _); [done|]. by destruct (blen body <? len).
Qed.

#[export] Instance demo_capnp_laws : CapnpLaws.
Proof.
  split; cbn [read_request read_response demo_capnp]; intros l;
    try (intros x; destruct (demo_frame l) as [[[t b] r]|e] eqn:E; [done|]; intros [= ->];
         by rewrite (demo_frame_err _ _ E)).
  all: intros m r' H; destruct (demo_frame l) as [[[t b] r]|e] eqn:E; [|done]; injection H as <- <-;
    destruct (demo_frame_ok _ _ _ _ E) as [Hl Hx]; split; [done|]; intros x; by rewrite Hx.
Qed.

