(* ===== verification/Ipc.v ===== *)
(** The messages between the node and its network helper as the simulator speaks
    them ([mina-ipc/src/message]): their values, how they are built into and read
    from capnp structs, the buffer that takes them off a byte stream, the checksums
    kept while they are written and read, and the text of gossip.

    The capnp library and the accessors generated from [libp2p_ipc.capnp] are the
    class [CapnpTree]: structs with named fields and a union. *)

From stdpp Require Import base countable strings list.
From Stdlib Require Import ZArith Lia.
From S2P Require Import Prelude Types Framing Meshsub Checksum.

(** * The library *)

(** [capnp::Error]: the input ends too early ("failed to fill the whole buffer",
    "empty slice", "Message ends prematurely."), or anything else. *)
Inductive IpcError : Type := EndsEarly | Malformed.

(** What a field holds. A number stands for integers, booleans and the bits of a
    float; an element of a list of texts may fail on its own. *)
Inductive Value (R : Type) : Type :=
| VText (s : bytes)
| VData (s : bytes)
| VNum (z : Z)
| VStruct (r : R)
| VStructs (l : list R)
| VTexts (l : list (result bytes IpcError)).
Arguments VText {R}. Arguments VData {R}. Arguments VNum {R}. Arguments VStruct {R}.
Arguments VStructs {R}. Arguments VTexts {R}.

Class CapnpTree (R : Type) : Type := {
  c_get : string -> R -> result (Value R) IpcError;
  (** [which()]: the variant of the union and its field, or the number of a variant
      that is not in the schema. *)
  c_which : R -> result (string * result (Value R) IpcError) Z;
  c_empty : R;
  c_set : string -> Value R -> R -> R;
  c_init : string -> Value R -> R -> R;
  (** A struct of another message copied into a list. *)
  c_copy : R -> result R IpcError;
  (** [write_message] writes these pieces; [read_message_from_flat_slice]. *)
  c_pieces : R -> list bytes;
  c_read : bytes -> result (R * bytes) IpcError;
}.

Definition c_write {R} `{!CapnpTree R} (r : R) : bytes := concat (c_pieces r).

Class CapnpTreeLaws (R : Type) `{!CapnpTree R} : Prop := {
  c_get_set : forall f f' v r, c_get f (c_set f' v r) = if String.eqb f f' then Ok v else c_get f r;
  c_which_init : forall f v r, c_which (c_init f v r) = Ok (f, Ok v);
  c_copy_ok : forall r, c_copy r = Ok r;
  c_read_write : forall r, c_read (c_write r) = Ok (r, []);
  c_read_ok : forall l r x, c_read l = Ok (r, x) ->
    (length x < length l)%nat /\ forall y, c_read (l ++ y) = Ok (r, x ++ y);
  c_read_bad : forall l y, c_read l = Err Malformed -> c_read (l ++ y) = Err Malformed;
}.

Section ipc.
Context {R : Type} {HT : CapnpTree R}.

Notation "x '<~' e ; f" := (match e with Ok x => f | Err err => Err err end)
  (at level 60, e at next level, right associativity).

Abbreviation res A := (result A IpcError).

Definition get_text (f : string) (r : R) : res bytes :=
  v <~ c_get f r; match v with VText s => Ok s | _ => Err Malformed end.
Definition get_data (f : string) (r : R) : res bytes :=
  v <~ c_get f r; match v with VData s => Ok s | _ => Err Malformed end.
Definition get_struct (f : string) (r : R) : res R :=
  v <~ c_get f r; match v with VStruct s => Ok s | _ => Err Malformed end.
Definition get_structs (f : string) (r : R) : res (list R) :=
  v <~ c_get f r; match v with VStructs l => Ok l | _ => Err Malformed end.
Definition get_texts (f : string) (r : R) : res (list (res bytes)) :=
  v <~ c_get f r; match v with VTexts l => Ok l | _ => Err Malformed end.
(** Numbers are read without an error. *)
Definition get_num (f : string) (r : R) : Z :=
  match c_get f r with Ok (VNum z) => z | _ => 0 end.
Definition get_bool (f : string) (r : R) : bool := negb (get_num f r =? 0).

Definition of_bool (b : bool) : Value R := VNum (if b then 1 else 0).
Definition texts (l : list bytes) : Value R := VTexts (Ok <$> l).

(** [iter().try_fold(vec![], |v, x| { v.push(f(x)?); Ok(v) })] *)
Fixpoint try_collect {A} (f : A -> res bytes) (l : list A) : res (list bytes) :=
  match l with
  | [] => Ok []
  | x :: l => y <~ f x; ys <~ try_collect f l; Ok (y :: ys)
  end.

(** * [config.rs] *)

Record GatingConfig : Type := mkGating {
  banned_ips : list bytes;
  banned_peer_ids : list bytes;
  trusted_ips : list bytes;
  trusted_peer_ids : list bytes;
  isolate : bool;
}.

Definition gating_default : GatingConfig := mkGating [] [] [] [] false.

(** The number is the bits of an [f32]. *)
Record Config : Type := mkConfig {
  statedir : bytes;
  private_key : bytes;
  network_id : bytes;
  listen_on : list bytes;
  metrics_port : Z;
  external_multiaddr : bytes;
  unsafe_no_trust_ip : bool;
  flood : bool;
  peer_exchange : bool;
  direct_peers : list bytes;
  seed_peers : list bytes;
  gating_config : GatingConfig;
  max_connections : Z;
  validation_queue_size : Z;
  peer_protection_ratio : Z;
  min_connections : Z;
  known_private_ip_nets : list bytes;
  topic_config : list (list bytes);
}.

(** 0.2 as an [f32] is 0x3e4ccccd. *)
Definition config_new (statedir private_key network_id : bytes) (listen_on : list bytes)
    (external_multiaddr : bytes) (seed_peers : list bytes) (topic_config : list (list bytes)) : Config :=
  mkConfig statedir private_key network_id listen_on 0 external_multiaddr false false false []
           seed_peers gating_default 50 150 1045220557 20 [] topic_config.

Definition multiaddr (s : bytes) : R := c_set "representation" (VText s) c_empty.
Definition peer_id_struct (s : bytes) : R := c_set "id" (VText s) c_empty.

Definition gating_build (g : GatingConfig) : R :=
  c_set "isolate" (of_bool (isolate g))
  (c_set "trustedPeerIds" (VStructs (peer_id_struct <$> trusted_peer_ids g))
  (c_set "trustedIps" (texts (trusted_ips g))
  (c_set "bannedPeerIds" (VStructs (peer_id_struct <$> banned_peer_ids g))
  (c_set "bannedIps" (texts (banned_ips g)) c_empty)))).

Definition gating_try_from (r : R) : res GatingConfig :=
  l <~ get_texts "bannedIps" r; b <~ try_collect id l;
  l <~ get_structs "bannedPeerIds" r; bp <~ try_collect (get_text "id") l;
  l <~ get_texts "trustedIps" r; t <~ try_collect id l;
  l <~ get_structs "trustedPeerIds" r; tp <~ try_collect (get_text "id") l;
  Ok (mkGating b bp t tp (get_bool "isolate" r)).

(** The loop over [topic_config]. *)
Fixpoint build_topics (l : list (list bytes)) : res (list R) :=
  match l with
  | [] => Ok []
  | ts :: l => x <~ c_copy (c_set "topics" (texts ts) c_empty); xs <~ build_topics l; Ok (x :: xs)
  end.

Definition config_build (c : Config) : res R :=
  topics <~ build_topics (topic_config c);
  Ok (c_set "topicConfig" (VStructs topics)
     (c_set "knownPrivateIpNets" (texts (known_private_ip_nets c))
     (c_set "minConnections" (VNum (min_connections c))
     (c_set "peerProtectionRatio" (VNum (peer_protection_ratio c))
     (c_set "validationQueueSize" (VNum (validation_queue_size c))
     (c_set "maxConnections" (VNum (max_connections c))
     (c_set "gatingConfig" (VStruct (gating_build (gating_config c)))
     (c_set "seedPeers" (VStructs (multiaddr <$> seed_peers c))
     (c_set "directPeers" (VStructs (multiaddr <$> direct_peers c))
     (c_set "peerExchange" (of_bool (peer_exchange c))
     (c_set "flood" (of_bool (flood c))
     (c_set "unsafeNoTrustIp" (of_bool (unsafe_no_trust_ip c))
     (c_set "externalMultiaddr" (VStruct (multiaddr (external_multiaddr c)))
     (c_set "metricsPort" (VNum (metrics_port c))
     (c_set "listenOn" (VStructs (multiaddr <$> listen_on c))
     (c_set "networkId" (VText (network_id c))
     (c_set "privateKey" (VData (private_key c))
     (c_set "statedir" (VText (statedir c)) c_empty)))))))))))))))))).

Fixpoint try_topics (l : list R) : res (list (list bytes)) :=
  match l with
  | [] => Ok []
  | x :: l => ts <~ get_texts "topics" x; ts <~ try_collect id ts; tss <~ try_topics l; Ok (ts :: tss)
  end.

Definition config_try_from (r : R) : res Config :=
  statedir <~ get_text "statedir" r;
  private_key <~ get_data "privateKey" r;
  network_id <~ get_text "networkId" r;
  l <~ get_structs "listenOn" r; listen_on <~ try_collect (get_text "representation") l;
  x <~ get_struct "externalMultiaddr" r; external <~ get_text "representation" x;
  l <~ get_structs "directPeers" r; direct <~ try_collect (get_text "representation") l;
  l <~ get_structs "seedPeers" r; seeds <~ try_collect (get_text "representation") l;
  g <~ get_struct "gatingConfig" r; gating <~ gating_try_from g;
  l <~ get_texts "knownPrivateIpNets" r; nets <~ try_collect id l;
  l <~ get_structs "topicConfig" r; topics <~ try_topics l;
  Ok (mkConfig statedir private_key network_id listen_on (get_num "metricsPort" r) external
        (get_bool "unsafeNoTrustIp" r) (get_bool "flood" r) (get_bool "peerExchange" r) direct seeds gating
        (get_num "maxConnections" r) (get_num "validationQueueSize" r) (get_num "peerProtectionRatio" r)
        (get_num "minConnections" r) nets topics).

(** * [incoming.rs]: from the node to the helper *)

Inductive RpcRequest : Type :=
| ReqUnknown (n : Z)
| ReqConfigure (c : Config)
| ReqSetGatingConfig (g : GatingConfig)
| ReqAddPeer (is_seed : bool) (multiaddr : bytes)
| ReqListPeers
| ReqGenerateKeypair
| ReqSubscribe (id : Z) (topic : bytes)
| ReqPublish (topic data : bytes)
| ReqAddStreamHandler (protocol : bytes)
| ReqOpenStream (peer_id protocol : bytes)
| ReqSendStream (data : bytes) (stream_id : Z)
| ReqIrrelevant.

Inductive InMsg : Type :=
| InUnknown (n : Z)
| InRpcRequest (r : RpcRequest)
| InPushMessage.

Definition request_relevant (r : RpcRequest) : bool :=
  match r with ReqUnknown _ | ReqIrrelevant => false | _ => true end.

Definition in_relevant (m : InMsg) : bool :=
  match m with
  | InUnknown _ => false
  | InRpcRequest r => request_relevant r
  | InPushMessage => false
  end.

(** [x?] of a variant that is a struct. *)
Definition variant_struct (x : res (Value R)) : res R :=
  v <~ x; match v with VStruct r => Ok r | _ => Err Malformed end.

Definition request_try_from (r : R) : res RpcRequest :=
  match c_which r with
  | Err n => Ok (ReqUnknown n)
  | Ok (name, x) =>
      if String.eqb name "configure" then
        x <~ variant_struct x; x <~ get_struct "config" x; c <~ config_try_from x; Ok (ReqConfigure c)
      else if String.eqb name "setGatingConfig" then
        x <~ variant_struct x; x <~ get_struct "gatingConfig" x; g <~ gating_try_from x;
        Ok (ReqSetGatingConfig g)
      else if String.eqb name "addPeer" then
        x <~ variant_struct x; a <~ get_struct "multiaddr" x; s <~ get_text "representation" a;
        Ok (ReqAddPeer (get_bool "isSeed" x) s)
      else if String.eqb name "openStream" then
        x <~ variant_struct x; sender <~ get_struct "peer" x; id <~ get_text "id" sender;
        p <~ get_text "protocolId" x; Ok (ReqOpenStream id p)
      else if String.eqb name "sendStream" then
        x <~ variant_struct x; msg <~ get_struct "msg" x; data <~ get_data "data" msg;
        i <~ get_struct "streamId" msg; Ok (ReqSendStream data (get_num "id" i))
      else if String.eqb name "addStreamHandler" then
        x <~ variant_struct x; p <~ get_text "protocol" x; Ok (ReqAddStreamHandler p)
      else Ok ReqIrrelevant
  end.

Definition in_try_from (root : R) : res InMsg :=
  match c_which root with
  | Err n => Ok (InUnknown n)
  | Ok (name, x) =>
      if String.eqb name "rpcRequest" then
        x <~ variant_struct x; r <~ request_try_from x; Ok (InRpcRequest r)
      else Ok InPushMessage
  end.

(** [CapnpEncode::build]: the struct of the request in the builder of the call. *)
Definition request_build (x : RpcRequest) : res R :=
  match x with
  | ReqUnknown _ | ReqIrrelevant => Ok c_empty
  | ReqConfigure config =>
      c <~ config_build config; Ok (c_init "configure" (VStruct (c_set "config" (VStruct c) c_empty)) c_empty)
  | ReqSetGatingConfig g =>
      Ok (c_init "setGatingConfig" (VStruct (c_set "gatingConfig" (VStruct (gating_build g)) c_empty)) c_empty)
  | ReqAddPeer is_seed s =>
      Ok (c_init "addPeer" (VStruct (c_set "multiaddr" (VStruct (multiaddr s))
                                    (c_set "isSeed" (of_bool is_seed) c_empty))) c_empty)
  | ReqListPeers => Ok (c_init "listPeers" (VStruct c_empty) c_empty)
  | ReqGenerateKeypair => Ok (c_init "generateKeypair" (VStruct c_empty) c_empty)
  | ReqSubscribe id topic =>
      Ok (c_init "subscribe" (VStruct (c_set "topic" (VText topic)
            (c_set "subscriptionId" (VStruct (c_set "id" (VNum id) c_empty)) c_empty))) c_empty)
  | ReqPublish topic data =>
      Ok (c_init "publish" (VStruct (c_set "data" (VData data) (c_set "topic" (VText topic) c_empty))) c_empty)
  | ReqOpenStream peer_id protocol =>
      Ok (c_init "openStream" (VStruct (c_set "protocolId" (VText protocol)
            (c_set "peer" (VStruct (peer_id_struct peer_id)) c_empty))) c_empty)
  | ReqSendStream data stream_id =>
      Ok (c_init "sendStream" (VStruct (c_set "msg" (VStruct
            (c_set "streamId" (VStruct (c_set "id" (VNum stream_id) c_empty))
            (c_set "data" (VData data) c_empty))) c_empty)) c_empty)
  | ReqAddStreamHandler protocol =>
      Ok (c_init "addStreamHandler" (VStruct (c_set "protocol" (VText protocol) c_empty)) c_empty)
  end.

Definition in_build (m : InMsg) : res R :=
  match m with
  | InUnknown _ | InPushMessage => Ok c_empty
  | InRpcRequest x => r <~ request_build x; Ok (c_init "rpcRequest" (VStruct r) c_empty)
  end.

(** * [outgoing.rs]: from the helper to the node *)

Record Peer : Type := mkPeer { peer_id : bytes; peer_host : bytes; peer_port : Z }.

Inductive RpcResponse : Type :=
| ResUnknown (n : Z)
| ResSuccessUnknown (n : Z)
| ResError (e : bytes)
| ResConfigure
| ResListPeers (l : list Peer)
| ResGenerateKeypair (peer_id public_key secret_key : bytes)
| ResOutgoingStream (peer : Peer) (stream_id : Z)
| ResSendStreamSuccess
| ResSubscribeSuccess
| ResAddStreamHandlerSuccess
| ResIrrelevant.

Inductive PushMessage : Type :=
| PushUnknown (n : Z)
| PeerConnected (peer_id : bytes)
| PeerDisconnected (peer_id : bytes)
| PushGossipReceived (subscription_id : Z) (peer : Peer) (data : bytes)
| IncomingStream (peer : Peer) (protocol : bytes) (stream_id : Z)
| StreamMessageReceived (data : bytes) (stream_id : Z)
| PushIrrelevant.

Inductive OutMsg : Type :=
| OutUnknown (n : Z)
| OutRpcResponse (r : RpcResponse)
| OutPushMessage (m : PushMessage).

Definition response_relevant (r : RpcResponse) : bool :=
  match r with ResIrrelevant | ResUnknown _ | ResSuccessUnknown _ => false | _ => true end.
Definition push_relevant (m : PushMessage) : bool :=
  match m with PushUnknown _ | PushIrrelevant => false | _ => true end.
Definition out_relevant (m : OutMsg) : bool :=
  match m with
  | OutUnknown _ => false
  | OutRpcResponse r => response_relevant r
  | OutPushMessage m => push_relevant m
  end.

(** [peer_id.get_id()], host and port of a [PeerInfo]. *)
Definition read_peer (r : R) : res Peer :=
  i <~ get_struct "peerId" r; id <~ get_text "id" i; host <~ get_text "host" r;
  Ok (mkPeer id host (get_num "libp2pPort" r)).

(** [filter_map] with [.ok()?]: peers that cannot be read are left out. *)
Definition read_peers (l : list R) : list Peer :=
  omap (fun r => match read_peer r with Ok p => Some p | Err _ => None end) l.

Definition success_try_from (r : R) : res RpcResponse :=
  match c_which r with
  | Err n => Ok (ResSuccessUnknown n)
  | Ok (name, x) =>
      if String.eqb name "configure" then _ <~ variant_struct x; Ok ResConfigure
      else if String.eqb name "generateKeypair" then
        x <~ variant_struct x; x <~ get_struct "result" x;
        i <~ get_struct "peerId" x; id <~ get_text "id" i;
        public <~ get_data "publicKey" x; secret <~ get_data "privateKey" x;
        Ok (ResGenerateKeypair id public secret)
      else if String.eqb name "listPeers" then
        x <~ variant_struct x; l <~ get_structs "result" x; Ok (ResListPeers (read_peers l))
      else if String.eqb name "openStream" then
        x <~ variant_struct x; sender <~ get_struct "peer" x; p <~ read_peer sender;
        i <~ get_struct "streamId" x; Ok (ResOutgoingStream p (get_num "id" i))
      else if String.eqb name "sendStream" then _ <~ variant_struct x; Ok ResSendStreamSuccess
      else if String.eqb name "subscribe" then _ <~ variant_struct x; Ok ResSubscribeSuccess
      else if String.eqb name "addStreamHandler" then _ <~ variant_struct x; Ok ResAddStreamHandlerSuccess
      else Ok ResIrrelevant
  end.

Definition response_try_from (r : R) : res RpcResponse :=
  match c_which r with
  | Err n => Ok (ResUnknown n)
  | Ok (name, x) =>
      if String.eqb name "error" then
        v <~ x; match v with VText e => Ok (ResError e) | _ => Err Malformed end
      else x <~ variant_struct x; success_try_from x
  end.

Definition push_try_from (r : R) : res PushMessage :=
  match c_which r with
  | Err n => Ok (PushUnknown n)
  | Ok (name, x) =>
      if String.eqb name "peerConnected" then
        x <~ variant_struct x; i <~ get_struct "peerId" x; id <~ get_text "id" i; Ok (PeerConnected id)
      else if String.eqb name "peerDisconnected" then
        x <~ variant_struct x; i <~ get_struct "peerId" x; id <~ get_text "id" i; Ok (PeerDisconnected id)
      else if String.eqb name "gossipReceived" then
        x <~ variant_struct x; sender <~ get_struct "sender" x; data <~ get_data "data" x;
        i <~ get_struct "subscriptionId" x; p <~ read_peer sender;
        Ok (PushGossipReceived (get_num "id" i) p data)
      else if String.eqb name "incomingStream" then
        x <~ variant_struct x; sender <~ get_struct "peer" x; p <~ read_peer sender;
        protocol <~ get_text "protocol" x; i <~ get_struct "streamId" x;
        Ok (IncomingStream p protocol (get_num "id" i))
      else if String.eqb name "streamMessageReceived" then
        x <~ variant_struct x; msg <~ get_struct "msg" x; data <~ get_data "data" msg;
        i <~ get_struct "streamId" msg; Ok (StreamMessageReceived data (get_num "id" i))
      else Ok PushIrrelevant
  end.

Definition out_try_from (root : R) : res OutMsg :=
  match c_which root with
  | Err n => Ok (OutUnknown n)
  | Ok (name, x) =>
      if String.eqb name "rpcResponse" then
        x <~ variant_struct x; r <~ response_try_from x; Ok (OutRpcResponse r)
      else x <~ variant_struct x; m <~ push_try_from x; Ok (OutPushMessage m)
  end.

(** * [buffer.rs] *)

Context {HC : Crc64}.

Record Buffer : Type := mkBuffer { b_bytes : bytes; b_checksum : Checksum }.
Definition buffer_default : Buffer := mkBuffer [] checksum_default.

Definition extend_from_slice (slice : bytes) (b : Buffer) : Buffer :=
  mkBuffer (b_bytes b ++ slice) (b_checksum b).

Definition next_inner {T} (try_from : R -> res T) (b : Buffer) : Buffer * option (res T) :=
  match b_bytes b with
  | [] => (b, None)
  | _ =>
      match c_read (b_bytes b) with
      | Ok (value, slice) =>
          let consumed := blen (b_bytes b) - blen slice in
          match try_from value with
          | Err err => (b, Some (Err err))
          | Ok r => (mkBuffer slice (add_assign (b_checksum b) (take (Z.to_nat consumed) (b_bytes b))),
                     Some (Ok r))
          end
      | Err EndsEarly => (b, None)
      | Err Malformed => (b, Some (Err Malformed))
      end
  end.

(** [for m in &mut buffer] *)
Fixpoint drain {T} (try_from : R -> res T) (fuel : nat) (b : Buffer) : outcome (Buffer * list (res T)) :=
  match fuel with
  | O => OutOfFuel
  | S fuel =>
      match next_inner try_from b with
      | (b, None) => Ret (b, [])
      | (b, Some x) => '(b, xs) ← drain try_from fuel b; Ret (b, x :: xs)
      end
  end.

(** The chunks as they arrive. *)
Fixpoint observe {T} (try_from : R -> res T) (chunks : list bytes) (b : Buffer)
    : outcome (Buffer * list (res T)) :=
  match chunks with
  | [] => Ret (b, [])
  | c :: chunks =>
      let b := extend_from_slice c b in
      '(b, xs) ← drain try_from (S (length (b_bytes b))) b;
      '(b, ys) ← observe try_from chunks b;
      Ret (b, xs ++ ys)
  end.

(** * [ChecksumIo] ([checksum.rs]) *)

Record ChecksumIo : Type := mkIo { io_checksum : Checksum; io_buffer : bytes }.
Definition io_new : ChecksumIo := mkIo checksum_default [].

Definition io_reset (io : ChecksumIo) : ChecksumIo :=
  mkIo (add_assign (io_checksum io) (io_buffer io)) [].

(** [Read::read] and [Write::write]: [done] are the bytes the inner reader gave or
    the inner writer took. *)
Definition io_call (done : bytes) (io : ChecksumIo) : ChecksumIo :=
  mkIo (io_checksum io) (io_buffer io ++ done).

(** [decode]: the library made these calls and found [message], or failed. *)
Definition io_decode {T} (try_from : R -> res T) (calls : list bytes) (message : res R) (io : ChecksumIo)
    : ChecksumIo * res T :=
  let io := foldl (fun io c => io_call c io) io calls in
  match message with
  | Err e => (io, Err e)
  | Ok reader => (io_reset io, try_from reader)
  end.

(** [encode]: the calls to the inner writer, and whether they all succeeded. *)
Definition io_encode (m : InMsg) (calls : list bytes) (written : res unit) (io : ChecksumIo)
    : ChecksumIo * res unit :=
  match in_build m with
  | Err e => (io, Err e)
  | Ok _ =>
      let io := foldl (fun io c => io_call c io) io calls in
      match written with
      | Err e => (io, Err e)
      | Ok _ => (io_reset io, Ok tt)
      end
  end.

(** * What is built is read *)

Context {HL : CapnpTreeLaws R}.

Lemma try_collect_texts (l : list bytes) : try_collect id (Ok <$> l) = Ok l.
Proof. induction l as [|x l IH]; [done|]. cbn. by rewrite IH. Qed.

Lemma try_collect_map {A} (f : A -> res bytes) (g : bytes -> A) (l : list bytes) :
  (forall x, f (g x) = Ok x) -> try_collect f (g <$> l) = Ok l.
Proof. intros Hfg. induction l as [|x l IH]; [done|]. cbn. by rewrite Hfg, IH. Qed.

Lemma multiaddr_text (s : bytes) : get_text "representation" (multiaddr s) = Ok s.
Proof. unfold get_text, multiaddr. by rewrite c_get_set. Qed.
Lemma peer_id_text (s : bytes) : get_text "id" (peer_id_struct s) = Ok s.
Proof. unfold get_text, peer_id_struct. by rewrite c_get_set. Qed.

Lemma get_bool_set (b : bool) (z : Value R) : z = of_bool b ->
  negb ((match Ok (E := IpcError) z with Ok (VNum z) => z | _ => 0 end) =? 0) = b.
Proof. intros ->. by destruct b. Qed.

Ltac fields :=
  unfold get_text, get_data, get_struct, get_structs, get_texts, get_bool, get_num;
  repeat progress (rewrite ?c_get_set; cbn [String.eqb Ascii.eqb Bool.eqb]).

Lemma gating_roundtrip (g : GatingConfig) : gating_try_from (gating_build g) = Ok g.
Proof.
  unfold gating_try_from, gating_build. fields. unfold texts.
  rewrite !try_collect_texts. rewrite !(try_collect_map _ peer_id_struct) by apply peer_id_text.
  rewrite get_bool_set with (b := isolate g) by done. by destruct g.
Qed.

Lemma topics_roundtrip (l : list (list bytes)) :
  exists rs, build_topics l = Ok rs /\ try_topics rs = Ok l.
Proof.
  induction l as [|ts l (rs & E & IH)]; [by exists []|]. cbn [build_topics]. rewrite c_copy_ok, E.
  eexists. split; [done|]. cbn [try_topics]. fields. unfold texts. by rewrite try_collect_texts, IH.
Qed.

Lemma config_roundtrip (c : Config) :
  exists r, config_build c = Ok r /\ config_try_from r = Ok c.
Proof.
  unfold config_build. destruct (topics_roundtrip (topic_config c)) as (ts & -> & Ht).
  eexists. split; [done|]. unfold config_try_from. fields. unfold texts.
  rewrite !try_collect_texts. rewrite !(try_collect_map _ multiaddr) by apply multiaddr_text.
  pose proof (multiaddr_text (external_multiaddr c)) as He. unfold get_text in He. rewrite He.
  rewrite gating_roundtrip, Ht.
  rewrite get_bool_set with (b := unsafe_no_trust_ip c) by done.
  rewrite get_bool_set with (b := flood c) by done.
  rewrite get_bool_set with (b := peer_exchange c) by done. by destruct c.
Qed.

(** How a request the node builds is read: four kinds are not told apart. *)
Definition request_seen (x : RpcRequest) : RpcRequest :=
  match x with
  | ReqListPeers | ReqGenerateKeypair | ReqSubscribe _ _ | ReqPublish _ _ => ReqIrrelevant
  | _ => x
  end.

Lemma request_roundtrip (x : RpcRequest) :
  request_relevant x = true ->
  exists r, request_build x = Ok r /\ request_try_from r = Ok (request_seen x).
Proof.
  destruct x as [n|c|g|is_seed s| | |i t|t d|p|i p|d i|]; intros Hx; try done; cbn [request_build];
    [destruct (config_roundtrip c) as (r & -> & Hc)|..];
    (eexists; split; [done|]); unfold request_try_from; rewrite c_which_init;
    cbn [String.eqb Ascii.eqb Bool.eqb variant_struct]; fields; try done.
  - by rewrite Hc.
  - by rewrite gating_roundtrip.
  - pose proof (multiaddr_text s) as Hs. unfold get_text in Hs. rewrite Hs. by destruct is_seed.
  - pose proof (peer_id_text i) as Hs. unfold get_text in Hs. by rewrite Hs.
Qed.

Definition in_seen (m : InMsg) : InMsg :=
  match m with InRpcRequest x => InRpcRequest (request_seen x) | _ => m end.

Lemma in_roundtrip (m : InMsg) :
  in_relevant m = true -> exists r, in_build m = Ok r /\ in_try_from r = Ok (in_seen m).
Proof.
  destruct m as [n|x|]; intros Hm; try done. destruct (request_roundtrip x Hm) as (r & Hb & Ht).
  cbn [in_build]. rewrite Hb. eexists. split; [done|]. unfold in_try_from. rewrite c_which_init.
  cbn [String.eqb Ascii.eqb Bool.eqb variant_struct]. by rewrite Ht.
Qed.

(** * Taking messages off a stream *)

Section stream.
Context {T : Type} (try_from : R -> res T).

(** A message with its bytes. *)
Definition ipc_step (l : bytes) : verdict (T * bytes) :=
  match l with
  | [] => Need
  | _ =>
      match c_read l with
      | Ok (v, rest) =>
          match try_from v with
          | Ok x => Frame (x, take (Z.to_nat (blen l - blen rest)) l) rest
          | Err _ => Bad
          end
      | Err EndsEarly => Need
      | Err Malformed => Bad
      end
  end.

#[local] Instance ipc_framer : Framer ipc_step.
Proof.
  split.
  - intros l m r H. unfold ipc_step in H. destruct l as [|b l]; [done|].
    destruct (c_read (b :: l)) as [[v rest]|[]] eqn:E; [|done|done].
    destruct (try_from v); [|done]. simplify_eq. by destruct (c_read_ok _ _ _ E).
  - intros l m r x H. unfold ipc_step in *. destruct l as [|b l]; [done|]. cbn [app].
    destruct (c_read (b :: l)) as [[v rest]|[]] eqn:E; [|done|done].
    destruct (c_read_ok _ _ _ E) as [Hl Hx]. specialize (Hx x). cbn [app] in Hx. rewrite Hx.
    destruct (try_from v); [|done]. simplify_eq. do 2 f_equal.
    change (b :: l ++ x) with ((b :: l) ++ x). rewrite !blen_app.
    replace (blen (b :: l) + blen x - (blen r + blen x)) with (blen (b :: l) - blen r) by lia.
    rewrite take_app_within; [done|]. pose proof (blen_nonneg r). unfold blen in *. lia.
  - intros l x H. unfold ipc_step in *. destruct l as [|b l]; [done|]. cbn [app].
    destruct (c_read (b :: l)) as [[v rest]|[]] eqn:E; [|done|].
    + destruct (c_read_ok _ _ _ E) as [_ Hx]. specialize (Hx x). cbn [app] in Hx. rewrite Hx.
      by destruct (try_from v).
    + pose proof (c_read_bad _ x E) as Hx. cbn [app] in Hx. by rewrite Hx.
Qed.

(** The iterator gives the messages of the buffered bytes and adds each of them to
    the checksum. *)
Lemma drain_parse (b : Buffer) (ms : list (T * bytes)) (r : bytes) (fuel : nat) :
  parse ipc_step (b_bytes b) = (ms, r, false) -> (length (b_bytes b) < fuel)%nat ->
  drain try_from fuel b = Ret (mkBuffer r (foldl add_assign (b_checksum b) ms.*2), Ok <$> ms.*1).
Proof.
  destruct b as [l c]. cbn [b_bytes b_checksum]. revert c ms r fuel.
  induction l as [l E|l E|l m r' E IH] using (parse_ind ipc_step); intros c ms r fuel H Hf;
    rewrite (parse_unfold ipc_step), E in H; simplify_eq; (destruct fuel as [|fuel]; [lia|]); cbn [drain].
  - unfold next_inner. cbn [b_bytes]. unfold ipc_step in E. destruct r as [|b r]; [done|].
    destruct (c_read (b :: r)) as [[v rest]|[]] eqn:E'; try done. by destruct (try_from v).
  - destruct (parse ipc_step r') as [[ms' r''] b'] eqn:Ep. simplify_eq.
    pose proof (framer_shrinks _ _ _ E). unfold next_inner. cbn [b_bytes b_checksum].
    unfold ipc_step in E. destruct l as [|b l]; [done|].
    destruct (c_read (b :: l)) as [[v rest]|[]] eqn:E'; try done.
    destruct (try_from v) as [x|]; [|done]. simplify_eq.
    rewrite (IH _ _ _ fuel eq_refl) by lia. done.
Qed.

Lemma observe_parse (chunks : list bytes) (b : Buffer) (ms : list (T * bytes)) (r : bytes) :
  ipc_step (b_bytes b) = Need -> parse ipc_step (b_bytes b ++ concat chunks) = (ms, r, false) ->
  observe try_from chunks b
  = Ret (mkBuffer r (foldl add_assign (b_checksum b) ms.*2), Ok <$> ms.*1).
Proof.
  revert b ms. induction chunks as [|c chunks IH]; intros b ms Hb H; cbn [concat observe] in *.
  - rewrite app_nil_r, (parse_need ipc_step) in H by done. simplify_eq. by destruct b.
  - rewrite app_assoc in H.
    destruct (parse_app_clean ipc_step (b_bytes b ++ c) (concat chunks) ms r false) as (ms0 & r0 & E); [done..|].
    rewrite (drain_parse (extend_from_slice c b) ms0 r0) by (done || lia). cbn [mbind outcome_bind].
    rewrite (parse_app ipc_step _ _ ms0 r0 E) in H.
    destruct (parse ipc_step (r0 ++ concat chunks)) as [[ms' r'] bad] eqn:E'. simplify_eq.
    rewrite (IH _ ms'); [|exact (parse_rest ipc_step _ _ _ _ E)|done]. cbn [mbind outcome_bind b_checksum extend_from_slice].
    by rewrite !fmap_app, foldl_app.
Qed.

(** The messages of a stream of whole messages. *)
Lemma parse_written (rs : list R) (xs : list T) :
  Forall2 (fun r x => try_from r = Ok x) rs xs ->
  parse ipc_step (concat (c_write <$> rs)) = (zip xs (c_write <$> rs), [], false).
Proof.
  induction 1 as [|r x rs xs Hx _ IH]; [done|]. cbn [fmap list_fmap concat zip zip_with].
  rewrite (parse_unfold ipc_step). unfold ipc_step at 1.
  pose proof (c_read_write r) as Hr. destruct (c_read_ok _ _ _ Hr) as [Hl Hy].
  destruct (c_write r ++ concat (c_write <$> rs)) as [|b l] eqn:E.
  { apply app_nil in E as [E _]. rewrite E in Hl. cbn in Hl. lia. }
  rewrite <- E, Hy, Hx. cbn [app].
  rewrite blen_app. replace (blen (c_write r) + blen (concat (c_write <$> rs)) - blen (concat (c_write <$> rs)))
    with (blen (c_write r)) by lia.
  rewrite take_app_within by (unfold blen; lia). rewrite take_blen, IH. done.
Qed.

(** An item that cannot be read stays in the buffer: the iterator gives the same
    error again and never ends. *)
Lemma drain_error (b : Buffer) (e : IpcError) (fuel : nat) :
  next_inner try_from b = (b, Some (Err e)) -> drain try_from fuel b = OutOfFuel.
Proof. intros Hn. induction fuel as [|fuel IH]; [done|]. cbn [drain]. by rewrite Hn, IH. Qed.

End stream.

(** * Three parties on one pipe *)

(** The writer: each message with the pieces its calls passed on. *)
Definition encode_all (ms : list InMsg) (calls : list (list bytes)) (io : ChecksumIo) : ChecksumIo :=
  foldl (fun io '(m, cs) => (io_encode m cs (Ok tt) io).1) io (zip ms calls).

(** The reader: the library finds the message in the bytes of its calls. *)
Definition decode_one (calls : list bytes) (io : ChecksumIo) : ChecksumIo * res InMsg :=
  io_decode in_try_from calls
    (match c_read (concat calls) with Ok (r, _) => Ok r | Err e => Err e end) io.

Fixpoint decode_all (calls : list (list bytes)) (io : ChecksumIo) : ChecksumIo * list (res InMsg) :=
  match calls with
  | [] => (io, [])
  | cs :: calls =>
      let '(io, x) := decode_one cs io in let '(io, xs) := decode_all calls io in (io, x :: xs)
  end.

Lemma io_calls (calls : list bytes) (io : ChecksumIo) :
  foldl (fun io c => io_call c io) io calls = mkIo (io_checksum io) (io_buffer io ++ concat calls).
Proof.
  revert io. induction calls as [|c calls IH]; intros io; cbn [foldl concat].
  - rewrite app_nil_r. by destruct io.
  - rewrite IH. cbn. by rewrite app_assoc.
Qed.

(** The calls carry the message the writer built. *)
Definition carries (m : InMsg) (calls : list bytes) : Prop :=
  exists r, in_build m = Ok r /\ concat calls = c_write r.

Lemma encode_all_checksum (ms : list InMsg) (calls : list (list bytes)) (c : Checksum) :
  Forall2 carries ms calls ->
  encode_all ms calls (mkIo c []) = mkIo (foldl add_assign c (@concat Z <$> calls)) [].
Proof.
  intros Hc. unfold encode_all. revert c.
  induction Hc as [|m cs ms calls (r & Hb & Hr) _ IH]; intros c; [done|]. cbn [zip zip_with foldl fmap list_fmap].
  unfold io_encode at 2. rewrite Hb, io_calls. cbn. apply IH.
Qed.

Lemma decode_all_checksum (ms : list InMsg) (calls : list (list bytes)) (c : Checksum) :
  Forall (fun m => in_relevant m = true) ms -> Forall2 carries ms calls ->
  decode_all calls (mkIo c []) = (mkIo (foldl add_assign c (@concat Z <$> calls)) [], (Ok ∘ in_seen) <$> ms).
Proof.
  intros Hm Hc. revert c. induction Hc as [|m cs ms calls (r & Hb & Hr) _ IH]; intros c; [done|].
  apply Forall_cons in Hm as [Hm Hms]. destruct (in_roundtrip m Hm) as (r' & Hb' & Ht). rewrite Hb in Hb'. injection Hb' as <-.
  cbn [decode_all fmap list_fmap foldl]. unfold decode_one, io_decode.
  rewrite Hr, c_read_write, io_calls. unfold io_reset. cbn [io_checksum io_buffer app].
  rewrite Ht, Hr, (IH Hms). done.
Qed.

(** C27: writer, reader and observer of a pipe agree. Any requests the node builds,
    written with any pieces, read with any other pieces and observed in chunks cut
    anywhere, are seen as the same messages by the helper and by the observer, and all
    three have the same checksum at the end, the one of the messages in order. A
    request is read back as it was built, except that requests to list peers, to make
    keys, to subscribe and to publish are all read as irrelevant. *)
Theorem ipc_pipe (ms : list InMsg) (written read : list (list bytes)) (chunks : list bytes) :
  Forall (fun m => in_relevant m = true) ms ->
  Forall2 carries ms written -> Forall2 carries ms read ->
  concat chunks = concat (@concat Z <$> written) ->
  exists c,
    c = checksum_of (@concat Z <$> written) /\
    io_checksum (encode_all ms written io_new) = c /\
    decode_all read io_new = (mkIo c [], (Ok ∘ in_seen) <$> ms) /\
    observe in_try_from chunks buffer_default = Ret (mkBuffer [] c, (Ok ∘ in_seen) <$> ms).
Proof.
  intros Hm Hw Hr Hc. exists (checksum_of (@concat Z <$> written)).
  assert (exists rs, @concat Z <$> written = c_write <$> rs /\ @concat Z <$> read = c_write <$> rs /\
            Forall2 (fun r x => in_try_from r = Ok x) rs (in_seen <$> ms)) as (rs & Ew & Er & Ht).
  { clear Hc chunks. revert Hr Hm. revert read. induction Hw as [|m cs ms written (r & Hb & Hc) _ IH];
      intros read Hr Hm; inversion Hr as [|? rd ? reads (r2 & Hb2 & Hc2) Hr']; subst; [by exists []|].
    apply Forall_cons in Hm as [Hm Hms]. destruct (IH reads Hr' Hms) as (rs & E1 & E2 & E3).
    destruct (in_roundtrip m Hm) as (r' & Hb' & Htr).
    rewrite Hb in Hb', Hb2. injection Hb' as <-. injection Hb2 as <-. exists (r :: rs). cbn.
    rewrite Hc, Hc2, E1, E2. split_and!; [done..|]. by constructor. }
  split; [done|]. split; [|split].
  - unfold io_new. by rewrite (encode_all_checksum ms written checksum_default Hw).
  - unfold io_new. rewrite (decode_all_checksum ms read checksum_default Hm Hr), Er, Ew. done.
  - rewrite (observe_parse in_try_from chunks buffer_default (zip (in_seen <$> ms) (c_write <$> rs)) []);
      [|done|cbn [b_bytes buffer_default app]; rewrite Hc, Ew; by apply parse_written].
    assert (length (in_seen <$> ms) = length (c_write <$> rs)) as Hl.
    { rewrite (length_fmap c_write). symmetry. exact (Forall2_length _ _ _ Ht). }
    cbn [b_checksum buffer_default].
    rewrite fst_zip, snd_zip, Ew by (rewrite Hl; done). by rewrite list_fmap_compose.
Qed.
End ipc.

(** * [consensus_message.rs] *)

(** [GossipNetMessageV2] with its codec, and whether it is a new state. *)
Class GossipV2 (G : Type) : Type := {
  gossip_read : bytes -> option G;
  gossip_write : G -> bytes;
  is_new_state : G -> bool;
}.

(** The first byte of a message is the number of its constructor, at most 2. *)
Class GossipV2Laws (G : Type) `{!GossipV2 G} : Prop := {
  gossip_read_write : forall g, gossip_read (gossip_write g) = Some g;
  gossip_first : forall g, exists b rest, gossip_write g = b :: rest /\ 0 <= b <= 2;
}.

Inductive ConsensusMessage (G : Type) : Type := CInner (g : G) | CTest (msg : bytes).
Arguments CInner {G}. Arguments CTest {G}.

Section consensus.
Context {G : Type} {HG : GossipV2 G}.

Definition consensus_from_bytes (l : bytes) : outcome (result (ConsensusMessage G) unit) :=
  bytes_cut ← slice_from 8 l;
  match bytes_cut with
  | [] => Panic
  | b :: rest =>
      if b =? 3 then Ret (Ok (CTest (if utf8_valid rest then rest else [])))
      else match gossip_read bytes_cut with
      | Some g => Ret (Ok (CInner g))
      | None => Ret (Err tt)
      end
  end.

Definition consensus_into_bytes (m : ConsensusMessage G) : bytes :=
  let v := match m with CTest msg => 3 :: msg | CInner g => gossip_write g end in
  be_encode 8 (blen v) ++ v.

(** The hash a gossip message is known by; a key longer than 64 bytes is hashed. *)
Definition consensus_calc_hash `{!Blake2} (data topic : bytes) : bytes :=
  let key := if blen topic <=? 64 then topic else blake2b topic in
  blake2b_mac key data.

Definition consensus_relevant (m : ConsensusMessage G) : bool :=
  match m with CInner g => is_new_state g | CTest _ => true end.

(** A message survives its bytes; a test text must be UTF-8, as every string is. *)
Lemma consensus_roundtrip {HGL : GossipV2Laws G} (m : ConsensusMessage G) :
  match m with CTest msg => utf8_valid msg = true | CInner _ => True end ->
  consensus_from_bytes (consensus_into_bytes m) = Ret (Ok m).
Proof.
  intros Hm. unfold consensus_from_bytes, consensus_into_bytes.
  rewrite slice_from_within by (rewrite blen_app, blen_be_encode; pose proof (blen_nonneg
    (match m with CTest msg => 3 :: msg | CInner g => gossip_write g end)); lia).
  rewrite drop_app_length' by (rewrite length_be_encode; done). cbn [mbind outcome_bind].
  destruct m as [g|msg]; [|by rewrite Z.eqb_refl, Hm].
  destruct (gossip_first g) as (b & rest & E & Hb). rewrite E.
  rewrite (proj2 (Z.eqb_neq b 3)) by lia. by rewrite <- E, gossip_read_write.
Qed.

End consensus.

(** * An instance of the library *)

Module Tree.

Definition tree : Type := gen_tree (string + list Z).

Definition text_tree (x : result bytes IpcError) : tree :=
  match x with
  | Ok s => GenLeaf (inr s)
  | Err EndsEarly => GenNode 0 []
  | Err Malformed => GenNode 1 []
  end.

Definition tree_text (t : tree) : result bytes IpcError :=
  match t with
  | GenLeaf (inr s) => Ok s
  | GenNode 0 [] => Err EndsEarly
  | _ => Err Malformed
  end.

Definition value_tree (v : Value tree) : tree :=
  match v with
  | VText s => GenNode 0 [GenLeaf (inr s)]
  | VData s => GenNode 1 [GenLeaf (inr s)]
  | VNum z => GenNode 2 [GenLeaf (inr [z])]
  | VStruct r => GenNode 3 [r]
  | VStructs l => GenNode 4 l
  | VTexts l => GenNode 5 (text_tree <$> l)
  end.

Definition tree_value (t : tree) : result (Value tree) IpcError :=
  match t with
  | GenNode 0 [GenLeaf (inr s)] => Ok (VText s)
  | GenNode 1 [GenLeaf (inr s)] => Ok (VData s)
  | GenNode 2 [GenLeaf (inr [z])] => Ok (VNum z)
  | GenNode 3 [r] => Ok (VStruct r)
  | GenNode 4 l => Ok (VStructs l)
  | GenNode 5 l => Ok (VTexts (tree_text <$> l))
  | _ => Err Malformed
  end.

Lemma tree_value_tree (v : Value tree) : tree_value (value_tree v) = Ok v.
Proof.
  destruct v as [| | | | |l]; try done. cbn. do 2 f_equal.
  induction l as [|[s|[]] l IH]; [done| | |]; cbn; by rewrite IH.
Qed.

(** A struct is a node with its fields, the last one set first; a variant of the
    union is a field of another kind. *)
Definition children (r : tree) : list tree := match r with GenLeaf _ => [] | GenNode _ l => l end.

Fixpoint find_field (f : string) (l : list tree) : result (Value tree) IpcError :=
  match l with
  | [] => Err Malformed
  | GenNode 0 [GenLeaf (inl f'); v] :: l => if String.eqb f f' then tree_value v else find_field f l
  | _ :: l => find_field f l
  end.

Fixpoint find_variant (l : list tree) : result (string * result (Value tree) IpcError) Z :=
  match l with
  | [] => Err 0
  | GenNode 1 [GenLeaf (inl f); v] :: l => Ok (f, tree_value v)
  | _ :: l => find_variant l
  end.

(** The number of a tree in unary, ended by a zero. *)
Fixpoint read_unary (n : positive) (l : bytes) : result (positive * bytes) IpcError :=
  match l with
  | [] => Err EndsEarly
  | b :: l => if b =? 1 then read_unary (Pos.succ n) l else if b =? 0 then Ok (n, l) else Err Malformed
  end.

#[global] Instance tree_capnp : CapnpTree tree := {|
  c_get f r := find_field f (children r);
  c_which r := find_variant (children r);
  c_empty := GenNode 0 [];
  c_set f v r := GenNode 0 (GenNode 0 [GenLeaf (inl f); value_tree v] :: children r);
  c_init f v r := GenNode 0 (GenNode 1 [GenLeaf (inl f); value_tree v] :: children r);
  c_copy r := Ok r;
  c_pieces r := [repeat 1 (Pos.to_nat (encode r)); [0]];
  c_read l :=
    match l with
    | 1 :: l =>
        match read_unary 1 l with
        | Ok (n, rest) => match decode n with Some r => Ok (r, rest) | None => Err Malformed end
        | Err e => Err e
        end
    | [] => Err EndsEarly
    | _ => Err Malformed
    end;
|}.

Lemma read_unary_repeat (k : nat) (n : positive) (x : bytes) :
  read_unary n (repeat 1 k ++ 0 :: x) = Ok (Pos.of_nat (Pos.to_nat n + k), x).
Proof.
  revert n. induction k as [|k IH]; intros n; cbn.
  - by rewrite Nat.add_0_r, Pos2Nat.id.
  - rewrite IH. do 3 f_equal. lia.
Qed.

Lemma read_unary_ok (l : bytes) (n k : positive) (x : bytes) :
  read_unary n l = Ok (k, x) -> (length x < length l)%nat /\ forall y, read_unary n (l ++ y) = Ok (k, x ++ y).
Proof.
  revert n. induction l as [|b l IH]; intros n E; cbn in E; [done|]. cbn.
  destruct (b =? 1); [apply IH in E as [? ?]; split; [lia|done]|].
  destruct (b =? 0); [|done]. simplify_eq. split; [lia|done].
Qed.

Lemma read_unary_bad (l y : bytes) (n : positive) :
  read_unary n l = Err Malformed -> read_unary n (l ++ y) = Err Malformed.
Proof.
  revert n. induction l as [|b l IH]; intros n E; cbn in E; [done|]. cbn.
  destruct (b =? 1); [by apply IH|]. by destruct (b =? 0).
Qed.

#[global] Instance tree_laws : CapnpTreeLaws tree.
Proof.
  split.
  - intros f f' v r. cbn. by destruct (String.eqb f f'); [apply tree_value_tree|].
  - intros f v r. cbn. by rewrite tree_value_tree.
  - done.
  - intros r. unfold c_write. cbn.
    destruct (Pos.to_nat (encode r)) as [|k] eqn:E; [pose proof (Pos2Nat.is_pos (encode r)); lia|].
    cbn. rewrite read_unary_repeat.
    replace (Pos.of_nat (Pos.to_nat 1 + k)) with (encode r) by lia. by rewrite decode_encode.
  - intros [|b l] r x E; [done|]. cbn in E. cbn.
    destruct b as [|[]|]; try done. destruct (read_unary 1 l) as [[n rest]|] eqn:Eu; [|done].
    destruct (read_unary_ok _ _ _ _ Eu) as [Hl Hy]. destruct (decode n) eqn:Ed; [|done]. simplify_eq.
    split; [lia|]. intros y. by rewrite Hy, Ed.
  - intros [|b l] y E; [done|]. cbn in E. cbn.
    destruct b as [|[]|]; try done. destruct (read_unary 1 l) as [[n rest]|e] eqn:Eu.
    + destruct (read_unary_ok _ _ _ _ Eu) as [_ Hy]. rewrite Hy. by destruct (decode n).
    + simplify_eq. by rewrite (read_unary_bad _ y _ Eu).
Qed.

End Tree.

(** ** A node that connects to a peer and subscribes *)

Definition demo_crc : Crc64 := fun c l => c + blen l.

Definition demo_requests : list InMsg :=
  [InRpcRequest (ReqAddPeer true (str "/ip4/10.0.0.1")); InRpcRequest (ReqSubscribe 1 (str "blocks"))].

Definition built (m : InMsg) : Tree.tree :=
  match in_build m with Ok r => r | Err _ => c_empty end.

Lemma demo_written (ms : list InMsg) :
  concat [concat (c_write ∘ built <$> ms)] = concat (@concat Z <$> ((fun m => [c_write (built m)]) <$> ms)).
Proof.
  cbn [concat]. rewrite app_nil_r.
  induction ms as [|m ms IH]; [done|]. cbn [fmap list_fmap concat compose]. by rewrite app_nil_r, IH.
Qed.

Lemma ipc_pipe_witness :
  exists b : Buffer,
    observe (HC := demo_crc) in_try_from [concat (c_write ∘ built <$> demo_requests)] buffer_default
    = Ret (b, [Ok (InRpcRequest (ReqAddPeer true (str "/ip4/10.0.0.1"))); Ok (InRpcRequest ReqIrrelevant)]) /\
    b_bytes b = [].
Proof.
  assert (Forall2 carries demo_requests ((fun m => [c_write (built m)]) <$> demo_requests)) as Hc.
  { repeat constructor; (eexists; split; [reflexivity|apply app_nil_r]). }
  destruct (ipc_pipe (HC := demo_crc) demo_requests
    ((fun m => [c_write (built m)]) <$> demo_requests) ((fun m => [c_write (built m)]) <$> demo_requests)
    [concat (c_write ∘ built <$> demo_requests)] ltac:(repeat constructor) Hc Hc
    (demo_written _)) as (c & _ & _ & _ & H).
  exists (mkBuffer [] c). split; [exact H|done].
Defined.
