(* ===== verification/BTree.v ===== *)
(** Ordered maps ([BTreeMap] of the standard library) as sorted lists of pairs, and
    the order of addresses. *)

From stdpp Require Import base list sets sorting.
From Stdlib Require Import ZArith Lia.
From S2P Require Import Prelude Types Rocks.

(** [Ord] *)
Class Ord (K : Type) : Type := ord_cmp : K -> K -> comparison.

Class OrdLaws (K : Type) `{!Ord K} : Prop := {
  ord_eq : forall a b, ord_cmp a b = Eq <-> a = b;
  ord_opp : forall a b, ord_cmp b a = CompOpp (ord_cmp a b);
  ord_trans : forall a b c, ord_cmp a b = Lt -> ord_cmp b c = Lt -> ord_cmp a c = Lt;
}.

Section btree.
Context {K : Type} {HO : Ord K} {V : Type}.

Abbreviation BTreeMap := (list (K * V)).

Fixpoint bt_get (k : K) (m : BTreeMap) : option V :=
  match m with
  | [] => None
  | (k', v) :: m => match ord_cmp k k' with Eq => Some v | Lt => None | Gt => bt_get k m end
  end.

Fixpoint bt_insert (k : K) (v : V) (m : BTreeMap) : BTreeMap :=
  match m with
  | [] => [(k, v)]
  | (k', v') :: m' =>
      match ord_cmp k k' with
      | Eq => (k, v) :: m'
      | Lt => (k, v) :: m
      | Gt => (k', v') :: bt_insert k v m'
      end
  end.

(** [remove]: the value that was there. *)
Fixpoint bt_remove (k : K) (m : BTreeMap) : option V * BTreeMap :=
  match m with
  | [] => (None, [])
  | (k', v') :: m' =>
      match ord_cmp k k' with
      | Eq => (Some v', m')
      | Lt => (None, m)
      | Gt => let '(o, m') := bt_remove k m' in (o, (k', v') :: m')
      end
  end.

(** [if let Some(v) = m.get_mut(&k) { *v = f(v) }] *)
Definition bt_update (k : K) (f : V -> V) (m : BTreeMap) : BTreeMap :=
  match bt_get k m with Some v => bt_insert k (f v) m | None => m end.

(** [collect::<BTreeMap<_, _>>()]: a later pair replaces an earlier one. *)
Definition bt_collect (l : list (K * V)) : BTreeMap := foldl (fun m '(k, v) => bt_insert k v m) [] l.

Definition bt_sorted (m : BTreeMap) : Prop := StronglySorted (fun a b => ord_cmp a b = Lt) m.*1.

Context {HOL : OrdLaws K}.

Lemma ord_refl (k : K) : ord_cmp k k = Eq.
Proof. by apply ord_eq. Qed.

Lemma ord_gt (a b : K) : ord_cmp a b = Gt -> ord_cmp b a = Lt.
Proof. intros H. by rewrite ord_opp, H. Qed.

Lemma bt_insert_keys (k : K) (v : V) (m : BTreeMap) (x : K) :
  x ∈ (bt_insert k v m).*1 <-> x = k \/ x ∈ m.*1.
Proof.
  induction m as [|[k' v'] m IH]; cbn; [set_solver|].
  destruct (ord_cmp k k') eqn:E; cbn; [apply ord_eq in E; subst k'; set_solver|set_solver|].
  rewrite !elem_of_cons, IH. naive_solver.
Qed.

Lemma bt_insert_sorted (k : K) (v : V) (m : BTreeMap) : bt_sorted m -> bt_sorted (bt_insert k v m).
Proof.
  unfold bt_sorted. induction m as [|[k' v'] m IH]; cbn; intros HS; [repeat constructor|].
  apply StronglySorted_inv in HS as [HS HF].
  destruct (ord_cmp k k') eqn:E; cbn; constructor; try done.
  - apply ord_eq in E. by subst k'.
  - by constructor.
  - constructor; [done|]. eapply Forall_impl; [exact HF|]. intros x Hx. by eapply ord_trans.
  - by apply IH.
  - apply Forall_forall. intros x [->|Hx]%bt_insert_keys; [by apply ord_gt|].
    by rewrite Forall_forall in HF; apply HF.
Qed.

Lemma bt_get_insert (k k' : K) (v : V) (m : BTreeMap) :
  bt_sorted m ->
  bt_get k' (bt_insert k v m) = match ord_cmp k' k with Eq => Some v | _ => bt_get k' m end.
Proof.
  unfold bt_sorted. induction m as [|[k0 v0] m IH]; cbn; intros HS.
  { by destruct (ord_cmp k' k). }
  apply StronglySorted_inv in HS as [HS HF]. destruct (ord_cmp k k0) eqn:E; cbn.
  - apply ord_eq in E. subst k0. by destruct (ord_cmp k' k).
  - destruct (ord_cmp k' k) eqn:E'; try done. by rewrite (ord_trans _ _ _ E' E).
  - rewrite IH by done. destruct (ord_cmp k' k0) eqn:E0; destruct (ord_cmp k' k) eqn:E'; try done.
    + apply ord_eq in E0, E'. subst. by rewrite ord_refl in E.
    + apply ord_eq in E'. subst. by rewrite E0 in E.
Qed.

Lemma bt_get_insert_eq (k : K) (v : V) (m : BTreeMap) : bt_sorted m -> bt_get k (bt_insert k v m) = Some v.
Proof. intros H. by rewrite bt_get_insert, ord_refl. Qed.

Lemma bt_get_insert_ne (k k' : K) (v : V) (m : BTreeMap) :
  bt_sorted m -> k' <> k -> bt_get k' (bt_insert k v m) = bt_get k' m.
Proof.
  intros H Hne. rewrite bt_get_insert by done. destruct (ord_cmp k' k) eqn:E; [|done..].
  by apply ord_eq in E.
Qed.

Lemma bt_get_elem (k : K) (m : BTreeMap) : bt_sorted m -> is_Some (bt_get k m) <-> k ∈ m.*1.
Proof.
  unfold bt_sorted. induction m as [|[k0 v0] m IH]; cbn; intros HS.
  { split; [by intros []|]. intros H. by apply elem_of_nil in H. }
  apply StronglySorted_inv in HS as [HS HF]. rewrite elem_of_cons.
  destruct (ord_cmp k k0) eqn:E.
  - apply ord_eq in E. split; [by left|by eexists].
  - split; [by intros []|]. intros [->|H]; [by rewrite ord_refl in E|].
    rewrite Forall_forall in HF. apply HF in H. rewrite ord_opp, E in H. done.
  - rewrite IH by done. split; [by right|]. intros [->|]; [by rewrite ord_refl in E|done].
Qed.

Lemma bt_update_sorted (k : K) (f : V -> V) (m : BTreeMap) : bt_sorted m -> bt_sorted (bt_update k f m).
Proof. intros H. unfold bt_update. destruct (bt_get k m); [by apply bt_insert_sorted|done]. Qed.

Lemma bt_get_update (k k' : K) (f : V -> V) (m : BTreeMap) :
  bt_sorted m ->
  bt_get k' (bt_update k f m) = match ord_cmp k' k with Eq => f <$> bt_get k m | _ => bt_get k' m end.
Proof.
  intros H. unfold bt_update. destruct (bt_get k m) as [v|] eqn:E.
  - rewrite bt_get_insert by done. by destruct (ord_cmp k' k).
  - destruct (ord_cmp k' k) eqn:E'; [|done..]. apply ord_eq in E'. subst. by rewrite E.
Qed.

Lemma bt_sorted_NoDup (m : BTreeMap) : bt_sorted m -> NoDup m.*1.
Proof.
  unfold bt_sorted. induction m.*1 as [|k l IH]; intros HS; [constructor|].
  apply StronglySorted_inv in HS as [HS HF]. constructor; [|by apply IH].
  intros Hk. rewrite Forall_forall in HF. apply HF in Hk. by rewrite ord_refl in Hk.
Qed.

Lemma bt_collect_sorted (l : list (K * V)) : bt_sorted (bt_collect l).
Proof.
  unfold bt_collect. assert (forall m, bt_sorted m -> bt_sorted (foldl (fun m '(k, v) => bt_insert k v m) m l)) as H.
  { induction l as [|[k v] l IH]; intros m Hm; [done|]. cbn. by apply IH, bt_insert_sorted. }
  apply H. constructor.
Qed.

End btree.

(** * [sort_by]: a stable sort *)

Section sort.
Context {A : Type} (le : A -> A -> bool).

Fixpoint sort_insert (x : A) (l : list A) : list A :=
  match l with
  | [] => [x]
  | y :: l' => if le x y then x :: l else y :: sort_insert x l'
  end.

Definition sort_by (l : list A) : list A := foldr sort_insert [] l.

Lemma sort_insert_perm (x : A) (l : list A) : sort_insert x l ≡ₚ x :: l.
Proof.
  induction l as [|y l IH]; [done|]. cbn. destruct (le x y); [done|]. rewrite IH. apply Permutation_swap.
Qed.

Lemma sort_by_perm (l : list A) : sort_by l ≡ₚ l.
Proof. induction l as [|x l IH]; [done|]. cbn. by rewrite sort_insert_perm, IH. Qed.

Context (le_total : forall a b, le a b = false -> le b a = true).
Context (le_trans : forall a b c, le a b = true -> le b c = true -> le a c = true).

Lemma sort_insert_sorted (x : A) (l : list A) :
  StronglySorted (fun a b => le a b = true) l -> StronglySorted (fun a b => le a b = true) (sort_insert x l).
Proof.
  induction l as [|y l IH]; intros HS; cbn; [repeat constructor|].
  pose proof HS as HS0. apply StronglySorted_inv in HS as [HS HF]. destruct (le x y) eqn:E.
  - constructor; [done|]. constructor; [done|]. eapply Forall_impl; [exact HF|]. intros z. by apply le_trans.
  - constructor; [by apply IH|]. rewrite sort_insert_perm. constructor; [by apply le_total|done].
Qed.

Lemma sort_by_sorted (l : list A) : StronglySorted (fun a b => le a b = true) (sort_by l).
Proof. induction l as [|x l IH]; [constructor|]. by apply sort_insert_sorted. Qed.

End sort.

(** * Addresses *)

#[export] Instance ip_ord : Ord IpAddr := fun a b =>
  match a, b with
  | V4 a, V4 b | V6 a, V6 b => key_cmp a b
  | V4 _, V6 _ => Lt
  | V6 _, V4 _ => Gt
  end.

Lemma key_cmp_eq_iff (a b : bytes) : key_cmp a b = Eq <-> a = b.
Proof. split; [apply key_cmp_eq|intros ->; apply key_cmp_refl]. Qed.

#[export] Instance ip_ord_laws : OrdLaws IpAddr.
Proof.
  split.
  - intros [a|a] [b|b]; cbn; rewrite ?key_cmp_eq_iff; naive_solver.
  - intros [a|a] [b|b]; cbn; try done; apply key_cmp_antisym.
  - intros [a|a] [b|b] [c|c]; cbn; try done; apply key_cmp_trans.
Qed.

#[export] Instance Z_ord : Ord Z := Z.compare.
#[export] Instance Z_ord_laws : OrdLaws Z.
Proof.
  split; unfold ord_cmp, Z_ord.
  - intros a b. apply Z.compare_eq_iff.
  - intros a b. apply Z.compare_antisym.
  - intros a b c. rewrite !Z.compare_lt_iff. lia.
Qed.

#[export] Instance bytes_ord : Ord bytes := key_cmp.
#[export] Instance bytes_ord_laws : OrdLaws bytes.
Proof. split; [apply key_cmp_eq_iff|apply key_cmp_antisym|apply key_cmp_trans]. Qed.
