(* ===== verification/PeerTests.v ===== *)
(** The checks a simulated node runs against its debugger at the end of a run
    ([simulator/src/peer/tests.rs]): the order of the messages of its test stream,
    and the gossip events of both sides. The answers of the debugger's HTTP
    interface are parameters. *)

From stdpp Require Import base list sets sorting.
From Stdlib Require Import ZArith Lia.
From S2P Require Import Prelude Types Text BTree.

(** * Reports *)

Inductive GossipShort : Type := TestMessage (height : Z).

Inductive DbEvent : Type :=
| DbReceivedGossip (peer_id peer_address : bytes) (msg : GossipShort) (hash : bytes)
| DbPublishGossip (msg : GossipShort) (hash : bytes).

#[export] Instance GossipShort_eq_dec : EqDecision GossipShort.
Proof. solve_decision. Defined.
#[export] Instance DbEvent_eq_dec : EqDecision DbEvent.
Proof. solve_decision. Defined.

Record DbEventWithMetadata : Type := mkDbEvents { de_time : Z; de_events : list DbEvent }.

Record BlockNetworkEvent : Type := mkBlockEvent {
  be_producer_id : bytes;
  be_hash : bytes;
  be_block_height : Z;
  be_global_slot : Z;
  be_incoming : bool;
  be_time : Z;
  be_better_time : Z;
  be_latency : option Z;
  be_sender_addr : SocketAddr;
  be_receiver_addr : SocketAddr;
}.

Record OrderReport : Type := mkOrderReport {
  or_messages : Z;
  unordered_num : list (Z * bool * Z * Z);
  unordered_time : list (Z * bool * Z * Z);
}.

Record EventsReport : Type := mkEventsReport {
  matching : bool;
  consistent : bool;
  er_events : list DbEventWithMetadata;
  debugger_events : list DbEventWithMetadata;
  network_events : list (Z * list BlockNetworkEvent);
}.

Record TimeGroupReport : Type := mkGroupReport {
  gr_timestamps : list Z;
  gr_filter_ok : bool;
  gr_ordered : bool;
}.

Record TimestampsReport : Type := mkTimestampsReport {
  tr_start : Z;
  tr_end : Z;
  group_report : list TimeGroupReport;
  total_messages : Z;
  tr_ordered : bool;
  timestamps_filter_ok : bool;
}.

Record TestReport : Type := mkTestReport {
  t_timestamps : TimestampsReport;
  t_events : EventsReport;
  t_order : OrderReport;
}.

(** [height] *)
Definition events_height (e : DbEventWithMetadata) : Z :=
  match de_events e with
  | DbPublishGossip (TestMessage h) _ :: _ => h
  | DbReceivedGossip _ _ (TestMessage h) _ :: _ => h
  | [] => 4294967295
  end.

(** * [test_order] *)

(** What the check uses of a message. *)
Record FullMessage : Type := mkFullMessage { fm_incoming : bool; fm_timestamp : Z }.

Section order.
(** [get_messages] with the limit 500 from an id on; [get_message]. *)
Context {Er : Type} (get_messages : Z -> result (list (Z * FullMessage)) Er) (get_message : Z -> option bytes).

(** The loop that fetches the pages; an error counts as an empty page. *)
Fixpoint fetch_pages (fuel : nat) (id : Z) (messages : list (Z * FullMessage))
    : outcome (list (Z * FullMessage)) :=
  match fuel with
  | O => OutOfFuel
  | S fuel =>
      let v := match get_messages id with Ok v => v | Err _ => [] end in
      match last v with
      | Some (l, _) => fetch_pages fuel (wrap 64 (l + 1)) (messages ++ v)
      | None => Ret messages
      end
  end.

(** [bytes.chunks(0x400)] with [c[..4]] of each chunk. *)
Fixpoint chunk_numbers (fuel : nat) (b : bytes) : outcome (list Z) :=
  match fuel, b with
  | _, [] => Ret []
  | O, _ => OutOfFuel
  | S fuel, _ =>
      c ← slice_to 4 (take 1024 b);
      ns ← chunk_numbers fuel (drop 1024 b);
      Ret (le_decode c :: ns)
  end.

(** The last message of a direction: its time and number. *)
Record Last : Type := mkLast { l_time : option Z; l_n : Z }.

Record OrderState : Type := mkOrderState { os_report : OrderReport; os_in : Last; os_out : Last }.

Definition order_init : OrderState :=
  mkOrderState (mkOrderReport 0 [] []) (mkLast None 0) (mkLast None 0).

(** One number of one message. *)
Definition order_step (id : Z) (msg : FullMessage) (this_n : Z) (s : OrderState) : OrderState :=
  let inc := fm_incoming msg in
  let l := if inc then os_in s else os_out s in
  let r := os_report s in
  let bad_num := match l_time l with
                 | Some _ => if wrap 32 (l_n l + 1) =? this_n then [] else [(id, inc, l_n l, this_n)]
                 | None => []
                 end in
  let bad_time := match l_time l with
                  | Some t => if fm_timestamp msg <? t then [(id, inc, t, fm_timestamp msg)] else []
                  | None => []
                  end in
  let r := mkOrderReport (or_messages r + 1) (unordered_num r ++ bad_num) (unordered_time r ++ bad_time) in
  let l := mkLast (Some (fm_timestamp msg)) this_n in
  if inc then mkOrderState r l (os_out s) else mkOrderState r (os_in s) l.

Fixpoint order_loop (messages : list (Z * FullMessage)) (s : OrderState) : outcome OrderState :=
  match messages with
  | [] => Ret s
  | (id, msg) :: messages =>
      match get_message id with
      | None => Panic
      | Some b =>
          ns ← chunk_numbers (length b) b;
          order_loop messages (foldl (fun s n => order_step id msg n s) s ns)
      end
  end.

Definition test_order (fuel : nat) : outcome OrderReport :=
  messages ← fetch_pages fuel 0 [];
  s ← order_loop messages order_init;
  Ret (os_report s).

(** ** What it finds *)

(** The debugger answers from a log, up to 500 messages from an id on. *)
Definition serves (log : list (Z * FullMessage)) : Prop :=
  forall id, get_messages id = Ok (take 500 (filter (fun m => id <= m.1) log)).

Lemma filter_all {A} (P : A -> Prop) `{!forall x, Decision (P x)} (l : list A) :
  (forall x, x ∈ l -> P x) -> filter P l = l.
Proof.
  induction l as [|x l IH]; intros Hx; [done|]. rewrite filter_cons_True by (apply Hx; by left).
  by rewrite IH by (intros; apply Hx; by right).
Qed.

Lemma filter_none {A} (P : A -> Prop) `{!forall x, Decision (P x)} (l : list A) :
  (forall x, x ∈ l -> ~ P x) -> filter P l = [].
Proof.
  induction l as [|x l IH]; intros Hx; [done|]. rewrite filter_cons_False by (apply Hx; by left).
  by rewrite IH by (intros; apply Hx; by right).
Qed.

(** The pages put together are the log. *)
Lemma fetch_pages_log (fuel : nat) (id : Z) (acc seen todo : list (Z * FullMessage)) :
  serves (seen ++ todo) -> StronglySorted (fun a b => a.1 < b.1) (seen ++ todo) ->
  Forall (fun m => 0 <= m.1 < 2 ^ 64 - 1) (seen ++ todo) ->
  filter (fun m => id <= m.1) (seen ++ todo) = todo -> (length todo < fuel)%nat ->
  fetch_pages fuel id acc = Ret (acc ++ todo).
Proof.
  revert id acc seen todo. induction fuel as [|fuel IH]; intros id acc seen todo Hg HS Hr Hf Hl; [lia|].
  cbn [fetch_pages]. rewrite (Hg id), Hf.
  destruct (last (take 500 todo)) as [[l m]|] eqn:E.
  - apply last_Some in E as [pre E].
    assert (todo = pre ++ (l, m) :: drop 500 todo) as Ht.
    { rewrite <- (take_drop 500 todo) at 1. by rewrite E, <- app_assoc. }
    assert (seen ++ todo = (seen ++ take 500 todo) ++ drop 500 todo) as Es by (by rewrite <- app_assoc, take_drop).
    assert (seen ++ todo = (seen ++ pre) ++ (l, m) :: drop 500 todo) as Em by (rewrite Ht at 1; by rewrite app_assoc).
    rewrite wrap_small; cycle 1.
    { rewrite Em in Hr. apply Forall_app in Hr as [_ [Hx _]%Forall_cons]. cbn in Hx. lia. }
    rewrite (IH (l + 1) _ (seen ++ take 500 todo) (drop 500 todo)); rewrite <- ?Es; try done.
    + by rewrite <- app_assoc, take_drop.
    + rewrite Em in HS |- *. apply StronglySorted_app in HS as (Hlt & _ & HS).
      apply StronglySorted_inv in HS as [_ HF]. rewrite Forall_forall in HF.
      rewrite filter_app, (filter_none _ (seen ++ pre)), filter_cons_False; cbn.
      * apply filter_all. intros x Hx. apply HF in Hx. cbn in Hx. lia.
      * lia.
      * intros x Hx. specialize (Hlt x (l, m) Hx ltac:(by left)). cbn in Hlt. lia.
    + rewrite Ht in Hl. rewrite length_app in Hl. cbn in Hl. lia.
  - apply last_None in E. destruct todo; [by rewrite app_nil_r|done].
Qed.

(** The items a run goes through: id, message and number. *)
Definition items_of (items : list (Z * FullMessage * Z)) : OrderState :=
  foldl (fun s '(id, msg, n) => order_step id msg n s) order_init items.

Definition dir_items (d : bool) (items : list (Z * FullMessage * Z)) : list (Z * FullMessage * Z) :=
  filter (fun i => fm_incoming i.1.2 = d) items.

Definition adjacent {A} (P : A -> A -> Prop) (l : list A) : Prop :=
  forall i a b, l !! i = Some a -> l !! S i = Some b -> P a b.

Definition num_ok (a b : Z * FullMessage * Z) : Prop := b.2 = wrap 32 (a.2 + 1).
Definition time_ok (a b : Z * FullMessage * Z) : Prop := fm_timestamp a.1.2 <= fm_timestamp b.1.2.

Lemma adjacent_snoc {A} (P : A -> A -> Prop) (l : list A) (x : A) :
  adjacent P (l ++ [x]) <-> adjacent P l /\ match last l with Some y => P y x | None => True end.
Proof.
  split.
  - intros H. split.
    + intros i a b Ha Hb. apply (H i); by rewrite lookup_app_l by (eapply lookup_lt_Some; eauto).
    + destruct (last l) as [y|] eqn:E; [|done]. apply last_Some in E as [l' ->].
      apply (H (length l')); rewrite <- app_assoc; cbn [app]; [by apply list_lookup_middle|].
      by rewrite lookup_app_r, Nat.sub_succ_l, Nat.sub_diag by lia.
  - intros [H Hl] i a b Ha Hb. pose proof (lookup_lt_Some _ _ _ Hb) as Hb'. rewrite length_app in Hb'. cbn in Hb'.
    destruct (decide (S i < length l)%nat) as [Hi|Hi].
    + rewrite lookup_app_l in Ha, Hb by lia. by apply (H i).
    + assert (S i = length l) as Hi' by lia. rewrite lookup_app_l in Ha by lia.
      rewrite lookup_app_r, Hi', Nat.sub_diag in Hb by lia. cbn in Hb. simplify_eq.
      rewrite last_lookup, <- Hi' in Hl. cbn [pred] in Hl. by rewrite Ha in Hl.
Qed.

Definition last_of (l : list (Z * FullMessage * Z)) : Last :=
  match last l with Some i => mkLast (Some (fm_timestamp i.1.2)) i.2 | None => mkLast None 0 end.

Lemma dir_items_snoc (d : bool) (items : list (Z * FullMessage * Z)) (x : Z * FullMessage * Z) :
  dir_items d (items ++ [x]) =
  if bool_decide (fm_incoming x.1.2 = d) then dir_items d items ++ [x] else dir_items d items.
Proof.
  unfold dir_items. rewrite filter_app. case_bool_decide.
  - by rewrite filter_cons_True.
  - by rewrite filter_cons_False, app_nil_r.
Qed.

Lemma app_single_nil {A} (l l' : list A) : l ++ l' = [] <-> l = [] /\ l' = [].
Proof. split; [apply app_nil|by intros [-> ->]]. Qed.

(** The report is clean exactly when the numbers of each direction follow one
    another and its times do not go back. *)
Lemma items_report (items : list (Z * FullMessage * Z)) :
  let s := items_of items in
  or_messages (os_report s) = blen items /\
  (forall d : bool, (if d then os_in s else os_out s) = last_of (dir_items d items)) /\
  (unordered_num (os_report s) = [] <-> forall d, adjacent num_ok (dir_items d items)) /\
  (unordered_time (os_report s) = [] <-> forall d, adjacent time_ok (dir_items d items)).
Proof.
  induction items as [|[[id msg] n] items (Hm & Hl & Hn & Ht)] using rev_ind.
  { cbn. split; [done|]. split; [by intros []|]. split; (split; [|done]); intros _ d i a b H; done. }
  unfold items_of in *. rewrite foldl_app. cbn [foldl].
  set (s := foldl _ order_init items) in *. cbn zeta in *.
  remember (fm_incoming msg) as inc eqn:Ei. specialize (Hl inc) as Hinc.
  assert (forall (Q : Z * FullMessage * Z -> Z * FullMessage * Z -> Prop) (bad : Prop),
    (bad <-> match last (dir_items inc items) with Some y => Q y (id, msg, n) | None => True end) ->
    (forall d, adjacent Q (dir_items d (items ++ [(id, msg, n)]))) <->
    (forall d, adjacent Q (dir_items d items)) /\ bad) as Hadj.
  { intros Q bad Hb. rewrite Hb. split.
    - intros H. split; [intros d|].
      + specialize (H d). rewrite dir_items_snoc in H. case_bool_decide; [|done].
        by apply adjacent_snoc in H as [].
      + specialize (H inc). rewrite dir_items_snoc, bool_decide_eq_true_2 in H by (by subst).
        by apply adjacent_snoc in H as [].
    - intros [H Hx] d. rewrite dir_items_snoc. case_bool_decide as E; [|done]. cbn in E. rewrite <- Ei in E. subst d.
      by apply adjacent_snoc. }
  unfold order_step. rewrite <- Ei, Hinc. unfold last_of.
  split; [|split; [|split]].
  - rewrite blen_app. by destruct inc; cbn; rewrite Hm.
  - intros d. rewrite dir_items_snoc. cbn [fst snd]. rewrite <- Ei. specialize (Hl d). unfold last_of in *.
    case_bool_decide as E; [subst d; rewrite last_snoc; by destruct inc|].
    by destruct inc, d.
  - rewrite (Hadj num_ok (match last (dir_items inc items) with Some y => num_ok y (id, msg, n) | None => True end)), <- Hn by done.
    destruct (last (dir_items inc items)) as [y|]; unfold num_ok; destruct inc; cbn [os_report unordered_num l_time l_n];
      rewrite app_single_nil; cbn; split; (intros [H1 H2]; split; [done|]); try done;
      destruct (Z.eqb_spec (wrap 32 (y.2 + 1)) n); done.
  - rewrite (Hadj time_ok (match last (dir_items inc items) with Some y => time_ok y (id, msg, n) | None => True end)), <- Ht by done.
    destruct (last (dir_items inc items)) as [y|]; unfold time_ok; destruct inc; cbn [os_report unordered_time l_time l_n];
      rewrite app_single_nil; cbn; split; (intros [H1 H2]; split; [done|]); try done;
      destruct (Z.ltb_spec (fm_timestamp msg) (fm_timestamp y.1.2)); done || lia.
Qed.

(** A message made of whole blocks has one number per block. *)
Lemma chunk_numbers_blocks (blocks : list bytes) (fuel : nat) :
  Forall (fun b => length b = 1024%nat) blocks -> (length blocks <= fuel)%nat ->
  chunk_numbers fuel (concat blocks) = Ret ((fun b => le_decode (take 4 b)) <$> blocks).
Proof.
  revert fuel. induction blocks as [|b blocks IH]; intros fuel Hb Hf; [by destruct fuel|].
  apply Forall_cons in Hb as [Hb Hbs]. cbn [length] in Hf. destruct fuel as [|fuel]; [lia|].
  cbn [concat fmap list_fmap]. destruct (b ++ concat blocks) as [|x l] eqn:E.
  { apply (f_equal length) in E. rewrite length_app, Hb in E. done. }
  cbn [chunk_numbers]. rewrite <- E. clear E x l.
  rewrite take_app_length', drop_app_length' by done.
  rewrite slice_to_within by (unfold blen; lia). cbn [mbind outcome_bind].
  rewrite IH by (done || lia). done.
Qed.

(** The numbers of the messages, as the loop meets them. *)
Definition numbered (m : Z * FullMessage) (ns : list Z) : Prop :=
  exists b, get_message m.1 = Some b /\ chunk_numbers (length b) b = Ret ns.

Definition items (log : list (Z * FullMessage)) (nss : list (list Z)) : list (Z * FullMessage * Z) :=
  concat (zip_with (fun m ns => (fun n => (m, n)) <$> ns) log nss).

Lemma order_loop_items (log : list (Z * FullMessage)) (nss : list (list Z)) (s : OrderState) :
  Forall2 numbered log nss ->
  order_loop log s = Ret (foldl (fun s '(id, msg, n) => order_step id msg n s) s (items log nss)).
Proof.
  intros H. revert s. induction H as [|[id msg] ns log nss (b & Hb & Hn) _ IH]; intros s; [done|].
  cbn [order_loop]. cbn [fst] in Hb. rewrite Hb, Hn. cbn [mbind outcome_bind]. rewrite IH.
  unfold items. cbn [zip_with concat]. rewrite foldl_app. do 2 f_equal.
  clear. revert s. induction ns as [|n ns IH]; intros s; [done|]. apply IH.
Qed.

(** The check of the test stream is exact. If the debugger answers pages of 500
    messages from a log with increasing ids, the check ends, has looked at every
    block of every message once, and reports no wrong number exactly when in each
    direction every block carries the number after the one before it, and no wrong
    time exactly when in each direction no message is older than the one before. *)
Theorem test_order_exact (log : list (Z * FullMessage)) (nss : list (list Z)) :
  serves log -> StronglySorted (fun a b => a.1 < b.1) log ->
  Forall (fun m => 0 <= m.1 < 2 ^ 64 - 1) log -> Forall2 numbered log nss ->
  exists r, test_order (S (length log)) = Ret r /\
    or_messages r = blen (items log nss) /\
    (unordered_num r = [] <-> forall d, adjacent num_ok (dir_items d (items log nss))) /\
    (unordered_time r = [] <-> forall d, adjacent time_ok (dir_items d (items log nss))).
Proof.
  intros Hg HS Hr Hn. unfold test_order.
  rewrite (fetch_pages_log (S (length log)) 0 [] [] log); cbn [app]; try done; [|..|lia].
  2:{ apply filter_all. intros x Hx. rewrite Forall_forall in Hr. apply Hr in Hx. lia. }
  cbn [mbind outcome_bind]. rewrite (order_loop_items log nss _ Hn). cbn [mbind outcome_bind].
  eexists. split; [done|]. destruct (items_report (items log nss)) as (Hm & _ & Hnum & Htime). done.
Qed.

End order.

(** * [test_events] *)

Section events.
(** [get_events] and [get_network_event]. *)
Context (get_events : list DbEventWithMetadata) (get_network_event : Z -> list BlockNetworkEvent).

Definition events_match (events : list DbEventWithMetadata) : bool :=
  if Z.abs (blen events - blen get_events) <=? 1 then
    forallb (fun '(a, b) => bool_decide (de_events a = de_events b)) (zip events get_events)
  else false.

(** The network event an ipc event must have; what was published is not checked. *)
Definition has_network_event (height : Z) (network_e : list BlockNetworkEvent) (e : DbEventWithMetadata) : bool :=
  match de_events e with
  | DbReceivedGossip _ peer_address _ hash :: _ =>
      existsb (fun n => be_incoming n && (be_block_height n =? height) &&
                        starts_with (show_ip (ip (be_sender_addr n))) peer_address &&
                        bool_decide (be_hash n = hash)) network_e
  | _ => true
  end.

Definition heights : list Z := (bt_collect ((fun e => (events_height e, tt)) <$> get_events)).*1.

Definition test_events (events : list DbEventWithMetadata) : EventsReport :=
  let found := (fun h => (h, get_network_event h)) <$> heights in
  let consistent :=
    forallb (fun '(h, network_e) =>
      forallb (has_network_event h network_e) (filter (fun e => events_height e = h) get_events)) found in
  mkEventsReport (events_match events) consistent events get_events (bt_collect found).

Lemma collect_keys {V} (l : list (Z * V)) (x : Z) : x ∈ (bt_collect l).*1 <-> x ∈ l.*1.
Proof.
  unfold bt_collect. assert (forall m : list (Z * V),
    x ∈ (foldl (fun m '(k, v) => bt_insert k v m) m l).*1 <-> x ∈ m.*1 \/ x ∈ l.*1) as Hk.
  { induction l as [|[k v] l IH]; intros m; cbn; [set_solver|]. rewrite IH, bt_insert_keys. set_solver. }
  rewrite Hk. set_solver.
Qed.

(** Consistency: every received gossip has an event of its block on the network. *)
Lemma test_events_consistent (events : list DbEventWithMetadata) :
  consistent (test_events events) = true <->
  forall e, e ∈ get_events -> has_network_event (events_height e) (get_network_event (events_height e)) e = true.
Proof.
  cbn [test_events consistent]. rewrite forallb_forall. split.
  - intros H e He.
    specialize (H (events_height e, get_network_event (events_height e))). cbn in H.
    rewrite forallb_forall in H. apply H.
    + apply list_elem_of_In, list_elem_of_fmap. exists (events_height e). split; [done|].
      unfold heights. apply collect_keys. apply list_elem_of_fmap. exists (events_height e, tt).
      split; [done|]. apply list_elem_of_fmap. by exists e.
    + apply list_elem_of_In, list_elem_of_filter. done.
  - intros H [h n] Hh. apply list_elem_of_In, list_elem_of_fmap in Hh as (h' & Hh & _). simplify_eq.
    apply forallb_forall. intros e He. apply list_elem_of_In, list_elem_of_filter in He as [<- He]. by apply H.
Qed.

End events.

(** * [test_messages_timestamps] *)

(** The arithmetic on [f64] seconds: the seconds of a time, those of an integer,
    the comparison, and the ends of the groups, [s + i * duration / GROUPS]. *)
Class F64Time (F : Type) : Type := {
  as_secs_f64 : Z -> F;
  f64_of_u64 : Z -> F;
  f64_le : F -> F -> bool;
  group_bound : Z -> Z -> Z -> Z;
}.

Section timestamps.
Context {F : Type} {HF : F64Time F}.
(** [get_messages] with the two times of a group. *)
Context {Er : Type} (get_messages : Z -> Z -> result (list FullMessage) Er).

Definition GROUPS : Z := 10.

Definition time_group (start end_ : Z) : TimeGroupReport :=
  let messages := match get_messages start end_ with Ok v => v | Err _ => [] end in
  let timestamps := fm_timestamp <$> messages in
  let sorted := merge_sort Z.le timestamps in
  let ordered := bool_decide (sorted = timestamps) in
  match head sorted, last sorted with
  | Some first, Some last =>
      let ok := f64_le (f64_of_u64 start) (as_secs_f64 first) in
      let ok := f64_le (as_secs_f64 last) (f64_of_u64 end_) in
      mkGroupReport timestamps ok ordered
  | _, _ => mkGroupReport timestamps true ordered
  end.

Definition test_messages_timestamps (started ended : Z) : TimestampsReport :=
  let bound i := group_bound started (ended - started) i in
  let groups := (fun i => time_group (bound i) (bound (i + 1))) <$> seqZ 0 GROUPS in
  mkTimestampsReport started ended groups
    (foldr Z.add 0 (blen ∘ gr_timestamps <$> groups)) true (forallb gr_filter_ok groups).

(** Only the end of a group is checked: the check of its start is overwritten. *)
Lemma time_group_start_unchecked (start end_ : Z) (messages : list FullMessage) :
  get_messages start end_ = Ok messages ->
  (forall t, t ∈ fm_timestamp <$> messages -> f64_le (as_secs_f64 t) (f64_of_u64 end_) = true) ->
  gr_filter_ok (time_group start end_) = true.
Proof.
  intros Hg Ht. unfold time_group. rewrite Hg.
  destruct (head _) as [first|] eqn:Eh; [|done]. destruct (last _) as [l|] eqn:El; [|done]. cbn.
  apply Ht. apply last_Some in El as [pre El].
  rewrite <- (merge_sort_Permutation Z.le (fm_timestamp <$> messages)), El. set_solver.
Qed.

End timestamps.
