(* ===== verification/Registry.v ===== *)
(** The registry of the simulated network ([simulator/src/registry]): nodes register
    for a build, post what they and their debuggers saw, and ask together for a
    split of the network. A handler of the HTTP server runs under the lock of the
    state, so the model is a state machine over requests; the process that makes keys
    is a parameter of the requests. *)

From stdpp Require Import base strings list sets.
From Stdlib Require Import ZArith Lia.
From S2P Require Import Prelude Types Rocks BTree Checksum Ipc PeerTests.

(** * [messages.rs] *)

Record PeerInfo : Type := mkPeerInfo { pi_ip : IpAddr; pi_peer_id : bytes }.

Record Registered : Type := mkRegistered {
  rg_info : PeerInfo;
  rg_secret_key : bytes;
  rg_external : IpAddr;
  rg_prev : option IpAddr;
  rg_peers : list (IpAddr * bytes);
  rg_leader : bool;
}.

Record NetReport : Type := mkNetReport {
  nr_local : SocketAddr;
  nr_remote : SocketAddr;
  nr_counter : nat;
  nr_timestamp : Z;
  nr_bytes_number : Z;
}.

Record MockReport : Type := mkMockReport { mr_ipc : ChecksumPair; mr_test : TestReport }.

Record MockSplitReport : Type := mkSplitReport {
  sr_before : list Peer * Z;
  sr_after_split : list Peer * Z;
  sr_after_reunite : list Peer * Z;
}.

Record Summary : Type := mkSummary {
  sm_peer_id : bytes;
  sm_mock_report : option MockReport;
  sm_debugger_report : option DebuggerReport;
  sm_net_report : list NetReport;
  sm_mock_split_report : option MockSplitReport;
}.

Definition summary_full (s : Summary) : bool :=
  match sm_mock_report s, sm_debugger_report s, sm_net_report s with
  | Some _, Some _, _ :: _ => true
  | _, _, _ => false
  end.

(** * [state.rs] *)

Record State : Type := mkState {
  st_build_number : Z;
  st_last : option IpAddr;
  st_summary : list (IpAddr * Summary);
}.

Definition state_default : State := mkState 0 None [].

(** What the helper answers to [generate_keypair]: an error, no pair, or the id of
    the peer and the secret key. *)
Definition Keypair : Type := result (option (bytes * bytes)) bytes.

(** [register]; [nodes - 1] on [u32]. *)
Definition register (ip : IpAddr) (build_number nodes : Z) (keypair : Keypair) (s : State)
    : State * result Registered bytes :=
  let s := if st_build_number s =? build_number then s else mkState build_number (st_last s) [] in
  match keypair with
  | Err e => (s, Err e)
  | Ok None => (s, Err (str "cannot generate key pair"))
  | Ok (Some (peer_id, secret_key)) =>
      let already_registered := wrap 32 (blen (st_summary s)) in
      let response :=
        mkRegistered (mkPeerInfo ip peer_id) (hex_encode secret_key) ip (st_last s)
          ((fun '(k, s) => (k, sm_peer_id s)) <$> st_summary s)
          (already_registered =? wrap 32 (nodes - 1)) in
      (mkState (st_build_number s) (Some ip)
               (bt_insert ip (mkSummary peer_id None None [] None) (st_summary s)),
       Ok response)
  end.

Definition update_summary (ip : IpAddr) (f : Summary -> Summary) (s : State) : State :=
  mkState (st_build_number s) (st_last s) (bt_update ip f (st_summary s)).

Definition set_net_report (r : list NetReport) (s : Summary) : Summary :=
  mkSummary (sm_peer_id s) (sm_mock_report s) (sm_debugger_report s) r (sm_mock_split_report s).
Definition set_mock_report (r : MockReport) (s : Summary) : Summary :=
  mkSummary (sm_peer_id s) (Some r) (sm_debugger_report s) (sm_net_report s) (sm_mock_split_report s).
Definition set_mock_split_report (r : MockSplitReport) (s : Summary) : Summary :=
  mkSummary (sm_peer_id s) (sm_mock_report s) (sm_debugger_report s) (sm_net_report s) (Some r).
Definition set_debugger_report (r : DebuggerReport) (s : Summary) : Summary :=
  mkSummary (sm_peer_id s) (sm_mock_report s) (Some r) (sm_net_report s) (sm_mock_split_report s).

Definition add_net_report (ip : IpAddr) (r : list NetReport) : State -> State := update_summary ip (set_net_report r).
Definition add_mock_report (ip : IpAddr) (r : MockReport) : State -> State := update_summary ip (set_mock_report r).
Definition add_mock_split_report (ip : IpAddr) (r : MockSplitReport) : State -> State :=
  update_summary ip (set_mock_split_report r).
Definition add_debugger_report (ip : IpAddr) (r : DebuggerReport) : State -> State :=
  update_summary ip (set_debugger_report r).

Definition reset (s : State) : State := mkState (st_build_number s) None [].

(** * [server.rs] *)

Inductive Report : Type :=
| RNet (r : list NetReport)
| RMock (r : MockReport)
| RMockSplit (r : MockSplitReport)
| RDebugger (r : DebuggerReport).

(** A request with the address it comes from, if known. *)
Inductive Request : Type :=
| GetRegister (addr : option SocketAddr) (build_number : Z) (keypair : Keypair)
| GetSummary (partial : option bool)
| PostReport (addr : option SocketAddr) (build_number : Z) (r : Report)
| PostReset.

Inductive Reply : Type :=
| RText (s : bytes)
| RRegistered (r : Registered)
| RSummary (m : list (IpAddr * Summary))
| RNull.

Definition OK : Z := 200.
Definition GONE : Z := 410.
Definition INTERNAL_SERVER_ERROR : Z := 500.

Definition no_address : Reply := RText (str "could not determine registrant address").

Definition add_report (ip : IpAddr) (r : Report) : State -> State :=
  match r with
  | RNet r => add_net_report ip r
  | RMock r => add_mock_report ip r
  | RMockSplit r => add_mock_split_report ip r
  | RDebugger r => add_debugger_report ip r
  end.

Definition handle (nodes : Z) (q : Request) (s : State) : State * (Z * Reply) :=
  match q with
  | GetRegister None _ _ | PostReport None _ _ => (s, (INTERNAL_SERVER_ERROR, no_address))
  | GetRegister (Some addr) build_number keypair =>
      match register (ip addr) build_number nodes keypair s with
      | (s, Ok r) => (s, (OK, RRegistered r))
      | (s, Err e) => (s, (INTERNAL_SERVER_ERROR, RText e))
      end
  | GetSummary partial =>
      if default false partial || forallb (fun '(_, x) => bool_decide (is_Some (sm_debugger_report x))) (st_summary s)
      then (s, (OK, RSummary (st_summary s)))
      else (s, (OK, RNull))
  | PostReport (Some addr) build_number r =>
      if st_build_number s =? build_number then (add_report (ip addr) r s, (OK, RText []))
      else (s, (GONE, RText []))
  | PostReset => (reset s, (OK, RText []))
  end.

Definition serve (nodes : Z) (qs : list Request) (s : State) : State :=
  foldl (fun s q => (handle nodes q s).1) s qs.

(** * What the registry knows of a node *)

Definition report_on (r : Report) : Summary -> Summary :=
  match r with
  | RNet r => set_net_report r
  | RMock r => set_mock_report r
  | RMockSplit r => set_mock_split_report r
  | RDebugger r => set_debugger_report r
  end.

(** The build and the entry of one address after a request: other addresses only
    matter when they start another build. *)
Definition entry_step (a : IpAddr) (p : Z * option Summary) (q : Request) : Z * option Summary :=
  match q with
  | GetRegister (Some addr) b keypair =>
      let entry := if p.1 =? b then p.2 else None in
      (b, match keypair with
          | Ok (Some (peer_id, _)) =>
              if decide (ip addr = a) then Some (mkSummary peer_id None None [] None) else entry
          | _ => entry
          end)
  | PostReport (Some addr) b r =>
      (p.1, if decide (p.1 = b /\ ip addr = a) then report_on r <$> p.2 else p.2)
  | PostReset => (p.1, None)
  | _ => p
  end.

Definition entry_of (a : IpAddr) (qs : list Request) : Z * option Summary :=
  foldl (entry_step a) (0, None) qs.

Lemma ord_cmp_decide (a b : IpAddr) {A} (x y : A) :
  match ord_cmp a b with Eq => x | _ => y end = if decide (b = a) then x else y.
Proof.
  destruct (decide (b = a)) as [->|H]; [by rewrite ord_refl|].
  destruct (ord_cmp a b) eqn:E; [|done..]. apply ord_eq in E. congruence.
Qed.

Lemma update_summary_get (a : IpAddr) (ip : IpAddr) (f : Summary -> Summary) (s : State) :
  bt_sorted (st_summary s) ->
  bt_get a (st_summary (update_summary ip f s))
  = if decide (ip = a) then f <$> bt_get a (st_summary s) else bt_get a (st_summary s).
Proof.
  intros H. cbn. rewrite bt_get_update, ord_cmp_decide by done. by destruct (decide (ip = a)) as [->|].
Qed.

Lemma add_report_update (ip : IpAddr) (r : Report) (s : State) :
  add_report ip r s = update_summary ip (report_on r) s.
Proof. by destruct r. Qed.

Lemma handle_entry (nodes : Z) (q : Request) (s : State) :
  bt_sorted (st_summary s) ->
  let s' := (handle nodes q s).1 in
  bt_sorted (st_summary s') /\
  forall a, (st_build_number s', bt_get a (st_summary s'))
            = entry_step a (st_build_number s, bt_get a (st_summary s)) q.
Proof.
  intros Hs. destruct q as [[addr|] b kp|partial|[addr|] b r|]; cbn [handle entry_step fst snd].
  - unfold register.
    set (s0 := if st_build_number s =? b then s else mkState b (st_last s) []).
    assert (bt_sorted (st_summary s0)) as H0 by (unfold s0; destruct (_ =? _); [done|constructor]).
    assert (st_build_number s0 = b) as Hb by (unfold s0; destruct (Z.eqb_spec (st_build_number s) b); done).
    assert (forall a, bt_get a (st_summary s0) = if st_build_number s =? b then bt_get a (st_summary s) else None)
      as Hg by (intros a; unfold s0; by destruct (_ =? _)).
    destruct kp as [[[pid sk]|]|e]; cbn; rewrite Hb; [|by split; [|intros a; rewrite Hg]..].
    split; [by apply bt_insert_sorted|]. intros a.
    rewrite bt_get_insert, ord_cmp_decide, Hg by done. done.
  - done.
  - destruct (_ || _); done.
  - destruct (Z.eqb_spec (st_build_number s) b) as [E|E]; cbn [fst].
    + rewrite add_report_update. split; [by apply bt_update_sorted|]. intros a.
      rewrite update_summary_get by done. cbn.
      destruct (decide (ip addr = a)) as [->|Hne].
      * by rewrite decide_True by done.
      * rewrite decide_False by naive_solver. done.
    + split; [done|]. intros a. by rewrite decide_False by naive_solver.
  - done.
  - split; [constructor|done].
Qed.

(** C25: the registry keeps, for every node, its own history. After any requests
    from the start, the entry of an address is what its own requests made of it: its
    last registration, with the last report of each kind it posted since for the same
    build; a registration for another build, by whatever node, or a reset clears it,
    and reports for another build are answered with Gone and change nothing. A new
    registration for the current build is told the peers registered so far, each
    once, and is the leader exactly when [nodes - 1] addresses are registered. *)
Theorem registry_history (nodes : Z) (qs : list Request) (addr : SocketAddr) (peer_id key : bytes) :
  let s := serve nodes qs state_default in
  (forall a, (st_build_number s, bt_get a (st_summary s)) = entry_of a qs) /\
  (forall a r b, b <> st_build_number s -> handle nodes (PostReport (Some a) b r) s = (s, (GONE, RText []))) /\
  exists reg, (handle nodes (GetRegister (Some addr) (st_build_number s) (Ok (Some (peer_id, key)))) s).2
              = (OK, RRegistered reg) /\
    NoDup (rg_peers reg).*1 /\
    (forall a, bt_get a (rg_peers reg) = sm_peer_id <$> (entry_of a qs).2) /\
    (rg_leader reg = true <-> wrap 32 (blen (rg_peers reg)) = wrap 32 (nodes - 1)).
Proof.
  intros s. assert (bt_sorted (st_summary s) /\
    forall a, (st_build_number s, bt_get a (st_summary s)) = entry_of a qs) as [Hs He].
  { unfold s, serve, entry_of. induction qs as [|q qs IH] using rev_ind; [split; [constructor|done]|].
    rewrite foldl_app. cbn [foldl]. destruct IH as [Hs He].
    destruct (handle_entry nodes q _ Hs) as [Hs' He']. split; [done|].
    intros a. rewrite He', He, foldl_app. done. }
  split; [done|]. split.
  { intros a r b Hb. cbn. by rewrite (proj2 (Z.eqb_neq _ _)) by congruence. }
  cbn [handle]. unfold register. rewrite Z.eqb_refl. cbn. eexists. split; [done|]. cbn [rg_peers rg_leader].
  assert (((fun '(k, x) => (k, sm_peer_id x)) <$> st_summary s).*1 = (st_summary s).*1) as Hk.
  { rewrite <- list_fmap_compose. apply list_fmap_ext. by intros i [] _. }
  split; [rewrite Hk; by apply bt_sorted_NoDup|]. split.
  - intros a. rewrite <- (He a). cbn [snd]. clear. induction (st_summary s) as [|[k v] m IH]; [done|]. cbn.
    by destruct (ord_cmp a k).
  - rewrite Z.eqb_eq. unfold blen. by rewrite length_fmap.
Qed.

(** The previous node named to a registrant survives a change of build, although it
    is no longer among the peers. *)
Lemma prev_of_old_build :
  let a := mkSocketAddr (V4 [10; 0; 0; 1]) 1 in
  let b := mkSocketAddr (V4 [10; 0; 0; 2]) 1 in
  let s := serve 2 [GetRegister (Some a) 1 (Ok (Some ([97], [])))] state_default in
  exists reg, (handle 2 (GetRegister (Some b) 2 (Ok (Some ([98], [])))) s).2 = (OK, RRegistered reg) /\
    rg_prev reg = Some (ip a) /\ rg_peers reg = [].
Proof. eexists. vm_compute. done. Qed.

(** * [SplitContext]

    The first request for a split starts a task that collects the addresses of the
    requests until as many as announced have come or 40 seconds pass without one. *)

Definition PEER_PORT : Z := 8302.

(** [None]: the wait timed out. An address that comes again replaces its entry. *)
Fixpoint split_collect (registered : Z) (arrivals : list (option IpAddr)) (requested : list (IpAddr * unit))
    : list (IpAddr * unit) :=
  match arrivals with
  | Some a :: arrivals =>
      let requested := bt_insert a tt requested in
      if blen requested =? registered then requested else split_collect registered arrivals requested
  | _ => requested
  end.

Record EnableWhitelist : Type := mkEnable { ew_ips : list IpAddr; ew_ports : list Z }.

Definition split_left (keys : list IpAddr) : list IpAddr := take (length keys / 2)%nat keys.
Definition split_right (keys : list IpAddr) : list IpAddr := drop (length keys / 2)%nat keys.

(** The posts to the debuggers, in order. *)
Definition split_posts (keys : list IpAddr) : list (IpAddr * EnableWhitelist) :=
  (fun target =>
     (target, mkEnable (if bool_decide (target ∈ split_left keys) then split_left keys else split_right keys)
                       [PEER_PORT])) <$> keys.

Definition split_round (registered : Z) (arrivals : list (option IpAddr)) : list (IpAddr * EnableWhitelist) :=
  split_posts (split_collect registered arrivals []).*1.

Lemma split_collect_sorted (registered : Z) (arrivals : list (option IpAddr)) (m : list (IpAddr * unit)) :
  bt_sorted m -> bt_sorted (split_collect registered arrivals m).
Proof.
  revert m. induction arrivals as [|[a|] arrivals IH]; intros m Hm; cbn; try done.
  destruct (_ =? _); [|apply IH]; by apply bt_insert_sorted.
Qed.

(** When nobody is late, everybody who asked takes part. *)
Lemma split_collect_all (registered : Z) (addrs : list IpAddr) (m : list (IpAddr * unit)) (a : IpAddr) :
  a ∈ (split_collect registered (Some <$> addrs) m).*1 -> a ∈ m.*1 \/ a ∈ addrs.
Proof.
  revert m. induction addrs as [|x addrs IH]; intros m; cbn; [by left|].
  destruct (_ =? _); [rewrite bt_insert_keys; set_solver|].
  intros [H|H]%IH; [rewrite bt_insert_keys in H; set_solver|set_solver].
Qed.

Lemma split_halves (keys : list IpAddr) (a : IpAddr) :
  NoDup keys -> a ∈ keys ->
  (a ∈ split_left keys /\ a ∉ split_right keys) \/ (a ∉ split_left keys /\ a ∈ split_right keys).
Proof.
  intros HN Ha. unfold split_left, split_right. rewrite <- (take_drop (length keys / 2)%nat keys) in HN, Ha.
  apply NoDup_app in HN as (_ & Hd & _). apply elem_of_app in Ha as [Ha|Ha]; [left|right]; [by split; [|apply Hd]|].
  split; [|done]. intros H. by apply (Hd a).
Qed.
