(* ===== verification/Topology.v ===== *)
(** The tool that splits a running network and looks at its shape
    ([topology-tool/src/main.rs]), and what a split ordered by it or by the registry of
    the simulator means for the packets between the nodes (with [Firewall]).

    The HTTP client, the JSON parser and the graph library are parameters. *)

From stdpp Require Import base strings list sets relations.
From Stdlib Require Import ZArith Lia.
From S2P Require Import Prelude Types Text BTree Probes Firewall Registry.

(** * Nodes *)

Record NodeInfo : Type := mkNodeInfo {
  ni_ip : IpAddr;
  ni_name : bytes;
  ni_peers : list IpAddr;
  ni_head : option bytes;
}.

Definition is_left (n : NodeInfo) : bool := default 0 (last (ni_name n)) mod 2 =? 0.

(** [format!("{:03}", n)] *)
Definition show_03 (n : Z) : bytes := let s := show_u16 n in repeat 48 (3 - length s) ++ s.

(** The names of the nodes of the five kinds, [prods] from the second one on. *)
Definition node_names (nodes snarkers prods prod0s seeds : option Z) : list bytes :=
  ((fun i => str "node" ++ show_u16 (i + 1)) <$> seqZ 0 (default 0 nodes)) ++
  ((fun i => str "snarker" ++ show_03 (i + 1)) <$> seqZ 0 (default 0 snarkers)) ++
  ((fun i => str "prod" ++ show_u16 (i + 1)) <$> seqZ 1 (default 0 prods - 1)) ++
  ((fun i => str "prod0" ++ show_u16 (i + 1)) <$> seqZ 0 (default 0 prod0s)) ++
  ((fun i => str "seed" ++ show_u16 (i + 1)) <$> seqZ 0 (default 0 seeds)).

Example node_names_example :
  node_names (Some 2) (Some 1) (Some 3) None (Some 1)
  = [str "node1"; str "node2"; str "snarker001"; str "prod2"; str "prod3"; str "seed1"].
Proof. vm_compute. done. Qed.

Inductive GraphqlData : Type :=
| GetPeers (hosts : list IpAddr)
| DaemonStatus (external_ip : IpAddr).

(** [query_peer]: the answers to the two graphql queries (or an error of the client
    or the parser), and the rows of hashes the debugger gives for its last block
    ([Ok None] if they cannot be parsed). *)
Definition query_peer {E} (name : bytes) (status peers : result GraphqlData E)
    (latest : result (option (list (list bytes))) E) : outcome (result NodeInfo E) :=
  match status with
  | Err e => Ret (Err e)
  | Ok (GetPeers _) => Panic
  | Ok (DaemonStatus ip) =>
      match peers with
      | Err e => Ret (Err e)
      | Ok (DaemonStatus _) => Panic
      | Ok (GetPeers hosts) =>
          match latest with
          | Err e => Ret (Err e)
          | Ok rows => Ret (Ok (mkNodeInfo ip name hosts (last (concat (default [] rows)))))
          end
      end
  end.

(** [names.filter_map(|name| query_peer(..))] *)
Fixpoint query_all {E} (query : bytes -> outcome (result NodeInfo E)) (names : list bytes)
    : outcome (list NodeInfo) :=
  match names with
  | [] => Ret []
  | name :: names =>
      r ← query name;
      rest ← query_all query names;
      Ret (match r with Ok n => n :: rest | Err _ => rest end)
  end.

(** * Splitting *)

Definition TOOL_PORTS : list Z := [10909; 10001].

(** The whitelists posted to the nodes, by name. *)
Definition enable_firewall (graph : list NodeInfo) : list (bytes * EnableWhitelist) :=
  let left := ni_ip <$> filter (fun x => is_left x = true) graph in
  let right := ni_ip <$> filter (fun x => is_left x = false) graph in
  (fun node => (ni_name node, mkEnable (if is_left node then left else right) TOOL_PORTS)) <$> graph.

(** One of the arguments [name:ip,name:ip,...]: the pairs in order; a piece that
    does not have both parts is skipped. *)
Definition parse_segment (s : bytes) : list (bytes * IpAddr) :=
  omap (fun w => match split_on 58 w with
                 | name :: ip :: _ => (fun a => (name, a)) <$> parse_ip ip
                 | _ => None
                 end) (split_on 44 s).

Definition enable_firewall_simple (segments : list bytes) : list (bytes * EnableWhitelist) :=
  let parsed := parse_segment <$> segments in
  let names := (concat parsed).*1 in
  let maps := bt_collect <$> parsed in
  (fun name =>
     let ips := match List.find (fun m => bool_decide (is_Some (bt_get name m))) maps with
                | Some m => m.*2
                | None => []
                end in
     (name, mkEnable ips TOOL_PORTS)) <$> names.

Example enable_firewall_simple_example :
  enable_firewall_simple [str "a:10.0.0.1,b:10.0.0.2,broken"; str "c:10.0.0.3"]
  = [(str "a", mkEnable [V4 [10; 0; 0; 1]; V4 [10; 0; 0; 2]] TOOL_PORTS);
     (str "b", mkEnable [V4 [10; 0; 0; 1]; V4 [10; 0; 0; 2]] TOOL_PORTS);
     (str "c", mkEnable [V4 [10; 0; 0; 3]] TOOL_PORTS)].
Proof. vm_compute. done. Qed.

(** * The graph *)

(** [petgraph::algo::connected_components] of a graph given by the number of its
    nodes and its edges. *)
Class PetGraph : Type := connected_components : nat -> list (nat * nat) -> nat.

Definition linked (es : list (nat * nat)) (a b : nat) : Prop := (a, b) ∈ es \/ (b, a) ∈ es.
Definition connected (es : list (nat * nat)) : nat -> nat -> Prop := rtc (linked es).

(** One node of each weakly connected component. *)
Class PetGraphLaws `{!PetGraph} : Prop :=
  components_spec : forall n es, Forall (fun e => (e.1 < n /\ e.2 < n)%nat) es ->
    exists reps, length reps = connected_components n es /\ NoDup reps /\ Forall (fun r => (r < n)%nat) reps /\
      (forall v, (v < n)%nat -> exists r, r ∈ reps /\ connected es v r) /\
      (forall r r', r ∈ reps -> r' ∈ reps -> connected es r r' -> r = r').

(** The graph under construction: the index of each address, the labels and the
    edges. *)
Record Graph : Type := mkGraph {
  g_ips : list (IpAddr * nat);
  g_nodes : list bytes;
  g_edges : list (nat * nat);
}.

(** [*ips.entry(ip).or_insert_with(|| gr.add_node(name))] *)
Definition graph_node (ip : IpAddr) (name : bytes) (g : Graph) : Graph * nat :=
  match bt_get ip (g_ips g) with
  | Some i => (g, i)
  | None =>
      let i := length (g_nodes g) in
      (mkGraph (bt_insert ip i (g_ips g)) (g_nodes g ++ [name]) (g_edges g), i)
  end.

Definition graph_peer (names : list (IpAddr * bytes)) (a : nat) (g : Graph) (ip_b : IpAddr) : Graph :=
  match bt_get ip_b names with
  | None => g
  | Some name =>
      let '(g, b) := graph_node ip_b name g in
      mkGraph (g_ips g) (g_nodes g) (g_edges g ++ [(a, b)])
  end.

Definition graph_add (names : list (IpAddr * bytes)) (g : Graph) (n : NodeInfo) : Graph :=
  let '(g, a) := graph_node (ni_ip n) (ni_name n) g in
  foldl (graph_peer names a) g (ni_peers n).

Definition ip_to_name (graph : list NodeInfo) : list (IpAddr * bytes) :=
  bt_collect ((fun n => (ni_ip n, ni_name n)) <$> graph).

Definition build_graph (graph : list NodeInfo) : Graph :=
  foldl (graph_add (ip_to_name graph)) (mkGraph [] [] []) graph.

Definition show_graph `{!PetGraph} (graph : list NodeInfo) : nat :=
  let g := build_graph graph in connected_components (length (g_nodes g)) (g_edges g).

(** The end of [main] for [ShowGraph]: whether the process exits with failure. *)
Definition show_graph_failed (expected_components : option nat) (components : nat) : bool :=
  match expected_components with
  | None => false
  | Some expected =>
      if (expected =? 1)%nat then negb (components =? 1)%nat
      else (components <? expected)%nat
  end.

(** * The commands *)

Inductive Command : Type :=
| EnableFirewall (segments : list bytes)
| DisableFirewall
| ShowGraph (expected_components : option nat).

(** What a run does: the posts with their bodies, in order, or the verdict. Failed
    posts are only logged. *)
Inductive Effect : Type :=
| Posts (l : list (bytes * option EnableWhitelist))
| Failed (b : bool).

Definition debugger_firewall_enable_url (url name : bytes) : bytes :=
  url ++ str "/" ++ name ++ str "/bpf-debugger/firewall/whitelist/enable".
Definition debugger_firewall_disable_url (url name : bytes) : bytes :=
  url ++ str "/" ++ name ++ str "/bpf-debugger/firewall/whitelist/disable".

Definition disable_firewall (url : bytes) (names : list bytes) : list (bytes * option EnableWhitelist) :=
  (fun name => (debugger_firewall_disable_url url name, None)) <$> names.

Definition topology_main `{!PetGraph} {E} (query : bytes -> outcome (result NodeInfo E)) (url : bytes)
    (names : list bytes) (command : Command) : outcome Effect :=
  let enable := fmap (fun '(name, wl) => (debugger_firewall_enable_url url name, Some wl)) in
  match command with
  | EnableFirewall [] => graph ← query_all query names; Ret (Posts (enable (enable_firewall graph)))
  | EnableFirewall segments => Ret (Posts (enable (enable_firewall_simple segments)))
  | DisableFirewall => Ret (Posts (disable_firewall url names))
  | ShowGraph expected =>
      graph ← query_all query names;
      Ret (Failed (show_graph_failed expected (show_graph graph)))
  end.

(** * The graph is the network the nodes report *)

(** [b] is a peer of a node at [a], and is a queried node itself. *)
Definition knows (graph : list NodeInfo) (a b : IpAddr) : Prop :=
  exists n, n ∈ graph /\ ni_ip n = a /\ b ∈ ni_peers n /\ b ∈ ni_ip <$> graph.
Definition reaches (graph : list NodeInfo) : IpAddr -> IpAddr -> Prop :=
  rtc (fun a b => knows graph a b \/ knows graph b a).

(** The index is a bijection between some addresses and the nodes of the graph. *)
Record indexed (g : Graph) : Prop := {
  ix_sorted : bt_sorted (g_ips g);
  ix_bound : forall a i, bt_get a (g_ips g) = Some i -> (i < length (g_nodes g))%nat;
  ix_inj : forall a b i, bt_get a (g_ips g) = Some i -> bt_get b (g_ips g) = Some i -> a = b;
  ix_surj : forall i, (i < length (g_nodes g))%nat -> exists a, bt_get a (g_ips g) = Some i;
}.

(** The edges stand for the pairs of [E]. *)
Definition edges_are (g : Graph) (E : IpAddr -> IpAddr -> Prop) : Prop :=
  forall i j, (i, j) ∈ g_edges g <->
    exists a b, bt_get a (g_ips g) = Some i /\ bt_get b (g_ips g) = Some j /\ E a b.

(** Adding a node keeps what is there. *)
Definition extends (g g' : Graph) : Prop :=
  forall a i, bt_get a (g_ips g) = Some i -> bt_get a (g_ips g') = Some i.

Lemma graph_node_spec (ip : IpAddr) (name : bytes) (g : Graph) (E : IpAddr -> IpAddr -> Prop) :
  indexed g -> edges_are g E -> (forall a b, E a b -> is_Some (bt_get a (g_ips g)) /\ is_Some (bt_get b (g_ips g))) ->
  let '(g', i) := graph_node ip name g in
  indexed g' /\ edges_are g' E /\ extends g g' /\ bt_get ip (g_ips g') = Some i /\
  (forall a, is_Some (bt_get a (g_ips g')) <-> is_Some (bt_get a (g_ips g)) \/ a = ip).
Proof.
  intros [Hs Hb Hi Hsu] He Hk. unfold graph_node. destruct (bt_get ip (g_ips g)) as [i|] eqn:Eg.
  { split; [by split|]. split; [done|]. split; [by intros x j|]. split; [done|].
    intros a. split; [by left|]. intros [?| ->]; [done|by eexists]. }
  assert (forall a, bt_get a (bt_insert ip (length (g_nodes g)) (g_ips g))
                    = if decide (ip = a) then Some (length (g_nodes g)) else bt_get a (g_ips g)) as Hget.
  { intros a. by rewrite bt_get_insert, ord_cmp_decide by done. }
  assert (forall a i, bt_get a (g_ips g) = Some i ->
            bt_get a (bt_insert ip (length (g_nodes g)) (g_ips g)) = Some i) as Hext.
  { intros a i H. rewrite Hget, decide_False by congruence. done. }
  split; [|split; [|split; [done|split]]]; cbn.
  - split; cbn.
    + by apply bt_insert_sorted.
    + intros a i. rewrite Hget, length_app. cbn. case_decide; [intros; simplify_eq; lia|].
      intros Hx. apply Hb in Hx. lia.
    + intros a b i. rewrite !Hget. do 2 case_decide; try congruence; intros H1 H2; simplify_eq.
      * apply Hb in H2. lia.
      * apply Hb in H1. lia.
      * by eapply Hi.
    + intros i. rewrite length_app. cbn. intros Hl. destruct (decide (i = length (g_nodes g))) as [->|Hne].
      * exists ip. by rewrite Hget, decide_True.
      * destruct (Hsu i ltac:(lia)) as [a Ha]. exists a. by apply Hext.
  - intros i j. rewrite (He i j). split; intros (a & b & Ha & Hb' & HE).
    + exists a, b. eauto.
    + destruct (Hk a b HE) as [[x Hx] [y Hy]]. cbn in *. exists a, b.
      rewrite (Hext _ _ Hx) in Ha. rewrite (Hext _ _ Hy) in Hb'. by simplify_eq.
  - by rewrite Hget, decide_True.
  - intros a. rewrite Hget. case_decide as E'; [subst; split; [by right|by eexists]|].
    split; [by left|]. by intros [?| ->].
Qed.

(** What was reported so far: by the nodes [seen], and by the node at [a] its peers
    [ps]. *)
Definition reported (names : list (IpAddr * bytes)) (seen : list NodeInfo) (a : IpAddr) (ps : list IpAddr)
    (x y : IpAddr) : Prop :=
  is_Some (bt_get y names) /\ ((exists n, n ∈ seen /\ ni_ip n = x /\ y ∈ ni_peers n) \/ (x = a /\ y ∈ ps)).

Record built_upto (names : list (IpAddr * bytes)) (seen : list NodeInfo) (a : IpAddr) (ps : list IpAddr)
    (g : Graph) : Prop := {
  bu_indexed : indexed g;
  bu_edges : edges_are g (reported names seen a ps);
  bu_keys : forall x, is_Some (bt_get x (g_ips g)) <->
    x ∈ ni_ip <$> seen \/ x = a \/ exists y, reported names seen a ps y x;
}.

Lemma graph_peer_spec (names : list (IpAddr * bytes)) (seen : list NodeInfo) (a : IpAddr) (ps : list IpAddr)
    (g : Graph) (i : nat) (b : IpAddr) :
  built_upto names seen a ps g -> bt_get a (g_ips g) = Some i ->
  let g' := graph_peer names i g b in
  built_upto names seen a (ps ++ [b]) g' /\ bt_get a (g_ips g') = Some i.
Proof.
  intros [Hix He Hk] Ha. unfold graph_peer. cbn zeta.
  destruct (bt_get b names) as [name|] eqn:Eb; cycle 1.
  { split; [|done]. assert (forall x y, reported names seen a (ps ++ [b]) x y <-> reported names seen a ps x y) as Hr.
    { intros x y. unfold reported. split; intros [Hy [?|[-> Hp]]]; (split; [done|]); [by left| |by left|right; set_solver].
      right. split; [done|]. apply elem_of_app in Hp as [?|Hp]; [done|]. apply list_elem_of_singleton in Hp. subst.
      rewrite Eb in Hy. by destruct Hy. }
    split; [done| |].
    - intros x y. rewrite (He x y). by setoid_rewrite Hr.
    - intros x. rewrite Hk. by setoid_rewrite Hr. }
  pose proof (graph_node_spec b name g (reported names seen a ps) Hix He) as Hn.
  destruct (graph_node b name g) as [g1 j]. destruct Hn as (Hix1 & He1 & Hext & Hj & Hk1).
  { intros x y HR. split; apply Hk; [|by right; right; exists x].
    destruct HR as [_ [(n & Hn & <- & _)|[-> _]]]; [left; apply list_elem_of_fmap; by exists n|by right; left]. }
  pose proof (Hext a i Ha) as Ha1. split; [|done].
  assert (forall x y, reported names seen a (ps ++ [b]) x y <-> reported names seen a ps x y \/ (x = a /\ y = b)) as Hr.
  { intros x y. unfold reported. split.
    - intros [Hy [?|[-> Hp]]]; [left; split; [done|by left]|].
      apply elem_of_app in Hp as [?|Hp]; [left; split; [done|by right]|].
      apply list_elem_of_singleton in Hp. by right.
    - intros [[Hy [?|[-> Hp]]]|[-> ->]]; (split; [done || by rewrite Eb|]); [by left|right|right]; split; set_solver. }
  split; cbn.
  - by destruct Hix1.
  - intros x y. cbn [g_edges g_ips]. rewrite elem_of_app, (He1 x y), list_elem_of_singleton. split.
    + intros [(p & q & Hp & Hq & HR)|Hxy]; [exists p, q; rewrite Hr; tauto|].
      injection Hxy as -> ->. exists a, b. rewrite Hr. tauto.
    + intros (p & q & Hp & Hq & [HR|[-> ->]]%Hr); [left; by exists p, q|right]. cbn in *. congruence.
  - intros x. rewrite Hk1, Hk. setoid_rewrite Hr. split; [naive_solver|].
    intros [?|[?|[y [?|[-> ->]]]]]; naive_solver.
Qed.

Lemma graph_add_spec (names : list (IpAddr * bytes)) (seen : list NodeInfo) (n : NodeInfo) (g : Graph) (a : IpAddr) :
  (seen = [] /\ g = mkGraph [] [] [] \/ a ∈ ni_ip <$> seen /\ built_upto names seen a [] g) ->
  built_upto names (seen ++ [n]) (ni_ip n) [] (graph_add names g n).
Proof.
  intros Hg. unfold graph_add.
  pose proof (graph_node_spec (ni_ip n) (ni_name n) g (reported names seen (ni_ip n) [])) as Hn.
  destruct (graph_node (ni_ip n) (ni_name n) g) as [g1 i].
  assert (built_upto names seen (ni_ip n) [] g1 /\ bt_get (ni_ip n) (g_ips g1) = Some i) as [Hb Hi].
  { destruct Hg as [[-> ->]|[Ha [Hix He Hk]]].
    - destruct Hn as (Hix1 & He1 & _ & Hi & Hk1).
      + split; cbn; try done; [constructor|intros; lia].
      + intros x y. cbn. split; [intros H; by apply elem_of_nil in H|]. intros (p & q & Hp & _). done.
      + intros x y [_ [(m & Hm & _)|[_ Hm]]]; by apply elem_of_nil in Hm.
      + split; [|done]. split; [done|done|]. intros x. rewrite Hk1. cbn. split.
        * intros [[? ?]| ->]; [done|by right; left].
        * intros [H|[->|[y [_ [(m & Hm & _)|[_ Hm]]]]]]; [by apply elem_of_nil in H|by right|by apply elem_of_nil in Hm..].
    - assert (forall x y, reported names seen a [] x y <-> reported names seen (ni_ip n) [] x y) as Hr.
      { intros x y. unfold reported. split; intros [Hy [?|[_ Hp]]]; (try by apply elem_of_nil in Hp); (split; [done|by left]). }
      destruct Hn as (Hix1 & He1 & _ & Hi & Hk1).
      + done.
      + intros x y. rewrite (He x y). by setoid_rewrite Hr.
      + intros x y HR. split; apply Hk; [|right; right; exists x; by rewrite Hr].
        destruct HR as [_ [(m & Hm & <- & _)|[_ Hm]]]; [left; apply list_elem_of_fmap; by exists m|by apply elem_of_nil in Hm].
      + split; [|done]. split; [done|done|]. intros x. rewrite Hk1, Hk. setoid_rewrite Hr. naive_solver. }
  assert (forall ps qs g, built_upto names seen (ni_ip n) ps g -> bt_get (ni_ip n) (g_ips g) = Some i ->
            built_upto names seen (ni_ip n) (ps ++ qs) (foldl (graph_peer names i) g qs)) as Hfold.
  { intros ps qs. revert ps. induction qs as [|q qs IH]; intros ps g0 H0 H1; cbn; [by rewrite app_nil_r|].
    destruct (graph_peer_spec names seen (ni_ip n) ps g0 i q H0 H1) as [H2 H3].
    specialize (IH (ps ++ [q]) _ H2 H3). by rewrite <- app_assoc in IH. }
  specialize (Hfold [] (ni_peers n) g1 Hb Hi). cbn [app] in Hfold. destruct Hfold as [Hix He Hk].
  assert (forall x y, reported names seen (ni_ip n) (ni_peers n) x y <-> reported names (seen ++ [n]) (ni_ip n) [] x y) as Hr.
  { intros x y. unfold reported. split.
    - intros [Hy [(m & Hm & <- & Hp)|[-> Hp]]]; (split; [done|left]).
      + exists m. set_solver.
      + exists n. set_solver.
    - intros [Hy [(m & Hm & <- & Hp)|[_ Hp]]]; [|by apply elem_of_nil in Hp]. split; [done|].
      apply elem_of_app in Hm as [Hm|Hm]; [left; by exists m|]. apply list_elem_of_singleton in Hm. subst. by right. }
  split; [done| |].
  - intros x y. rewrite (He x y). by setoid_rewrite Hr.
  - intros x. rewrite Hk. setoid_rewrite Hr. rewrite fmap_app. set_solver.
Qed.

Lemma ip_to_name_keys (graph : list NodeInfo) (x : IpAddr) :
  is_Some (bt_get x (ip_to_name graph)) <-> x ∈ ni_ip <$> graph.
Proof.
  unfold ip_to_name. rewrite bt_get_elem by apply bt_collect_sorted.
  unfold bt_collect. assert (forall (l : list (IpAddr * bytes)) (m : list (IpAddr * bytes)),
    x ∈ (foldl (fun m '(k, v) => bt_insert k v m) m l).*1 <-> x ∈ m.*1 \/ x ∈ l.*1) as H.
  { induction l as [|[k v] l IH]; intros m; cbn; [set_solver|]. rewrite IH, bt_insert_keys. set_solver. }
  rewrite H. cbn. rewrite <- list_fmap_compose. set_solver.
Qed.

(** The finished graph: its nodes are the addresses of the queried nodes, its edges
    what they report of each other. *)
Lemma build_graph_spec (graph : list NodeInfo) :
  let g := build_graph graph in
  indexed g /\ edges_are g (knows graph) /\ (forall x, is_Some (bt_get x (g_ips g)) <-> x ∈ ni_ip <$> graph).
Proof.
  cbn zeta. unfold build_graph. set (names := ip_to_name graph).
  assert (forall l, l = [] \/ exists a, a ∈ ni_ip <$> l /\
            built_upto names l a [] (foldl (graph_add names) (mkGraph [] [] []) l)) as H.
  { induction l as [|n l IH] using rev_ind; [by left|right]. rewrite foldl_app. cbn [foldl].
    exists (ni_ip n). split; [rewrite fmap_app; set_solver|].
    destruct IH as [->|(a & Ha & Hb)].
    - apply (graph_add_spec names [] n (mkGraph [] [] []) (ni_ip n)). by left.
    - apply (graph_add_spec names l n _ a). by right. }
  destruct (H graph) as [->|(a & Ha & [Hix He Hk])].
  { cbn. split; [split; cbn; try done; [constructor|intros; lia]|]. split.
    - intros i j. cbn. split; [intros Hx; by apply elem_of_nil in Hx|]. intros (? & ? & Hx & _). done.
    - intros x. split; [by intros [? ?]|]. intros Hx. by apply elem_of_nil in Hx. }
  assert (forall x y, reported names graph a [] x y <-> knows graph x y) as Hr.
  { intros x y. unfold reported, knows, names. rewrite ip_to_name_keys. split.
    - intros [Hy [(n & Hn & Hx & Hp)|[_ Hp]]]; [by exists n|by apply elem_of_nil in Hp].
    - intros (n & Hn & Hx & Hp & Hy). split; [done|]. left. by exists n. }
  split; [done|]. split.
  - intros i j. rewrite (He i j). by setoid_rewrite Hr.
  - intros x. rewrite Hk. setoid_rewrite Hr. split; [|by left].
    intros [?|[->|(y & n & _ & _ & _ & ?)]]; done.
Qed.

Lemma linked_knows (graph : list NodeInfo) (a b : IpAddr) (i j : nat) :
  bt_get a (g_ips (build_graph graph)) = Some i -> bt_get b (g_ips (build_graph graph)) = Some j ->
  linked (g_edges (build_graph graph)) i j <-> knows graph a b \/ knows graph b a.
Proof.
  intros Ha Hb. destruct (build_graph_spec graph) as ([_ _ Hi _] & He & _).
  unfold linked. rewrite (He i j), (He j i). split.
  - intros [(x & y & Hx & Hy & HK)|(x & y & Hx & Hy & HK)].
    + rewrite (Hi a x i Ha Hx), (Hi b y j Hb Hy). by left.
    + rewrite (Hi b x j Hb Hx), (Hi a y i Ha Hy). by right.
  - intros [HK|HK]; [left; by exists a, b|right; by exists b, a].
Qed.

Lemma knows_members (graph : list NodeInfo) (a b : IpAddr) :
  knows graph a b -> a ∈ ni_ip <$> graph /\ b ∈ ni_ip <$> graph.
Proof. intros (n & Hn & <- & _ & Hb). split; [|done]. apply list_elem_of_fmap. by exists n. Qed.

(** Being connected in the graph is reaching each other in the network. *)
Lemma connected_reaches (graph : list NodeInfo) (a b : IpAddr) (i j : nat) :
  bt_get a (g_ips (build_graph graph)) = Some i -> bt_get b (g_ips (build_graph graph)) = Some j ->
  connected (g_edges (build_graph graph)) i j <-> reaches graph a b.
Proof.
  destruct (build_graph_spec graph) as ([_ Hbd Hi Hsu] & He & Hk).
  intros Ha Hb. split.
  - intros H. revert a Ha. induction H as [i|i k j Hl _ IH]; intros a Ha.
    { rewrite (Hi a b i Ha Hb). apply rtc_refl. }
    assert (exists c, bt_get c (g_ips (build_graph graph)) = Some k) as [c Hc].
    { destruct Hl as [Hl|Hl]; apply He in Hl as (x & y & Hx & Hy & _); eauto. }
    eapply rtc_l; [by eapply (linked_knows graph a c)|by apply IH].
  - intros H. revert i Ha. induction H as [a|a c b Hl _ IH]; intros i Ha.
    { simplify_eq. apply rtc_refl. }
    assert (is_Some (bt_get c (g_ips (build_graph graph)))) as [k Hc].
    { apply Hk. destruct Hl as [Hl|Hl]; by apply knows_members in Hl as []. }
    eapply rtc_l; [by eapply (linked_knows graph a c)|by apply IH].
Qed.

(** C6: the number of components the topology tool reports is that of the network
    as the queried nodes report it: there are that many addresses of queried nodes, no
    two of which are linked by a chain of peers among the queried nodes (in either
    direction), while every queried node is linked to one of them. A peer that was
    not queried is ignored. *)
Theorem show_graph_components `{PetGraphLaws} (graph : list NodeInfo) :
  exists reps, length reps = show_graph graph /\ NoDup reps /\
    (forall a, a ∈ reps -> a ∈ ni_ip <$> graph) /\
    (forall a, a ∈ ni_ip <$> graph -> exists r, r ∈ reps /\ reaches graph a r) /\
    (forall r r', r ∈ reps -> r' ∈ reps -> reaches graph r r' -> r = r').
Proof.
  destruct (build_graph_spec graph) as ([_ Hbd Hi Hsu] & He & Hk). unfold show_graph.
  destruct (components_spec (length (g_nodes (build_graph graph))) (g_edges (build_graph graph)))
    as (idx & Hl & HN & Hb & Hcov & Hdis).
  { apply Forall_forall. intros [i j] Hij. apply He in Hij as (a & b & Ha & Hb & _). split; cbn; eauto. }
  set (ips := g_ips (build_graph graph)) in *.
  assert (exists reps, Forall2 (fun r i => bt_get r ips = Some i) reps idx) as [reps Hr].
  { clear -Hb Hsu. induction Hb as [|i idx Hi _ (reps & IH)]; [by exists []|].
    destruct (Hsu i Hi) as [a Ha]. exists (a :: reps). by constructor. }
  assert (forall r, r ∈ reps -> exists i, i ∈ idx /\ bt_get r ips = Some i) as Hri.
  { intros r Hin. apply list_elem_of_lookup in Hin as [k Hin].
    destruct (Forall2_lookup_l _ _ _ _ _ Hr Hin) as (i & Hik & Hg). exists i. split; [|done].
    by eapply list_elem_of_lookup_2. }
  exists reps. split; [rewrite <- Hl; by eapply Forall2_length|]. split.
  { apply NoDup_alt. intros p q r Hp Hq.
    destruct (Forall2_lookup_l _ _ _ _ _ Hr Hp) as (i & Hpi & Hg).
    destruct (Forall2_lookup_l _ _ _ _ _ Hr Hq) as (j & Hqj & Hg'). simplify_eq.
    by eapply (NoDup_lookup idx). }
  split; [intros a (i & _ & Hg)%Hri; apply Hk; by exists i|]. split.
  - intros a Ha. apply Hk in Ha as [i Ha]. destruct (Hcov i (Hbd a i Ha)) as (j & Hj & Hc).
    apply list_elem_of_lookup in Hj as [k Hj]. destruct (Forall2_lookup_r _ _ _ _ _ Hr Hj) as (r & Hrk & Hg).
    exists r. split; [by eapply list_elem_of_lookup_2|]. by eapply (connected_reaches graph a r i j).
  - intros r r' (i & Hi1 & Hg)%Hri (j & Hj1 & Hg')%Hri Hre.
    assert (i = j) as -> by (apply Hdis; [done..|]; by eapply (connected_reaches graph r r' i j)).
    by eapply Hi.
Qed.

(** ** Counting components by relabelling *)

Module UnionFind.

(** The label of every node is a node of its component. *)
Definition relabel (x y l : nat) : nat := if decide (l = x) then y else l.

Definition join (ls : list nat) (e : nat * nat) : list nat :=
  match ls !! e.1, ls !! e.2 with Some x, Some y => relabel x y <$> ls | _, _ => ls end.

Definition labels (n : nat) (es : list (nat * nat)) : list nat := foldl join (seq 0 n) es.

#[global] Instance count_labels : PetGraph := fun n es => length (remove_dups (labels n es)).

Lemma connected_sym (es : list (nat * nat)) (a b : nat) : connected es a b -> connected es b a.
Proof.
  induction 1 as [a|a c b Hl _ IH]; [apply rtc_refl|]. eapply rtc_r; [exact IH|].
  by destruct Hl; [right|left].
Qed.

Lemma connected_mono (es es' : list (nat * nat)) (a b : nat) : connected es a b -> connected (es ++ es') a b.
Proof.
  induction 1 as [a|a c b Hl _ IH]; [apply rtc_refl|]. eapply rtc_l; [|exact IH].
  destruct Hl; [left|right]; set_solver.
Qed.

Lemma labels_spec (n : nat) (es : list (nat * nat)) :
  Forall (fun e => (e.1 < n /\ e.2 < n)%nat) es ->
  length (labels n es) = n /\
  (forall v l, labels n es !! v = Some l -> labels n es !! l = Some l) /\
  (forall v w l m, labels n es !! v = Some l -> labels n es !! w = Some m -> connected es v w <-> l = m).
Proof.
  induction es as [|[a b] es IH] using rev_ind; intros HB.
  { unfold labels. cbn. rewrite length_seq. split; [done|]. split.
    - intros v l Hv. apply lookup_seq in Hv as [-> ?]. apply lookup_seq. lia.
    - intros v w l m Hv Hw. apply lookup_seq in Hv as [-> ?]. apply lookup_seq in Hw as [-> ?]. cbn. split.
      + intros Hr. by inversion Hr as [|? ? ? [Hx|Hx]]; subst; [|by apply elem_of_nil in Hx..].
      + intros ->. apply rtc_refl. }
  apply Forall_app in HB as [HB [[Ha Hb] _]%Forall_cons]. cbn in Ha, Hb.
  destruct (IH HB) as (Hn & Hself & Hc). clear IH. unfold labels in *. rewrite foldl_app. cbn [foldl].
  set (ls := foldl join (seq 0 n) es) in *. clearbody ls.
  destruct (lookup_lt_is_Some_2 ls a ltac:(lia)) as [x Hx].
  destruct (lookup_lt_is_Some_2 ls b ltac:(lia)) as [y Hy].
  unfold join. cbn. rewrite Hx, Hy.
  assert (forall v l', (relabel x y <$> ls) !! v = Some l' <-> exists l, ls !! v = Some l /\ l' = relabel x y l) as Hlk.
  { intros v l'. rewrite list_lookup_fmap. destruct (ls !! v); cbn; naive_solver. }
  split; [by rewrite length_fmap|]. split.
  - intros v l' (l & Hl & ->)%Hlk. apply Hlk. unfold relabel. case_decide as E.
    + exists y. rewrite (Hself b y Hy). split; [done|]. by case_decide.
    + exists l. rewrite (Hself v l Hl). by rewrite decide_False.
  - intros v w l' m' (l & Hl & ->)%Hlk (m & Hm & ->)%Hlk. split.
    + intros Hr. revert l Hl. induction Hr as [v|v u w Hlink _ IH]; intros l Hl; [by simplify_eq|].
      assert (u < n)%nat as Hu.
      { destruct Hlink as [Hin|Hin]; apply elem_of_app in Hin as [Hin|Hin];
          [rewrite Forall_forall in HB; apply HB in Hin; cbn in Hin; lia|apply list_elem_of_singleton in Hin; simplify_eq; done|
           rewrite Forall_forall in HB; apply HB in Hin; cbn in Hin; lia|apply list_elem_of_singleton in Hin; simplify_eq; done]. }
      destruct (lookup_lt_is_Some_2 ls u ltac:(lia)) as [k Hk]. rewrite <- (IH Hm k Hk).
      assert (relabel x y x = y /\ relabel x y y = y) as [Rx Ry] by (unfold relabel; repeat case_decide; done).
      destruct Hlink as [Hin|Hin]; apply elem_of_app in Hin as [Hin|Hin].
      * f_equal. apply (Hc v u); [done..|]. apply rtc_once. by left.
      * apply list_elem_of_singleton in Hin. simplify_eq. by rewrite Rx, Ry.
      * f_equal. apply (Hc v u); [done..|]. apply rtc_once. by right.
      * apply list_elem_of_singleton in Hin. simplify_eq. by rewrite Rx, Ry.
    + assert (connected (es ++ [(a, b)]) a b) as Hab by (apply rtc_once; left; set_solver).
      assert (forall p q i, ls !! p = Some i -> ls !! q = Some i -> connected (es ++ [(a, b)]) p q) as Hsame.
      { intros p q i Hp Hq. apply connected_mono. by apply (Hc p q i i). }
      unfold relabel. intros Heq. repeat case_decide; subst.
      * by eapply Hsame.
      * etrans; [by eapply (Hsame v a)|]. etrans; [exact Hab|]. by eapply (Hsame b w).
      * etrans; [by eapply (Hsame v b)|]. etrans; [apply connected_sym, Hab|]. by eapply (Hsame a w).
      * by eapply Hsame.
Qed.

#[global] Instance count_labels_laws : PetGraphLaws.
Proof.
  intros n es HB. destruct (labels_spec n es HB) as (Hn & Hself & Hc).
  exists (remove_dups (labels n es)).
  assert (forall r, r ∈ remove_dups (labels n es) -> labels n es !! r = Some r) as Hr.
  { intros r Hin. rewrite elem_of_remove_dups in Hin. apply list_elem_of_lookup in Hin as [v Hv]. exact (Hself v r Hv). }
  split; [done|]. split; [apply NoDup_remove_dups|]. split; [|split].
  - apply Forall_forall. intros r Hin%Hr. apply lookup_lt_Some in Hin. lia.
  - intros v Hv. destruct (lookup_lt_is_Some_2 (labels n es) v ltac:(lia)) as [l Hl]. exists l. split.
    + rewrite elem_of_remove_dups. by eapply list_elem_of_lookup_2.
    + apply (Hc v l l l); [done|exact (Hself v l Hl)|done].
  - intros r r' H1%Hr H2%Hr Hcon. by apply (Hc r r' r r').
Qed.

End UnionFind.

(** Two nodes that know each other, one that knows nobody queried. *)
Definition demo_graph : list NodeInfo :=
  [mkNodeInfo (V4 [10; 0; 0; 1]) (str "node1") [V4 [10; 0; 0; 2]] None;
   mkNodeInfo (V4 [10; 0; 0; 2]) (str "node2") [] None;
   mkNodeInfo (V4 [10; 0; 0; 3]) (str "node3") [V4 [10; 0; 0; 9]] None].

Lemma show_graph_components_witness :
  show_graph demo_graph = 2%nat /\
  exists reps : list IpAddr, length reps = 2%nat /\ NoDup reps.
Proof.
  split; [vm_compute; reflexivity|].
  destruct (show_graph_components (H0 := UnionFind.count_labels_laws) demo_graph) as (reps & Hl & HN & _).
  exists reps. split; [rewrite Hl; vm_compute; reflexivity|exact HN].
Defined.

(** * What a split does to packets *)

Section split.
Context {W B : Type} `{!BpfMap bytes Z W, !BpfMap bytes StatsBlocked B, !BpfMut bytes StatsBlocked B,
  !BpfKeys bytes W, !BpfMapLaws bytes Z W, !BpfKeysLaws bytes Z W,
  !BpfMapLaws bytes StatsBlocked B, !BpfMutLaws bytes StatsBlocked B}.
(** The addresses that are always allowed. *)
Context (defaults : list IpAddr).

(** A packet between nodes, one of its ports being a port of the protocol, at the
    firewall of its destination. *)
Lemma whitelist_side (wl : EnableWhitelist) (fw fw' : Firewall (W := W) (B := B)) (data : bytes)
    (src dst : IpAddr) (sp dp : Z) :
  wf_bytes data -> tcp_packet data src dst sp dp ->
  Forall (fun x => 0 <= x < 2 ^ 16) (ew_ports wl) -> (sp ∈ ew_ports wl \/ dp ∈ ew_ports wl) ->
  zeros16 ∉ octets6 <$> ew_ips wl ++ defaults -> octets6 src ∉ octets6 <$> defaults ->
  enable_whitelist defaults (ew_ips wl) (ew_ports wl) fw = Ret fw' ->
  (disable_connections data fw').2 = Ok Pass <-> octets6 src ∈ octets6 <$> ew_ips wl.
Proof.
  intros Hw Hp Hports Hport Hz Hd He.
  pose proof (enabled_verdict defaults (ew_ips wl) (ew_ports wl) fw data src dst sp dp Hw Hports Hz Hp) as Hv.
  rewrite He in Hv. rewrite fmap_app in Hv. case_bool_decide as E.
  - rewrite Hv. cbn. split; [|done]. intros _. destruct E as [[? ?]|E]; [tauto|]. by apply elem_of_app in E as [?|?].
  - assert (octets6 src ∉ octets6 <$> ew_ips wl) as Hn by (intros H; apply E; right; apply elem_of_app; by left).
    split; [|done]. intros Hpass. destruct Hv as [[c Hv]|(fw'' & Hv & _)]; by rewrite Hv in Hpass.
Qed.

Lemma octets_half (keys half : list IpAddr) (a : IpAddr) :
  NoDup (octets6 <$> keys) -> half ⊆ keys -> a ∈ keys -> octets6 a ∈ octets6 <$> half <-> a ∈ half.
Proof.
  intros HN Hsub Ha. split; [|intros H; apply list_elem_of_fmap; by exists a].
  intros (b & Hab & Hb)%list_elem_of_fmap. pose proof (Hsub b Hb) as Hbk.
  apply list_elem_of_lookup in Ha as [i Hi]. apply list_elem_of_lookup in Hbk as [j Hj].
  assert (i = j) as <-.
  { eapply (NoDup_lookup _ _ _ (octets6 a) HN); rewrite list_lookup_fmap; [by rewrite Hi|]. rewrite Hj. cbn. by rewrite Hab. }
  by simplify_eq.
Qed.


(** The same for the topology tool, where the last letter of the name decides. *)
Theorem tool_split_separates (graph : list NodeInfo) (src dst : NodeInfo) (wl : EnableWhitelist)
    (fw fw' : Firewall (W := W) (B := B)) (data : bytes) (sp dp : Z) :
  NoDup (octets6 <$> (ni_ip <$> graph)) -> zeros16 ∉ octets6 <$> (ni_ip <$> graph) ++ defaults ->
  octets6 (ni_ip src) ∉ octets6 <$> defaults -> src ∈ graph -> dst ∈ graph ->
  NoDup (ni_name <$> graph) -> (ni_name dst, wl) ∈ enable_firewall graph ->
  enable_whitelist defaults (ew_ips wl) (ew_ports wl) fw = Ret fw' ->
  wf_bytes data -> tcp_packet data (ni_ip src) (ni_ip dst) sp dp -> (sp ∈ TOOL_PORTS \/ dp ∈ TOOL_PORTS) ->
  (disable_connections data fw').2 = Ok Pass <-> is_left src = is_left dst.
Proof.
  intros HN Hz Hd Hsrc Hdst Hnames Hwl He Hw Hp Hport. unfold enable_firewall in Hwl.
  apply list_elem_of_fmap in Hwl as (t & Ht & Hin). injection Ht as Hname ->. cbn [ew_ips ew_ports] in He.
  assert (t = dst) as ->.
  { apply list_elem_of_lookup in Hin as [i Hi]. apply list_elem_of_lookup in Hdst as [j Hj].
    assert (i = j) as <- by (eapply (NoDup_lookup _ _ _ (ni_name dst) Hnames); rewrite list_lookup_fmap;
      [rewrite Hi; cbn; by rewrite Hname|by rewrite Hj]). by simplify_eq. }
  set (side := fun b : bool => ni_ip <$> filter (fun x => is_left x = b) graph).
  assert (forall b, side b ⊆ ni_ip <$> graph) as Hsub.
  { intros b x (n & -> & Hn)%list_elem_of_fmap. apply list_elem_of_filter in Hn as [_ Hn].
    apply list_elem_of_fmap. by exists n. }
  assert (forall b, ni_ip src ∈ side b <-> is_left src = b) as Hside.
  { intros b. split; [|intros Hb; apply list_elem_of_fmap; exists src; split; [done|]; by apply list_elem_of_filter].
    intros (n & Hip & Hn)%list_elem_of_fmap. apply list_elem_of_filter in Hn as [Hb Hn].
    apply list_elem_of_lookup in Hn as [i Hi]. apply list_elem_of_lookup in Hsrc as [j Hj].
    assert (i = j) as <- by (eapply (NoDup_lookup _ _ _ (octets6 (ni_ip src)) HN); rewrite !list_lookup_fmap;
      [rewrite Hi; cbn; by rewrite Hip|by rewrite Hj]). by simplify_eq. }
  assert ((if is_left dst then side true else side false) = side (is_left dst)) as Es by (by destruct (is_left dst)).
  fold (side true) (side false) in He. rewrite Es in He.
  pose proof (whitelist_side (mkEnable (side (is_left dst)) TOOL_PORTS) fw fw' data (ni_ip src) (ni_ip dst) sp dp Hw Hp) as Hv.
  cbn [ew_ips ew_ports] in Hv. rewrite Hv; [|..|done|done].
  - rewrite (octets_half (ni_ip <$> graph)) by (done || apply list_elem_of_fmap; by exists src). apply Hside.
  - repeat constructor; lia.
  - done.
  - specialize (Hsub (is_left dst)). rewrite fmap_app in *. set_solver.
Qed.

End split.

