(* ===== verification/Verdicts.v ===== *)
(** What the simulator concludes from the reports of its nodes
    ([simulator/src/registry/tests.rs]) and how a node's view of its connections is
    made from the output of tcpflow ([simulator/src/peer/tcpflow.rs]). *)

From stdpp Require Import base strings list sets sorting.
From Stdlib Require Import ZArith Lia.
From S2P Require Import Prelude Types Text BTree Checksum Ipc PeerTests Registry Topology.

Abbreviation Summaries := (list (IpAddr * Summary)).

(** * Tests on the reports of single nodes *)

(** [test_local]: every mock report there is satisfies the assertion. *)
Definition test_local (assertion : MockReport -> bool) (summary : Summaries) : result unit unit :=
  if existsb (fun '(_, s) => match sm_mock_report s with Some r => negb (assertion r) | None => false end) summary
  then Err tt else Ok tt.

(** [test_ipc]: both names are bound to the mock report. *)
Definition test_ipc (summary : Summaries) : result unit unit :=
  if existsb (fun '(_, s) =>
       match sm_mock_report s with
       | Some mock_report =>
           match sm_mock_report s with
           | Some debugger_report => negb (pair_matches_ (mr_ipc mock_report) (mr_ipc debugger_report))
           | None => false
           end
       | None => false
       end) summary
  then Err tt else Ok tt.

Definition test_all_messages_number : Summaries -> result unit unit :=
  test_local (fun r => negb (total_messages (t_timestamps (mr_test r)) =? 0)).
Definition test_all_messages_order : Summaries -> result unit unit :=
  test_local (fun r => tr_ordered (t_timestamps (mr_test r))).
Definition test_all_messages_time_filter : Summaries -> result unit unit :=
  test_local (fun r => timestamps_filter_ok (t_timestamps (mr_test r))).
Definition test_ipc_events_number : Summaries -> result unit unit :=
  test_local (fun r => negb (bool_decide (er_events (t_events (mr_test r)) = []))).
Definition test_ipc_events_match : Summaries -> result unit unit :=
  test_local (fun r => matching (t_events (mr_test r))).
Definition test_ipc_events_consistent : Summaries -> result unit unit :=
  test_local (fun r => consistent (t_events (mr_test r))).
Definition test_stream_messages_number : Summaries -> result unit unit :=
  test_local (fun r => negb (or_messages (t_order (mr_test r)) =? 0)).
Definition test_stream_messages_order : Summaries -> result unit unit :=
  test_local (fun r => bool_decide (unordered_num (t_order (mr_test r)) = [])).
Definition test_stream_messages_order_time : Summaries -> result unit unit :=
  test_local (fun r => bool_decide (unordered_time (t_order (mr_test r)) = [])).

(** * The traffic between nodes *)

Record NetworkMatches : Type := mkMatches {
  nm_bytes_number : Z;
  nm_timestamp : Z;
  nm_local : SocketAddr;
  nm_local_time : option Z;
  nm_local_crc64 : option ChecksumPair;
  nm_remote : SocketAddr;
  nm_remote_time : option Z;
  nm_remote_crc64 : option ChecksumPair;
}.

Record NetworkVerbose : Type := mkVerbose {
  nv_matches : list NetworkMatches;
  nv_too_short : list NetworkMatches;
  nv_mismatch : list NetworkMatches;
  nv_local_missing : list NetworkMatches;
  nv_remote_missing : list NetworkMatches;
  nv_both_missing : list NetworkMatches;
}.

Definition verbose_default : NetworkVerbose := mkVerbose [] [] [] [] [] [].

(** The connection of a debugger with an address and a counter. *)
Definition find_cn (a : IpAddr) (counter : nat) (report : DebuggerReport) : option ConnectionMetadata :=
  List.find (fun cn => bool_decide (cm_ip cn = a) && (cm_counter cn =? counter)%nat) (rp_network report).

Definition net_item (r : NetReport) (l rm : option ConnectionMetadata) : NetworkMatches :=
  mkMatches (nr_bytes_number r) (nr_timestamp r) (nr_local r) (cm_timestamp <$> l) (cm_checksum <$> l)
            (nr_remote r) (cm_timestamp <$> rm) (cm_checksum <$> rm).

(** One connection seen by tcpflow: the lists after it, and whether the loop goes
    on. *)
Definition net_step (summary : Summaries) (debugger_report : DebuggerReport) (r : NetReport)
    (v : NetworkVerbose) : NetworkVerbose * bool :=
  let remote_cn :=
    s ← bt_get (ip (nr_remote r)) summary;
    dbg ← sm_debugger_report s;
    find_cn (ip (nr_local r)) (nr_counter r) dbg in
  let local_cn := find_cn (ip (nr_remote r)) (nr_counter r) debugger_report in
  let item := net_item r local_cn remote_cn in
  match local_cn, remote_cn with
  | Some l, Some rm =>
      if bool_decide (is_Some (matches_ext (cm_checksum l) (cm_checksum rm))) then
        (mkVerbose (nv_matches v ++ [item]) (nv_too_short v) (nv_mismatch v)
                   (nv_local_missing v) (nv_remote_missing v) (nv_both_missing v), true)
      else if too_short (cm_checksum l) || too_short (cm_checksum rm) then
        (mkVerbose (nv_matches v) (nv_too_short v ++ [item]) (nv_mismatch v)
                   (nv_local_missing v) (nv_remote_missing v) (nv_both_missing v), true)
      else
        (mkVerbose (nv_matches v) (nv_too_short v) (nv_mismatch v ++ [item])
                   (nv_local_missing v) (nv_remote_missing v) (nv_both_missing v), true)
  | Some _, None =>
      (mkVerbose (nv_matches v) (nv_too_short v) (nv_mismatch v)
                 (nv_local_missing v ++ [item]) (nv_remote_missing v) (nv_both_missing v), false)
  | None, Some _ =>
      (mkVerbose (nv_matches v) (nv_too_short v) (nv_mismatch v)
                 (nv_local_missing v) (nv_remote_missing v ++ [item]) (nv_both_missing v), false)
  | None, None =>
      (mkVerbose (nv_matches v) (nv_too_short v) (nv_mismatch v)
                 (nv_local_missing v) (nv_remote_missing v) (nv_both_missing v ++ [item]), false)
  end.

Fixpoint net_loop (summary : Summaries) (debugger_report : DebuggerReport) (rs : list NetReport)
    (v : NetworkVerbose) : NetworkVerbose :=
  match rs with
  | [] => v
  | r :: rs =>
      match net_step summary debugger_report r v with
      | (v, true) => net_loop summary debugger_report rs v
      | (v, false) => v
      end
  end.

Definition test_network_checksum (summary : Summaries) : list (IpAddr * NetworkVerbose) :=
  bt_collect
    (omap (fun '(a, s) =>
       report ← sm_debugger_report s;
       Some (a, net_loop summary report (sm_net_report s) verbose_default)) summary).

(** * The shape of the network *)

Section split.
Context `{!PetGraph}.

(** The part of the loop of [test_split] that is about one of the three graphs; a
    host that is not an address is a panic. *)
Fixpoint phase_peers (peers : list Peer) (a : nat) (g : Graph) : outcome Graph :=
  match peers with
  | [] => Ret g
  | p :: peers =>
      match parse_ip (peer_host p) with
      | None => Panic
      | Some ip_b =>
          let '(g, b) := graph_node ip_b (show_ip ip_b) g in
          phase_peers peers a (mkGraph (g_ips g) (g_nodes g) (g_edges g ++ [(a, b)]))
      end
  end.

Fixpoint phase_graph (sel : MockSplitReport -> list Peer) (summary : Summaries) (g : Graph) : outcome Graph :=
  match summary with
  | [] => Ret g
  | (ip_a, s) :: summary =>
      match sm_mock_split_report s with
      | None => phase_graph sel summary g
      | Some r =>
          let '(g, a) := graph_node ip_a (show_ip ip_a) g in
          g ← phase_peers (sel r) a g;
          phase_graph sel summary g
      end
  end.

Definition components (g : Graph) : nat := connected_components (length (g_nodes g)) (g_edges g).

Definition test_split (summary : Summaries) : outcome (result unit unit) :=
  let empty := mkGraph [] [] [] in
  before ← phase_graph (fun r => (sr_before r).1) summary empty;
  after_split ← phase_graph (fun r => (sr_after_split r).1) summary empty;
  after_reunite ← phase_graph (fun r => (sr_after_reunite r).1) summary empty;
  let fail := negb (components before =? 1)%nat || negb (components after_split =? 2)%nat ||
              negb (components after_reunite =? 1)%nat in
  Ret (if fail then Err tt else Ok tt).

End split.

(** * [tcpflow.rs] *)

(** What the code reads of an element of the XML report: the child [filesize] with
    its text, and the attributes of the child [tcpflow]. *)
Record FlowElement : Type := mkFlow {
  fl_filesize : option (option bytes);
  fl_tcpflow : option (list (bytes * bytes));
}.

Definition SERVER_PORT : Z := 80.

Section tcpflow.
(** [PrimitiveDateTime::parse] with ISO 8601, as UTC. *)
Context (parse_date : bytes -> option Z).

Definition attribute (name : string) (attrs : list (bytes * bytes)) : option bytes :=
  snd <$> List.find (fun a => bool_decide (a.1 = str name)) attrs.

Definition flow_report (e : FlowElement) : option NetReport :=
  let size := default 0 (text ← (t ← fl_filesize e; t); parse_unsigned (2 ^ 64) text) in
  if size <=? 0 then None
  else
    filesize ← fl_filesize e;
    a ← fl_tcpflow e;
    date ← attribute "startime" a ≫= parse_date;
    bytes_number ← filesize ≫= parse_unsigned (2 ^ 64);
    src_ip ← attribute "src_ipn" a ≫= parse_ip;
    srcport ← attribute "srcport" a ≫= parse_unsigned (2 ^ 16);
    if srcport =? SERVER_PORT then None
    else
      dst_ip ← attribute "dst_ipn" a ≫= parse_ip;
      dstport ← attribute "dstport" a ≫= parse_unsigned (2 ^ 16);
      if dstport =? SERVER_PORT then None
      else Some (mkNetReport (mkSocketAddr src_ip srcport) (mkSocketAddr dst_ip dstport) 0 date bytes_number).

(** The retained connections: the bytes of the other direction are added once per
    remote address. *)
Fixpoint retain_local (this_ip : IpAddr) (lengths : list (IpAddr * Z)) (cns : list NetReport) : list NetReport :=
  match cns with
  | [] => []
  | cn :: cns =>
      let '(o, lengths) := bt_remove (ip (nr_remote cn)) lengths in
      let cn := mkNetReport (nr_local cn) (nr_remote cn) (nr_counter cn) (nr_timestamp cn)
                            (wrap 64 (nr_bytes_number cn + default 0 o)) in
      let rest := retain_local this_ip lengths cns in
      if decide (this_ip = ip (nr_local cn)) then cn :: rest else rest
  end.

Definition not_younger (a b : NetReport) : bool := nr_timestamp a <=? nr_timestamp b.

(** The counters, one for each remote address. *)
Fixpoint number_cns (counters : list (IpAddr * nat)) (cns : list NetReport) : list NetReport :=
  match cns with
  | [] => []
  | cn :: cns =>
      let counter := default 0%nat (bt_get (ip (nr_remote cn)) counters) in
      mkNetReport (nr_local cn) (nr_remote cn) counter (nr_timestamp cn) (nr_bytes_number cn)
      :: number_cns (bt_insert (ip (nr_remote cn)) (S counter) counters) cns
  end.

(** [stop], from the elements of the report on ([None]: it cannot be parsed). *)
Definition flow_reports (this_ip : IpAddr) (doc : option (list FlowElement)) : list NetReport :=
  let cns := omap flow_report (default [] doc) in
  let lengths :=
    bt_collect (omap (fun cn => if decide (this_ip = ip (nr_local cn)) then None
                                else Some (ip (nr_local cn), nr_bytes_number cn)) cns) in
  number_cns [] (sort_by not_younger (retain_local this_ip lengths cns)).

End tcpflow.

(** * The tests say what they mean, or less *)

Lemma test_local_spec (assertion : MockReport -> bool) (summary : Summaries) :
  test_local assertion summary = Ok tt <->
  forall a s r, (a, s) ∈ summary -> sm_mock_report s = Some r -> assertion r = true.
Proof.
  unfold test_local. destruct (existsb _ _) eqn:E.
  - split; [done|]. intros H. exfalso. apply existsb_exists in E as ([a s] & Hin & Hs).
    destruct (sm_mock_report s) as [r|] eqn:Er; [|done].
    rewrite (H a s r) in Hs; [done|by apply list_elem_of_In|done].
  - split; [|done]. intros _ a s r Hin Hr.
    destruct (assertion r) eqn:Ea; [done|]. assert (existsb (fun '(_, s) =>
      match sm_mock_report s with Some r => negb (assertion r) | None => false end) summary = true) as Ht.
    { apply existsb_exists. exists (a, s). split; [by apply list_elem_of_In|]. by rewrite Hr, Ea. }
    congruence.
Qed.

Lemma checksum_matches_self (c : Checksum) : crc c <> [] -> checksum_matches c c = true.
Proof.
  intros Hc. apply checksum_matches_spec. destruct (crc c) as [|v l]; [done|]. exists v. split; by left.
Qed.

(** The ipc test cannot fail: it compares a report with itself. *)
Lemma test_ipc_passes (summary : Summaries) :
  (forall a s r, (a, s) ∈ summary -> sm_mock_report s = Some r ->
     crc (cp_0 (mr_ipc r)) <> [] /\ crc (cp_1 (mr_ipc r)) <> []) ->
  test_ipc summary = Ok tt.
Proof.
  intros H. unfold test_ipc. destruct (existsb _ _) eqn:E; [|done]. exfalso.
  apply existsb_exists in E as ([a s] & Hin & Hs). destruct (sm_mock_report s) as [r|] eqn:Er; [|done].
  destruct (H a s r) as [H0 H1]; [by apply list_elem_of_In|done|].
  unfold pair_matches_ in Hs. by rewrite !checksum_matches_self in Hs.
Qed.

(** ** The traffic test *)

Section traffic.
Context (summary : Summaries) (report : DebuggerReport).

Definition local_cn (r : NetReport) : option ConnectionMetadata :=
  find_cn (ip (nr_remote r)) (nr_counter r) report.
Definition remote_cn (r : NetReport) : option ConnectionMetadata :=
  s ← bt_get (ip (nr_remote r)) summary; dbg ← sm_debugger_report s;
  find_cn (ip (nr_local r)) (nr_counter r) dbg.
Definition item_of (r : NetReport) : NetworkMatches := net_item r (local_cn r) (remote_cn r).

Definition seen_by_both (r : NetReport) : Prop := is_Some (local_cn r) /\ is_Some (remote_cn r).

(** The items of the two kinds of lists. *)
Definition compared (v : NetworkVerbose) : list NetworkMatches := nv_matches v ++ nv_too_short v ++ nv_mismatch v.
Definition unseen (v : NetworkVerbose) : list NetworkMatches :=
  nv_local_missing v ++ nv_remote_missing v ++ nv_both_missing v.

Lemma net_step_seen (r : NetReport) (v : NetworkVerbose) :
  seen_by_both r ->
  (net_step summary report r v).2 = true /\
  compared (net_step summary report r v).1 ≡ₚ compared v ++ [item_of r] /\
  unseen (net_step summary report r v).1 = unseen v.
Proof.
  intros [[l Hl] [rm Hr]]. unfold net_step, item_of, local_cn, remote_cn in *. rewrite Hl, Hr.
  destruct (bool_decide _); [|destruct (_ || _)]; cbn; (split; [done|split; [|done]]); unfold compared; cbn;
    rewrite <- ?app_assoc; try done.
  - do 1 f_equiv. rewrite (Permutation_app_comm [_]), <- app_assoc. done.
  - f_equiv. rewrite (Permutation_app_comm [_]). done.
Qed.

Lemma net_step_unseen (r : NetReport) (v : NetworkVerbose) :
  ~ seen_by_both r ->
  (net_step summary report r v).2 = false /\
  compared (net_step summary report r v).1 = compared v /\
  (unseen v = [] -> unseen (net_step summary report r v).1 = [item_of r]).
Proof.
  intros Hn. unfold net_step, item_of, seen_by_both, local_cn, remote_cn in *.
  destruct (find_cn (ip (nr_remote r)) (nr_counter r) report) as [l|];
    destruct (bt_get (ip (nr_remote r)) summary ≫= _) as [rm|]; cbn;
    try (exfalso; apply Hn; split; by eexists);
    (split; [done|]); (split; [done|]); unfold unseen; cbn; intros Hu;
    apply app_nil in Hu as [-> Hu]; apply app_nil in Hu as [-> ->]; done.
Qed.

(** The connections are compared one by one up to the first that one of the
    debuggers did not see. *)
Lemma net_loop_spec (rs : list NetReport) (v : NetworkVerbose) :
  unseen v = [] ->
  exists pre rest, rs = pre ++ rest /\ Forall seen_by_both pre /\
    compared (net_loop summary report rs v) ≡ₚ compared v ++ (item_of <$> pre) /\
    match rest with
    | [] => unseen (net_loop summary report rs v) = []
    | r :: _ => ~ seen_by_both r /\ unseen (net_loop summary report rs v) = [item_of r]
    end.
Proof.
  revert v. induction rs as [|r rs IH]; intros v Hv.
  { exists [], []. cbn. rewrite app_nil_r. done. }
  cbn [net_loop].
  assert (seen_by_both r \/ ~ seen_by_both r) as [Hs|Hs].
  { unfold seen_by_both. destruct (local_cn r), (remote_cn r); first [left; split; by eexists|right; by intros [[? ?] [? ?]]]. }
  - destruct (net_step_seen r v Hs) as (Ht & Hc & Hu).
    destruct (net_step summary report r v) as [v' b]. cbn in Ht, Hc, Hu. subst b.
    destruct (IH v' ltac:(by rewrite Hu)) as (pre & rest & -> & Hp & Hcp & Hr).
    exists (r :: pre), rest. split_and!; [done|by constructor| |done]. cbn [fmap list_fmap].
    rewrite Hcp, Hc, <- app_assoc. done.
  - destruct (net_step_unseen r v Hs) as (Ht & Hc & Hu).
    destruct (net_step summary report r v) as [v' b]. cbn in Ht, Hc, Hu. subst b.
    exists [], (r :: rs). split_and!; [done|constructor| |done|by apply Hu].
    cbn. by rewrite Hc, app_nil_r.
Qed.

(** Both debuggers recorded the same two streams. *)
Definition same_streams `{!Crc64} (l r : ChecksumPair) : Prop :=
  exists i o i' o', l = mkPair (checksum_of i) (checksum_of o) /\ r = mkPair (checksum_of i') (checksum_of o') /\
    concat i = concat o' /\ concat o = concat i'.

Lemma matches_ext_same `{!Crc64, !Crc64Laws} (l r : ChecksumPair) :
  same_streams l r -> is_Some (matches_ext l r).
Proof.
  intros (i & o & i' & o' & -> & -> & E1 & E2). unfold matches_ext. cbn.
  assert (forall a b, checksum_matches a b = true -> is_Some (common a b)) as Hc.
  { intros a b Hm. unfold common. destruct (List.find _ _) eqn:E; [by eexists|]. exfalso.
    apply existsb_exists in Hm as (x & Hx & Hr). by rewrite (List.find_none _ _ E x Hx) in Hr. }
  destruct (Hc _ _ (checksum_same_stream _ _ E1)) as [x ->].
  destruct (Hc _ _ (checksum_same_stream _ _ E2)) as [y ->]. by eexists.
Qed.

(** Traffic that both sides saw alike is never reported as anything but a match. *)
Lemma net_loop_clean `{!Crc64, !Crc64Laws} (rs : list NetReport) (v : NetworkVerbose) :
  Forall (fun r => exists l rm, local_cn r = Some l /\ remote_cn r = Some rm /\
                     same_streams (cm_checksum l) (cm_checksum rm)) rs ->
  net_loop summary report rs v
  = mkVerbose (nv_matches v ++ (item_of <$> rs)) (nv_too_short v) (nv_mismatch v)
              (nv_local_missing v) (nv_remote_missing v) (nv_both_missing v).
Proof.
  intros HF. revert v. induction HF as [|r rs (l & rm & Hl & Hr & Hs) _ IH]; intros v.
  { cbn. rewrite app_nil_r. by destruct v. }
  cbn [net_loop]. unfold net_step. fold (local_cn r) (remote_cn r). rewrite Hl, Hr.
  rewrite bool_decide_eq_true_2 by (by apply matches_ext_same). rewrite IH. cbn [nv_matches nv_too_short nv_mismatch
    nv_local_missing nv_remote_missing nv_both_missing fmap list_fmap]. rewrite <- app_assoc.
  unfold item_of at 2. rewrite Hl, Hr. done.
Qed.

End traffic.

Lemma collect_get {V} (l : list (IpAddr * V)) (a : IpAddr) :
  bt_sorted l -> bt_get a (bt_collect l) = bt_get a l.
Proof.
  unfold bt_collect. intros Hl. assert (forall m : list (IpAddr * V), bt_sorted m ->
    bt_get a (foldl (fun m '(k, v) => bt_insert k v m) m l)
    = match bt_get a l with Some v => Some v | None => bt_get a m end) as H.
  { induction l as [|[k v] l IH]; intros m Hm; [done|]. cbn [foldl].
    unfold bt_sorted in Hl. cbn in Hl. apply StronglySorted_inv in Hl as [Hl HF].
    rewrite (IH Hl) by (by apply bt_insert_sorted). rewrite bt_get_insert by done. cbn [bt_get].
    destruct (ord_cmp a k) eqn:E; [|destruct (bt_get a l) eqn:Eg|done].
    - apply ord_eq in E. subst k. destruct (bt_get a l) eqn:Eg; [|done]. exfalso.
      assert (a ∈ l.*1) as Ha by (apply bt_get_elem; [done|by eexists]).
      rewrite Forall_forall in HF. apply HF in Ha. by rewrite ord_refl in Ha.
    - exfalso. assert (a ∈ l.*1) as Ha by (apply bt_get_elem; [done|by eexists]).
      rewrite Forall_forall in HF. apply HF in Ha. rewrite ord_opp, E in Ha. done.
    - done. }
  rewrite H by constructor. by destruct (bt_get a l).
Qed.

Lemma omap_sorted {V U} (f : V -> option U) (l : list (IpAddr * V)) :
  bt_sorted l ->
  bt_sorted (omap (fun '(a, v) => u ← f v; Some (a, u)) l) /\
  forall a, bt_get a (omap (fun '(a, v) => u ← f v; Some (a, u)) l) = bt_get a l ≫= f.
Proof.
  unfold bt_sorted. induction l as [|[k v] l IH]; intros HS; [split; [constructor|done]|].
  cbn in HS. apply StronglySorted_inv in HS as [HS HF]. destruct (IH HS) as [IS IG].
  assert (forall x, x ∈ (omap (fun '(a, v) => u ← f v; Some (a, u)) l).*1 -> x ∈ l.*1) as Hsub.
  { intros x ([k' u] & -> & Hin)%list_elem_of_fmap. apply list_elem_of_omap in Hin as ([k2 v2] & Hin & Hf).
    destruct (f v2); [|done]. cbn in Hf. simplify_eq. apply list_elem_of_fmap. by exists (k', v2). }
  assert (forall a, ord_cmp a k = Lt \/ a = k -> bt_get a (omap (fun '(a, v) => u ← f v; Some (a, u)) l) = None) as Hnone.
  { intros a Ha. destruct (bt_get a _) eqn:E; [|done]. exfalso.
    assert (a ∈ (omap (fun '(a, v) => u ← f v; Some (a, u)) l).*1) as Hin by (apply bt_get_elem; [done|by eexists]).
    apply Hsub in Hin. rewrite Forall_forall in HF. apply HF in Hin.
    destruct Ha as [Ha| ->]; [rewrite ord_opp, Ha in Hin; done|by rewrite ord_refl in Hin]. }
  cbn [omap list_omap]. destruct (f v) as [u|] eqn:Ef; cbn [mbind option_bind].
  - split.
    + cbn. constructor; [done|]. apply Forall_forall. intros x Hx. rewrite Forall_forall in HF. by apply HF, Hsub.
    + intros a. cbn [bt_get]. destruct (ord_cmp a k) eqn:E; [|done|apply IG]. by cbn; rewrite Ef.
  - split; [done|]. intros a. cbn [bt_get]. destruct (ord_cmp a k) eqn:E.
    + apply ord_eq in E. rewrite Hnone by (by right). by cbn; rewrite Ef.
    + by rewrite Hnone by (by left).
    + apply IG.
Qed.


(** ** Two nodes that saw each other's bytes *)

Definition demo_peers : Summaries :=
  let crc := fun c l => c + blen l in
  let cut (l : list bytes) := @checksum_of crc l in
  let a := V4 [10; 0; 0; 1] in
  let b := V4 [10; 0; 0; 2] in
  [(a, mkSummary [] None
         (Some (mkReport pair_default [mkCnMeta b 0 true 5 (mkPair (cut [[1]; [2; 3]]) (cut [[9]])) 7]))
         [mkNetReport (mkSocketAddr a 8302) (mkSocketAddr b 40000) 0 6 4] None);
   (b, mkSummary [] None
         (Some (mkReport pair_default [mkCnMeta a 0 false 5 (mkPair (cut [[9]]) (cut [[1; 2; 3]])) 8])) [] None)].


(** ** The counters of tcpflow *)

(** The connections are in the order of their times, those of other hosts left out,
    and each one's counter is the number of earlier ones to the same address: the key
    under which the debuggers number theirs ([EventLoop.watch_connection]). *)
Lemma number_cns_spec (cns : list NetReport) (counters : list (IpAddr * nat)) (seen : list IpAddr) :
  bt_sorted counters ->
  (forall a, default 0%nat (bt_get a counters) = length (filter (fun b => b = a) seen)) ->
  forall i cn, number_cns counters cns !! i = Some cn ->
    exists cn0, cns !! i = Some cn0 /\ nr_local cn = nr_local cn0 /\ nr_remote cn = nr_remote cn0 /\
      nr_timestamp cn = nr_timestamp cn0 /\ nr_bytes_number cn = nr_bytes_number cn0 /\
      nr_counter cn = length (filter (fun b => b = ip (nr_remote cn0))
                               (seen ++ (ip ∘ nr_remote <$> take i cns))).
Proof.
  revert counters seen. induction cns as [|cn0 cns IH]; intros counters seen Hs Hc i cn Hi; [done|].
  cbn [number_cns] in Hi. destruct i as [|i]; cbn in Hi.
  - simplify_eq. exists cn0. cbn. rewrite app_nil_r, <- Hc. done.
  - assert (forall a, default 0%nat (bt_get a (bt_insert (ip (nr_remote cn0))
        (S (default 0%nat (bt_get (ip (nr_remote cn0)) counters))) counters))
      = length (filter (fun b => b = a) (seen ++ [ip (nr_remote cn0)]))) as Hc'.
    { intros a. rewrite bt_get_insert, ord_cmp_decide by done.
      rewrite filter_app, length_app. case_decide as E.
      - subst a. rewrite filter_cons_True by done. cbn. rewrite Hc. lia.
      - rewrite filter_cons_False by done. cbn. rewrite Hc. lia. }
    destruct (IH _ _ (bt_insert_sorted _ _ _ Hs) Hc' i cn Hi) as (cn1 & H1 & H2 & H3 & H4 & H5 & H6).
    exists cn1. cbn [take fmap list_fmap]. rewrite <- app_assoc in H6. done.
Qed.

Lemma flow_reports_local (parse_date : bytes -> option Z) (this_ip : IpAddr) (doc : option (list FlowElement))
    (i : nat) (cn : NetReport) :
  flow_reports parse_date this_ip doc !! i = Some cn -> ip (nr_local cn) = this_ip.
Proof.
  unfold flow_reports. intros H.
  destruct (number_cns_spec _ [] [] ltac:(constructor) (fun _ => eq_refl) i cn H) as (cn0 & Hi & -> & _).
  clear H. apply list_elem_of_lookup_2 in Hi. rewrite sort_by_perm in Hi. revert Hi.
  generalize (bt_collect (omap (fun cn => if decide (this_ip = ip (nr_local cn)) then None
    else Some (ip (nr_local cn), nr_bytes_number cn)) (omap (flow_report parse_date) (default [] doc)))).
  induction (omap (flow_report parse_date) (default [] doc)) as [|c cns IH]; intros lengths Hi.
  { by apply elem_of_nil in Hi. }
  cbn [retain_local] in Hi. destruct (bt_remove _ lengths) as [o lengths'].
  cbn [nr_local] in Hi. case_decide as E; [|exact (IH _ Hi)].
  apply elem_of_cons in Hi as [->|Hi]; [by cbn|exact (IH _ Hi)].
Qed.
