(* ===== verification/Recorder.v ===== *)
(** The recorder of connections ([mina-recorder/src/recorder.rs],
    [P2pRecorder], and [tester.rs]): which connections are followed, and how their
    chunks reach the protocol stack, on the main thread or on a thread of their own.

    What the recorder uses of the database and of the stack is the class
    [Connections]. A thread is the queue of its channel and the connection it
    owns; the schedule of the threads is explicit: [rec_step] is one call of the
    main thread or one chunk processed by some thread. *)

From stdpp Require Import base list gmap strings relations.
From Stdlib Require Import ZArith Lia.
From S2P Require Import Prelude Types Handle Text.

#[export] Program Instance ConnectionInfo_countable : Countable ConnectionInfo :=
  inj_countable' (fun c => (addr c, pid c, fd c)) (fun '(a, p, f) => mkConnectionInfo a p f) _.
Next Obligation. by intros []. Qed.

Class Connections (W G Cn : Type) : Type := {
  (** [cx.db.add] and the [Drop] of the group it gives. *)
  cx_add : ConnectionInfo -> bool -> bytes -> Z -> W -> W * DbResult G;
  cx_drop : G -> W -> W;
  cx_add_randomness : bytes -> W -> W * DbResult unit;
  (** [Cn::new] and [Cn::on_data], which reads the table [apps] of the shared [Cx]. *)
  cn_new : bytes -> Cn;
  cn_on_chunk : G -> gmap Z (bytes * SocketAddr) -> DirectedId -> bytes -> Cn -> W -> outcome (Cn * W * DbResult unit);
}.

Record NetworkChunk : Type := mkNetworkChunk {
  nc_metadata : EventMetadata;
  nc_data : bytes;
  nc_incoming : bool;
  nc_buffered : Z;
}.

(** A thread: its group, its connection ([None] once it panicked) and the chunks
    waiting in its channel. *)
Record ThreadContext (G Cn : Type) : Type := mkThread {
  th_group : G;
  th_cn : option Cn;
  th_queue : list NetworkChunk;
}.
Arguments mkThread {G Cn}. Arguments th_group {G Cn}. Arguments th_cn {G Cn}. Arguments th_queue {G Cn}.

Record ConnectionContext (G Cn : Type) : Type := mkContext { cc_cn : Cn; cc_db : G }.
Arguments mkContext {G Cn}. Arguments cc_cn {G Cn}. Arguments cc_db {G Cn}.

(** [P2pRecorder] with the [apps] of its [Cx]; [detached] are the threads whose
    handle was dropped. *)
Record P2pRecorder (G Cn : Type) : Type := mkRecorder {
  tester : bool;
  cns : gmap ConnectionInfo (ThreadContext G Cn);
  cns_main_thread : gmap ConnectionInfo (ConnectionContext G Cn);
  apps : gmap Z (bytes * SocketAddr);
  detached : list (ThreadContext G Cn);
}.
Arguments mkRecorder {G Cn}. Arguments tester {G Cn}. Arguments cns {G Cn}.
Arguments cns_main_thread {G Cn}. Arguments apps {G Cn}. Arguments detached {G Cn}.

(** [CHAINS] *)
Definition CHAINS : list (bytes * bytes) :=
  [(str "mainnet", str "/coda/0.0.1/5f704cc0c82e0ed70e873f0893d7e06f148524e3f0bdae2afb02e7819a0c24d1");
   (str "devnet", str "/coda/0.0.1/b6ee40d336f4cc3f33c1cc04dee7618eb8e556664c2b2d82ad4676b512a82418");
   (str "berkeley", str "/coda/0.0.1/fb30d090bb37e8aa354114d8c794b0f7072648a67bd1a08613684ac6f7c86028")].

Definition find_chain (network : bytes) : option bytes :=
  match list_find (fun kv => kv.1 = network) CHAINS with Some (_, (_, c)) => Some c | None => None end.

Section recorder.
Context {W G Cn : Type} `{!Connections W G Cn}.

Abbreviation Rec := (P2pRecorder G Cn).

Definition recorder_new (test : bool) : Rec := mkRecorder test ∅ ∅ ∅ [].

Definition set_cns m (r : Rec) : Rec := mkRecorder (tester r) m (cns_main_thread r) (apps r) (detached r).
Definition set_main m (r : Rec) : Rec := mkRecorder (tester r) (cns r) m (apps r) (detached r).
Definition set_apps m (r : Rec) : Rec := mkRecorder (tester r) (cns r) (cns_main_thread r) m (detached r).
Definition set_detached l (r : Rec) : Rec := mkRecorder (tester r) (cns r) (cns_main_thread r) (apps r) l.

(** [Cx::pid_to_addr] *)
Definition pid_to_addr (p : Z) (r : Rec) : SocketAddr :=
  match apps r !! p with Some (_, a) => a | None => mkSocketAddr (V4 [0; 0; 0; 0]) 0 end.

Definition alias_of (p : Z) (r : Rec) : bytes :=
  match apps r !! p with Some (a, _) => a | None => [] end.

Definition set_port (p port : Z) (r : Rec) : Rec :=
  set_apps (alter (fun '(a, ad) => (a, mkSocketAddr (ip ad) port)) p (apps r)) r.

Definition on_alias (p : Z) (alias : bytes) (r : Rec) : Rec :=
  let text := match split_on 45 alias !! 1%nat with Some t => t | None => str "0.0.0.0" end in
  let ip := match parse_ip text with Some ip => ip | None => V4 [0; 0; 0; 0] end in
  set_apps (<[p := (alias, mkSocketAddr ip 8302)]> (apps r)) r.

(** [Tester]: a chunk other than the closing one must be all [0x11]; the process
    ends on the closing one. *)
Definition tester_on_data (data : bytes) : outcome unit :=
  if decide (data = str "test-is-passed") then Panic
  else if forallb (fun v => v =? 17) data then Ret tt else Panic.

(** The chain a connection belongs to. *)
Definition chain_of (suggested alias : bytes) : bytes :=
  match suggested with
  | _ :: _ => suggested
  | [] =>
      let network := match split_on 45 alias with n :: _ => n | [] => [] end in
      match find_chain network with Some c => c | None => network end
  end.

(** [on_connect::<MAIN_THREAD>]; the result says whether the connection is
    followed. A connection that is replaced is dropped: its group, or its sender and
    the handle of its thread. *)
Definition on_connect (main_thread : bool) (incoming : bool) (md : EventMetadata) (buffered : Z)
    (suggested_chain_id : bytes) (r : Rec) (w : W) : Rec * W * bool :=
  if tester r then (r, w, false)
  else
    let id := md_id md in
    let alias := alias_of (pid id) r in
    let chain_id := chain_of suggested_chain_id alias in
    let '(w, res) := cx_add id incoming alias (md_time md) w in
    match res with
    | Err _ => (r, w, false)
    | Ok group =>
        if main_thread then
          let w := match cns_main_thread r !! id with Some c => cx_drop (cc_db c) w | None => w end in
          (set_main (<[id := mkContext (cn_new chain_id) group]> (cns_main_thread r)) r, w, true)
        else
          let r := match cns r !! id with Some t => set_detached (detached r ++ [t]) r | None => r end in
          (set_cns (<[id := mkThread group (Some (cn_new chain_id)) []]> (cns r)) r, w, true)
    end.

(** One turn of the loop of a thread: it takes a chunk from its channel. A panic
    ends the thread and drops what it owns; a turn that never returns keeps it. Either way
    the thread does nothing more. *)
Definition directed (c : NetworkChunk) (r : Rec) : DirectedId :=
  mkDirectedId (nc_metadata c) (alias_of (pid (md_id (nc_metadata c))) r) (nc_incoming c) (nc_buffered c).

Definition thread_turn (t : ThreadContext G Cn) (r : Rec) (w : W) : ThreadContext G Cn * W :=
  match th_cn t, th_queue t with
  | Some cn, c :: q =>
      match cn_on_chunk (th_group t) (apps r) (directed c r) (nc_data c) cn w with
      | Ret (cn, w, _) => (mkThread (th_group t) (Some cn) q, w)
      | Panic => (mkThread (th_group t) None [], cx_drop (th_group t) w)
      | OutOfFuel => (mkThread (th_group t) None [], w)
      end
  | _, _ => (t, w)
  end.

(** [join] on a thread whose sender was dropped: it works off its channel and
    drops what it owns. *)
Fixpoint join (fuel : nat) (t : ThreadContext G Cn) (r : Rec) (w : W) : ThreadContext G Cn * W :=
  match fuel with
  | O => (t, match th_cn t with Some _ => cx_drop (th_group t) w | None => w end)
  | S fuel => let '(t, w) := thread_turn t r w in join fuel t r w
  end.

Definition on_disconnect (md : EventMetadata) (buffered : Z) (r : Rec) (w : W) : Rec * W :=
  if tester r then (r, w)
  else
    let id := md_id md in
    match cns r !! id with
    | Some t => (set_cns (delete id (cns r)) r, (join (length (th_queue t)) t r w).2)
    | None =>
        match cns_main_thread r !! id with
        | Some c => (set_main (delete id (cns_main_thread r)) r, cx_drop (cc_db c) w)
        | None => (r, w)
        end
    end.

Definition on_data (incoming : bool) (md : EventMetadata) (buffered : Z) (data : bytes)
    (r : Rec) (w : W) : outcome (Rec * W) :=
  if tester r then tester_on_data data;; Ret (r, w)
  else
    let id := md_id md in
    let chunk := mkNetworkChunk md data incoming buffered in
    match cns r !! id with
    | Some t =>
        let q := match th_cn t with Some _ => th_queue t ++ [chunk] | None => [] end in
        Ret (set_cns (<[id := mkThread (th_group t) (th_cn t) q]> (cns r)) r, w)
    | None =>
        match cns_main_thread r !! id with
        | Some c =>
            '(cn, w, _) ← cn_on_chunk (cc_db c) (apps r) (directed chunk r) data (cc_cn c) w;
            Ret (set_main (<[id := mkContext cn (cc_db c)]> (cns_main_thread r)) r, w)
        | None => Ret (r, w)
        end
    end.

Definition on_randomness (data : bytes) (r : Rec) (w : W) : Rec * W := (r, (cx_add_randomness data w).1).

(** * Schedules *)

(** The calls of the main thread that concern connections. *)
Inductive Call : Type :=
| Connected (id : ConnectionInfo)
| Data (id : ConnectionInfo) (c : NetworkChunk)
| Gone (id : ConnectionInfo).

(** A call of the main thread (in one of the two modes), which for a disconnect
    means that the thread has worked off its channel, or a turn of some thread. The
    list is what the main thread did so far. *)
Inductive rec_step (main_thread : bool) : Rec * W * list Call -> Rec * W * list Call -> Prop :=
| step_connect incoming md buffered chain r w r' w' ok l :
    on_connect main_thread incoming md buffered chain r w = (r', w', ok) ->
    rec_step main_thread (r, w, l) (r', w', if ok : bool then l ++ [Connected (md_id md)] else l)
| step_data incoming md buffered data r w r' w' l :
    on_data incoming md buffered data r w = Ret (r', w') ->
    rec_step main_thread (r, w, l)
      (r', w', l ++ [Data (md_id md) (mkNetworkChunk md data incoming buffered)])
| step_disconnect md buffered r w r' w' l :
    (forall t, cns r !! md_id md = Some t -> th_queue t = []) ->
    on_disconnect md buffered r w = (r', w') ->
    rec_step main_thread (r, w, l) (r', w', l ++ [Gone (md_id md)])
| step_thread id t t' r w w' l :
    cns r !! id = Some t -> thread_turn t r w = (t', w') ->
    rec_step main_thread (r, w, l) (set_cns (<[id := t']> (cns r)) r, w', l)
| step_detached i t t' r w w' l :
    detached r !! i = Some t -> thread_turn t r w = (t', w') ->
    rec_step main_thread (r, w, l) (set_detached (<[i := t']> (detached r)) r, w', l)
| step_apps p alias port r w l :
    rec_step main_thread (r, w, l) (set_port p port (on_alias p alias r), w, l).

(** The chunks a connection was given since it was last connected. *)
Definition given_step (id : ConnectionInfo) (s : option (list NetworkChunk)) (c : Call)
    : option (list NetworkChunk) :=
  match c with
  | Connected i => if decide (i = id) then Some [] else s
  | Data i c => if decide (i = id) then (fun l => l ++ [c]) <$> s else s
  | Gone i => if decide (i = id) then None else s
  end.

Definition given (id : ConnectionInfo) (l : list Call) : option (list NetworkChunk) :=
  foldl (given_step id) None l.

(** A connection that was fed with these chunks, in this order, and with nothing
    else, whatever the world was when they came. *)
Inductive fed (g : G) : list NetworkChunk -> Cn -> Prop :=
| fed_new chain : fed g [] (cn_new chain)
| fed_chunk l cn c ap did w cn' w' res :
    fed g l cn -> metadata did = nc_metadata c -> incoming did = nc_incoming c ->
    buffered did = nc_buffered c ->
    cn_on_chunk g ap did (nc_data c) cn w = Ret (cn', w', res) -> fed g (l ++ [c]) cn'.

Definition thread_ok (t : ThreadContext G Cn) (l : list NetworkChunk) : Prop :=
  forall cn, th_cn t = Some cn -> exists d, fed (th_group t) d cn /\ d ++ th_queue t = l.

Definition rec_inv (main_thread : bool) (s : Rec * W * list Call) : Prop :=
  let '(r, _, l) := s in
  tester r = false /\
  (main_thread = true -> cns r = ∅) /\ (main_thread = false -> cns_main_thread r = ∅) /\
  (forall id, match cns r !! id, cns_main_thread r !! id with
              | Some t, _ => exists sent, given id l = Some sent /\ thread_ok t sent
              | None, Some c => exists sent, given id l = Some sent /\ fed (cc_db c) sent (cc_cn c)
              | None, None => given id l = None
              end).

Lemma given_snoc (id : ConnectionInfo) (l : list Call) (c : Call) :
  given id (l ++ [c]) = given_step id (given id l) c.
Proof. unfold given. by rewrite foldl_app. Qed.

Lemma thread_turn_ok (t t' : ThreadContext G Cn) (r : Rec) (w w' : W) (l : list NetworkChunk) :
  thread_turn t r w = (t', w') -> thread_ok t l -> thread_ok t' l.
Proof.
  intros E Ht. unfold thread_turn in E. destruct (th_cn t) as [cn|] eqn:Ec; [|by simplify_eq].
  destruct (th_queue t) as [|c q] eqn:Eq; [by simplify_eq|].
  destruct (cn_on_chunk _ _ _ _ _ _) as [[[cn' w1] res]| |] eqn:Er; simplify_eq; try done.
  intros cn2 [= <-]. destruct (Ht cn Ec) as (d & Hd & Hl). exists (d ++ [c]). split.
  - by apply (fed_chunk (th_group t) d cn c (apps r) (directed c r) w cn' w' res).
  - rewrite <- Hl, Eq. cbn. by rewrite <- app_assoc.
Qed.

Lemma on_connect_inv (main : bool) incoming md buffered chain (r r' : Rec) (w w' : W) ok l :
  on_connect main incoming md buffered chain r w = (r', w', ok) -> rec_inv main (r, w, l) ->
  rec_inv main (r', w', if ok : bool then l ++ [Connected (md_id md)] else l).
Proof.
  intros E (Ht & Hm & Hn & Hi). unfold on_connect in E. rewrite Ht in E.
  destruct (cx_add _ _ _ _ w) as [w1 [g|]]; [|by simplify_eq].
  destruct main; simplify_eq.
  - split; [done|]. split; [by apply Hm|]. split; [done|]. intros id. cbn. rewrite (Hm eq_refl), lookup_empty.
    specialize (Hi id). rewrite (Hm eq_refl), lookup_empty in Hi. rewrite given_snoc. cbn.
    destruct (decide (md_id md = id)) as [<-|Hne].
    + rewrite lookup_insert_eq. exists []. split; [done|constructor].
    + rewrite lookup_insert_ne by done. exact Hi.
  - set (r1 := match cns r !! md_id md with Some t => _ | None => r end).
    assert (tester r1 = false /\ cns_main_thread r1 = ∅ /\ cns r1 = cns r) as (E1 & E2 & E3).
    { unfold r1. destruct (cns r !! md_id md); split_and!; try done; by apply Hn. }
    split; [exact E1|]. split; [done|]. split; [by intros; cbn; rewrite E2|]. intros id. cbn. rewrite E2, E3, lookup_empty.
    specialize (Hi id). rewrite (Hn eq_refl), lookup_empty in Hi. rewrite given_snoc. cbn.
    destruct (decide (md_id md = id)) as [<-|Hne].
    + rewrite lookup_insert_eq. exists []. split; [done|]. intros cn [= <-]. exists []. split; [constructor|done].
    + rewrite lookup_insert_ne by done. exact Hi.
Qed.

Lemma on_data_inv (main : bool) incoming md buffered data (r r' : Rec) (w w' : W) l :
  on_data incoming md buffered data r w = Ret (r', w') -> rec_inv main (r, w, l) ->
  rec_inv main (r', w', l ++ [Data (md_id md) (mkNetworkChunk md data incoming buffered)]).
Proof.
  intros E (Ht & Hm & Hn & Hi). unfold on_data in E. rewrite Ht in E.
  set (chunk := mkNetworkChunk md data incoming buffered) in *.
  assert (forall id, id <> md_id md -> given id (l ++ [Data (md_id md) chunk]) = given id l) as Hg.
  { intros id Hne. rewrite given_snoc. cbn. by rewrite decide_False by congruence. }
  assert (given (md_id md) (l ++ [Data (md_id md) chunk]) = (fun s => s ++ [chunk]) <$> given (md_id md) l) as Hg'.
  { rewrite given_snoc. cbn. by rewrite decide_True. }
  pose proof (Hi (md_id md)) as Hid.
  destruct (cns r !! md_id md) as [t|] eqn:Ec; [|destruct (cns_main_thread r !! md_id md) as [c|] eqn:Em].
  - simplify_eq. split; [done|]. split; [intros ->; rewrite (Hm eq_refl), lookup_empty in Ec; done|].
    split; [exact Hn|]. intros id. cbn. destruct (decide (id = md_id md)) as [->|Hne].
    + rewrite lookup_insert_eq, Hg'. destruct Hid as (sent & -> & Hok). exists (sent ++ [chunk]). split; [done|].
      intros cn Ecn. cbn in Ecn. destruct (Hok cn Ecn) as (d & Hd & <-). exists d. split; [done|].
      cbn. rewrite Ecn. by rewrite app_assoc.
    + rewrite lookup_insert_ne, Hg by done. apply Hi.
  - destruct (cn_on_chunk _ _ _ _ _ _) as [[[cn' w1] res]| |] eqn:Er; cbn in E; simplify_eq.
    split; [done|]. split; [exact Hm|].
    split; [intros ->; rewrite (Hn eq_refl), lookup_empty in Em; done|].
    intros id. cbn. destruct (decide (id = md_id md)) as [->|Hne].
    + rewrite Ec, lookup_insert_eq, Hg'. destruct Hid as (sent & -> & Hfed). exists (sent ++ [chunk]). split; [done|].
      by apply (fed_chunk (cc_db c) sent (cc_cn c) chunk (apps r) (directed chunk r) w cn' w' res).
    + rewrite lookup_insert_ne, Hg by done. apply Hi.
  - simplify_eq. split; [done|]. split; [done|]. split; [done|]. intros id.
    destruct (decide (id = md_id md)) as [->|Hne]; [|rewrite Hg by done; apply Hi].
    by rewrite Ec, Em, Hg', Hid.
Qed.

Lemma on_disconnect_inv (main : bool) md buffered (r r' : Rec) (w w' : W) l :
  on_disconnect md buffered r w = (r', w') -> rec_inv main (r, w, l) ->
  rec_inv main (r', w', l ++ [Gone (md_id md)]).
Proof.
  intros E (Ht & Hm & Hn & Hi). unfold on_disconnect in E. rewrite Ht in E.
  assert (forall id, given id (l ++ [Gone (md_id md)]) = if decide (md_id md = id) then None else given id l) as Hg.
  { intros id. by rewrite given_snoc. }
  destruct (cns r !! md_id md) as [t|] eqn:Ec; [|destruct (cns_main_thread r !! md_id md) as [c|] eqn:Em]; simplify_eq.
  - split; [done|]. split; [intros ->; rewrite (Hm eq_refl), lookup_empty in Ec; done|].
    split; [done|]. intros id. cbn. rewrite Hg. case_decide as Ed.
    + subst id. rewrite lookup_delete_eq. destruct main; [rewrite (Hm eq_refl), lookup_empty in Ec; done|].
      by rewrite (Hn eq_refl), lookup_empty.
    + rewrite lookup_delete_ne by done. apply Hi.
  - split; [done|]. split; [done|]. split; [intros ->; rewrite (Hn eq_refl), lookup_empty in Em; done|].
    intros id. cbn. rewrite Hg. case_decide as Ed.
    + subst id. by rewrite Ec, lookup_delete_eq.
    + rewrite lookup_delete_ne by done. apply Hi.
  - split; [done|]. split; [done|]. split; [done|]. intros id. rewrite Hg. case_decide as Ed; [|apply Hi].
    subst id. by rewrite Ec, Em.
Qed.

Lemma rec_step_inv (main : bool) s s' : rec_step main s s' -> rec_inv main s -> rec_inv main s'.
Proof.
  intros [] Hi; [by eapply on_connect_inv|by eapply on_data_inv|by eapply on_disconnect_inv| | |exact Hi].
  - destruct Hi as (Ht & Hm & Hn & Hi). split; [done|].
    split; [intros ->; match goal with H : cns _ !! _ = _ |- _ => by rewrite (Hm eq_refl), lookup_empty in H end|].
    split; [done|]. intros id'. cbn. destruct (decide (id = id')) as [<-|Hne].
    + rewrite lookup_insert_eq. specialize (Hi id).
      match goal with H : cns _ !! _ = Some _ |- _ => rewrite H in Hi end.
      destruct Hi as (sent & Hs & Hok). exists sent. split; [done|]. by eapply thread_turn_ok.
    + rewrite lookup_insert_ne by done. apply Hi.
  - exact Hi.
Qed.

(** C36: whatever the schedule of the threads, and in both modes, a connection
    is fed exactly its own chunks, in the order the main thread got them. In a run
    from the start, a connection that is being followed was fed a prefix of the
    chunks given to it since it was last connected, the rest waiting in its channel
    in order (nothing waits on the main thread), and a connection that is not followed
    is one that was not connected or is gone. *)
Theorem recorder_feeds (main : bool) (w0 w : W) (r : Rec) (l : list Call) (id : ConnectionInfo) :
  rtc (rec_step main) (recorder_new false, w0, []) (r, w, l) ->
  match cns r !! id, cns_main_thread r !! id with
  | Some t, _ => exists sent, given id l = Some sent /\
      forall cn, th_cn t = Some cn -> exists d, fed (th_group t) d cn /\ d ++ th_queue t = sent
  | None, Some c => exists sent, given id l = Some sent /\ fed (cc_db c) sent (cc_cn c)
  | None, None => given id l = None
  end.
Proof.
  intros H. assert (rec_inv main (r, w, l)) as (_ & _ & _ & Hi); [|apply Hi].
  apply (rtc_preserves _ _ _ _ (rec_step_inv main) H).
  split; [done|]. split; [done|]. split; [done|]. intros i. cbn. by rewrite !lookup_empty.
Qed.

End recorder.

(** ** A run

    The recorder over a layer that remembers its chunks: the main thread hands over
    a connection and two chunks, and the thread has processed the first of them. *)

#[export] Instance demo_connections : Connections (list bytes) unit Sink := {|
  cx_add _ _ _ _ w := (w, Ok tt);
  cx_drop _ w := w;
  cx_add_randomness data w := (w ++ [data], Ok tt);
  cn_new _ := [];
  cn_on_chunk _ _ did data cn w := Handle.on_data did data cn w;
|}.

Definition demo_id : ConnectionInfo := mkConnectionInfo (mkSocketAddr (V4 [10; 0; 0; 1]) 8302) 7 9.
Definition demo_md : EventMetadata := mkEventMetadata demo_id 1 1 0.
Definition demo_chunk (data : bytes) : NetworkChunk := mkNetworkChunk demo_md data true 0.

Lemma recorder_feeds_witness :
  exists (r : P2pRecorder unit Sink) l t,
    cns r !! demo_id = Some t /\ th_queue t = [demo_chunk [3]] /\
    given demo_id l = Some [demo_chunk [1; 2]; demo_chunk [3]] /\
    forall cn, th_cn t = Some cn -> exists d, fed (W := list bytes) tt d cn /\ d ++ th_queue t
                                              = [demo_chunk [1; 2]; demo_chunk [3]].
Proof.
  set (t1 := mkThread tt (Some []) [demo_chunk [1; 2]; demo_chunk [3]] : ThreadContext unit Sink).
  set (t2 := mkThread tt (Some [(true, [1; 2])]) [demo_chunk [3]] : ThreadContext unit Sink).
  pose proof (recorder_feeds (W := list bytes) false [] [] (mkRecorder false {[demo_id := t2]} ∅ ∅ [])
    [Connected demo_id; Data demo_id (demo_chunk [1; 2]); Data demo_id (demo_chunk [3])] demo_id) as Hw.
  exists (mkRecorder false {[demo_id := t2]} ∅ ∅ []), 
    [Connected demo_id; Data demo_id (demo_chunk [1; 2]); Data demo_id (demo_chunk [3])], t2.
  cbn [cns] in Hw |- *. rewrite lookup_singleton_eq in Hw |- *.
  split; [done|]. split; [done|]. split; [vm_compute; reflexivity|].
  destruct Hw as (sent & Hg & Hd).
  - eapply rtc_l; [by eapply (step_connect false true demo_md 0 [])|].
    eapply rtc_l; [by eapply (step_data false true demo_md 0 [1; 2])|].
    eapply rtc_l; [by eapply (step_data false true demo_md 0 [3])|].
    eapply rtc_l; [by eapply (step_thread false demo_id t1 t2)|]. apply rtc_refl.
  - intros cn Hcn. vm_compute in Hg. injection Hg as <-. exact (Hd cn Hcn).
Defined.
