(* ===== verification/EventLoop.v ===== *)
(** The loop of the recorder process over the events of the probes
    ([bpf-recorder/src/main.rs], the consumer thread of [main]): which descriptors
    are connections, and what is told to the recorder, to the readers of the helper's
    pipes and to the report. Snark workers only have their data ignored.

    The clock is an input of every turn. The environment variables of test runs,
    the threads that watch processes and the end of the program are in [Lifecycle]. *)

From stdpp Require Import base list gmap strings relations.
From Stdlib Require Import ZArith Lia.
From S2P Require Import Prelude Types Handle Text RingBuffer BpfEvent Checksum Meshsub Capnp Recorder.

(** What [clock_gettime] and the two calls of [SystemTime::now] give in a turn. *)
Record Clock : Type := mkClock { now_origin : Z; now_better : Z; monotonic : Z }.

Record Loop (G Cn : Type) : Type := mkLoop {
  origin : option Z;
  p2p_cns : gmap (Z * Z) SocketAddr;
  pending_out_cns : gmap (Z * Z) SocketAddr;
  recorder : P2pRecorder G Cn;
  watching : gmap Z DebuggerReport;
  capnp_readers : gmap (Z * bool) bytes;
  capnp_blacklist : gset (Z * bool);
  max_buffered : Z;
  max_unordered_ns : gmap Z Z;
  last_ts : gmap Z Z;
  lp_subscriptions : gmap Z bytes;
  lp_chain_id : gmap Z bytes;
  max_lag : Z;
  snark_workers : gset Z;
}.
Arguments mkLoop {G Cn}. Arguments origin {G Cn}. Arguments p2p_cns {G Cn}.
Arguments pending_out_cns {G Cn}. Arguments recorder {G Cn}. Arguments watching {G Cn}.
Arguments capnp_readers {G Cn}. Arguments capnp_blacklist {G Cn}. Arguments max_buffered {G Cn}.
Arguments max_unordered_ns {G Cn}. Arguments last_ts {G Cn}. Arguments lp_subscriptions {G Cn}.
Arguments lp_chain_id {G Cn}. Arguments max_lag {G Cn}. Arguments snark_workers {G Cn}.

Section loop.
Context {W G Cn : Type} `{!Connections W G Cn, !CapnpLib, !Blake2, !CapnpDb W, !Crc64}.

Abbreviation Loop := (Loop G Cn).

Definition loop_new (boot_time : option Z) (test : bool) : Loop :=
  mkLoop boot_time ∅ ∅ (recorder_new test) ∅ ∅ ∅ 0 ∅ ∅ ∅ ∅ 0 ∅.

(** ** Times *)

(** What a turn does before it looks at the kind of the event: the maxima, and
    the three times of the metadata. *)
Definition note_buffered (buffered : Z) (s : Loop) : Loop :=
  mkLoop (origin s) (p2p_cns s) (pending_out_cns s) (recorder s) (watching s) (capnp_readers s)
    (capnp_blacklist s) (Z.max buffered (max_buffered s)) (max_unordered_ns s) (last_ts s)
    (lp_subscriptions s) (lp_chain_id s) (max_lag s) (snark_workers s).

Definition note_order (tid ts1 : Z) (s : Loop) : Loop :=
  let last := match last_ts s !! tid with Some t => t | None => 0 end in
  let unordered :=
    if ts1 <? last then
      let old := match max_unordered_ns s !! tid with Some o => o | None => 0 end in
      <[tid := Z.max old (last - ts1)]> (max_unordered_ns s)
    else max_unordered_ns s in
  mkLoop (origin s) (p2p_cns s) (pending_out_cns s) (recorder s) (watching s) (capnp_readers s)
    (capnp_blacklist s) (max_buffered s) unordered (<[tid := ts1]> (last_ts s))
    (lp_subscriptions s) (lp_chain_id s) (max_lag s) (snark_workers s).

Definition event_time (clock : Clock) (ts1 : Z) (s : Loop) : Z * Loop :=
  match origin s with
  | None =>
      (now_origin clock,
       mkLoop (Some (now_origin clock - ts1)) (p2p_cns s) (pending_out_cns s) (recorder s) (watching s)
         (capnp_readers s) (capnp_blacklist s) (max_buffered s) (max_unordered_ns s) (last_ts s)
         (lp_subscriptions s) (lp_chain_id s) (max_lag s) (snark_workers s))
  | Some o => (o + ts1, s)
  end.

Definition better_time (clock : Clock) (ts1 : Z) (s : Loop) : Z * Loop :=
  let delta := Z.max 0 (monotonic clock - ts1) in
  let lag := if max_lag s + 60000000000 <=? delta then delta else max_lag s in
  (now_better clock - delta,
   mkLoop (origin s) (p2p_cns s) (pending_out_cns s) (recorder s) (watching s) (capnp_readers s)
     (capnp_blacklist s) (max_buffered s) (max_unordered_ns s) (last_ts s)
     (lp_subscriptions s) (lp_chain_id s) lag (snark_workers s)).

(** ** Updates of a single field *)

Definition set_p2p m (s : Loop) : Loop :=
  mkLoop (origin s) m (pending_out_cns s) (recorder s) (watching s) (capnp_readers s) (capnp_blacklist s)
    (max_buffered s) (max_unordered_ns s) (last_ts s) (lp_subscriptions s) (lp_chain_id s) (max_lag s) (snark_workers s).
Definition set_pending m (s : Loop) : Loop :=
  mkLoop (origin s) (p2p_cns s) m (recorder s) (watching s) (capnp_readers s) (capnp_blacklist s)
    (max_buffered s) (max_unordered_ns s) (last_ts s) (lp_subscriptions s) (lp_chain_id s) (max_lag s) (snark_workers s).
Definition set_recorder r (s : Loop) : Loop :=
  mkLoop (origin s) (p2p_cns s) (pending_out_cns s) r (watching s) (capnp_readers s) (capnp_blacklist s)
    (max_buffered s) (max_unordered_ns s) (last_ts s) (lp_subscriptions s) (lp_chain_id s) (max_lag s) (snark_workers s).
Definition set_watching m (s : Loop) : Loop :=
  mkLoop (origin s) (p2p_cns s) (pending_out_cns s) (recorder s) m (capnp_readers s) (capnp_blacklist s)
    (max_buffered s) (max_unordered_ns s) (last_ts s) (lp_subscriptions s) (lp_chain_id s) (max_lag s) (snark_workers s).
Definition set_capnp readers blacklist subs chains (s : Loop) : Loop :=
  mkLoop (origin s) (p2p_cns s) (pending_out_cns s) (recorder s) (watching s) readers blacklist
    (max_buffered s) (max_unordered_ns s) (last_ts s) subs chains (max_lag s) (snark_workers s).
Definition set_snark m (s : Loop) : Loop :=
  mkLoop (origin s) (p2p_cns s) (pending_out_cns s) (recorder s) (watching s) (capnp_readers s) (capnp_blacklist s)
    (max_buffered s) (max_unordered_ns s) (last_ts s) (lp_subscriptions s) (lp_chain_id s) (max_lag s) m.

(** ** The report *)

Definition watch_connection (p fd_ : Z) (addr : SocketAddr) (incoming : bool) (timestamp : Z) (s : Loop) : Loop :=
  set_watching
    (alter (fun rp =>
       let counter := length (List.filter (fun cn => bool_decide (cm_ip cn = ip addr)) (rp_network rp)) in
       mkReport (rp_ipc rp)
         (rp_network rp ++ [mkCnMeta (ip addr) counter incoming (to_signed 32 fd_) pair_default timestamp]))
       p (watching s)) s.

Definition add_pair (incoming : bool) (c : ChecksumPair) (data : bytes) : ChecksumPair :=
  if incoming then mkPair (add_assign (cp_0 c) data) (cp_1 c) else mkPair (cp_0 c) (add_assign (cp_1 c) data).

Definition watch_ipc (p : Z) (incoming : bool) (data : bytes) (s : Loop) : Loop :=
  set_watching (alter (fun rp => mkReport (add_pair incoming (rp_ipc rp) data) (rp_network rp)) p (watching s)) s.

(** [iter_mut().rev().find(..)]: the last connection with this address and
    descriptor. *)
Fixpoint update_first {A} (f : A -> bool) (g : A -> A) (l : list A) : list A :=
  match l with
  | [] => []
  | x :: l => if f x then g x :: l else x :: update_first f g l
  end.

Definition watch_data (p fd_ : Z) (addr : SocketAddr) (incoming : bool) (data : bytes) (s : Loop) : Loop :=
  set_watching
    (alter (fun rp =>
       mkReport (rp_ipc rp)
         (rev (update_first (fun cn => bool_decide (ip addr = cm_ip cn) && (fd_ =? wrap 32 (cm_fd cn)))
            (fun cn => mkCnMeta (cm_ip cn) (cm_counter cn) (cm_incoming cn) (cm_fd cn)
                         (add_pair incoming (cm_checksum cn) data) (cm_timestamp cn))
            (rev (rp_network rp)))))
       p (watching s)) s.

(** ** The kinds of events *)

(** The connection a descriptor had before is closed. *)
Definition close_old (old : option SocketAddr) (md : EventMetadata) (buffered : Z) (s : Loop) (w : W) : Loop * W :=
  match old with
  | Some old_addr =>
      let old_md := mkEventMetadata (mkConnectionInfo old_addr (pid (md_id md)) (fd (md_id md)))
                      (md_time md) (md_better_time md) (md_duration md) in
      let '(r, w) := on_disconnect old_md buffered (recorder s) w in (set_recorder r s, w)
  | None => (s, w)
  end.

(** A connection opened on a descriptor: what the descriptor was is closed first. *)
Definition connection (incoming : bool) (addr : SocketAddr) (md : EventMetadata) (buffered : Z)
    (s : Loop) (w : W) : Loop * W :=
  let key := (pid (md_id md), fd (md_id md)) in
  let s := watch_connection (pid (md_id md)) (fd (md_id md)) addr incoming (md_better_time md) s in
  let old := p2p_cns s !! key in
  let s := set_p2p (<[key := addr]> (p2p_cns s)) s in
  let '(s, w) := close_old old md buffered s w in
  let chain := match lp_chain_id s !! pid (md_id md) with Some c => c | None => [] end in
  let '(r, w, _) := on_connect true incoming md buffered chain (recorder s) w in
  (set_recorder r s, w).

(** Data on the pipes of the helper. *)
Definition pipe_data (p : Z) (incoming : bool) (data : bytes) (time better : Z) (s : Loop) (w : W)
    : outcome (Loop * W) :=
  let s := watch_ipc p incoming data s in
  let key := (p, incoming) in
  if decide (key ∈ capnp_blacklist s) then Ret (s, w)
  else
    let buffer := match capnp_readers s !! key with Some b => b | None => [] end ++ data in
    let chain := match lp_chain_id s !! p with Some c => c | None => [] end in
    '(buffer, subs, chain, w, go_on) ←
      Capnp.process incoming (pid_to_addr p (recorder s)) time better buffer (lp_subscriptions s) chain w;
    let chains := <[p := chain]> (lp_chain_id s) in
    if go_on : bool
    then Ret (set_capnp (<[key := buffer]> (capnp_readers s)) (capnp_blacklist s) subs chains s, w)
    else Ret (set_capnp (delete key (capnp_readers s)) ({[key]} ∪ capnp_blacklist s) subs chains s, w).

(** [IncomingData] and [OutgoingData]. *)
Definition data_event (p fd_ : Z) (incoming : bool) (data : bytes) (time better duration buffered : Z)
    (s : Loop) (w : W) : outcome (Loop * W) :=
  if decide (p ∈ snark_workers s) then Ret (s, w)
  else if (fd_ =? 0) || (fd_ =? 1) then pipe_data p incoming data time better s w
  else if fd_ =? 2 then Ret (s, w)
  else
    match p2p_cns s !! (p, fd_) with
    | Some addr =>
        let s := watch_data p fd_ addr incoming data s in
        let md := mkEventMetadata (mkConnectionInfo addr p fd_) time better duration in
        '(r, w) ← on_data incoming md buffered data (recorder s) w;
        Ret (set_recorder r s, w)
    | None => Ret (s, w)
    end.

(** One turn of the loop. *)
Definition handle_event (clock : Clock) (event : SnifferEvent) (buffered : Z) (s : Loop) (w : W)
    : outcome (Loop * W) :=
  let s := note_order (sn_tid event) (sn_ts1 event) (note_buffered buffered s) in
  let '(time, s) := event_time clock (sn_ts1 event) s in
  let '(better, s) := better_time clock (sn_ts1 event) s in
  let duration := wrap 64 (sn_ts1 event - sn_ts0 event) in
  let p := sn_pid event in
  let key := (p, sn_fd event) in
  let md addr := mkEventMetadata (mkConnectionInfo addr p (sn_fd event)) time better duration in
  match sn_variant event with
  | NewSnarkWorkerApp => Ret (set_snark ({[p]} ∪ snark_workers s) s, w)
  | NewApp alias =>
      let s := set_recorder (on_alias p alias (recorder s)) s in
      Ret (match watching s !! p with
           | Some _ => s
           | None => set_watching (<[p := mkReport pair_default []]> (watching s)) s
           end, w)
  | BindEv addr => Ret (set_recorder (set_port p (port addr) (recorder s)) s, w)
  | OutgoingConnection addr => Ret (set_pending (<[key := addr]> (pending_out_cns s)) s, w)
  | GetSockOptEv value =>
      if negb (length value =? 4)%nat then Ret (s, w)
      else
        match pending_out_cns s !! key with
        | None => Ret (s, w)
        | Some addr =>
            let s := set_pending (delete key (pending_out_cns s)) s in
            if negb (le_decode value =? 0) then Ret (s, w)
            else Ret (connection false addr (md addr) buffered s w)
        end
  | IncomingConnection addr => Ret (connection true addr (md addr) buffered s w)
  | Disconnected =>
      match p2p_cns s !! key with
      | Some addr =>
          let s := set_p2p (delete key (p2p_cns s)) s in
          let '(r, w) := on_disconnect (md addr) buffered (recorder s) w in
          Ret (set_recorder r s, w)
      | None => Ret (s, w)
      end
  | ErrorEv _ _ => Ret (s, w)
  | IncomingData data => data_event p (sn_fd event) true data time better duration buffered s w
  | OutgoingData data => data_event p (sn_fd event) false data time better duration buffered s w
  | RandomEv data =>
      if (length data =? 32)%nat then
        let '(r, w) := on_randomness data (recorder s) w in Ret (set_recorder r s, w)
      else Ret (s, w)
  end.

(** The loop over what the ring buffer gave. *)
Fixpoint run_loop (es : list (Clock * option SnifferEvent * Z)) (s : Loop) (w : W) : outcome (Loop * W) :=
  match es with
  | [] => Ret (s, w)
  | (_, None, _) :: es => run_loop es s w
  | (clock, Some e, buffered) :: es => '(s, w) ← handle_event clock e buffered s w; run_loop es s w
  end.

(** * The life of a descriptor *)

(** What matters of the events for one descriptor: whether its process is a snark
    worker, an outgoing connection that is not confirmed yet, and the connection with
    what it carried so far. *)
Record Sock : Type := mkSock {
  sk_snark : bool;
  sk_pending : option SocketAddr;
  sk_open : option (SocketAddr * list (bool * bytes));
}.

Definition sock_new : Sock := mkSock false None None.

(** Data of a snark worker, and on the standard descriptors, is not of a
    connection. *)
Definition sock_data (f : Z) (incoming : bool) (data : bytes) (k : Sock) : Sock :=
  if sk_snark k || (f =? 0) || (f =? 1) || (f =? 2) then k
  else mkSock false (sk_pending k) ((fun '(a, l) => (a, l ++ [(incoming, data)])) <$> sk_open k).

Definition sock_step (p f : Z) (k : Sock) (e : SnifferEvent) : Sock :=
  if negb (sn_pid e =? p) then k
  else match sn_variant e with
  | NewSnarkWorkerApp => mkSock true (sk_pending k) (sk_open k)
  | v =>
      if negb (sn_fd e =? f) then k
      else match v with
      | OutgoingConnection a => mkSock (sk_snark k) (Some a) (sk_open k)
      | GetSockOptEv value =>
          match sk_pending k with
          | Some a =>
              if negb (length value =? 4)%nat then k
              else mkSock (sk_snark k) None (if le_decode value =? 0 then Some (a, []) else sk_open k)
          | None => k
          end
      | IncomingConnection a => mkSock (sk_snark k) (sk_pending k) (Some (a, []))
      | Disconnected => mkSock (sk_snark k) (sk_pending k) None
      | IncomingData data => sock_data f true data k
      | OutgoingData data => sock_data f false data k
      | _ => k
      end
  end.

Definition sock_of (p f : Z) (es : list (Clock * option SnifferEvent * Z)) : Sock :=
  foldl (sock_step p f) sock_new (omap (fun e => e.1.2) es).

(** The database takes every connection. *)
Definition add_ok : Prop := forall i b al t (w : W), exists w' g, cx_add i b al t w = (w', Ok g).

Definition payload (c : NetworkChunk) : bool * bytes := (nc_incoming c, nc_data c).

(** The recorder follows the connection of the descriptor and no other one. *)
Definition follows (p f : Z) (o : option (SocketAddr * list (bool * bytes))) (r : P2pRecorder G Cn) : Prop :=
  (forall a c, cns_main_thread r !! mkConnectionInfo a p f = Some c ->
     exists l, o = Some (a, payload <$> l) /\ fed (W := W) (cc_db c) l (cc_cn c)) /\
  (add_ok -> forall a l, o = Some (a, l) -> is_Some (cns_main_thread r !! mkConnectionInfo a p f)).

Record loop_rel (s : Loop) (k : Z -> Z -> Sock) : Prop := {
  lr_tester : tester (recorder s) = false;
  lr_threads : cns (recorder s) = ∅;
  lr_snark : forall p f, sk_snark (k p f) = bool_decide (p ∈ snark_workers s);
  lr_pending : forall p f, pending_out_cns s !! (p, f) = sk_pending (k p f);
  lr_open : forall p f, p2p_cns s !! (p, f) = fst <$> sk_open (k p f);
  lr_follows : forall p f, follows p f (sk_open (k p f)) (recorder s);
}.

(** ** The recorder on the main thread *)

Lemma on_disconnect_main (md : EventMetadata) (b : Z) (r : P2pRecorder G Cn) (w : W) :
  tester r = false -> cns r = ∅ ->
  let r' := (on_disconnect md b r w).1 in
  tester r' = false /\ cns r' = ∅ /\ cns_main_thread r' = delete (md_id md) (cns_main_thread r).
Proof.
  intros Ht Hc. unfold on_disconnect. rewrite Ht, Hc, lookup_empty.
  destruct (cns_main_thread r !! md_id md) eqn:E; cbn; [done|]. by rewrite delete_id.
Qed.

Lemma on_connect_main inc (md : EventMetadata) (b : Z) (chain : bytes) (r r' : P2pRecorder G Cn) (w w' : W) ok :
  tester r = false -> cns r = ∅ -> on_connect true inc md b chain r w = (r', w', ok) ->
  tester r' = false /\ cns r' = ∅ /\
  ((exists g ch, cns_main_thread r' = <[md_id md := mkContext (cn_new ch) g]> (cns_main_thread r))
   \/ (r' = r /\ ~ add_ok)).
Proof.
  intros Ht Hc E. unfold on_connect in E. rewrite Ht in E.
  destruct (cx_add _ _ _ _ w) as [w1 [g|e]] eqn:Ea; simplify_eq; cbn.
  - split; [done|]. split; [done|]. left. by eexists _, _.
  - split; [done|]. split; [done|]. right. split; [done|]. intros Hok.
    destruct (Hok (md_id md) inc (alias_of (pid (md_id md)) r') (md_time md) w) as (? & ? & E'). congruence.
Qed.

Lemma on_data_main inc (md : EventMetadata) (b : Z) (data : bytes) (r r' : P2pRecorder G Cn) (w w' : W) :
  tester r = false -> cns r = ∅ -> on_data inc md b data r w = Ret (r', w') ->
  tester r' = false /\ cns r' = ∅ /\
  match cns_main_thread r !! md_id md with
  | Some c => exists cn, cns_main_thread r' = <[md_id md := mkContext cn (cc_db c)]> (cns_main_thread r) /\
      forall l, fed (W := W) (cc_db c) l (cc_cn c) ->
                fed (W := W) (cc_db c) (l ++ [mkNetworkChunk md data inc b]) cn
  | None => r' = r
  end.
Proof.
  intros Ht Hc E. unfold on_data in E. rewrite Ht, Hc, lookup_empty in E.
  destruct (cns_main_thread r !! md_id md) as [c|]; [|by simplify_eq].
  destruct (cn_on_chunk _ _ _ _ _ _) as [[[cn w1] res]| |] eqn:Er; cbn in E; simplify_eq.
  split; [done|]. split; [done|]. exists cn. split; [done|]. intros l Hl.
  by apply (fed_chunk (cc_db c) l (cc_cn c) (mkNetworkChunk md data inc b)
       (apps r) (directed (mkNetworkChunk md data inc b) r) w cn w' res).
Qed.

(** ** The turns of the loop *)

(** The fields the relation is about. *)
Definition same (s s' : Loop) : Prop :=
  recorder s' = recorder s /\ snark_workers s' = snark_workers s /\
  pending_out_cns s' = pending_out_cns s /\ p2p_cns s' = p2p_cns s.

Lemma loop_rel_same (s s' : Loop) (k k' : Z -> Z -> Sock) :
  same s s' -> (forall p f, k' p f = k p f) -> loop_rel s k -> loop_rel s' k'.
Proof.
  intros (Er & Es & Ep & Eo) Hk [Ht Hc Hs Hp Ho Hf].
  split; intros; rewrite ?Er, ?Es, ?Ep, ?Eo, ?Hk; auto.
Qed.

Definition set_open (p f : Z) (o : option (SocketAddr * list (bool * bytes))) (k : Z -> Z -> Sock) (p' f' : Z) : Sock :=
  if (p =? p') && (f =? f') then mkSock (sk_snark (k p' f')) (sk_pending (k p' f')) o else k p' f'.

Definition set_pend (p f : Z) (o : option SocketAddr) (k : Z -> Z -> Sock) (p' f' : Z) : Sock :=
  if (p =? p') && (f =? f') then mkSock (sk_snark (k p' f')) o (sk_open (k p' f')) else k p' f'.

Lemma set_open_other (p f p' f' : Z) o k : (p', f') <> (p, f) -> set_open p f o k p' f' = k p' f'.
Proof.
  intros Hne. unfold set_open. destruct (Z.eqb_spec p p'), (Z.eqb_spec f f'); try done. by subst.
Qed.

Lemma set_open_eq (p f : Z) o k : set_open p f o k p f = mkSock (sk_snark (k p f)) (sk_pending (k p f)) o.
Proof. unfold set_open. by rewrite !Z.eqb_refl. Qed.

(** The table of a descriptor and the recorder change together. *)
Lemma loop_rel_open (s s' : Loop) (k : Z -> Z -> Sock) (p f : Z) (o : option (SocketAddr * list (bool * bytes))) :
  loop_rel s k ->
  tester (recorder s') = false -> cns (recorder s') = ∅ -> snark_workers s' = snark_workers s ->
  pending_out_cns s' = pending_out_cns s ->
  (forall key, p2p_cns s' !! key = if decide (key = (p, f)) then fst <$> o else p2p_cns s !! key) ->
  follows p f o (recorder s') ->
  (forall a p' f', (p', f') <> (p, f) -> cns_main_thread (recorder s') !! mkConnectionInfo a p' f'
                                      = cns_main_thread (recorder s) !! mkConnectionInfo a p' f') ->
  loop_rel s' (set_open p f o k).
Proof.
  intros [Ht Hc Hs Hp Ho Hf] Ht' Hc' Es Ep Eo Hfol Hoth. split; try done.
  - intros p' f'. rewrite Es, <- (Hs p' f'). unfold set_open. by case_match.
  - intros p' f'. rewrite Ep, Hp. unfold set_open. by case_match.
  - intros p' f'. rewrite Eo. case_decide as E; [injection E as -> ->; by rewrite set_open_eq|].
    by rewrite set_open_other.
  - intros p' f'. destruct (decide ((p', f') = (p, f))) as [E|E].
    + injection E as -> ->. by rewrite set_open_eq.
    + rewrite set_open_other by done. destruct (Hf p' f') as [Hfa Hfb].
      split; [intros a c; rewrite Hoth by done; apply Hfa|].
      intros Hok a l El. rewrite Hoth by done. by apply (Hfb Hok a l).
Qed.

Lemma info_ne (a a' : SocketAddr) (p f p' f' : Z) :
  (p', f') <> (p, f) -> mkConnectionInfo a p f <> mkConnectionInfo a' p' f'.
Proof. congruence. Qed.

(** Nothing is followed on the descriptor; the others are as before. *)
Definition cleared (p f : Z) (r r' : P2pRecorder G Cn) : Prop :=
  tester r' = false /\ cns r' = ∅ /\
  (forall a, cns_main_thread r' !! mkConnectionInfo a p f = None) /\
  (forall a p' f', (p', f') <> (p, f) ->
     cns_main_thread r' !! mkConnectionInfo a p' f' = cns_main_thread r !! mkConnectionInfo a p' f').

Lemma cleared_disconnect (p f : Z) (a0 : SocketAddr) l0 (md : EventMetadata) (b : Z) (r : P2pRecorder G Cn) (w : W) :
  tester r = false -> cns r = ∅ -> follows p f (Some (a0, l0)) r -> md_id md = mkConnectionInfo a0 p f ->
  cleared p f r (on_disconnect md b r w).1.
Proof.
  intros Ht Hc [Hf _] Hid. destruct (on_disconnect_main md b r w Ht Hc) as (Ht' & Hc' & Hm).
  split; [done|]. split; [done|]. rewrite Hm, Hid. split.
  - intros a. destruct (decide (a0 = a)) as [->|Hne]; [by rewrite lookup_delete_eq|].
    rewrite lookup_delete_ne by congruence.
    destruct (cns_main_thread r !! _) as [c|] eqn:E; [|done]. destruct (Hf a c E) as (l & El & _). congruence.
  - intros a p' f' Hne. by rewrite lookup_delete_ne by (by apply info_ne).
Qed.

Lemma cleared_none (p f : Z) (r : P2pRecorder G Cn) :
  tester r = false -> cns r = ∅ -> follows p f None r -> cleared p f r r.
Proof.
  intros Ht Hc [Hf _]. split; [done|]. split; [done|]. split; [|done]. intros a.
  destruct (cns_main_thread r !! _) as [c|] eqn:E; [|done]. by destruct (Hf a c E) as (l & ? & _).
Qed.

Lemma follows_new (p f : Z) (addr : SocketAddr) (r r' : P2pRecorder G Cn) :
  (forall a, cns_main_thread r !! mkConnectionInfo a p f = None) ->
  (exists g ch, cns_main_thread r' = <[mkConnectionInfo addr p f := mkContext (cn_new ch) g]> (cns_main_thread r))
  \/ (r' = r /\ ~ add_ok) ->
  follows p f (Some (addr, [])) r'.
Proof.
  intros Hn [(g & ch & E)|[-> Hno]].
  - split.
    + intros a c Hc. rewrite E in Hc. destruct (decide (addr = a)) as [->|Hne].
      * rewrite lookup_insert_eq in Hc. simplify_eq. exists []. split; [done|constructor].
      * rewrite lookup_insert_ne in Hc by congruence. by rewrite Hn in Hc.
    + intros _ a l [= -> _]. rewrite E, lookup_insert_eq. by eexists.
  - split; [intros a c Hc; by rewrite Hn in Hc|done].
Qed.

Lemma connection_rel inc (addr : SocketAddr) (md : EventMetadata) (b : Z) (s : Loop) (w : W) k (p f : Z) :
  md_id md = mkConnectionInfo addr p f -> loop_rel s k ->
  loop_rel (connection inc addr md b s w).1 (set_open p f (Some (addr, [])) k).
Proof.
  intros Hid Hrel. pose proof Hrel as [Ht Hc Hs Hp Ho Hf]. unfold connection. rewrite Hid. cbn [Types.pid Types.fd].
  set (s1 := set_p2p _ _). set (old := p2p_cns _ !! _).
  assert (old = fst <$> sk_open (k p f)) as Eold by (unfold old; cbn; apply Ho).
  assert (exists r2 w2, close_old old md b s1 w = (set_recorder r2 s1, w2) /\ cleared p f (recorder s) r2)
    as (r2 & w2 & E2 & Ht2 & Hc2 & Hn2 & Hoth2).
  { pose proof (Hf p f) as Hfol. unfold close_old. rewrite Eold. destruct (sk_open (k p f)) as [[a0 l0]|]; cbn [fmap option_fmap option_map fst].
    - rewrite Hid. cbn [Types.pid Types.fd].
      pose proof (cleared_disconnect p f a0 l0 (mkEventMetadata (mkConnectionInfo a0 p f) (md_time md)
        (md_better_time md) (md_duration md)) b (recorder s) w Ht Hc Hfol eq_refl) as Hcl.
      change (recorder s1) with (recorder s). destruct (on_disconnect _ b (recorder s) w) as [r2 w2]. by exists r2, w2.
    - exists (recorder s), w. split; [by destruct s|]. by apply cleared_none. }
  rewrite E2. cbn [recorder set_recorder lp_chain_id].
  destruct (on_connect true inc md b _ r2 w2) as [[r3 w3] ok] eqn:E3. cbn [fst].
  destruct (on_connect_main inc md b _ r2 r3 w2 w3 ok Ht2 Hc2 E3) as (Ht3 & Hc3 & Hm3). rewrite Hid in Hm3.
  apply (loop_rel_open s); [done|done|done|done|done| | |].
  - intros key. cbn. case_decide as E; [subst; by rewrite lookup_insert_eq|by rewrite lookup_insert_ne by congruence].
  - by apply (follows_new p f addr r2).
  - intros a p' f' Hne. cbn. rewrite <- Hoth2 by done. destruct Hm3 as [(g & ch & ->)|[-> _]]; [|done].
    by rewrite lookup_insert_ne by (by apply info_ne).
Qed.

Lemma connection_rel_eq inc (addr : SocketAddr) (md : EventMetadata) (b : Z) (s s' : Loop) (w w' : W) k (p f : Z) :
  connection inc addr md b s w = (s', w') -> md_id md = mkConnectionInfo addr p f -> loop_rel s k ->
  loop_rel s' (set_open p f (Some (addr, [])) k).
Proof. intros E Hid Hrel. pose proof (connection_rel inc addr md b s w k p f Hid Hrel) as Hcn. by rewrite E in Hcn. Qed.

Lemma data_event_rel (p f : Z) inc data time better duration b (s s' : Loop) (w w' : W) k :
  loop_rel s k -> data_event p f inc data time better duration b s w = Ret (s', w') ->
  loop_rel s' (fun p' f' => if (p =? p') && (f =? f') then sock_data f inc data (k p' f') else k p' f').
Proof.
  intros Hrel E. pose proof Hrel as [Ht Hc Hs Hp Ho Hf]. unfold data_event in E.
  assert (forall s1, same s s1 -> sock_data f inc data (k p f) = k p f ->
    loop_rel s1 (fun p' f' => if (p =? p') && (f =? f') then sock_data f inc data (k p' f') else k p' f')) as Hsame.
  { intros s1 Hs1 Hk. eapply loop_rel_same; [exact Hs1| |exact Hrel]. intros p' f'. cbn.
    destruct (Z.eqb_spec p p'), (Z.eqb_spec f f'); subst; done. }
  unfold sock_data in Hsame at 1. rewrite Hs in Hsame.
  case_decide as Esn; [simplify_eq; apply Hsame; [done|by rewrite bool_decide_eq_true_2 by done]|].
  rewrite bool_decide_eq_false_2 in Hsame by done. cbn [orb] in Hsame.
  destruct (Z.eqb_spec f 0) as [E0|], (Z.eqb_spec f 1) as [E1|]; cbn [orb] in E, Hsame.
  1-3: unfold pipe_data in E; case_decide; [simplify_eq; by apply Hsame|];
    destruct (Capnp.process _ _ _ _ _ _ _ _) as [[[[[? ?] ?] ?] []]| |]; cbn in E; simplify_eq; by apply Hsame.
  destruct (Z.eqb_spec f 2) as [E2|]; [simplify_eq; by apply Hsame|].
  destruct (p2p_cns s !! (p, f)) as [addr|] eqn:Ea; rewrite Ho in Ea;
    destruct (sk_open (k p f)) as [[a0 l0]|] eqn:Eo; simplify_eq.
  - cbn in Ea. simplify_eq. cbn [watch_data set_watching recorder] in E.
    set (md := mkEventMetadata (mkConnectionInfo addr p f) time better duration) in E.
    destruct (on_data inc md b data (recorder s) w) as [[r' w1]| |] eqn:Ed; cbn in E; simplify_eq.
    destruct (on_data_main inc md b data (recorder s) r' w w' Ht Hc Ed) as (Ht' & Hc' & Hm).
    eapply loop_rel_same; [done| |apply (loop_rel_open s _ k p f (Some (addr, l0 ++ [(inc, data)])) Hrel)];
      [|done|done|done|done| | |].
    + intros p' f'. unfold set_open, sock_data.
      destruct (Z.eqb_spec p p'), (Z.eqb_spec f f'); subst; cbn [andb]; try done.
      rewrite Hs, bool_decide_eq_false_2 by done. rewrite Eo.
      by rewrite (proj2 (Z.eqb_neq f' 0)), (proj2 (Z.eqb_neq f' 1)), (proj2 (Z.eqb_neq f' 2)).
    + intros key. cbn. case_decide as Ek; [subst; by rewrite Ho, Eo|done].
    + destruct (Hf p f) as [Hf1 Hf2]. rewrite Eo in Hf1, Hf2. cbn [recorder set_recorder].
      destruct (cns_main_thread (recorder s) !! md_id md) as [c|] eqn:Ec.
      * destruct Hm as (cn & Hm & Hfed). destruct (Hf1 _ _ Ec) as (l & [= El] & Hl). split.
        -- intros a c' Hc''. rewrite Hm in Hc''. destruct (decide (addr = a)) as [<-|Hne].
           ++ unfold md in Hc''. cbn in Hc''. rewrite lookup_insert_eq in Hc''. simplify_eq.
              eexists. split; [|exact (Hfed l Hl)]. by rewrite fmap_app.
           ++ unfold md in Hc''. cbn in Hc''. rewrite lookup_insert_ne in Hc'' by congruence.
              destruct (Hf1 a c' Hc'') as (? & ? & _). congruence.
        -- intros _ a l' [= <- _]. rewrite Hm. unfold md. cbn. rewrite lookup_insert_eq. by eexists.
      * subst r'. split.
        -- intros a c' Hc''. destruct (Hf1 a c' Hc'') as (? & [= <- _] & _). unfold md in Ec. cbn in Ec. congruence.
        -- intros Hok a l' [= <- _]. by apply (Hf2 Hok _ l0).
    + intros a p' f' Hne. cbn [recorder set_recorder].
      destruct (cns_main_thread (recorder s) !! md_id md) as [c|]; [|by subst].
      destruct Hm as (cn & -> & _). by rewrite lookup_insert_ne by (by apply info_ne).
  - apply Hsame; [done|]. pose proof (Hs p f) as Hsn. rewrite bool_decide_eq_false_2 in Hsn by done.
    destruct (k p f) as [sn pe op]. cbn in *. by subst.
Qed.

Lemma times_same (clock : Clock) (b tid ts1 time better : Z) (s s1 s2 : Loop) :
  event_time clock ts1 (note_order tid ts1 (note_buffered b s)) = (time, s1) ->
  better_time clock ts1 s1 = (better, s2) -> same s s2.
Proof.
  unfold event_time, better_time. intros E1 E2. simplify_eq. by destruct (origin _) in E1; simplify_eq.
Qed.

(** The step of one descriptor, case by case. *)
Ltac solve_step :=
  let p' := fresh "p" in let f' := fresh "f" in
  intros p' f'; try match goal with e := mkSnifferEvent _ _ _ _ _ _ |- _ => unfold e end;
  unfold sock_step, set_open, set_pend; cbn [sn_pid sn_fd sn_variant];
  match goal with |- context [?a =? p'] => destruct (Z.eqb_spec a p') end;
  try match goal with |- context [?a =? f'] => destruct (Z.eqb_spec a f') end;
  subst; cbn [andb negb]; try done.

Lemma loop_rel_pending (s : Loop) k (p f : Z) (o : option SocketAddr) :
  loop_rel s k -> loop_rel (set_pending (partial_alter (fun _ => o) (p, f) (pending_out_cns s)) s) (set_pend p f o k).
Proof.
  intros [Ht Hc Hs Hp Ho Hf]. split; try done; intros p' f'; unfold set_pend.
  - case_match; apply Hs.
  - cbn. destruct (Z.eqb_spec p p'), (Z.eqb_spec f f'); subst; cbn [andb sk_pending].
    1: by rewrite lookup_partial_alter_eq.
    all: rewrite lookup_partial_alter_ne by congruence; apply Hp.
  - case_match; apply Ho.
  - case_match; apply Hf.
Qed.

Lemma loop_rel_recorder (s : Loop) r k :
  tester r = false -> cns r = ∅ -> cns_main_thread r = cns_main_thread (recorder s) ->
  loop_rel s k -> loop_rel (set_recorder r s) k.
Proof.
  intros Hrt Hrc Hrm [Ht Hc Hs Hp Ho Hf]. split; try done. intros p f. destruct (Hf p f) as [Hfa Hfb].
  split; cbn [recorder set_recorder]; by rewrite Hrm.
Qed.

Lemma loop_rel_disconnected (s : Loop) (w w' : W) r k (p f b : Z) (addr : SocketAddr) (md : EventMetadata) :
  on_disconnect md b (recorder s) w = (r, w') ->
  p2p_cns s !! (p, f) = Some addr -> md_id md = mkConnectionInfo addr p f -> loop_rel s k ->
  loop_rel (set_recorder r (set_p2p (delete (p, f) (p2p_cns s)) s)) (set_open p f None k).
Proof.
  intros Er Ea Hid Hrel. pose proof Hrel as [Ht Hc Hs Hp Ho Hf].
  rewrite Ho in Ea. destruct (sk_open (k p f)) as [[a0 l0]|] eqn:Eo; [|done]. cbn in Ea. simplify_eq.
  pose proof (Hf p f) as Hfol. rewrite Eo in Hfol.
  destruct (cleared_disconnect p f addr l0 md b (recorder s) w Ht Hc Hfol Hid) as (Ht' & Hc' & Hn & Hoth).
  rewrite Er in Ht', Hc', Hn, Hoth.
  apply (loop_rel_open s); try done.
  - intros key. cbn. case_decide as Ek; [subst; by rewrite lookup_delete_eq|by rewrite lookup_delete_ne by congruence].
  - split; [intros a c Hcn; cbn in Hcn; by rewrite Hn in Hcn|done].
Qed.

Lemma handle_event_rel (clock : Clock) (e : SnifferEvent) (b : Z) (s s' : Loop) (w w' : W) k :
  loop_rel s k -> handle_event clock e b s w = Ret (s', w') ->
  loop_rel s' (fun p f => sock_step p f (k p f) e).
Proof.
  intros Hrel0 E. unfold handle_event in E. destruct e as [p tid f ts0 ts1 v].
  cbn [sn_pid sn_fd sn_ts0 sn_ts1 sn_tid sn_variant] in E.
  destruct (event_time _ _ _) as [time s1] eqn:E1. destruct (better_time _ _ _) as [better s2] eqn:E2.
  assert (loop_rel s2 k) as Hrel by (eapply loop_rel_same; [by eapply times_same| |exact Hrel0]; done).
  clear s Hrel0 E1 E2 s1. pose proof Hrel as [Ht Hc Hs Hp Ho Hf].
  set (e := mkSnifferEvent p tid f ts0 ts1 v) in *.
  assert (forall s1, same s2 s1 -> (forall p' f', sock_step p' f' (k p' f') e = k p' f') ->
    loop_rel s1 (fun p' f' => sock_step p' f' (k p' f') e)) as Hsame
    by (intros s1 ??; by eapply loop_rel_same).
  assert (forall r, tester r = false -> cns r = ∅ -> cns_main_thread r = cns_main_thread (recorder s2) ->
    (forall p' f', sock_step p' f' (k p' f') e = k p' f') ->
    loop_rel (set_recorder r s2) (fun p' f' => sock_step p' f' (k p' f') e)) as Hrec.
  { intros r Hrt Hrc Hrm Hk. eapply loop_rel_same; [| |by eapply (loop_rel_recorder s2 r)]; done. }
  destruct v as [alias| |addr|addr|addr| |data|data|data|data|tg code]; cbn [sn_variant] in E.
  - assert (loop_rel (set_recorder (on_alias p alias (recorder s2)) s2) (fun p' f' => sock_step p' f' (k p' f') e)) as H'
      by (apply Hrec; [done|done|done|solve_step]).
    destruct (watching _ !! p); injection E as <- <-; [exact H'|]. eapply loop_rel_same; [| |exact H']; done.
  - simplify_eq. split; try done.
    + intros p' f'. unfold sock_step. cbn. destruct (Z.eqb_spec p p') as [->|]; cbn.
      * rewrite bool_decide_eq_true_2; [done|set_solver].
      * rewrite Hs. apply bool_decide_ext. set_solver.
    + intros p' f'. unfold sock_step. cbn. by destruct (p =? p').
    + intros p' f'. unfold sock_step. cbn. by destruct (p =? p').
    + intros p' f'. unfold sock_step. cbn. by destruct (p =? p').
  - simplify_eq. apply Hrec; [done|done|done|solve_step].
  - injection E as E. eapply loop_rel_same; [done| |by eapply connection_rel_eq]. solve_step.
  - injection E as <- <-. eapply loop_rel_same; [done| |exact (loop_rel_pending s2 k p f (Some addr) Hrel)]. solve_step.
  - destruct (p2p_cns s2 !! (p, f)) as [addr|] eqn:Ea.
    + destruct (on_disconnect _ b (recorder _) w) as [r' w1] eqn:Ed. simplify_eq.
      eapply loop_rel_same; [done| |exact (loop_rel_disconnected s2 w w' r' k p f b addr _ Ed Ea eq_refl Hrel)]. solve_step.
    + simplify_eq. apply Hsame; [done|]. solve_step.
      pose proof (Ho p0 f0) as Eo. rewrite Ea in Eo. destruct (k p0 f0) as [? ? [|]]; done.
  - eapply loop_rel_same; [done| |by eapply data_event_rel]. solve_step.
  - eapply loop_rel_same; [done| |by eapply data_event_rel]. solve_step.
  - destruct (length data =? 32)%nat; cbn in E; simplify_eq; [apply Hrec|apply Hsame]; try done; solve_step.
  - destruct (length data =? 4)%nat eqn:Elen; cbn [negb] in E;
      [|simplify_eq; apply Hsame; [done|]; solve_step; rewrite Elen; by destruct (sk_pending _)].
    destruct (pending_out_cns s2 !! (p, f)) as [addr|] eqn:Ep;
      [|simplify_eq; apply Hsame; [done|]; solve_step; by rewrite <- Hp, Ep].
    pose proof (loop_rel_pending s2 k p f None Hrel) as Hrel'.
    destruct (le_decode data =? 0) eqn:Ev; cbn [negb] in E; injection E as E.
    + eapply loop_rel_same; [done| |by eapply connection_rel_eq]. solve_step.
      by rewrite <- Hp, Ep, Elen, Ev.
    + subst. eapply loop_rel_same; [done| |exact Hrel']. solve_step. by rewrite <- Hp, Ep, Elen, Ev.
  - injection E as <- <-. apply Hsame; [done|solve_step].
Qed.

Lemma run_loop_rel (es : list (Clock * option SnifferEvent * Z)) (s s' : Loop) (w w' : W) k :
  loop_rel s k -> run_loop es s w = Ret (s', w') ->
  loop_rel s' (fun p f => foldl (sock_step p f) (k p f) (omap (fun e => e.1.2) es)).
Proof.
  revert s w k. induction es as [|[[clock [e|]] b] es IH]; intros s w k Hrel E; cbn in E |- *.
  - injection E as <- <-. exact Hrel.
  - destruct (handle_event clock e b s w) as [[s1 w1]| |] eqn:E1; [|done|done]. cbn in E.
    exact (IH s1 w1 _ (handle_event_rel _ _ _ _ _ _ _ _ Hrel E1) E).
  - exact (IH s w k Hrel E).
Qed.

Lemma loop_new_rel (boot_time : option Z) : loop_rel (loop_new boot_time false) (fun _ _ => sock_new).
Proof.
  by split.
Qed.

(** C37: the loop implements the life of every descriptor. After any events, in
    any interleaving of processes and descriptors, the table of connections says of
    each descriptor what its own events say (opened by an accept or by a confirmed
    connect, reopened, closed); and the recorder follows on that descriptor the
    connection that is open and no other, its stack having been fed exactly the
    data that this connection carried, in order: not the data of a connection that had
    the descriptor before, of a snark worker or of the standard descriptors. If the
    database takes every connection, every open connection is followed. *)
Theorem loop_refines (boot_time : option Z) (es : list (Clock * option SnifferEvent * Z)) (w0 w : W) (s : Loop) (p f : Z) :
  run_loop es (loop_new boot_time false) w0 = Ret (s, w) ->
  p2p_cns s !! (p, f) = fst <$> sk_open (sock_of p f es) /\
  pending_out_cns s !! (p, f) = sk_pending (sock_of p f es) /\
  (forall a c, cns_main_thread (recorder s) !! mkConnectionInfo a p f = Some c ->
     exists l, sk_open (sock_of p f es) = Some (a, payload <$> l) /\ fed (W := W) (cc_db c) l (cc_cn c)) /\
  (add_ok -> forall a l, sk_open (sock_of p f es) = Some (a, l) ->
     is_Some (cns_main_thread (recorder s) !! mkConnectionInfo a p f)).
Proof.
  intros E. destruct (run_loop_rel es _ s w0 w _ (loop_new_rel boot_time) E) as [_ _ _ Hp Ho Hf].
  split; [apply Ho|]. split; [apply Hp|]. apply Hf.
Qed.

End loop.

(** ** A run

    A descriptor that is used twice, another one opened by a confirmed connect. *)

Section run.
#[local] Instance demo_crc64 : Crc64 := fun c data => foldl Z.add c data.
#[local] Instance demo_capnp_db : CapnpDb (list bytes) := fun _ _ _ _ _ w => (w, Ok tt).

Definition demo_addr (n : Z) : SocketAddr := mkSocketAddr (V4 [10; 0; 0; n]) 8302.

Definition demo_events : list (Clock * option SnifferEvent * Z) :=
  (fun '(t, f, v) => (mkClock (100 + t) (100 + t) t, Some (mkSnifferEvent 7 7 f t t v), 0)) <$>
  [(1, 0, NewApp (str "berkeley-10.0.0.9")); (2, 9, IncomingConnection (demo_addr 1)); (3, 9, IncomingData [1; 2]);
   (4, 10, OutgoingConnection (demo_addr 2)); (5, 10, GetSockOptEv [0; 0; 0; 0]); (6, 10, OutgoingData [5]);
   (7, 9, Disconnected); (8, 9, IncomingConnection (demo_addr 3)); (9, 9, IncomingData [4]); (10, 9, OutgoingData [6])].

Lemma loop_refines_witness :
  exists (s : Loop unit Sink) w, run_loop demo_events (loop_new None false) [] = Ret (s, w) /\
    p2p_cns s !! (7, 9) = Some (demo_addr 3) /\
    sk_open (sock_of 7 9 demo_events) = Some (demo_addr 3, [(true, [4]); (false, [6])]) /\
    is_Some (cns_main_thread (recorder s) !! mkConnectionInfo (demo_addr 3) 7 9).
Proof.
  destruct (run_loop demo_events (loop_new None false) []) as [[s w]| |] eqn:E;
    [|vm_compute in E; discriminate|vm_compute in E; discriminate].
  destruct (loop_refines None demo_events [] w s 7 9 E) as (Ho & _ & _ & Hf).
  exists s, w. split; [done|]. split; [rewrite Ho; vm_compute; reflexivity|].
  split; [vm_compute; reflexivity|].
  apply (Hf (fun i b al t w => ex_intro _ w (ex_intro _ tt eq_refl)) _ [(true, [4]); (false, [6])]).
  vm_compute. reflexivity.
Defined.

End run.
