(* ===== verification/Stats.v ===== *)
(** The statistics of gossip ([mina-recorder/src/stats.rs] with the records of
    [decode/meshsub_stats.rs]): when each block of the greatest height was first
    seen and by how much later it was seen again, and which pending transactions and
    snarks it included. [meshsub_sink] of [connection/mina_protocol/mod.rs], which
    stores a gossip message and updates the statistics, is at the end.

    Times are nanoseconds; a [BTreeMap] is a finite map, read in the order of its
    keys where the code iterates over it. *)

From stdpp Require Import base list gmap sorting strings.
From Stdlib Require Import ZArith Lia.
From S2P Require Import Prelude Types Handle Text Rocks Meshsub MinaProtocol.

(** * Records *)

Record StatEvent : Type := mkStatEvent {
  se_producer_id : bytes;
  se_hash : bytes;
  se_block_height : Z;
  se_global_slot : Z;
  se_incoming : bool;
  se_message_kind : MessageType;
  se_message_id : Z;
  se_time : Z;
  se_better_time : Z;
  se_latency : option Z;
  se_sender_addr : SocketAddr;
  se_receiver_addr : SocketAddr;
}.

Definition node_address (e : StatEvent) : SocketAddr :=
  if se_incoming e then se_receiver_addr e else se_sender_addr e.

Record BlockStat : Type := mkBlockStat { height : Z; events : list StatEvent }.

Definition block_stat_clear (b : BlockStat) : BlockStat := mkBlockStat (height b) [].

(** A transaction or a snark that a block included, with when it was announced. *)
Record Included : Type := mkIncluded {
  in_producer_id : bytes;
  in_time : Z;
  in_raw : bytes;
  in_latency : Z;
}.

Record TxStat : Type := mkTxStat {
  block_time : Z;
  block_height : Z;
  transactions : list Included;
  ts_snarks : list Included;
  pending_txs : list Z;
}.

Record Description : Type := mkDescription {
  de_time : Z;
  de_producer_id : bytes;
  de_block_height : Z;
  de_global_slot : Z;
}.

Record TxDesc : Type := mkTxDesc { td_time : Z; td_producer_id : bytes; td_message_id : Z }.

Record StatsState : Type := mkStats {
  first : gmap bytes Description;
  block_stat : BlockStat;
  txs : gmap (bytes * bytes) TxDesc;
  snarks : gmap bytes TxDesc;
  tx_stat : option TxStat;
}.

Definition stats_state_default : StatsState := mkStats ∅ (mkBlockStat 0 []) ∅ ∅ None.

(** The arguments of [observe] other than the message. *)
Record Obs : Type := mkObs {
  ob_message_id : Z;
  ob_incoming : bool;
  ob_time : Z;
  ob_better_time : Z;
  ob_peer : SocketAddr;
  ob_node_address : SocketAddr;
}.

Definition sender_addr (o : Obs) : SocketAddr := if ob_incoming o then ob_peer o else ob_node_address o.
Definition receiver_addr (o : Obs) : SocketAddr := if ob_incoming o then ob_node_address o else ob_peer o.

Definition stat_event (o : Obs) (producer_id hash : bytes) (block_height global_slot : Z)
    (kind : MessageType) (latency : option Z) : StatEvent :=
  mkStatEvent producer_id hash block_height global_slot (ob_incoming o) kind (ob_message_id o)
    (ob_time o) (ob_better_time o) latency (sender_addr o) (receiver_addr o).

(** * [observe] *)

(** The transactions of a block that were announced leave [txs];
    [duration_since(..).unwrap()] fails on a time in the future. *)
Fixpoint take_txs (time : Z) (cs : list BlockCommand) (m : gmap (bytes * bytes) TxDesc) (acc : list Included)
    : outcome (gmap (bytes * bytes) TxDesc * list Included) :=
  match cs with
  | [] => Ret (m, acc)
  | c :: cs =>
      match bc_data c with
      | SignedCommand signature =>
          match m !! signature with
          | Some d =>
              if time <? td_time d then Panic
              else take_txs time cs (delete signature m)
                     (acc ++ [mkIncluded (td_producer_id d) (td_time d) (bc_raw c) (time - td_time d)])
          | None => take_txs time cs m acc
          end
      | ZkappCommand => take_txs time cs m acc
      end
  end.

Definition work_hash (p : Proofs) : bytes :=
  match p with One s => st_target s | Two _ s => st_target s end.

Fixpoint take_snarks (time : Z) (ws : list BlockWork) (m : gmap bytes TxDesc) (acc : list Included)
    : outcome (gmap bytes TxDesc * list Included) :=
  match ws with
  | [] => Ret (m, acc)
  | w :: ws =>
      match m !! work_hash (bw_proofs w) with
      | Some d =>
          if time <? td_time d then Panic
          else take_snarks time ws (delete (work_hash (bw_proofs w)) m)
                 (acc ++ [mkIncluded (td_producer_id d) (td_time d) (bw_raw w) (time - td_time d)])
      | None => take_snarks time ws m acc
      end
  end.

(** [self.txs.values()]: the order of signatures is that of their 64 bytes. *)
Definition sig_le (a b : (bytes * bytes) * TxDesc) : Prop := key_cmp (a.1.1 ++ a.1.2) (b.1.1 ++ b.1.2) <> Gt.
#[export] Instance sig_le_dec : RelDecision sig_le.
Proof. intros a b. unfold sig_le. destruct (key_cmp _ _); [left|left|right]; congruence. Defined.

Definition tx_values (m : gmap (bytes * bytes) TxDesc) : list TxDesc :=
  snd <$> merge_sort sig_le (map_to_list m).

(** A block of a height that was not reached yet. *)
Definition reach (h : Z) (st : StatsState) : StatsState * bool :=
  if height (block_stat st) <? h
  then (mkStats ∅ (mkBlockStat h (events (block_stat_clear (block_stat st)))) (txs st) (snarks st) None, true)
  else (st, false).

(** A block whose hash was not seen at this height. *)
Definition first_sighting (o : Obs) (producer_id hash : bytes) (b : Block) (st : StatsState)
    : outcome StatsState :=
  let h := blockchain_length b in
  let v := mkDescription (ob_time o) producer_id h (global_slot_since_genesis b) in
  let ts := match tx_stat st with Some ts => ts | None => mkTxStat (ob_time o) h [] [] [] end in
  '(txs, transactions) ← take_txs (ob_time o) (both d_commands b) (txs st) (transactions ts);
  let pending := td_message_id <$> tx_values txs in
  '(snarks, included) ← take_snarks (ob_time o) (both d_works b) (snarks st) (ts_snarks ts);
  Ret (mkStats (<[hash := v]> (first st)) (block_stat st) txs snarks
         (Some (mkTxStat (block_time ts) (block_height ts) transactions included pending))).

Definition push (e : StatEvent) (st : StatsState) : StatsState :=
  mkStats (first st) (mkBlockStat (height (block_stat st)) (events (block_stat st) ++ [e])) (txs st)
    (snarks st) (tx_stat st).

(** The state, whether the block statistics changed, and the events for the
    aggregator. *)
Definition Out : Type := StatsState * bool * list StatEvent.

Definition on_block (o : Obs) (producer_id hash : bytes) (b : Block) (out : Out) : outcome Out :=
  let '(st, updated, evs) := out in
  let h := blockchain_length b in
  let '(st, reached) := reach h st in
  let updated := updated || reached in
  if h <? height (block_stat st) then Ret (st, updated, evs)
  else
    '(st, latency) ← match first st !! hash with
                     | Some d => Ret (st, Some (Z.max 0 (ob_time o - de_time d)))
                     | None => st ← first_sighting o producer_id hash b st; Ret (st, None)
                     end;
    let e := stat_event o producer_id hash h (global_slot_since_genesis b) PublishNewState latency in
    Ret (push e st, true, evs ++ [e]).

(** [or_insert_with] *)
Definition announce {K} `{Countable K} (o : Obs) (producer_id : bytes) (k : K) (m : gmap K TxDesc) : gmap K TxDesc :=
  match m !! k with
  | Some _ => m
  | None => <[k := mkTxDesc (ob_time o) producer_id (ob_message_id o)]> m
  end.

Definition on_command (o : Obs) (producer_id : bytes) (m : gmap (bytes * bytes) TxDesc) (c : UserCommand) :=
  match c with SignedCommand s => announce o producer_id s m | ZkappCommand => m end.

Definition set_txs m (st : StatsState) : StatsState :=
  mkStats (first st) (block_stat st) m (snarks st) (tx_stat st).
Definition set_snarks m (st : StatsState) : StatsState :=
  mkStats (first st) (block_stat st) (txs st) m (tx_stat st).

(** A hash of a control message. *)
Definition on_control (o : Obs) (out : Out) (hk : bytes * MessageType) : Out :=
  let '(st, updated, evs) := out in
  let '(hash, kind) := hk in
  match first st !! hash with
  | Some d =>
      if de_block_height d =? height (block_stat st) then
        let latency := if ob_time o <? de_time d then None else Some (ob_time o - de_time d) in
        let e := stat_event o (de_producer_id d) hash (de_block_height d) (de_global_slot d) kind latency in
        (push e st, true, evs ++ [e])
      else out
  | None => out
  end.

(** The hashes of a control message with the kind they are reported under. *)
Definition control_hashes (ihave : list (option bytes * list bytes)) (iwant : list (list bytes))
    : list (bytes * MessageType) :=
  ((ihave ≫= fun m => hashes m.2) ≫= fun h => [(h, ControlIHave)]) ++
  ((iwant ≫= hashes) ≫= fun h => [(h, ControlIWant)]).

Definition testing_event (o : Obs) (from hash message : bytes) : option StatEvent :=
  h ← parse_block_height message;
  Some (stat_event o from hash h h PublishNewState None).

(** One event of the iterator. *)
Definition observe_event (o : Obs) (out : Out) (e : Event) : outcome Out :=
  let '(st, updated, evs) := out in
  match e with
  | EPublishV2 (Some producer_id) _ _ _ _ message hash =>
      match message with
      | NewState b => on_block o producer_id hash b out
      | TransactionPool cs => Ret (set_txs (foldl (on_command o producer_id) (txs st) cs) st, updated, evs)
      | SnarkPool (AddSolvedWork _ proof) =>
          Ret (set_snarks (announce o producer_id (work_hash proof) (snarks st)) st, updated, evs)
      | SnarkPool EmptyDiff => Ret out
      end
  | EControl ihave iwant _ _ => Ret (foldl (on_control o) out (control_hashes ihave iwant))
  | EPublishTestingMessage from _ message _ =>
      Ret (match testing_event o from (repeat 0 32) message with
           | Some e => (push e st, true, evs)
           | None => out
           end)
  | _ => Ret out
  end.

Section observe.
Context `{!Blake2, !GossipLib}.

(** A [for] loop over the iterator of [parse_it]. *)
Fixpoint for_steps {A} (f : A -> Event -> outcome A) (steps : list (outcome (option Event))) (a : A)
    : outcome A :=
  match steps with
  | [] => Ret a
  | step :: steps =>
      e ← step;
      match e with
      | Some e => a ← f a e; for_steps f steps a
      | None => for_steps f steps a
      end
  end.

(** [observe]; the second flag is always [true]. *)
Definition observe (o : Obs) (msg : bytes) (st : StatsState) : outcome (StatsState * bool * bool * list StatEvent) :=
  match parse_it msg false true with
  | None => Panic
  | Some steps =>
      '(st, updated, evs) ← for_steps (observe_event o) steps (st, false, []);
      Ret (st, updated, true, evs)
  end.

(** [update_block_stats]: the blocks and test messages of a message go to the
    database, up to the first write that fails. *)
Class StatsDb (W : Type) : Type := {
  db_stats : Z -> SocketAddr -> BlockStat -> W -> W * DbResult unit;
  db_stats_block_v2 : StatEvent -> W -> W * DbResult unit;
  db_stats_tx : Z -> TxStat -> W -> W * DbResult unit;
}.

Definition update_event (o : Obs) (e : Event) : option StatEvent :=
  match e with
  | EPublishV2 (Some producer_id) _ _ _ _ (NewState b) hash =>
      Some (stat_event o producer_id hash (blockchain_length b) (global_slot_since_genesis b) PublishNewState None)
  | EPublishTestingMessage from _ message hash => testing_event o from hash message
  | _ => None
  end.

Fixpoint update_steps {W} `{!StatsDb W} (o : Obs) (steps : list (outcome (option Event))) (w : W)
    : outcome (W * DbResult unit) :=
  match steps with
  | [] => Ret (w, Ok tt)
  | step :: steps =>
      e ← step;
      match e ≫= update_event o with
      | Some ev =>
          match db_stats_block_v2 ev w with
          | (w, Ok _) => update_steps o steps w
          | (w, Err err) => Ret (w, Err err)
          end
      | None => update_steps o steps w
      end
  end.

Definition update_block_stats {W} `{!StatsDb W} (o : Obs) (msg : bytes) (w : W) : outcome (W * DbResult unit) :=
  match parse_it msg false true with
  | None => Panic
  | Some steps => update_steps o steps w
  end.

(** ** [meshsub_sink]

    What it uses of the shared state: the table of applications, the statistics of
    each node, and the aggregator, if there is one. *)
Class SinkCx (W : Type) : Type := {
  cx_apps : W -> gmap Z (bytes * SocketAddr);
  cx_stats_state : W -> gmap SocketAddr StatsState;
  cx_set_stats_state : gmap SocketAddr StatsState -> W -> W;
  cx_post_event : StatEvent -> W -> W;
}.

Definition default_node : SocketAddr := mkSocketAddr (V4 [0; 0; 0; 0]) 8302.

Definition node_of {W} `{!SinkCx W} (id : DirectedId) (w : W) : SocketAddr :=
  match cx_apps w !! pid (md_id (metadata id)) with Some (_, p) => p | None => default_node end.

Definition sink_obs (id : DirectedId) (message_id : Z) (node : SocketAddr) : Obs :=
  mkObs message_id (incoming id) (md_time (metadata id)) (md_better_time (metadata id))
    (addr (md_id (metadata id))) node.

(** [.unwrap()] of a write. *)
Definition unwrap_db {W} (r : W * DbResult unit) : outcome W :=
  match r with (w, Ok _) => Ret w | (_, Err _) => Panic end.

#[export] Instance stats_sink {W} `{!DbGroup W, !StatsDb W, !SinkCx W} : MeshsubSink W := fun id sid msg w =>
  let node := node_of id w in
  match db_stream_add sid id Meshsub msg w with
  | (w, Err _) => Ret w
  | (w, Ok message_id) =>
      let o := sink_obs id message_id node in
      '(w, _) ← update_block_stats o msg w;
      let st := match cx_stats_state w !! node with Some st => st | None => stats_state_default end in
      '(st, b, t, evs) ← observe o msg st;
      let w := cx_set_stats_state (<[node := st]> (cx_stats_state w)) w in
      let w := foldl (fun w e => cx_post_event e w) w evs in
      w ← (if b : bool then unwrap_db (db_stats (height (block_stat st)) node (block_stat st) w) else Ret w);
      if t : bool then
        match tx_stat st with
        | Some ts => unwrap_db (db_stats_tx (height (block_stat st)) ts w)
        | None => Ret w
        end
      else Ret w
  end.

End observe.

(** * What the statistics mean *)

(** The events of all messages, in order, each with the circumstances of its
    message. *)
Abbreviation Item := (Obs * Event)%type.

Record Sighting : Type := mkSighting {
  sg_obs : Obs;
  sg_producer : bytes;
  sg_hash : bytes;
  sg_block : Block;
}.

Definition sg_height (s : Sighting) : Z := blockchain_length (sg_block s).

Definition sighting (x : Item) : option Sighting :=
  match x.2 with
  | EPublishV2 (Some p) _ _ _ _ (NewState b) hash => Some (mkSighting x.1 p hash b)
  | _ => None
  end.

Definition sg_description (s : Sighting) : Description :=
  mkDescription (ob_time (sg_obs s)) (sg_producer s) (sg_height s) (global_slot_since_genesis (sg_block s)).

(** The greatest height of a block. *)
Definition max_height (l : list Item) : Z :=
  foldr (fun x h => match sighting x with Some s => Z.max (sg_height s) h | None => h end) 0 l.

(** The first sighting of some kind. *)
Definition first_block (P : Sighting -> bool) (l : list Item) : option Sighting :=
  List.find P (omap sighting l).

Definition at_height (H : Z) (s : Sighting) : bool := sg_height s =? H.
Definition same_block (H : Z) (hash : bytes) (s : Sighting) : bool :=
  (sg_height s =? H) && bool_decide (sg_hash s = hash).

Definition first_seen (H : Z) (hash : bytes) (l : list Item) : option Description :=
  sg_description <$> first_block (same_block H hash) l.

(** Height [H] was reached. *)
Definition reached (H : Z) (l : list Item) : bool :=
  (H =? 0) || bool_decide (is_Some (first_block (at_height H) l)).

(** What a sighting and a control message add for blocks of height [H], given what
    came before. *)
Definition block_events (H : Z) (pre : list Item) (s : Sighting) : list StatEvent :=
  if sg_height s =? H then
    [stat_event (sg_obs s) (sg_producer s) (sg_hash s) H (global_slot_since_genesis (sg_block s)) PublishNewState
       ((fun d => Z.max 0 (ob_time (sg_obs s) - de_time d)) <$> first_seen H (sg_hash s) pre)]
  else [].

Definition hash_events (o : Obs) (H : Z) (pre : list Item) (hk : bytes * MessageType) : list StatEvent :=
  match first_seen H hk.1 pre with
  | Some d => [stat_event o (de_producer_id d) hk.1 H (de_global_slot d) hk.2
                 (if ob_time o <? de_time d then None else Some (ob_time o - de_time d))]
  | None => []
  end.

Definition gossip_events (H : Z) (pre : list Item) (x : Item) : list StatEvent :=
  match sighting x with
  | Some s => block_events H pre s
  | None => match x.2 with
            | EControl ihave iwant _ _ => control_hashes ihave iwant ≫= hash_events x.1 H pre
            | _ => []
            end
  end.

(** Test messages are kept whatever they say, from when the height was reached. *)
Definition test_events (H : Z) (pre : list Item) (x : Item) : list StatEvent :=
  match x.2 with
  | EPublishTestingMessage from _ message _ =>
      if reached H pre then option_list (testing_event x.1 from (repeat 0 32) message) else []
  | _ => []
  end.

Fixpoint collect (f : list Item -> Item -> list StatEvent) (pre l : list Item) : list StatEvent :=
  match l with
  | [] => []
  | x :: l => f pre x ++ collect f (pre ++ [x]) l
  end.

(** The events kept at the end, and the events handed to the aggregator as they
    happened. *)
Definition kept (l : list Item) : list StatEvent :=
  collect (fun pre x => gossip_events (max_height l) pre x ++ test_events (max_height l) pre x) [] l.

Definition post (pre : list Item) (x : Item) : list StatEvent := gossip_events (max_height (pre ++ [x])) pre x.
Definition posted (l : list Item) : list StatEvent := collect post [] l.

(** ** Facts about the log *)

Lemma collect_app f (pre l l' : list Item) : collect f pre (l ++ l') = collect f pre l ++ collect f (pre ++ l) l'.
Proof.
  revert pre. induction l as [|x l IH]; intros pre; cbn; [by rewrite app_nil_r|].
  by rewrite IH, <- !app_assoc.
Qed.

Lemma max_height_app (l l' : list Item) : max_height (l ++ l') = Z.max (max_height l) (max_height l').
Proof.
  unfold max_height. induction l as [|x l IH]; cbn.
  - induction l' as [|y l' IH']; cbn; [done|]. destruct (sighting y); lia.
  - rewrite IH. destruct (sighting x); lia.
Qed.

Lemma max_height_nonneg (l : list Item) : 0 <= max_height l.
Proof. induction l as [|x l IH]; cbn; [done|]. destruct (sighting x); unfold max_height in IH; lia. Qed.

Lemma max_height_snoc (l : list Item) (x : Item) :
  max_height (l ++ [x]) = match sighting x with Some s => Z.max (max_height l) (sg_height s) | None => max_height l end.
Proof.
  rewrite max_height_app. pose proof (max_height_nonneg l). cbn. destruct (sighting x); lia.
Qed.

Lemma first_block_app P (l l' : list Item) :
  first_block P (l ++ l') = match first_block P l with Some s => Some s | None => first_block P l' end.
Proof.
  unfold first_block. rewrite omap_app. induction (omap sighting l) as [|s ss IH]; cbn; [done|].
  by destruct (P s).
Qed.

Lemma first_block_snoc P (l : list Item) (x : Item) :
  first_block P (l ++ [x])
  = match first_block P l with
    | Some s => Some s
    | None => match sighting x with Some s => if P s then Some s else None | None => None end
    end.
Proof.
  rewrite first_block_app. destruct (first_block P l); [done|]. unfold first_block. cbn.
  destruct (sighting x); done.
Qed.

(** Nothing of a height that was not reached is in the log. *)
Lemma first_block_above P (l : list Item) :
  (forall s, P s = true -> max_height l < sg_height s) -> first_block P l = None.
Proof.
  induction l as [|x l IH]; intros HP; [done|]. unfold first_block. cbn. unfold max_height in HP. cbn in HP.
  destruct (sighting x) as [s|]; cbn.
  - destruct (P s) eqn:E; [specialize (HP s E); lia|]. apply IH. intros s' Hs'. specialize (HP s' Hs').
    unfold max_height. lia.
  - apply IH. exact HP.
Qed.

Lemma first_seen_above (H : Z) (hash : bytes) (l : list Item) : max_height l < H -> first_seen H hash l = None.
Proof.
  intros Hl. unfold first_seen. rewrite first_block_above; [done|]. unfold same_block.
  intros s [Hs _]%andb_prop. lia.
Qed.

Lemma first_seen_height (H : Z) (hash : bytes) (l : list Item) d :
  first_seen H hash l = Some d -> de_block_height d = H.
Proof.
  unfold first_seen, first_block. intros E. apply fmap_Some in E as (s & E & ->).
  apply find_some in E as [_ E]. unfold same_block in E. apply andb_prop in E as [E _]. cbn. lia.
Qed.

Lemma not_reached (H : Z) (l : list Item) : max_height l < H -> reached H l = false.
Proof.
  intros Hl. pose proof (max_height_nonneg l). unfold reached.
  rewrite first_block_above; [|unfold at_height; intros s Hs; lia].
  rewrite (proj2 (Z.eqb_neq H 0)) by lia. done.
Qed.

(** Of a greater height than all blocks of the log, nothing is kept. *)
Lemma collect_above (H : Z) (pre l : list Item) :
  max_height (pre ++ l) < H ->
  collect (fun pre x => gossip_events H pre x ++ test_events H pre x) pre l = [].
Proof.
  revert pre. induction l as [|x l IH]; intros pre Hl; [done|]. cbn.
  rewrite IH by (by rewrite <- app_assoc). rewrite app_nil_r.
  rewrite max_height_app in Hl. assert (max_height pre < H) as Hp by lia.
  assert (forall s, sighting x = Some s -> sg_height s < H) as Hx.
  { intros s Es. cbn in Hl. rewrite Es in Hl. lia. }
  unfold gossip_events, test_events. destruct (sighting x) as [s|] eqn:Es.
  - unfold block_events. rewrite (proj2 (Z.eqb_neq _ _)) by (specialize (Hx s eq_refl); lia).
    rewrite not_reached by done. by destruct x.2.
  - rewrite not_reached by done. destruct x.2; try done. rewrite app_nil_r.
    induction (control_hashes _ _) as [|hk hs IHh]; cbn; [done|]. rewrite IHh.
    unfold hash_events. by rewrite first_seen_above.
Qed.

Lemma kept_snoc (l : list Item) (x : Item) :
  max_height (l ++ [x]) = max_height l ->
  kept (l ++ [x]) = kept l ++ gossip_events (max_height l) l x ++ test_events (max_height l) l x.
Proof. intros E. unfold kept. rewrite E, collect_app. cbn. by rewrite app_nil_r. Qed.

Lemma kept_new (l : list Item) (x : Item) (s : Sighting) :
  sighting x = Some s -> max_height l < sg_height s ->
  max_height (l ++ [x]) = sg_height s /\ kept (l ++ [x]) = block_events (sg_height s) l s.
Proof.
  intros Es Hs. assert (max_height (l ++ [x]) = sg_height s) as E by (rewrite max_height_snoc, Es; lia).
  split; [done|]. unfold kept. rewrite E, collect_app, collect_above by done. cbn. rewrite app_nil_r.
  unfold gossip_events, test_events. rewrite Es. unfold sighting in Es.
  destruct x as [o []]; try done; cbn; by rewrite app_nil_r.
Qed.

(** ** The invariant *)

Record stats_ok (l : list Item) (st : StatsState) : Prop := {
  so_height : height (block_stat st) = max_height l;
  so_first : forall h, first st !! h = first_seen (max_height l) h l;
  so_events : events (block_stat st) = kept l;
  so_tx : match first_block (at_height (max_height l)) l with
          | Some s => exists ts, tx_stat st = Some ts /\ block_time ts = ob_time (sg_obs s) /\
                                 block_height ts = max_height l
          | None => tx_stat st = None
          end;
}.

(** An event that is not a sighting. *)
Lemma stats_ok_other (l : list Item) (x : Item) (st st' : StatsState) :
  sighting x = None -> stats_ok l st ->
  height (block_stat st') = height (block_stat st) -> first st' = first st -> tx_stat st' = tx_stat st ->
  events (block_stat st') = events (block_stat st) ++ gossip_events (max_height l) l x ++ test_events (max_height l) l x ->
  stats_ok (l ++ [x]) st'.
Proof.
  intros Es [Hh Hf He Ht] Eh Ef Et Ee.
  assert (max_height (l ++ [x]) = max_height l) as Em by (by rewrite max_height_snoc, Es).
  assert (forall P, first_block P (l ++ [x]) = first_block P l) as Eb.
  { intros P. rewrite first_block_snoc, Es. by destruct (first_block P l). }
  split.
  - by rewrite Eh, Em.
  - intros h. rewrite Ef, Em. unfold first_seen. rewrite Eb. apply Hf.
  - by rewrite Ee, He, kept_snoc.
  - rewrite Em, Eb, Et. exact Ht.
Qed.

(** The loop over the hashes of a control message. *)
Lemma on_control_fold (l : list Item) (o : Obs) (hs : list (bytes * MessageType)) st u evs :
  (forall h, first st !! h = first_seen (max_height l) h l) -> height (block_stat st) = max_height l ->
  exists st' u', foldl (on_control o) (st, u, evs) hs = (st', u', evs ++ (hs ≫= hash_events o (max_height l) l)) /\
    height (block_stat st') = height (block_stat st) /\ first st' = first st /\ tx_stat st' = tx_stat st /\
    txs st' = txs st /\ snarks st' = snarks st /\
    events (block_stat st') = events (block_stat st) ++ (hs ≫= hash_events o (max_height l) l) /\
    (u' = false -> u = false /\ block_stat st' = block_stat st).
Proof.
  revert st u evs. induction hs as [|[h k] hs IH]; intros st u evs Hf Hh.
  - exists st, u. cbn. rewrite !app_nil_r. by split_and!.
  - rewrite bind_cons. cbn [foldl]. unfold on_control at 2. unfold hash_events at 1 3. cbn [fst snd]. rewrite (Hf h).
    destruct (first_seen (max_height l) h l) as [d|] eqn:Ed.
    + rewrite (first_seen_height _ _ _ _ Ed).
      assert ((max_height l =? height (block_stat st)) = true) as -> by lia.
      set (e := stat_event _ _ _ _ _ _ _).
      destruct (IH (push e st) true (evs ++ [e])) as (st' & u' & E & Eh & Ef & Et & Ex & Ey & Ee & Eu); [done|done|].
      exists st', u'. rewrite E. split; [by rewrite <- app_assoc|]. split; [done|].
      split; [done|]. split; [done|]. split; [done|]. split; [done|].
      split; [rewrite Ee; cbn; by rewrite <- app_assoc|]. intros Hu. by destruct (Eu Hu).
    + destruct (IH st u evs Hf Hh) as (st' & u' & E & Hrest). exists st', u'. rewrite E. split; [done|exact Hrest].
Qed.

(** The sighting of a block. *)
Lemma first_sighting_fields o p h b st st' :
  first_sighting o p h b st = Ret st' ->
  block_stat st' = block_stat st /\
  first st' = <[h := mkDescription (ob_time o) p (blockchain_length b) (global_slot_since_genesis b)]> (first st) /\
  exists ts, tx_stat st' = Some ts /\
    match tx_stat st with
    | Some ts0 => block_time ts = block_time ts0 /\ block_height ts = block_height ts0
    | None => block_time ts = ob_time o /\ block_height ts = blockchain_length b
    end.
Proof.
  intros E. unfold first_sighting in E.
  destruct (take_txs _ _ _ _) as [[m tr]| |]; cbn in E; try done.
  destruct (take_snarks _ _ _ _) as [[m' sn]| |]; cbn in E; try done. injection E as <-.
  split; [done|]. split; [done|]. eexists. split; [done|]. by destruct (tx_stat st).
Qed.

Lemma reach_ok (l : list Item) (st : StatsState) (h : Z) :
  stats_ok l st ->
  reach h st = if max_height l <? h
               then (mkStats ∅ (mkBlockStat h []) (txs st) (snarks st) None, true) else (st, false).
Proof. intros Hok. unfold reach. by rewrite (so_height _ _ Hok). Qed.

Lemma first_seen_snoc (H : Z) (h : bytes) (l : list Item) (x : Item) (s : Sighting) :
  sighting x = Some s ->
  first_seen H h (l ++ [x]) = match first_seen H h l with
                              | Some d => Some d
                              | None => if same_block H h s then Some (sg_description s) else None
                              end.
Proof.
  intros Es. unfold first_seen. rewrite first_block_snoc, Es. destruct (first_block _ l); [done|]. cbn.
  by destruct (same_block H h s).
Qed.

(** A sighting at the greatest height so far: what the log says after it. *)
Lemma log_snoc_at (l : list Item) (x : Item) (s : Sighting) :
  sighting x = Some s -> sg_height s = max_height l ->
  max_height (l ++ [x]) = max_height l /\ kept (l ++ [x]) = kept l ++ block_events (max_height l) l s /\
  is_Some (first_block (at_height (max_height l)) (l ++ [x])) /\
  forall h, first_seen (max_height l) h (l ++ [x])
            = match first_seen (max_height l) h l with
              | Some d => Some d
              | None => if decide (sg_hash s = h) then Some (sg_description s) else None
              end.
Proof.
  intros Es Eh. assert (max_height (l ++ [x]) = max_height l) as Em by (rewrite max_height_snoc, Es; lia).
  split; [done|]. split; [|split].
  - rewrite kept_snoc by done. unfold gossip_events, test_events. rewrite Es. f_equal.
    unfold sighting in Es. destruct x as [o []]; try done; cbn; by rewrite app_nil_r.
  - rewrite first_block_snoc, Es. destruct (first_block _ l); [by eexists|].
    unfold at_height. rewrite (proj2 (Z.eqb_eq _ _)) by done. by eexists.
  - intros h. rewrite (first_seen_snoc _ _ _ _ s) by done. destruct (first_seen _ h l); [done|].
    unfold same_block. rewrite (proj2 (Z.eqb_eq _ _)) by done. cbn. by case_decide; case_bool_decide.
Qed.

(** A sighting of an obsolete block. *)
Lemma log_snoc_below (l : list Item) (x : Item) (s : Sighting) (st : StatsState) :
  sighting x = Some s -> sg_height s < max_height l -> stats_ok l st ->
  stats_ok (l ++ [x]) st /\ gossip_events (max_height (l ++ [x])) l x = [].
Proof.
  intros Es Hlt [Hh Hf He Ht]. assert (max_height (l ++ [x]) = max_height l) as Em by (rewrite max_height_snoc, Es; lia).
  assert (gossip_events (max_height l) l x = []) as Eg.
  { unfold gossip_events, block_events. rewrite Es. by rewrite (proj2 (Z.eqb_neq _ _)) by lia. }
  rewrite Em. split; [|done]. split.
  - by rewrite Em.
  - intros h. rewrite Hf, Em, (first_seen_snoc _ _ _ _ s) by done. destruct (first_seen _ h l); [done|].
    unfold same_block. by rewrite (proj2 (Z.eqb_neq _ _)) by lia.
  - rewrite He, kept_snoc, Eg by done. unfold test_events. unfold sighting in Es.
    destruct x as [o []]; try done; cbn; by rewrite app_nil_r.
  - rewrite Em, first_block_snoc, Es. destruct (first_block _ l); [exact Ht|].
    unfold at_height. by rewrite (proj2 (Z.eqb_neq _ _)) by lia.
Qed.

Lemma on_block_new (l : list Item) (x : Item) (s : Sighting) st st' u u' evs evs' :
  sighting x = Some s -> stats_ok l st -> max_height l < sg_height s ->
  on_block (sg_obs s) (sg_producer s) (sg_hash s) (sg_block s) (st, u, evs) = Ret (st', u', evs') ->
  stats_ok (l ++ [x]) st' /\ evs' = evs ++ block_events (sg_height s) l s /\ u' = true.
Proof.
  intros Es Hok Hlt E. unfold on_block in E. rewrite (reach_ok l) in E by done.
  change (blockchain_length (sg_block s)) with (sg_height s) in E. rewrite (proj2 (Z.ltb_lt _ _)) in E by done.
  cbn in E. rewrite Z.ltb_irrefl, lookup_empty in E.
  destruct (first_sighting _ _ _ _ _) as [st1| |] eqn:E1; cbn in E; try done. injection E as <- <- <-.
  apply first_sighting_fields in E1 as (Eb & Ef & ts & Ets & Etm & Eth). cbn in Eb, Ef.
  destruct (kept_new l x s Es Hlt) as [Em Ek].
  assert (first_seen (sg_height s) (sg_hash s) l = None) as Ens by (by apply first_seen_above).
  split; [|split; [|done]].
  - split.
    + cbn. by rewrite Eb, Em.
    + intros h. cbn. rewrite Ef, Em, (first_seen_snoc _ _ _ _ s), first_seen_above by done. unfold same_block.
      rewrite Z.eqb_refl. cbn. case_bool_decide; [subst; by rewrite lookup_insert_eq|].
      by rewrite lookup_insert_ne by done.
    + cbn. rewrite Eb, Ek. unfold block_events. by rewrite Z.eqb_refl, Ens.
    + rewrite Em, first_block_snoc, Es.
      rewrite first_block_above by (unfold at_height; intros s' Hs'; lia). unfold at_height.
      rewrite Z.eqb_refl. by exists ts.
  - unfold block_events. by rewrite Z.eqb_refl, Ens.
Qed.

Lemma on_block_at (l : list Item) (x : Item) (s : Sighting) st st' u u' evs evs' :
  sighting x = Some s -> stats_ok l st -> sg_height s = max_height l ->
  on_block (sg_obs s) (sg_producer s) (sg_hash s) (sg_block s) (st, u, evs) = Ret (st', u', evs') ->
  stats_ok (l ++ [x]) st' /\ evs' = evs ++ block_events (sg_height s) l s /\ u' = true.
Proof.
  intros Es Hok Eh E. pose proof Hok as [Hh Hf He Ht]. unfold on_block in E. rewrite (reach_ok l) in E by done.
  change (blockchain_length (sg_block s)) with (sg_height s) in E. rewrite <- Eh, Z.ltb_irrefl in E.
  rewrite Hh, <- Eh, Z.ltb_irrefl in E. rewrite Hf in E.
  destruct (log_snoc_at l x s Es Eh) as (Em & Ek & [s0 Hs0] & Hseen).
  pose proof Hs0 as Hs1. rewrite first_block_snoc, Es in Hs1. unfold at_height at 2 in Hs1. rewrite Eh, Z.eqb_refl in Hs1.
  destruct (first_seen (max_height l) (sg_hash s) l) as [d|] eqn:Ed; cbn in E.
  - injection E as <- <- <-. split; [|split; [|done]].
    + split; [by rewrite Em|..].
      * intros h. cbn. rewrite Em, Hseen, Hf. destruct (first_seen _ h l) eqn:Eh'; [done|].
        case_decide; [subst; congruence|done].
      * cbn. rewrite He, Ek. unfold block_events. by rewrite Eh, Z.eqb_refl, Ed.
      * rewrite Em, Hs0. destruct (first_block _ l) as [s1|] eqn:E1; [injection Hs1 as ->; exact Ht|].
        exfalso. unfold first_seen in Ed. apply fmap_Some in Ed as (s2 & E2 & _).
        apply find_some in E2 as [Hin E2]. apply (find_none _ _ E1) in Hin. unfold same_block in E2. unfold at_height in Hin.
        by rewrite Hin in E2.
    + unfold block_events. by rewrite Eh, Z.eqb_refl, Ed.
  - destruct (first_sighting _ _ _ _ _) as [st1| |] eqn:E1; cbn in E; try done. injection E as <- <- <-.
    apply first_sighting_fields in E1 as (Eb & Ef & ts & Ets & Hts). split; [|split; [|done]].
    + split; [cbn; by rewrite Eb, Em|..].
      * intros h. cbn. rewrite Ef, Em, Hseen. destruct (decide (sg_hash s = h)) as [<-|Hne].
        -- by rewrite lookup_insert_eq, Ed.
        -- rewrite lookup_insert_ne, Hf by done. by destruct (first_seen _ h l).
      * cbn. rewrite Eb, He, Ek. unfold block_events. by rewrite Eh, Z.eqb_refl, Ed.
      * rewrite Em, Hs0. exists ts. split; [done|]. destruct (first_block _ l) as [s1|].
        -- injection Hs1 as ->. destruct Ht as (ts0 & E0 & Et1 & Et2). rewrite E0 in Hts. destruct Hts. split; congruence.
        -- injection Hs1 as ->. rewrite Ht in Hts. destruct Hts as [-> ->]. done.
    + unfold block_events. by rewrite Eh, Z.eqb_refl, Ed.
Qed.

Lemma reached_max (l : list Item) : reached (max_height l) l = true.
Proof.
  unfold reached. induction l as [|x l IH] using rev_ind; [done|]. rewrite max_height_snoc, first_block_snoc.
  destruct (sighting x) as [s|]; [|by destruct (first_block _ l)].
  destruct (Z.max_spec (max_height l) (sg_height s)) as [[Hlt ->]|[Hge ->]].
  - apply orb_true_intro. right. apply bool_decide_eq_true_2.
    destruct (first_block (at_height (sg_height s)) l) as [s0|]; [by exists s0|]. unfold at_height. rewrite Z.eqb_refl. by exists s.
  - apply orb_prop in IH as [->|IH]; [done|]. apply orb_true_intro. right. apply bool_decide_eq_true_1 in IH as [s0 E].
    apply bool_decide_eq_true_2. rewrite E. by eexists.
Qed.

Lemma observe_event_step (l : list Item) (o : Obs) (e : Event) st st' u u' evs evs' :
  stats_ok l st -> observe_event o (st, u, evs) e = Ret (st', u', evs') ->
  stats_ok (l ++ [(o, e)]) st' /\ evs' = evs ++ gossip_events (max_height (l ++ [(o, e)])) l (o, e) /\
  (u' = false -> u = false /\ block_stat st' = block_stat st).
Proof.
  intros Hok E.
  assert (forall st1, sighting (o, e) = None -> gossip_events (max_height l) l (o, e) = [] ->
    test_events (max_height l) l (o, e) = [] -> first st1 = first st -> block_stat st1 = block_stat st ->
    tx_stat st1 = tx_stat st ->
    stats_ok (l ++ [(o, e)]) st1 /\ evs = evs ++ gossip_events (max_height (l ++ [(o, e)])) l (o, e)) as Hskip.
  { intros st1 Es Eg Ete Ef Eb Et. split.
    - apply (stats_ok_other l (o, e) st); try done; [by rewrite Eb|]. rewrite Eb, Eg, Ete. by rewrite app_nil_r.
    - by rewrite max_height_snoc, Es, Eg, app_nil_r. }
  destruct e as [t|t|fr sq sg ky tp msg|fr sq sg ky tp msg h|tp pv|fr tp msg h|ih iw gr pr]; cbn -[repeat] in E;
    try (injection E as <- <- <-; destruct (Hskip st) as [H1 H2]; done).
  - destruct fr as [p|]; [|injection E as <- <- <-; destruct (Hskip st) as [H1 H2]; done].
    destruct msg as [b|[st0 pf|]|cs].
    + set (s := mkSighting o p h b).
      assert (sighting (o, EPublishV2 (Some p) sq sg ky tp (NewState b) h) = Some s) as Es by done.
      set (x := (o, EPublishV2 (Some p) sq sg ky tp (NewState b) h)) in *. fold (on_block (sg_obs s) (sg_producer s) (sg_hash s) (sg_block s)) in E.
      destruct (Z.lt_trichotomy (max_height l) (sg_height s)) as [Hlt|[Heq|Hgt]].
      * destruct (on_block_new l x s _ _ _ _ _ _ Es Hok Hlt E) as (H1 & H2 & ->).
        destruct (kept_new l x s Es Hlt) as [Em _]. split; [done|]. split; [|done].
        rewrite Em, H2. unfold gossip_events. by rewrite Es.
      * destruct (on_block_at l x s _ _ _ _ _ _ Es Hok (eq_sym Heq) E) as (H1 & H2 & ->).
        destruct (log_snoc_at l x s Es (eq_sym Heq)) as [Em _]. split; [done|]. split; [|done].
        rewrite Em, H2. unfold gossip_events. by rewrite Es, Heq.
      * destruct (log_snoc_below l x s st Es Hgt Hok) as [H1 H2]. unfold on_block in E.
        rewrite (reach_ok l) in E by done. change (blockchain_length b) with (sg_height s) in E.
        rewrite (proj2 (Z.ltb_ge (max_height l) (sg_height s))) in E by lia. rewrite (so_height _ _ Hok) in E.
        rewrite (proj2 (Z.ltb_lt (sg_height s) (max_height l))) in E by lia. injection E as <- <- <-. rewrite H2, app_nil_r, orb_false_r. done.
    + injection E as <- <- <-. by destruct (Hskip (set_snarks (announce o p (work_hash pf) (snarks st)) st)).
    + injection E as <- <- <-. by destruct (Hskip st).
    + injection E as <- <- <-. by destruct (Hskip (set_txs (foldl (on_command o p) (txs st) cs) st)).
  - destruct (testing_event o fr (repeat 0 32) msg) as [ev|] eqn:Ev; injection E as <- <- <-.
    + split; [|split; [by rewrite app_nil_r|done]]. apply (stats_ok_other l _ st); try done.
      unfold test_events. cbn -[repeat]. by rewrite reached_max, Ev.
    + destruct (Hskip st); try done. unfold test_events. cbn -[repeat]. rewrite Ev. by destruct (reached _ _).
  - destruct (on_control_fold l o (control_hashes ih iw) st u evs (so_first _ _ Hok) (so_height _ _ Hok))
      as (st1 & u1 & E1 & Eh & Ef & Et & _ & _ & Ee & Eu). rewrite E1 in E. injection E as <- <- <-.
    split; [|split; [|done]].
    + apply (stats_ok_other l _ st); try done. rewrite Ee. cbn. by rewrite app_nil_r.
    + by rewrite max_height_snoc.
Qed.

(** ** When [observe] returns *)

(** Everything announced was announced at [T] or before. *)
Definition announced_by (T : Z) (st : StatsState) : Prop :=
  map_Forall (fun _ d => td_time d <= T) (txs st) /\ map_Forall (fun _ d => td_time d <= T) (snarks st).

Lemma announced_mono {K} `{Countable K} (T T' : Z) (m : gmap K TxDesc) :
  T <= T' -> map_Forall (fun _ d => td_time d <= T) m -> map_Forall (fun _ d => td_time d <= T') m.
Proof. intros Hle Hm k d Hk. specialize (Hm k d Hk). cbn in *. lia. Qed.

Lemma announce_by {K} `{Countable K} (o : Obs) (p : bytes) (k : K) (m : gmap K TxDesc) :
  map_Forall (fun _ d => td_time d <= ob_time o) m -> map_Forall (fun _ d => td_time d <= ob_time o) (announce o p k m).
Proof. intros Hm. unfold announce. case_match; [done|]. by apply map_Forall_insert_2. Qed.

Lemma take_txs_returns (time : Z) (cs : list BlockCommand) m acc :
  map_Forall (fun _ d => td_time d <= time) m ->
  exists m' acc', take_txs time cs m acc = Ret (m', acc') /\ map_Forall (fun _ d => td_time d <= time) m'.
Proof.
  revert m acc. induction cs as [|c cs IH]; intros m acc Hm; cbn; [by exists m, acc|].
  destruct (bc_data c) as [sig|]; [|by apply IH]. destruct (m !! sig) as [d|] eqn:E; [|by apply IH].
  rewrite (proj2 (Z.ltb_ge _ _)) by (exact (Hm sig d E)). apply IH. by apply map_Forall_delete.
Qed.

Lemma take_snarks_returns (time : Z) (ws : list BlockWork) m acc :
  map_Forall (fun _ d => td_time d <= time) m ->
  exists m' acc', take_snarks time ws m acc = Ret (m', acc') /\ map_Forall (fun _ d => td_time d <= time) m'.
Proof.
  revert m acc. induction ws as [|w ws IH]; intros m acc Hm; cbn; [by exists m, acc|].
  destruct (m !! _) as [d|] eqn:E; [|by apply IH].
  rewrite (proj2 (Z.ltb_ge _ _)) by (exact (Hm _ d E)). apply IH. by apply map_Forall_delete.
Qed.

Lemma first_sighting_returns o p h b st :
  announced_by (ob_time o) st -> exists st', first_sighting o p h b st = Ret st' /\ announced_by (ob_time o) st'.
Proof.
  intros [Ht Hs]. unfold first_sighting.
  destruct (take_txs_returns (ob_time o) (both d_commands b) (txs st)
    (transactions (match tx_stat st with Some ts => ts | None => mkTxStat (ob_time o) (blockchain_length b) [] [] [] end)) Ht)
    as (m & tr & -> & Hm). cbn.
  destruct (take_snarks_returns (ob_time o) (both d_works b) (snarks st)
    (ts_snarks (match tx_stat st with Some ts => ts | None => mkTxStat (ob_time o) (blockchain_length b) [] [] [] end)) Hs)
    as (m' & sn & -> & Hm'). cbn. by eexists.
Qed.

Lemma on_control_by T o hs out : announced_by T out.1.1 -> announced_by T (foldl (on_control o) out hs).1.1.
Proof.
  revert out. induction hs as [|[h k] hs IH]; intros [[st u] evs] Hb; [done|]. cbn [foldl]. apply IH.
  unfold on_control. destruct (first st !! h); [|done]. by case_match.
Qed.

Lemma observe_event_returns o st u evs e :
  announced_by (ob_time o) st ->
  exists st' u' evs', observe_event o (st, u, evs) e = Ret (st', u', evs') /\ announced_by (ob_time o) st'.
Proof.
  intros Hb. pose proof Hb as [Ht Hs].
  destruct e as [t|t|fr sq sg ky tp msg|[p|] sq sg ky tp msg h|tp pv|fr tp msg h|ih iw gr pr]; cbn -[repeat]; eauto.
  - destruct msg as [b|[s0 pf|]|cs]; eauto.
    + unfold on_block. destruct (reach _ st) as [st1 r] eqn:Er.
      assert (announced_by (ob_time o) st1) as Hb1 by (unfold reach in Er; case_match; simplify_eq; done).
      destruct (_ <? _); [by eexists _, _, _|]. destruct (first st1 !! h); cbn; [by eexists _, _, _|].
      destruct (first_sighting_returns o p h b st1 Hb1) as (st2 & -> & Hb2). cbn. by eexists _, _, _.
    + eexists _, _, _. split; [done|]. split; [done|]. by apply announce_by.
    + eexists _, _, _. split; [done|]. split; [|done]. cbn. clear Hb. revert Ht. generalize (txs st).
      induction cs as [|c cs IH]; intros m Hm; cbn; [done|]. apply IH.
      unfold on_command. destruct c; [by apply announce_by|done].
  - destruct (testing_event _ _ _ _); by eexists _, _, _.
  - destruct (foldl (on_control o) (st, u, evs) _) as [[st' u'] evs'] eqn:E. eexists _, _, _. split; [done|].
    pose proof (on_control_by (ob_time o) o (control_hashes ih iw) (st, u, evs) Hb) as Hc. by rewrite E in Hc.
Qed.

(** * Runs *)

#[local] Arguments observe_event : simpl never.

Section run.
Context `{!Blake2, !GossipLib}.

Fixpoint all_ret (steps : list (outcome (option Event))) : option (list Event) :=
  match steps with
  | [] => Some []
  | Ret e :: steps => (fun es => option_list e ++ es) <$> all_ret steps
  | _ => None
  end.

(** The events of a message; [None] if decoding it panics. *)
Definition decoded (msg : bytes) : option (list Event) := parse_it msg false true ≫= all_ret.

(** The log of a run. *)
Fixpoint log (ms : list (Obs * bytes)) : option (list Item) :=
  match ms with
  | [] => Some []
  | (o, m) :: ms => es ← decoded m; l ← log ms; Some ((pair o <$> es) ++ l)
  end.

(** [observe] on one message after the other, and all that was handed to the
    aggregator. *)
Fixpoint observe_all (ms : list (Obs * bytes)) (st : StatsState) : outcome (StatsState * list StatEvent) :=
  match ms with
  | [] => Ret (st, [])
  | (o, m) :: ms =>
      '(st, _, _, evs) ← observe o m st;
      '(st, evs') ← observe_all ms st;
      Ret (st, evs ++ evs')
  end.

Lemma for_steps_ok (o : Obs) (steps : list (outcome (option Event))) (l : list Item) st st' u u' evs evs' :
  stats_ok l st -> for_steps (observe_event o) steps (st, u, evs) = Ret (st', u', evs') ->
  exists es, all_ret steps = Some es /\ stats_ok (l ++ (pair o <$> es)) st' /\
    evs' = evs ++ collect post l (pair o <$> es).
Proof.
  revert l st u evs. induction steps as [|[e| |] steps IH]; intros l st u evs Hok E; try done; cbn in E.
  - injection E as <- <- <-. exists []. cbn. by rewrite !app_nil_r.
  - destruct e as [e|].
    + destruct (observe_event o (st, u, evs) e) as [[[st1 u1] evs1]| |] eqn:E1; cbn in E; try done.
      destruct (observe_event_step l o e st st1 u u1 evs evs1 Hok E1) as (Hok1 & Hp1 & _).
      destruct (IH (l ++ [(o, e)]) st1 u1 evs1 Hok1 E) as (es & Ees & Hok' & Hp').
      exists (e :: es). cbn [all_ret]. rewrite Ees. split; [done|]. rewrite fmap_cons.
      rewrite <- app_assoc in Hok'. split; [exact Hok'|]. rewrite Hp', Hp1, <- app_assoc. done.
    + destruct (IH l st u evs Hok E) as (es & Ees & Hes). exists es. cbn. rewrite Ees. done.
Qed.

Lemma observe_all_ok (ms : list (Obs * bytes)) (l : list Item) st st' evs :
  stats_ok l st -> observe_all ms st = Ret (st', evs) ->
  exists l', log ms = Some l' /\ stats_ok (l ++ l') st' /\ evs = collect post l l'.
Proof.
  revert l st evs. induction ms as [|[o m] ms IH]; intros l st evs Hok E; cbn in E.
  - injection E as <- <-. exists []. by rewrite app_nil_r.
  - unfold observe in E. cbn [log]. unfold decoded. destruct (parse_it m false true) as [steps|]; [|done]. cbn in E |- *.
    destruct (for_steps _ steps _) as [[[st1 u1] evs1]| |] eqn:E1; cbn in E; try done.
    destruct (for_steps_ok o steps l st st1 false u1 [] evs1 Hok E1) as (es & Ees & Hok1 & Hp1). rewrite Ees. cbn.
    destruct (observe_all ms st1) as [[st2 evs2]| |] eqn:E2; cbn in E; try done. injection E as <- <-.
    destruct (IH (l ++ (pair o <$> es)) st1 evs2 Hok1 E2) as (l' & -> & Hok' & Hp'). cbn.
    eexists. split; [done|]. rewrite app_assoc. split; [done|]. by rewrite collect_app, Hp1, Hp'.
Qed.

Lemma for_steps_returns (o : Obs) (steps : list (outcome (option Event))) (es : list Event) st u evs :
  all_ret steps = Some es -> announced_by (ob_time o) st ->
  exists st' u' evs', for_steps (observe_event o) steps (st, u, evs) = Ret (st', u', evs') /\
    announced_by (ob_time o) st'.
Proof.
  revert es st u evs. induction steps as [|[e| |] steps IH]; intros es st u evs E Hb; try done; cbn in E |- *.
  - by eexists _, _, _.
  - apply fmap_Some in E as (es' & E & _). destruct e as [e|]; [|by eapply IH].
    destruct (observe_event_returns o st u evs e Hb) as (st1 & u1 & evs1 & -> & Hb1). cbn. by eapply IH.
Qed.

Lemma observe_all_returns (ms : list (Obs * bytes)) (l : list Item) (T : Z) st :
  log ms = Some l -> announced_by T st -> Forall (fun m => T <= ob_time m.1) ms ->
  StronglySorted Z.le ((fun m => ob_time m.1) <$> ms) ->
  exists st' evs, observe_all ms st = Ret (st', evs).
Proof.
  revert l T st. induction ms as [|[o m] ms IH]; intros l T st E [Ht Hs] HT Hsort; cbn in E |- *; [by eexists _, _|].
  unfold decoded, observe in *. destruct (parse_it m false true) as [steps|]; [|done]. cbn in E |- *.
  destruct (all_ret steps) as [es|] eqn:Ees; [|done]. cbn in E. destruct (log ms) as [l1|] eqn:El; [|done].
  apply Forall_cons in HT as [HT _]. cbn in HT, Hsort. apply StronglySorted_cons in Hsort as [Hle Hsort].
  destruct (for_steps_returns o steps es st false [] Ees) as (st1 & u1 & evs1 & -> & Hb1).
  { split; by eapply announced_mono. }
  cbn. destruct (IH l1 (ob_time o) st1 eq_refl Hb1) as (st2 & evs2 & E2); [|done|].
  - rewrite Forall_fmap in Hle. exact Hle.
  - rewrite E2. by eexists _, _.
Qed.


End run.

(** * The sink *)

(** The database and the aggregator do not touch the statistics in memory. *)
Class SinkLaws (W : Type) `{!DbGroup W, !StatsDb W, !SinkCx W} : Prop := {
  sink_get_set : forall m (w : W), cx_stats_state (cx_set_stats_state m w) = m;
  sink_stream_add : forall sid id k data (w : W), cx_stats_state (db_stream_add sid id k data w).1 = cx_stats_state w;
  sink_stats : forall h a b (w : W), cx_stats_state (db_stats h a b w).1 = cx_stats_state w;
  sink_block_v2 : forall e (w : W), cx_stats_state (db_stats_block_v2 e w).1 = cx_stats_state w;
  sink_tx : forall h ts (w : W), cx_stats_state (db_stats_tx h ts w).1 = cx_stats_state w;
  sink_post : forall e (w : W), cx_stats_state (cx_post_event e w) = cx_stats_state w;
}.

Section sink.
Context `{!Blake2, !GossipLib} {W : Type} `{!DbGroup W, !StatsDb W, !SinkCx W, !SinkLaws W}.

Lemma update_steps_frame (o : Obs) (steps : list (outcome (option Event))) (w w' : W) r :
  update_steps o steps w = Ret (w', r) -> cx_stats_state w' = cx_stats_state w.
Proof.
  revert w. induction steps as [|[e| |] steps IH]; intros w E; try done; cbn in E; [by simplify_eq|].
  destruct (e ≫= update_event o) as [ev|]; [|by apply IH].
  pose proof (sink_block_v2 ev w) as Hf. destruct (db_stats_block_v2 ev w) as [w1 [|]]; cbn in Hf; [|by simplify_eq].
  rewrite <- Hf. by apply IH.
Qed.

Lemma unwrap_db_inv (r : W * DbResult unit) (w : W) : unwrap_db r = Ret w -> r.1 = w.
Proof. destruct r as [w1 [|]]; cbn; congruence. Qed.

Lemma post_frame (evs : list StatEvent) (w : W) :
  cx_stats_state (foldl (fun w e => cx_post_event e w) w evs) = cx_stats_state w.
Proof. revert w. induction evs as [|e evs IH]; intros w; cbn; [done|]. rewrite IH. apply sink_post. Qed.

(** A stored gossip message is observed by the statistics of its node, and by no
    other ones. *)
Lemma sink_observes (id : DirectedId) (sid : StreamId) (msg : bytes) (w w' : W) (message_id : Z) :
  meshsub_sink id sid msg w = Ret w' -> (db_stream_add sid id Meshsub msg w).2 = Ok message_id ->
  exists st b t evs,
    observe (sink_obs id message_id (node_of id w)) msg
      (match cx_stats_state w !! node_of id w with Some st => st | None => stats_state_default end) = Ret (st, b, t, evs) /\
    cx_stats_state w' = <[node_of id w := st]> (cx_stats_state w).
Proof.
  unfold meshsub_sink, stats_sink. intros E Ei. pose proof (sink_stream_add sid id Meshsub msg w) as Ha.
  destruct (db_stream_add sid id Meshsub msg w) as [w1 r]. cbn in Ei, Ha. subst r.
  destruct (update_block_stats _ _ w1) as [[w2 r2]| |] eqn:Eu; cbn in E; try done.
  assert (cx_stats_state w2 = cx_stats_state w) as Hs.
  { rewrite <- Ha. unfold update_block_stats in Eu. destruct (parse_it msg false true); [|done].
    by apply update_steps_frame in Eu. }
  rewrite Hs in E. destruct (observe _ msg _) as [[[[st b] t] evs]| |] eqn:Eo; cbn in E; try done.
  exists st, b, t, evs. split; [done|].
  set (w3 := cx_set_stats_state _ w2) in E. set (w4 := foldl _ w3 evs) in E.
  assert (cx_stats_state w4 = <[node_of id w := st]> (cx_stats_state w)) as Hw4.
  { unfold w4. rewrite post_frame. apply sink_get_set. }
  clearbody w4. rewrite <- Hw4.
  destruct (if b then _ else Ret w4) as [w5| |] eqn:E5; cbn in E; try done.
  assert (cx_stats_state w5 = cx_stats_state w4) as <-.
  { destruct b; [|by simplify_eq]. apply unwrap_db_inv in E5 as <-. apply sink_stats. }
  destruct t; [|by simplify_eq]. destruct (tx_stat st) as [ts|]; [|by simplify_eq].
  apply unwrap_db_inv in E as <-. apply sink_tx.
Qed.

End sink.

(** ** A run

    A toy encoding: a message is one published block, the ninth byte its height and
    the tenth its slot. *)

Section demo.
#[local] Instance demo_gossip : GossipLib := {|
  rpc_decode_delimited m := Some (mkPbRpc [] [mkPbMessage (Some [1]) (Some m) None (str "t") None None] None);
  gossip_v2_read body :=
    match body with [h; slot] => Some (NewState (mkBlock h slot (mkDiff [] []) None)) | _ => None end;
  gossip_v1_read _ := None;
  peer_id_from_bytes b := Some b;
|}.

Definition demo_block (n h : Z) : bytes := [n; 0; 0; 0; 0; 0; 0; 0; h; h].
Definition demo_obs (t : Z) : Obs :=
  mkObs t true t t (mkSocketAddr (V4 [10; 0; 0; 1]) 8302) (mkSocketAddr (V4 [10; 0; 0; 2]) 8302).

(** A block of height 5, then two of height 6, the first of them twice. *)
Definition demo_run : list (Obs * bytes) :=
  [(demo_obs 10, demo_block 1 5); (demo_obs 20, demo_block 2 6); (demo_obs 24, demo_block 3 6);
   (demo_obs 27, demo_block 2 6); (demo_obs 30, demo_block 1 5)].


End demo.
