(* ===== verification/DbStats.v ===== *)
(** The statistics and the helper's gossip in the database: the records of
    [decode/meshsub_stats.rs], [libp2p_helper/mod.rs], [strace.rs] and
    [database/types.rs] that are stored, the writers and readers of
    [database/core.rs] for them, and the methods of [database/rocksdb.rs] through
    which the recorder stores them.

    The keys of these families start with a block height; [fetch_stats],
    [fetch_stats_block_v2] and [fetch_capnp] read the rows of one height. *)

From stdpp Require Import base list gmap sorting strings.
From Stdlib Require Import ZArith Lia.
From S2P Require Import Prelude Types Handle Text Coding Params Rocks DbCore.
From S2P Require Import Facade Meshsub Capnp Stats.

(** * More of [radiation] and of the message libraries *)

(** Sequences, options and the variant of an enum without a [tag] attribute. *)
Class RadiationDerive : Type := {
  emit_vec : forall {A : Type}, (A -> bytes) -> list A -> bytes;
  absorb_vec : forall {A : Type}, (bytes -> option (A * bytes)) -> bytes -> option (list A * bytes);
  emit_option : forall {A : Type}, (A -> bytes) -> option A -> bytes;
  absorb_option : forall {A : Type}, (bytes -> option (A * bytes)) -> bytes -> option (option A * bytes);
  emit_variant : Z -> bytes;
  absorb_variant : bytes -> option (Z * bytes);
}.

(** The items are read back one by one, each as its own code reads it. *)
Class RadiationDeriveLaws `{!RadiationDerive} : Prop := {
  absorb_vec_emit : forall {A} (e : A -> bytes) a (f : A -> A) (l : list A) r,
    Z.of_nat (length l) < 2 ^ 32 -> (forall x r, x ∈ l -> a (e x ++ r) = Some (f x, r)) ->
    absorb_vec a (emit_vec e l ++ r) = Some (f <$> l, r);
  absorb_option_emit : forall {A} (e : A -> bytes) a (o : option A) r,
    (forall x r, o = Some x -> a (e x ++ r) = Some (x, r)) ->
    absorb_option a (emit_option e o ++ r) = Some (o, r);
  absorb_variant_emit : forall v r, 0 <= v < 256 ->
    absorb_variant (emit_variant v ++ r) = Some (v, r);
}.

(** [T::binprot_read] of the command or the work of a block, each given by what
    [binprot_write] makes of it. *)
Class BinprotStable : Type := {
  command_read : bytes -> option bytes;
  work_read : bytes -> option bytes;
}.

(** * Records *)

Record StatsDbKey : Type := mkStatsDbKey { sk_height : Z; sk_node_address : SocketAddr }.
Record StatsV2DbKey : Type := mkStatsV2DbKey { v2_height : Z; v2_time : Z }.

Record CapnpEventWithMetadataKey : Type := mkCapnpKey { ck_height : Z; ck_time : Z }.
Record CapnpEventWithMetadata : Type := mkCapnpMetadata {
  cm_real_time : Z;
  cm_node_address : SocketAddr;
  cm_events : list CapnpEvent;
}.

Record StraceLine : Type := mkStraceLine {
  sl_call : bytes;
  sl_pid : Z;
  sl_args : list bytes;
  sl_result : option bytes;
  sl_start : Z;
}.

Inductive GossipNetMessageV2Short : Type :=
| ShortNewState (height : Z)
| ShortTestMessage (height : Z)
| ShortSnarkPoolDiff
| ShortTransactionPoolDiff (inner : list UserCommand).

Inductive CapnpEventDecoded : Type :=
| DecodedReceived (peer_id peer_address : bytes) (msg : GossipNetMessageV2Short) (hash : bytes)
| DecodedPublish (msg : GossipNetMessageV2Short) (hash : bytes).

Record CapnpTableRow : Type := mkCapnpTableRow {
  time_microseconds : Z;
  real_time_microseconds : Z;
  row_node_address : SocketAddr;
  row_events : list CapnpEventDecoded;
}.

#[export] Instance StatsDbKey_eq_dec : EqDecision StatsDbKey.
Proof. solve_decision. Defined.
#[export] Instance StatsV2DbKey_eq_dec : EqDecision StatsV2DbKey.
Proof. solve_decision. Defined.
#[export] Instance CapnpKey_eq_dec : EqDecision CapnpEventWithMetadataKey.
Proof. solve_decision. Defined.

(** * Codecs *)

Section Codecs.
Context `{!Radiation, !RadiationDerive, !GossipLib, !BinprotStable}.

Definition peer_id_emit (p : bytes) : bytes := emit_string p.
Definition peer_id_absorb (l : bytes) : option (bytes * bytes) :=
  '(v, r) ← absorb_string l; p ← peer_id_from_bytes v; Some (p, r).

Definition binprot_emit (v : bytes) : bytes := emit_string v.
Definition binprot_absorb (binprot_read : bytes -> option bytes) (l : bytes) : option (bytes * bytes) :=
  '(v, r) ← absorb_string l; t ← binprot_read v; Some (t, r).

#[export] Instance stat_event_codec : Codec StatEvent := {|
  emit e := peer_id_emit (se_producer_id e) ++ se_hash e ++ emit_uint 4 (se_block_height e) ++
            emit_uint 4 (se_global_slot e) ++ emit_bool (se_incoming e) ++
            message_type_emit (se_message_kind e) ++ emit_uint 8 (se_message_id e) ++
            time_emit (se_time e) ++ time_emit (se_better_time e) ++
            duration_opt_emit (se_latency e) ++ addr_emit (se_sender_addr e) ++
            addr_emit (se_receiver_addr e);
  absorb l := '(p, r) ← peer_id_absorb l; '(h, r) ← absorb_array 32 r; '(bh, r) ← absorb_uint 4 r;
              '(gs, r) ← absorb_uint 4 r; '(inc, r) ← absorb_bool r; '(k, r) ← message_type_absorb r;
              '(m, r) ← absorb_uint 8 r; '(t, r) ← time_absorb r; '(bt, r) ← time_absorb r;
              '(la, r) ← duration_opt_absorb r; '(s, r) ← addr_absorb r; '(d, r) ← addr_absorb r;
              Some (mkStatEvent p h bh gs inc k m t bt la s d, r);
|}.

#[export] Instance block_stat_codec : Codec BlockStat := {|
  emit b := emit_uint 4 (height b) ++ emit_vec emit (Stats.events b);
  absorb l := '(h, r) ← absorb_uint 4 l; '(es, r) ← absorb_vec absorb r; Some (mkBlockStat h es, r);
|}.

(** [Tx] and [Snark]: the same fields around a command or a work. *)
Definition included_emit (i : Included) : bytes :=
  peer_id_emit (in_producer_id i) ++ time_emit (in_time i) ++ binprot_emit (in_raw i) ++
  duration_emit (in_latency i).
Definition included_absorb (binprot_read : bytes -> option bytes) (l : bytes) : option (Included * bytes) :=
  '(p, r) ← peer_id_absorb l; '(t, r) ← time_absorb r; '(c, r) ← binprot_absorb binprot_read r;
  '(d, r) ← duration_absorb r; Some (mkIncluded p t c d, r).

#[export] Instance tx_stat_codec : Codec TxStat := {|
  emit s := time_emit (block_time s) ++ emit_uint 4 (block_height s) ++
            emit_vec included_emit (transactions s) ++ emit_vec included_emit (ts_snarks s) ++
            emit_vec (emit_uint 8) (pending_txs s);
  absorb l := '(t, r) ← time_absorb l; '(h, r) ← absorb_uint 4 r;
              '(txs, r) ← absorb_vec (included_absorb command_read) r;
              '(sns, r) ← absorb_vec (included_absorb work_read) r;
              '(ps, r) ← absorb_vec (absorb_uint 8) r; Some (mkTxStat t h txs sns ps, r);
|}.

#[export] Instance stats_key_codec : Codec StatsDbKey := {|
  emit k := emit_uint 4 (sk_height k) ++ addr_emit (sk_node_address k);
  absorb l := '(h, r) ← absorb_uint 4 l; '(a, r) ← addr_absorb r; Some (mkStatsDbKey h a, r);
|}.

#[export] Instance stats_v2_key_codec : Codec StatsV2DbKey := {|
  emit k := emit_uint 4 (v2_height k) ++ time_emit (v2_time k);
  absorb l := '(h, r) ← absorb_uint 4 l; '(t, r) ← time_absorb r; Some (mkStatsV2DbKey h t, r);
|}.

#[export] Instance capnp_key_codec : Codec CapnpEventWithMetadataKey := {|
  emit k := emit_uint 4 (ck_height k) ++ time_emit (ck_time k);
  absorb l := '(h, r) ← absorb_uint 4 l; '(t, r) ← time_absorb r; Some (mkCapnpKey h t, r);
|}.

Definition capnp_event_emit (e : CapnpEvent) : bytes :=
  match e with
  | EvReceivedGossip peer_id peer_host peer_port msg hash =>
      emit_variant 0 ++ emit_string peer_id ++ emit_string peer_host ++ emit_uint 2 peer_port ++
      emit_string msg ++ hash
  | EvPublish msg hash => emit_variant 1 ++ emit_string msg ++ hash
  end.

Definition capnp_event_absorb (l : bytes) : option (CapnpEvent * bytes) :=
  '(v, r) ← absorb_variant l;
  if v =? 0 then
    '(i, r) ← absorb_string r; '(h, r) ← absorb_string r; '(p, r) ← absorb_uint 2 r;
    '(m, r) ← absorb_string r; '(hash, r) ← absorb_array 32 r; Some (EvReceivedGossip i h p m hash, r)
  else if v =? 1 then
    '(m, r) ← absorb_string r; '(hash, r) ← absorb_array 32 r; Some (EvPublish m hash, r)
  else None.

#[export] Instance capnp_metadata_codec : Codec CapnpEventWithMetadata := {|
  emit c := time_emit (cm_real_time c) ++ addr_emit (cm_node_address c) ++
            emit_vec capnp_event_emit (cm_events c);
  absorb l := '(t, r) ← time_absorb l; '(a, r) ← addr_absorb r;
              '(es, r) ← absorb_vec capnp_event_absorb r; Some (mkCapnpMetadata t a es, r);
|}.

#[export] Instance strace_line_codec : Codec StraceLine := {|
  emit s := emit_string (sl_call s) ++ emit_uint 4 (sl_pid s) ++ emit_vec emit_string (sl_args s) ++
            emit_option emit_string (sl_result s) ++ duration_emit (sl_start s);
  absorb l := '(c, r) ← absorb_string l; '(p, r) ← absorb_uint 4 r;
              '(a, r) ← absorb_vec absorb_string r; '(s, r) ← absorb_option absorb_string r;
              '(d, r) ← duration_absorb r; Some (mkStraceLine c p a s d, r);
|}.

End Codecs.

(** * Writing *)

Section Ops.
Context `{!Radiation, !RadiationDerive, !GossipLib, !BinprotStable} {R : Type} `{!Rocks R}.
Implicit Types (db : DbCore R).

Definition put_stats (height : Z) (node_address : SocketAddr) (data : bytes) : DbM R unit :=
  put STATS (emit (mkStatsDbKey height node_address)) data.

Definition put_stats_block_v2 (event : StatEvent) : DbM R unit :=
  put STATS_BLOCK_V2 (emit (mkStatsV2DbKey (se_block_height event) (se_better_time event))) (emit event).

Definition core_put_capnp (key : CapnpEventWithMetadataKey) (event : CapnpEventWithMetadata) : DbM R unit :=
  put CAPNP (emit key) (emit event).

(** [DbFacade::stats], [stats_block_v2], [stats_tx] *)
Definition facade_stats (height : Z) (node_address : SocketAddr) (value : BlockStat) : FacadeM unit :=
  on_core (put_stats height node_address (emit value)).
Definition facade_stats_block_v2 (event : StatEvent) : FacadeM unit := on_core (put_stats_block_v2 event).
Definition facade_stats_tx (height : Z) (value : TxStat) : FacadeM unit :=
  on_core (put_stats_tx height (emit value)).

(** The database behind the interfaces of the statistics and of the helper's
    reader. *)
Definition on_world {A} (m : FacadeM A) (w : World R) : World R * DbResult A :=
  let '(f, r) := m (w_facade w) in (set_facade f w, r).

#[export] Instance world_stats_db : StatsDb (World R) := {|
  db_stats height node_address value := on_world (facade_stats height node_address value);
  db_stats_block_v2 event := on_world (facade_stats_block_v2 event);
  db_stats_tx height value := on_world (facade_stats_tx height value);
|}.

#[export] Instance world_capnp_db : CapnpDb (World R) := fun height time real_time node_address events =>
  on_world (on_core (core_put_capnp (mkCapnpKey height time) (mkCapnpMetadata real_time node_address events))).

(** [DbStrace]: its own counter and a clone of the database. *)
Record DbStrace : Type := mkDbStrace { strace_cnt : Z; strace_inner : DbCore R }.

Definition facade_strace (f : Facade R) : DbResult DbStrace :=
  match total STRACE_CNT (core f) with
  | Ok n => Ok (mkDbStrace n (core f))
  | Err e => Err e
  end.

Definition add_strace_line (line : StraceLine) (s : DbStrace) : DbStrace * DbResult unit :=
  let id := strace_cnt s in
  let '(db, r) := (put_strace id (emit line);; set_total STRACE_CNT id) (strace_inner s) in
  (mkDbStrace (wrap 64 (id + 1)) db, r).

(** * Reading *)

(** The rows of a family whose keys start with a height. *)
Definition rows_of {K T} (CK : Codec K) (CT : Codec T) (height_of : K -> Z) (cf : CF) (id : Z) db
    : list (K * T) :=
  take_while (fun kv => height_of kv.1 =? id)
    (omap (decode CK CT) (iterator_cf cf (IFrom (be_encode 4 id) RForward) (db_inner db))).

(** The last row of a family. *)
Definition last_row {K T} (CK : Codec K) (CT : Codec T) (cf : CF) db : option (K * T) :=
  match iterator_cf cf IEnd (db_inner db) with
  | item :: _ => decode CK CT item
  | [] => None
  end.

(** The closure of the [fold]: the key of the first row, the events of all. *)
Definition join_stats (acc : option (StatsDbKey * BlockStat)) (kv : StatsDbKey * BlockStat)
    : option (StatsDbKey * BlockStat) :=
  let '(k, current) := match acc with
                       | Some a => a
                       | None => (kv.1, mkBlockStat (sk_height kv.1) [])
                       end in
  Some (k, mkBlockStat (height current) (Stats.events current ++ Stats.events kv.2)).

Definition fetch_stats (id : Z) db : option (StatsDbKey * BlockStat) :=
  foldl join_stats None (rows_of stats_key_codec block_stat_codec sk_height STATS id db).

Definition fetch_stats_block_v2 (id : Z) db : list StatEvent :=
  snd <$> rows_of stats_v2_key_codec stat_event_codec v2_height STATS_BLOCK_V2 id db.

Definition fetch_last_stat db : option (StatsDbKey * BlockStat) :=
  '(k, _) ← last_row stats_key_codec block_stat_codec STATS db;
  fetch_stats (sk_height k) db.

Definition fetch_last_stat_block_v2 db : option (Z * list StatEvent) :=
  (fun kv => (v2_height kv.1, fetch_stats_block_v2 (v2_height kv.1) db))
  <$> last_row stats_v2_key_codec stat_event_codec STATS_BLOCK_V2 db.

Definition u32_codec : Codec Z := {| emit := emit_uint 4; absorb := absorb_uint 4 |}.

Definition fetch_last_stat_tx db : option (Z * TxStat) := last_row u32_codec tx_stat_codec STATS_TX db.

Definition fetch_stats_tx (id : Z) db : DbResult (option (Z * TxStat)) :=
  match get_cf STATS_TX (be_encode 4 id) (db_inner db) with
  | None => Err Inner
  | Some None => Ok None
  | Some (Some v) => match absorb_ext v with Some s => Ok (Some (id, s)) | None => Err DbParse end
  end.

Definition fetch_strace (id timestamp : Z) db : DbResult (list (Z * StraceLine)) :=
  let start := if timestamp =? 0 then Ok id
               else search_timestamp sl_start STRACE
                      (match total STRACE_CNT db with Ok n => n | Err _ => 0 end) timestamp db in
  match start with
  | Err e => Err e
  | Ok id => Ok (omap (decode u64_codec strace_line_codec)
                   (iterator_cf STRACE (IFrom (be_encode 8 id) RForward) (db_inner db)))
  end.

(** ** The gossip of the helper *)

(** What is shown of a message. *)
Definition short_message (key_height : Z) (msg : bytes) : option GossipNetMessageV2Short :=
  match gossip_v2_read msg with
  | Some (NewState b) => Some (ShortNewState (blockchain_length b))
  | Some (SnarkPool _) => Some ShortSnarkPoolDiff
  | Some (TransactionPool inner) => Some (ShortTransactionPoolDiff inner)
  | None => match msg with
            | 3 :: _ => Some (ShortTestMessage key_height)
            | _ => None
            end
  end.

Definition decode_capnp_event (key_height : Z) (e : CapnpEvent) : option CapnpEventDecoded :=
  match e with
  | EvPublish msg hash => msg ← short_message key_height msg; Some (DecodedPublish msg hash)
  | EvReceivedGossip peer_id peer_host peer_port msg hash =>
      msg ← short_message key_height msg;
      Some (DecodedReceived peer_id (peer_host ++ str ":" ++ show_u16 peer_port) msg hash)
  end.

(** [CapnpTableRow::transform]; a time that was decoded is not before the epoch. *)
Definition transform (kv : CapnpEventWithMetadataKey * CapnpEventWithMetadata) : CapnpTableRow :=
  let '(k, v) := kv in
  mkCapnpTableRow (wrap 64 (ck_time k / 1000)) (wrap 64 (cm_real_time v / 1000)) (cm_node_address v)
    (omap (decode_capnp_event (ck_height k)) (cm_events v)).

Definition capnp_rows (height : Z) db : list CapnpTableRow :=
  transform <$> rows_of capnp_key_codec capnp_metadata_codec ck_height CAPNP height db.

(** The hashes a node has sent and received so far. *)
Definition Seen : Type := gset bytes * gset bytes.

(** [v.events.retain(..)] *)
Fixpoint retain_new (es : list CapnpEventDecoded) (s : Seen) : list CapnpEventDecoded * Seen :=
  match es with
  | [] => ([], s)
  | e :: es =>
      let '(fresh, s) :=
        match e with
        | DecodedPublish _ hash => (bool_decide (hash ∉ s.1), ({[hash]} ∪ s.1, s.2))
        | DecodedReceived _ _ _ hash => (bool_decide (hash ∉ s.2), (s.1, {[hash]} ∪ s.2))
        end in
      let '(kept, s) := retain_new es s in
      ((if fresh : bool then [e] else []) ++ kept, s)
  end.

Definition with_events (v : CapnpTableRow) (es : list CapnpEventDecoded) : CapnpTableRow :=
  mkCapnpTableRow (time_microseconds v) (real_time_microseconds v) (row_node_address v) es.

(** [.scan(State::default(), ..)] with [all == false]: [None] ends the iterator. *)
Fixpoint scan_new (rows : list CapnpTableRow) (state : gmap SocketAddr Seen) : list CapnpTableRow :=
  match rows with
  | [] => []
  | v :: rows =>
      let '(es, s) := retain_new (row_events v) (default (∅, ∅) (state !! row_node_address v)) in
      match es with
      | [] => []
      | _ => with_events v es :: scan_new rows (<[row_node_address v := s]> state)
      end
  end.

Definition fetch_capnp (height : Z) (all : bool) db : list CapnpTableRow :=
  let rows := capnp_rows height db in
  if all then rows else scan_new rows ∅.

Definition fetch_capnp_latest (all : bool) db : option (list CapnpTableRow) :=
  (fun kv => fetch_capnp (ck_height kv.1) all db) <$> last_row capnp_key_codec capnp_metadata_codec CAPNP db.

Definition fetch_capnp_all db : list CapnpTableRow :=
  transform <$> omap (decode capnp_key_codec capnp_metadata_codec) (iterator_cf CAPNP IStart (db_inner db)).

End Ops.
