(* ===== verification/DbRows.v ===== *)
(** Families whose keys start with a block height: the rows of one height are
    exactly the last values written for the keys of that height, in the order of
    what follows the height in the key. [rows_of] is the part the readers of
    [database/core.rs] share. *)

From stdpp Require Import base list gmap sorting strings.
From Stdlib Require Import ZArith Lia.
From S2P Require Import Prelude Types Handle Coding SortedIntersect Params Rocks DbCore.
From S2P Require Import DbIndex DbStats.

(** The last value written for a key. *)
Definition last_write {K T} `{!EqDecision K} (k : K) (hist : list (K * T)) : option T :=
  last (snd <$> filter (fun x => x.1 = k) hist).

Lemma last_write_snoc {K T} `{!EqDecision K} (k k' : K) (v : T) (hist : list (K * T)) :
  last_write k (hist ++ [(k', v)]) = if decide (k' = k) then Some v else last_write k hist.
Proof.
  unfold last_write. rewrite filter_app, fmap_app, filter_cons, filter_nil. cbn [fst].
  case_decide; cbn; [by rewrite last_snoc|by rewrite app_nil_r].
Qed.

Lemma last_write_elem {K T} `{!EqDecision K} (k : K) (v : T) (hist : list (K * T)) :
  last_write k hist = Some v -> (k, v) ∈ hist.
Proof.
  unfold last_write. intros H%last_Some_elem_of.
  apply list_elem_of_fmap in H as ((k' & v') & -> & H). apply list_elem_of_filter in H as [E H].
  cbn in *. by subst.
Qed.

Lemma omap_fmap_Forall {A B C} (f : B -> option C) (e : A -> B) (g : A -> C) (l : list A) :
  Forall (fun x => f (e x) = Some (g x)) l -> omap f (e <$> l) = g <$> l.
Proof. induction 1 as [|x l Hx _ IH]; [done|]. cbn. rewrite Hx. by f_equal. Qed.

(** What the rows rely on: a key is read back and is its height, big endian,
    followed by the rest; the family's extractor, if any, looks at the height. *)
Class HeightKey `{Radiation} {K : Type} (CK : Codec K) (height_of : K -> Z) (suffix : K -> bytes)
    (cf : CF) (ok : K -> Prop) : Prop := {
  hk_emit : forall k, ok k -> @emit _ _ CK k = be_encode 4 (height_of k) ++ suffix k;
  hk_absorb : forall k, ok k -> @absorb_ext _ _ CK (@emit _ _ CK k) = Some k;
  hk_height : forall k, ok k -> uint_ok 4 (height_of k);
  hk_extractor : prefix_extractor cf = None \/ prefix_extractor cf = Some 4%nat;
}.

Section Rows.
Context `{RadiationLaws} {R : Type} `{!Rocks R, !RocksLaws R}.
Context {K T : Type} `{!EqDecision K} (CK : Codec K) (CT : Codec T).
Context (height_of : K -> Z) (suffix : K -> bytes) (cf : CF) (okK : K -> Prop) (okT : T -> Prop).
Context (stored : T -> T).
Context `{HK : !HeightKey CK height_of suffix cf okK}.
Hypothesis reads : forall v, okT v -> @absorb_ext _ _ CT (@emit _ _ CT v) = Some (stored v).
Implicit Types (r : R) (hist : list (K * T)).

(** The family holds what was written, the last value of each key. *)
Definition holds_rows r hist : Prop :=
  forall kb vb, contents r cf !! kb = Some vb <->
    exists k v, last_write k hist = Some v /\ kb = @emit _ _ CK k /\ vb = @emit _ _ CT v.

Definition rows_ok hist : Prop := Forall (fun x => okK x.1 /\ okT x.2) hist.

Lemma rows_ok_last hist k v : rows_ok hist -> last_write k hist = Some v -> okK k /\ okT v.
Proof.
  unfold rows_ok. rewrite Forall_forall. intros HF HL.
  by apply (HF (k, v)), last_write_elem.
Qed.

Lemma key_emit_inj (a b : K) : okK a -> okK b -> @emit _ _ CK a = @emit _ _ CK b -> a = b.
Proof. intros Ha Hb E. pose proof (hk_absorb a Ha) as E'. rewrite E, hk_absorb in E'; congruence. Qed.

Lemma holds_rows_nil r : contents r cf = ∅ -> holds_rows r [].
Proof.
  intros E kb vb. rewrite E, lookup_empty. split; [done|].
  intros (k & v & Hl & _). done.
Qed.

Lemma holds_rows_put r r' hist k v :
  rows_ok hist -> okK k -> holds_rows r hist ->
  contents r' cf = <[@emit _ _ CK k := @emit _ _ CT v]> (contents r cf) ->
  holds_rows r' (hist ++ [(k, v)]).
Proof.
  intros HF Hk HR E kb vb. rewrite E. setoid_rewrite last_write_snoc.
  destruct (decide (@emit _ _ CK k = kb)) as [<-|Hne].
  - rewrite lookup_insert_eq. split; [intros [= <-]; exists k, v; by rewrite decide_True|].
    intros (k' & v' & Hl & Ek & ->). case_decide as Hd; [congruence|].
    apply rows_ok_last in Hl as [Hk' _]; [|done]. by apply key_emit_inj in Ek.
  - rewrite lookup_insert_ne, (HR kb vb) by done. split; intros (k' & v' & Hl & -> & ->); exists k', v';
      (split; [|done]); case_decide; congruence.
Qed.

(** The rows with the height come first, in the order of the keys. *)
Lemma iterate_height r (h : Z) :
  healthy r ->
  exists l rest,
    iterator_cf cf (IFrom (be_encode 4 h) RForward) r = Some <$> (l ++ rest) /\
    scan_spec RForward (fun k' => take 4 k' = be_encode 4 h /\ ~ key_before RForward k' (be_encode 4 h))
      (contents r cf) l /\
    Forall (fun kv => is_Some (contents r cf !! kv.1) /\ take 4 kv.1 <> be_encode 4 h) rest.
Proof using HK RocksLaws0.
  intros Hh. set (k := be_encode 4 h).
  assert (L : length k = 4%nat) by apply length_be_encode.
  assert (Tk : take 4 k = k) by (apply take_ge; lia).
  destruct hk_extractor as [Hn|Hn].
  - destruct (iter_from_ok r cf k RForward Hh Hn) as (l & -> & Hl).
    set (p := fun kv : bytes * bytes => bool_decide (take 4 kv.1 = k)).
    exists (List.filter p l), (List.filter (fun x => negb (p x)) l). split_and!.
    + f_equal. apply (sorted_filter_split (fun a b => key_before RForward a.1 b.1)).
      * destruct Hl as [S _]. eapply StronglySorted_fmap; [|exact S]. done.
      * intros [a va] [b vb] Ha Hb Hab. unfold p. rewrite !bool_decide_eq_true. cbn in *. intros E.
        apply Hl in Ha as [_ Ha]. rewrite <- Tk. apply (prefix_interval 4 k a b); [lia|by rewrite Tk|by rewrite Hab|].
        rewrite (key_cmp_antisym a k). cbn in Ha. by destruct (key_cmp a k).
    + eapply scan_spec_ext; [|exact (filter_scan RForward (fun k' => p (k', [])) _ _ l Hl)].
      intros k'. unfold p. cbn [fst]. rewrite bool_decide_eq_true. tauto.
    + apply Forall_forall. intros [a v] Ha%list_elem_of_In%filter_In. destruct Ha as [Ha Hp].
      apply list_elem_of_In, Hl in Ha as [Ha _]. cbn in *. split; [by eexists|].
      unfold p in Hp. cbn in Hp. by case_bool_decide.
  - destruct (iter_prefix_ok r cf k RForward 4 Hh Hn) as (l & rest & El & Hl & Hr); [lia|].
    exists l, rest. by rewrite Tk in *.
Qed.

Lemma decode_written (k : K) (v : T) :
  okK k -> okT v -> decode CK CT (Some (@emit _ _ CK k, @emit _ _ CT v)) = Some (k, stored v).
Proof. intros Hk Hv. cbn. by rewrite hk_absorb, reads. Qed.

Lemma take_emit (k : K) : okK k -> take 4 (@emit _ _ CK k) = be_encode 4 (height_of k).
Proof. intros Hk. rewrite hk_emit by done. by rewrite take_app_length' by (by rewrite length_be_encode). Qed.

Lemma height_prefix (k : K) (h : Z) :
  okK k -> uint_ok 4 h -> take 4 (@emit _ _ CK k) = be_encode 4 h <-> height_of k = h.
Proof.
  intros Hk Hh. rewrite take_emit by done. pose proof (hk_height k Hk). split; [|by intros ->].
  by apply be_encode_inj.
Qed.

(** A key with the height is not before the start of the scan. *)
Lemma not_before_height (k : K) : okK k ->
  ~ key_before RForward (@emit _ _ CK k) (be_encode 4 (height_of k)).
Proof.
  intros Hk. rewrite hk_emit by done. cbn [key_before].
  rewrite <- (app_nil_r (be_encode 4 (height_of k))) at 2. rewrite key_cmp_app. by destruct (suffix k).
Qed.

Lemma key_cmp_suffix (a b : K) :
  okK a -> okK b -> height_of a = height_of b ->
  key_cmp (@emit _ _ CK a) (@emit _ _ CK b) = key_cmp (suffix a) (suffix b).
Proof. intros Ha Hb E. rewrite !hk_emit by done. by rewrite E, key_cmp_app. Qed.

(** What the scan of a height gives, as keys and values. *)
Lemma height_items hist r (h : Z) items (Q : bytes -> Prop) :
  holds_rows r hist -> rows_ok hist -> uint_ok 4 h ->
  scan_spec RForward (fun k' => take 4 k' = be_encode 4 h /\ Q k') (contents r cf) items ->
  exists kvs, items = (fun kv => (@emit _ _ CK kv.1, @emit _ _ CT kv.2)) <$> kvs /\
    Forall (fun kv => okK kv.1 /\ okT kv.2 /\ last_write kv.1 hist = Some kv.2 /\ height_of kv.1 = h) kvs.
Proof.
  intros HR HF Hz [_ HM]. apply list_choice. intros [kb vb] Hkv. apply HM in Hkv as [Hc [Ht _]].
  apply HR in Hc as (k & v & Hl & -> & ->). destruct (rows_ok_last _ _ _ HF Hl) as [Hk Hv].
  exists (k, v). split; [|done]. split_and!; [done..|]. by apply height_prefix.
Qed.

(** The items after them have another height. *)
Lemma other_heights hist r (h : Z) rest :
  holds_rows r hist -> rows_ok hist -> uint_ok 4 h ->
  Forall (fun kv => is_Some (contents r cf !! kv.1) /\ take 4 kv.1 <> be_encode 4 h) rest ->
  Forall (fun kv => (height_of kv.1 =? h) = false) (omap (decode CK CT) (Some <$> rest)).
Proof.
  intros HR HF Hz Hrest. apply Forall_forall. intros [k v] Hkv.
  apply list_elem_of_omap in Hkv as (x & Hx & Hd). apply list_elem_of_fmap in Hx as ([kb vb] & -> & Hx).
  rewrite Forall_forall in Hrest. destruct (Hrest _ Hx) as [[vb' Hs] Hne]. cbn [fst] in *.
  apply HR in Hs as (k' & v' & Hl & -> & ->). destruct (rows_ok_last _ _ _ HF Hl) as [Hk Hv].
  cbn in Hd. rewrite hk_absorb in Hd by done. destruct (absorb_ext vb); simplify_eq/=.
  apply Z.eqb_neq. intros E. apply Hne. by apply height_prefix.
Qed.

(** The rows of a height: the last value of each key of that height, in the order
    of the keys. *)
Lemma rows_of_spec hist (db : DbCore R) (h : Z) :
  healthy (db_inner db) -> holds_rows (db_inner db) hist -> rows_ok hist -> uint_ok 4 h ->
  let l := rows_of CK CT height_of cf h db in
  StronglySorted (fun a b => key_cmp (suffix a) (suffix b) = Lt) l.*1 /\
  forall k v, (k, v) ∈ l <-> height_of k = h /\ stored <$> last_write k hist = Some v.
Proof.
  intros Hh HR HF Hz l. destruct (iterate_height (db_inner db) h Hh) as (items & rest & Ei & Hscan & Hrest).
  destruct (height_items _ _ _ _ _ HR HF Hz Hscan) as (kvs & -> & Hkvs). destruct Hscan as [HS HM].
  assert (El : l = (fun kv => (kv.1, stored kv.2)) <$> kvs).
  { unfold l, rows_of. rewrite Ei, fmap_app, omap_app, <- list_fmap_compose.
    rewrite (omap_fmap_Forall _ _ (fun kv => (kv.1, stored kv.2))).
    - apply take_while_app_stop; [|by apply (other_heights hist (db_inner db))].
      apply Forall_fmap. eapply Forall_impl; [exact Hkvs|]. intros kv (_ & _ & _ & E). by apply Z.eqb_eq.
    - eapply Forall_impl; [exact Hkvs|]. intros [k v] (Hk & Hv & _). by apply decode_written. }
  rewrite El, <- list_fmap_compose. rewrite <- list_fmap_compose in HS. rewrite Forall_forall in Hkvs. split.
  - change (StronglySorted (fun a b => key_cmp (suffix a) (suffix b) = Lt) kvs.*1).
    eapply (StronglySorted_fmap (@emit _ _ CK)); [|rewrite <- list_fmap_compose; exact HS].
    intros a b (x & -> & Hx)%list_elem_of_fmap (y & -> & Hy)%list_elem_of_fmap.
    destruct (Hkvs x Hx) as (? & _ & _ & Ea), (Hkvs y Hy) as (? & _ & _ & Eb). cbn [key_before].
    by rewrite key_cmp_suffix by congruence.
  - intros k v. rewrite list_elem_of_fmap. split.
    + intros ([k' v'] & [= -> ->] & Hx). destruct (Hkvs _ Hx) as (_ & _ & Hl & E). cbn in *.
      by rewrite Hl.
    + intros [E (v0 & Hl & ->)%fmap_Some]. destruct (rows_ok_last _ _ _ HF Hl) as [Hk Hv].
      assert (Hin : (@emit _ _ CK k, @emit _ _ CT v0) ∈ (fun kv => (@emit _ _ CK kv.1, @emit _ _ CT kv.2)) <$> kvs).
      { apply HM. split; [apply HR; by exists k, v0|]. rewrite <- E.
        split; [by apply take_emit|by apply not_before_height]. }
      apply list_elem_of_fmap in Hin as ([k' v'] & [= Ek Ev] & Hx).
      destruct (Hkvs _ Hx) as (Hk' & _ & Hl' & _). cbn in *. apply key_emit_inj in Ek; [|done..]. subst k'.
      exists (k, v'). split; [|done]. cbn. congruence.
Qed.

(** Writing rows one after the other, among writes to other families. *)
Definition writes_rows {A} (sel : A -> option (K * T)) (f : A -> DbM R unit) : Prop :=
  forall a, exists cf' kb vb, (forall db, f a db = put cf' kb vb db) /\
    match sel a with
    | Some (k, v) => cf' = cf /\ kb = @emit _ _ CK k /\ vb = @emit _ _ CT v
    | None => cf' <> cf
    end.

Lemma for_each_rows {A} (l : list A) (sel : A -> option (K * T)) (f : A -> DbM R unit) : forall hist db,
  writes_rows sel f -> healthy (db_inner db) -> holds_rows (db_inner db) hist ->
  rows_ok (hist ++ omap sel l) ->
  exists db', for_each l f db = (db', Ok tt) /\ healthy (db_inner db') /\
    holds_rows (db_inner db') (hist ++ omap sel l).
Proof using HK RocksLaws0.
  induction l as [|a l IH]; intros hist db Hf Hh HR Hok.
  { exists db. cbn. by rewrite app_nil_r. }
  destruct (Hf a) as (cf' & kb & vb & Ef & Hs).
  destruct (put_ok (db_inner db) cf' kb vb Hh) as (r' & Ep & Hh' & Hc).
  cbn [for_each]. unfold mbind, db_bind at 1. rewrite Ef. unfold put. rewrite Ep. cbn [omap list_omap] in *.
  destruct (sel a) as [[k v]|]; [|apply IH; [done|done| |done]].
  - destruct Hs as (-> & -> & ->). rewrite cons_middle, app_assoc in Hok |- *.
    apply IH; [done|done| |done]. unfold rows_ok in Hok. rewrite !Forall_app, Forall_singleton in Hok.
    apply (holds_rows_put (db_inner db)); [apply Hok|apply Hok|done|]. cbn. by rewrite Hc, decide_True.
  - intros b w. cbn [db_inner]. rewrite Hc, decide_False by done. apply HR.
Qed.

End Rows.
