(* ===== verification/DbStatsSpec.v ===== *)
(** What the database keeps of the statistics and of the helper's gossip
    ([database/core.rs]): round trips of the stored records, and what the readers of
    [DbStats.v] give back after any sequence of writes. *)

From stdpp Require Import base list gmap sorting strings.
From Stdlib Require Import ZArith Lia.
From S2P Require Import Prelude Types Handle Text Coding SortedIntersect Params Rocks DbCore.
From S2P Require Import DbIndex Facade Meshsub Capnp Stats DbStats DbRows.

(** * Round trips *)

(** An optional duration of zero is read back as none. *)
Definition stored_latency (d : option Z) : option Z :=
  match d with Some 0 => None | _ => d end.

Definition stored_event (e : StatEvent) : StatEvent :=
  mkStatEvent (se_producer_id e) (se_hash e) (se_block_height e) (se_global_slot e) (se_incoming e)
    (se_message_kind e) (se_message_id e) (se_time e) (se_better_time e) (stored_latency (se_latency e))
    (se_sender_addr e) (se_receiver_addr e).

Definition stored_block_stat (b : BlockStat) : BlockStat :=
  mkBlockStat (height b) (stored_event <$> Stats.events b).

Definition string_ok (s : bytes) : Prop := blen s < 2 ^ 32.
Definition vec_ok {A} (ok : A -> Prop) (l : list A) : Prop := Z.of_nat (length l) < 2 ^ 32 /\ Forall ok l.

Section RoundTrips.
Context `{RadiationLaws, !RadiationDerive, !RadiationDeriveLaws, !GossipLib, !BinprotStable}.

Definition peer_id_ok (p : bytes) : Prop := string_ok p /\ peer_id_from_bytes p = Some p.

(** What the Rust types guarantee of the records, with the values that addresses
    and times can have. *)
Definition event_ok (e : StatEvent) : Prop :=
  peer_id_ok (se_producer_id e) /\ blen (se_hash e) = 32 /\ uint_ok 4 (se_block_height e) /\
  uint_ok 4 (se_global_slot e) /\ uint_ok 8 (se_message_id e) /\ time_ok (se_time e) /\
  time_ok (se_better_time e) /\ time_ok (default 0 (se_latency e)) /\
  addr_ok (se_sender_addr e) /\ addr_ok (se_receiver_addr e).

Definition block_stat_ok (b : BlockStat) : Prop :=
  uint_ok 4 (height b) /\ vec_ok event_ok (Stats.events b).

Definition included_ok (read : bytes -> option bytes) (i : Included) : Prop :=
  peer_id_ok (in_producer_id i) /\ time_ok (in_time i) /\ string_ok (in_raw i) /\
  read (in_raw i) = Some (in_raw i) /\ time_ok (in_latency i).

Definition tx_stat_ok (s : TxStat) : Prop :=
  time_ok (block_time s) /\ uint_ok 4 (block_height s) /\
  vec_ok (included_ok command_read) (transactions s) /\ vec_ok (included_ok work_read) (ts_snarks s) /\
  vec_ok (uint_ok 8) (pending_txs s).

Definition capnp_event_ok (e : CapnpEvent) : Prop :=
  match e with
  | EvReceivedGossip i h p m hash =>
      string_ok i /\ string_ok h /\ uint_ok 2 p /\ string_ok m /\ blen hash = 32
  | EvPublish m hash => string_ok m /\ blen hash = 32
  end.

Definition metadata_ok (c : CapnpEventWithMetadata) : Prop :=
  time_ok (cm_real_time c) /\ addr_ok (cm_node_address c) /\ vec_ok capnp_event_ok (cm_events c).

Definition strace_ok (s : StraceLine) : Prop :=
  string_ok (sl_call s) /\ uint_ok 4 (sl_pid s) /\ vec_ok string_ok (sl_args s) /\
  match sl_result s with Some x => string_ok x | None => True end /\ time_ok (sl_start s).

Lemma peer_id_rt p r : peer_id_ok p -> peer_id_absorb (peer_id_emit p ++ r) = Some (p, r).
Proof.
  intros [Hs Hp]. unfold peer_id_absorb, peer_id_emit. rewrite absorb_string_emit by done. cbn.
  by rewrite Hp.
Qed.

Lemma binprot_rt read v r :
  string_ok v -> read v = Some v -> binprot_absorb read (binprot_emit v ++ r) = Some (v, r).
Proof.
  intros Hs Hp. unfold binprot_absorb, binprot_emit. rewrite absorb_string_emit by done. cbn. by rewrite Hp.
Qed.

Lemma duration_rt d r : time_ok d -> duration_absorb (duration_emit d ++ r) = Some (d, r).
Proof. apply time_rt. Qed.

Lemma duration_opt_rt d r :
  time_ok (default 0 d) -> duration_opt_absorb (duration_opt_emit d ++ r) = Some (stored_latency d, r).
Proof.
  intros Hd. unfold duration_opt_absorb, duration_opt_emit. rewrite duration_rt by done. cbn.
  destruct d as [[| |]|]; done.
Qed.

Lemma vec_rt {A} (e : A -> bytes) a (f : A -> A) (ok : A -> Prop) l r :
  (forall x r, ok x -> a (e x ++ r) = Some (f x, r)) -> vec_ok ok l ->
  absorb_vec a (emit_vec e l ++ r) = Some (f <$> l, r).
Proof. intros Ha [Hl Hf]. rewrite Forall_forall in Hf. apply absorb_vec_emit; auto. Qed.

(** Read a record field by field. *)
#[local] Ltac field :=
  rewrite <- ?app_assoc;
  first [ rewrite peer_id_rt by done | rewrite binprot_rt by done | rewrite array_rt by done
        | rewrite uint_rt by done | rewrite absorb_bool_emit | rewrite message_type_rt
        | rewrite time_rt by done | rewrite duration_rt by done | rewrite duration_opt_rt by done
        | rewrite addr_rt by done | rewrite absorb_string_emit by done
        | rewrite absorb_variant_emit by lia ];
  cbn [mbind option_bind].

Lemma event_rt e r : event_ok e -> absorb (emit e ++ r) = Some (stored_event e, r).
Proof.
  destruct e. intros (? & ? & ? & ? & ? & ? & ? & ? & ? & ?). cbn in *. by repeat field.
Qed.

Lemma block_stat_rt b r : block_stat_ok b -> absorb (emit b ++ r) = Some (stored_block_stat b, r).
Proof.
  destruct b. intros [? He]. cbn in *. field. by rewrite (vec_rt _ _ _ _ _ _ event_rt He).
Qed.

Lemma included_rt read i r : included_ok read i -> included_absorb read (included_emit i ++ r) = Some (i, r).
Proof.
  destruct i. intros (? & ? & ? & ? & ?). unfold included_absorb, included_emit. cbn in *. by repeat field.
Qed.

Lemma tx_stat_rt s r : tx_stat_ok s -> absorb (emit s ++ r) = Some (s, r).
Proof.
  destruct s. intros (? & ? & Ht & Hs & Hp). cbn in *. do 2 field. rewrite <- ?app_assoc.
  rewrite (vec_rt _ _ id _ _ _ (included_rt command_read) Ht). cbn.
  rewrite (vec_rt _ _ id _ _ _ (included_rt work_read) Hs). cbn.
  rewrite (vec_rt _ _ id _ _ _ (uint_rt 8) Hp). cbn. by rewrite !list_fmap_id.
Qed.

Lemma capnp_event_rt e r : capnp_event_ok e -> capnp_event_absorb (capnp_event_emit e ++ r) = Some (e, r).
Proof.
  unfold capnp_event_absorb, capnp_event_emit. destruct e; cbn [capnp_event_ok]; intros; destruct_and?;
    unfold string_ok in *; field; cbn; by repeat field.
Qed.

Lemma metadata_rt c r : metadata_ok c -> absorb (emit c ++ r) = Some (c, r).
Proof.
  destruct c. intros (? & ? & He). cbn in *. do 2 field.
  rewrite (vec_rt _ _ id _ _ _ capnp_event_rt He). cbn. by rewrite list_fmap_id.
Qed.

Lemma strace_rt s r : strace_ok s -> absorb (emit s ++ r) = Some (s, r).
Proof.
  destruct s as [c p a res d]. intros (? & ? & Ha & Hr & ?). cbn in *. unfold string_ok in *. do 2 field.
  rewrite <- ?app_assoc.
  rewrite (vec_rt _ _ id _ _ _ (fun x r (Hx : string_ok x) => absorb_string_emit x r Hx) Ha). cbn.
  rewrite absorb_option_emit by (intros x r' ->; by apply absorb_string_emit). cbn. field.
  by rewrite list_fmap_id.
Qed.

Lemma absorb_ext_rt {A} (C : Codec A) (a b : A) :
  (forall r, @absorb _ _ C (@emit _ _ C a ++ r) = Some (b, r)) -> @absorb_ext _ _ C (@emit _ _ C a) = Some b.
Proof.
  intros Hr. unfold absorb_ext. rewrite <- (app_nil_r (emit a)), Hr. by rewrite leftover_nil.
Qed.

(** * Keys *)

Definition v2_key_ok (k : StatsV2DbKey) : Prop := uint_ok 4 (v2_height k) /\ time_ok (v2_time k).
Definition capnp_key_ok (k : CapnpEventWithMetadataKey) : Prop := uint_ok 4 (ck_height k) /\ time_ok (ck_time k).
Definition stats_key_ok (k : StatsDbKey) : Prop := uint_ok 4 (sk_height k) /\ addr_ok (sk_node_address k).

#[export] Instance v2_height_key :
  HeightKey stats_v2_key_codec v2_height (fun k => time_emit (v2_time k)) STATS_BLOCK_V2 v2_key_ok.
Proof.
  split; [|intros k Hk; apply absorb_ext_rt; intros r|by intros k [? ?]|by right].
  - intros k [Hh _]. cbn. by rewrite emit_uint_be.
  - destruct k, Hk. cbn in *. by repeat field.
Qed.

#[export] Instance capnp_height_key :
  HeightKey capnp_key_codec ck_height (fun k => time_emit (ck_time k)) CAPNP capnp_key_ok.
Proof.
  split; [|intros k Hk; apply absorb_ext_rt; intros r|by intros k [? ?]|by left].
  - intros k [Hh _]. cbn. by rewrite emit_uint_be.
  - destruct k, Hk. cbn in *. by repeat field.
Qed.

#[export] Instance stats_height_key :
  HeightKey stats_key_codec sk_height (fun k => addr_emit (sk_node_address k)) STATS stats_key_ok.
Proof.
  split; [|intros k Hk; apply absorb_ext_rt; intros r|by intros k [? ?]|by right].
  - intros k [Hh _]. cbn. by rewrite emit_uint_be.
  - destruct k, Hk. cbn in *. by repeat field.
Qed.

(** Keys with a time sort by it. *)
Lemma key_cmp_time (a b : Z) : time_ok a -> time_ok b -> key_cmp (time_emit a) (time_emit b) = (a ?= b).
Proof.
  unfold time_ok, time_emit, duration_emit. intros Ha Hb.
  assert (D : forall t, 0 <= t < 2 ^ 64 * 10 ^ 9 -> uint_ok 8 (t / 10 ^ 9) /\ uint_ok 4 (t mod 10 ^ 9)).
  { intros t Ht. unfold uint_ok. cbn. pose proof (Z.mod_pos_bound t (10 ^ 9)).
    split; [split; [apply Z.div_pos; lia|apply Z.div_lt_upper_bound; lia]|lia]. }
  destruct (D a Ha), (D b Hb). rewrite !emit_uint_be by done.
  rewrite key_cmp_app_length by (by rewrite !length_be_encode). rewrite !key_cmp_be by done.
  destruct (Z.compare_spec (a / 10 ^ 9) (b / 10 ^ 9)), (Z.compare_spec (a mod 10 ^ 9) (b mod 10 ^ 9)),
    (Z.compare_spec a b); try done; Z.to_euclidean_division_equations; lia.
Qed.

End RoundTrips.

(** * What the readers give back *)

(** The writes of [DbCore] to these families. *)
Inductive StatPut : Type :=
| PutStats (height : Z) (node_address : SocketAddr) (value : BlockStat)
| PutStatsBlockV2 (event : StatEvent)
| PutCapnp (key : CapnpEventWithMetadataKey) (event : CapnpEventWithMetadata).

Definition put_event (p : StatPut) : option StatEvent :=
  match p with PutStatsBlockV2 e => Some e | _ => None end.
Definition put_node_stat (p : StatPut) : option (StatsDbKey * BlockStat) :=
  match p with PutStats h a b => Some (mkStatsDbKey h a, b) | _ => None end.
Definition put_gossip (p : StatPut) : option (CapnpEventWithMetadataKey * CapnpEventWithMetadata) :=
  match p with PutCapnp k c => Some (k, c) | _ => None end.

(** The last event stored for a height and a time. *)
Definition last_event (h t : Z) (es : list StatEvent) : option StatEvent :=
  last (filter (fun e => se_block_height e = h /\ se_better_time e = t) es).

(** [last_write] of the rows of a list, as the last item that satisfies a
    predicate. *)
Lemma last_write_fmap {K T A} `{!EqDecision K} (key : A -> K) (val : A -> T) (k : K) (P : A -> Prop)
    `{!forall a, Decision (P a)} (l : list A) :
  (forall a, key a = k <-> P a) ->
  last_write k ((fun a => (key a, val a)) <$> l) = val <$> last (filter P l).
Proof.
  intros HP. unfold last_write. rewrite <- fmap_last. f_equal.
  induction l as [|a l IH]; [done|]. cbn [fmap list_fmap]. rewrite !filter_cons. cbn [fst].
  destruct (decide (P a)); [rewrite decide_True by (by apply HP); cbn; by f_equal|].
  by rewrite decide_False by (by rewrite HP).
Qed.

(** ** Gossip that was not seen before *)

(** The same message, seen in the same direction. *)
Definition published (e : CapnpEventDecoded) : option bytes :=
  match e with DecodedPublish _ hash => Some hash | DecodedReceived _ _ _ _ => None end.
Definition received (e : CapnpEventDecoded) : option bytes :=
  match e with DecodedReceived _ _ _ hash => Some hash | DecodedPublish _ _ => None end.

Definition same_gossip (e e' : CapnpEventDecoded) : bool :=
  bool_decide (published e = published e' /\ received e = received e').

(** The events of a list that repeat none of [past] and none before them. *)
Fixpoint fresh (past es : list CapnpEventDecoded) : list CapnpEventDecoded :=
  match es with
  | [] => []
  | e :: es => (if existsb (same_gossip e) past then [] else [e]) ++ fresh (past ++ [e]) es
  end.

Definition of_node (a : SocketAddr) (rows : list CapnpTableRow) : list CapnpEventDecoded :=
  rows ≫= fun v => if decide (row_node_address v = a) then row_events v else [].

(** Each row with the events that repeat nothing of its node. *)
Fixpoint fresh_rows (past rows : list CapnpTableRow) : list CapnpTableRow :=
  match rows with
  | [] => []
  | v :: rows => with_events v (fresh (of_node (row_node_address v) past) (row_events v)) ::
                 fresh_rows (past ++ [v]) rows
  end.

Definition has_events (v : CapnpTableRow) : bool := match row_events v with [] => false | _ => true end.

Definition seen_of (past : list CapnpEventDecoded) : Seen :=
  (list_to_set (omap published past), list_to_set (omap received past)).

Lemma same_gossip_spec (e e' : CapnpEventDecoded) :
  same_gossip e e' = true <-> published e = published e' /\ received e = received e'.
Proof. apply bool_decide_eq_true. Qed.

Lemma existsb_same_gossip (past : list CapnpEventDecoded) (e : CapnpEventDecoded) :
  existsb (same_gossip e) past = negb (match e with
    | DecodedPublish _ hash => bool_decide (hash ∉ (seen_of past).1)
    | DecodedReceived _ _ _ hash => bool_decide (hash ∉ (seen_of past).2)
    end).
Proof.
  apply eq_true_iff_eq. rewrite existsb_exists. setoid_rewrite <- list_elem_of_In.
  destruct e; cbn;
    rewrite bool_decide_not, negb_involutive, bool_decide_eq_true, elem_of_list_to_set, list_elem_of_omap;
    setoid_rewrite same_gossip_spec; (split; intros (x & Hx & E); exists x; destruct x; naive_solver).
Qed.

Lemma seen_of_snoc (past : list CapnpEventDecoded) (e : CapnpEventDecoded) :
  seen_of (past ++ [e]) =
  match e with
  | DecodedPublish _ hash => ({[hash]} ∪ (seen_of past).1, (seen_of past).2)
  | DecodedReceived _ _ _ hash => ((seen_of past).1, {[hash]} ∪ (seen_of past).2)
  end.
Proof.
  unfold seen_of. rewrite !omap_app, !list_to_set_app_L. destruct e; cbn; f_equal; set_solver.
Qed.

(** [retain_new] with the sets of the past keeps what is fresh. *)
Lemma retain_new_fresh (es : list CapnpEventDecoded) : forall past,
  retain_new es (seen_of past) = (fresh past es, seen_of (past ++ es)).
Proof.
  induction es as [|e es IH]; intros past; [by rewrite app_nil_r|].
  specialize (IH (past ++ [e])). rewrite <- app_assoc, seen_of_snoc in IH. cbn [app] in IH.
  cbn [retain_new fresh]. rewrite existsb_same_gossip. destruct e; rewrite IH; by case_bool_decide.
Qed.

Lemma of_node_snoc (a : SocketAddr) (past : list CapnpTableRow) (v : CapnpTableRow) :
  of_node a (past ++ [v]) =
  of_node a past ++ (if decide (row_node_address v = a) then row_events v else []).
Proof. unfold of_node. by rewrite bind_app, bind_singleton. Qed.

(** The scan gives the rows with what is new of them, up to the first one without. *)
Lemma scan_new_fresh (rows : list CapnpTableRow) : forall past state,
  (forall a, default (∅, ∅) (state !! a) = seen_of (of_node a past)) ->
  scan_new rows state = take_while has_events (fresh_rows past rows).
Proof.
  induction rows as [|v rows IH]; intros past state Hs; [done|]. cbn. rewrite Hs, retain_new_fresh.
  destruct (fresh _ (row_events v)) as [|e es] eqn:E; cbn; [done|]. f_equal. apply IH. intros a.
  rewrite of_node_snoc. destruct (decide (row_node_address v = a)) as [<-|Hne].
  - by rewrite lookup_insert_eq.
  - by rewrite lookup_insert_ne, app_nil_r by done.
Qed.

(** ** Joining the statistics of the nodes *)

Lemma join_stats_acc (rows : list (StatsDbKey * BlockStat)) : forall k b,
  foldl join_stats (Some (k, b)) rows
  = Some (k, mkBlockStat (height b) (Stats.events b ++ (rows ≫= fun kv => Stats.events kv.2))).
Proof.
  induction rows as [|kv rows IH]; intros k b; cbn; [destruct b; by rewrite app_nil_r|].
  rewrite IH. cbn. by rewrite app_assoc.
Qed.

Lemma join_stats_rows (rows : list (StatsDbKey * BlockStat)) :
  foldl join_stats None rows
  = match rows with
    | [] => None
    | kv :: _ => Some (kv.1, mkBlockStat (sk_height kv.1) (rows ≫= fun kv => Stats.events kv.2))
    end.
Proof. destruct rows as [|kv rows]; [done|]. cbn. by rewrite join_stats_acc. Qed.

Section History.
Context `{RadiationLaws, !RadiationDerive, !RadiationDeriveLaws, !GossipLib, !BinprotStable}.
Context {R : Type} `{!Rocks R, !RocksLaws R}.

Definition v2_key (e : StatEvent) : StatsV2DbKey := mkStatsV2DbKey (se_block_height e) (se_better_time e).

Definition run_put (p : StatPut) : DbM R unit :=
  match p with
  | PutStats h a b => put_stats h a (emit b)
  | PutStatsBlockV2 e => put_stats_block_v2 e
  | PutCapnp k c => core_put_capnp k c
  end.

Definition put_ok_stat (p : StatPut) : Prop :=
  match p with
  | PutStats h a b => uint_ok 4 h /\ addr_ok a /\ block_stat_ok b
  | PutStatsBlockV2 e => event_ok e
  | PutCapnp k c => capnp_key_ok k /\ metadata_ok c
  end.

Lemma event_reads e : event_ok e -> absorb_ext (emit e) = Some (stored_event e).
Proof. intros He. apply absorb_ext_rt. intros r. by apply event_rt. Qed.

Lemma block_stat_reads b : block_stat_ok b -> absorb_ext (emit b) = Some (stored_block_stat b).
Proof. intros He. apply absorb_ext_rt. intros r. by apply block_stat_rt. Qed.

Lemma metadata_reads c : metadata_ok c -> absorb_ext (emit c) = Some c.
Proof. intros He. apply absorb_ext_rt. intros r. by apply metadata_rt. Qed.

(** Rows sorted by a time are listed in its order. *)
Lemma sorted_times {K} (time : K -> Z) (ok : K -> Prop) (l : list K) :
  (forall k, k ∈ l -> time_ok (time k)) ->
  StronglySorted (fun a b => key_cmp (time_emit (time a)) (time_emit (time b)) = Lt) l ->
  StronglySorted Z.lt (time <$> l).
Proof using H0.
  induction l as [|a l IH]; intros Ht HS; [constructor|]. apply StronglySorted_inv in HS as [HS HF].
  cbn. constructor; [apply IH; [|done]; intros k Hk; apply Ht; by right|].
  apply Forall_fmap. rewrite Forall_forall in *. intros k Hk. specialize (HF k Hk). cbn.
  rewrite key_cmp_time in HF; [by apply Z.compare_lt_iff|apply Ht; by left|apply Ht; by right].
Qed.

(** Every reader sees the history of its own family. *)
Lemma run_puts_rows {K T} `{!EqDecision K} (CK : Codec K) (CT : Codec T) height_of suffix cf okK okT
    `{!HeightKey CK height_of suffix cf okK} (sel : StatPut -> option (K * T)) (ps : list StatPut) (db : DbCore R) :
  writes_rows CK CT cf sel run_put ->
  (forall p k v, put_ok_stat p -> sel p = Some (k, v) -> okK k /\ okT v) ->
  healthy (db_inner db) -> contents (db_inner db) cf = ∅ -> Forall put_ok_stat ps ->
  exists db', for_each ps run_put db = (db', Ok tt) /\ healthy (db_inner db') /\
    holds_rows CK CT cf (db_inner db') (omap sel ps) /\ rows_ok okK okT (omap sel ps).
Proof.
  intros Hw Hs Hh Hc Hps. assert (Hok : rows_ok okK okT (omap sel ps)).
  { rewrite Forall_forall in Hps. apply Forall_forall. intros [k v] (p & Hp & E)%list_elem_of_omap.
    apply (Hs p); auto. }
  destruct (for_each_rows CK CT height_of suffix cf okK okT ps sel run_put [] db) as (db' & ? & ? & ?);
    eauto using holds_rows_nil.
Qed.

Definition event_row (p : StatPut) : option (StatsV2DbKey * StatEvent) :=
  (fun e => (v2_key e, e)) <$> put_event p.

Lemma event_rows (ps : list StatPut) : omap event_row ps = (fun e => (v2_key e, e)) <$> omap put_event ps.
Proof. induction ps as [|p ps IH]; [done|]. destruct p; cbn; by rewrite IH. Qed.

(** The events of a height. *)
Lemma block_stats_rows (es : list StatEvent) (db : DbCore R) (h : Z) :
  let hist := (fun e => (v2_key e, e)) <$> es in
  healthy (db_inner db) -> holds_rows stats_v2_key_codec stat_event_codec STATS_BLOCK_V2 (db_inner db) hist ->
  rows_ok v2_key_ok event_ok hist -> uint_ok 4 h ->
  let l := fetch_stats_block_v2 h db in
  StronglySorted Z.lt (se_better_time <$> l) /\
  forall e, e ∈ l <-> stored_event <$> last_event h (se_better_time e) es = Some e.
Proof.
  intros hist Hh HR Hok Hz l.
  destruct (rows_of_spec _ _ _ _ _ _ _ stored_event event_reads hist db h Hh HR Hok Hz) as [HS HM].
  set (rows := rows_of _ _ _ _ _ _) in *.
  assert (Hrow : forall k e, (k, e) ∈ rows -> k = v2_key e /\ time_ok (v2_time k) /\ se_block_height e = h).
  { intros k e [Ek (e0 & Hl & ->)%fmap_Some]%HM. pose proof (rows_ok_last _ _ _ _ _ Hok Hl) as [[_ Ht] _].
    apply last_write_elem, list_elem_of_fmap in Hl as (e1 & [= -> ->] & _). done. }
  assert (El : se_better_time <$> l = v2_time <$> rows.*1).
  { unfold l, fetch_stats_block_v2. fold rows. rewrite <- !list_fmap_compose. apply list_fmap_ext.
    intros i [k e] Hi. apply list_elem_of_lookup_2, Hrow in Hi as [-> _]. done. }
  assert (HL : forall t, last_write (mkStatsV2DbKey h t) hist = last_event h t es).
  { intros t. unfold hist. rewrite (last_write_fmap v2_key Datatypes.id _
      (fun e => se_block_height e = h /\ se_better_time e = t)).
    - unfold last_event. by destruct (last _).
    - intros e. unfold v2_key. split; [by intros [= -> ->]|by intros [-> ->]]. }
  split.
  - rewrite El. apply (sorted_times _ v2_key_ok); [|done].
    intros k ([k' e] & -> & Hk)%list_elem_of_fmap. by apply Hrow in Hk as (_ & ? & _).
  - intros e. unfold l, fetch_stats_block_v2. fold rows. rewrite list_elem_of_fmap, <- HL. split.
    + intros ([k e'] & -> & Hk). pose proof (Hrow _ _ Hk) as (-> & _ & E). cbn in *. rewrite <- E.
      apply HM in Hk as [_ Hk]. exact Hk.
    + intros Hl. exists (mkStatsV2DbKey h (se_better_time e), e). split; [done|]. by apply HM.
Qed.

(** The statistics of all nodes for a height. *)
Lemma node_stats_rows (hist : list (StatsDbKey * BlockStat)) (db : DbCore R) (h : Z) :
  healthy (db_inner db) -> holds_rows stats_key_codec block_stat_codec STATS (db_inner db) hist ->
  rows_ok stats_key_ok block_stat_ok hist -> uint_ok 4 h ->
  exists rows : list (SocketAddr * BlockStat),
    StronglySorted (fun a b => key_cmp (addr_emit a) (addr_emit b) = Lt) rows.*1 /\
    (forall a b, (a, b) ∈ rows <-> stored_block_stat <$> last_write (mkStatsDbKey h a) hist = Some b) /\
    fetch_stats h db = match rows with
                       | [] => None
                       | (a, _) :: _ => Some (mkStatsDbKey h a,
                                          mkBlockStat h (rows ≫= fun ab => Stats.events ab.2))
                       end.
Proof.
  intros Hh HR Hok Hz.
  destruct (rows_of_spec _ _ _ _ _ _ _ stored_block_stat block_stat_reads hist db h Hh HR Hok Hz) as [HS HM].
  unfold fetch_stats. set (rows := rows_of _ _ _ _ _ _) in *. rewrite join_stats_rows.
  assert (Hrow : forall kv, kv ∈ rows -> kv.1 = mkStatsDbKey h (sk_node_address kv.1)).
  { intros [[h' a] b] [E _]%HM. cbn in *. by rewrite E. }
  exists ((fun kv => (sk_node_address kv.1, kv.2)) <$> rows). split_and!.
  - replace (_ <$> (_ <$> rows)) with (sk_node_address <$> rows.*1) by (by rewrite <- !list_fmap_compose).
    by eapply sorting.StronglySorted_fmap; [|exact HS].
  - intros a b. transitivity ((mkStatsDbKey h a, b) ∈ rows).
    + rewrite list_elem_of_fmap. split; [|intros Hk; by exists (mkStatsDbKey h a, b)].
      intros ([k b'] & [= -> ->] & Hk). pose proof (Hrow _ Hk) as E. cbn in *. by rewrite <- E.
    + rewrite HM. split; [by intros [_ ?]|done].
  - destruct rows as [|[k b] rows']; [done|]. cbn [fmap list_fmap fst snd].
    pose proof (Hrow (k, b) ltac:(by left)) as E. cbn [fst snd] in E |- *. rewrite E. cbn. do 3 f_equal.
    by rewrite list_fmap_bind.
Qed.

(** The helper's gossip of a height. *)
Lemma capnp_history (hist : list (CapnpEventWithMetadataKey * CapnpEventWithMetadata)) (db : DbCore R) (h : Z) :
  healthy (db_inner db) -> holds_rows capnp_key_codec capnp_metadata_codec CAPNP (db_inner db) hist ->
  rows_ok capnp_key_ok metadata_ok hist -> uint_ok 4 h ->
  exists rows : list (CapnpEventWithMetadataKey * CapnpEventWithMetadata),
    StronglySorted Z.lt (ck_time <$> rows.*1) /\
    (forall k c, (k, c) ∈ rows <-> ck_height k = h /\ last_write k hist = Some c) /\
    fetch_capnp h true db = transform <$> rows /\
    fetch_capnp h false db = take_while has_events (fresh_rows [] (transform <$> rows)).
Proof.
  intros Hh HR Hok Hz.
  destruct (rows_of_spec _ _ _ _ _ _ _ Datatypes.id metadata_reads hist db h Hh HR Hok Hz) as [HS HM].
  exists (rows_of capnp_key_codec capnp_metadata_codec ck_height CAPNP h db).
  split_and!.
  - apply (sorted_times _ capnp_key_ok); [|exact HS].
    intros k ([k' c] & -> & Hk)%list_elem_of_fmap. apply HM in Hk as [_ (c0 & Hl & _)%fmap_Some].
    by apply (rows_ok_last _ _ _ _ _ Hok) in Hl as [[_ ?] _].
  - intros k c. rewrite HM. by destruct (last_write k hist).
  - done.
  - unfold fetch_capnp. by apply scan_new_fresh.
Qed.

(** ** What the statistics of a message write *)

(** The events of a message that was parsed without a panic. *)
Definition parsed_events (steps : list (outcome (option Event))) (evs : list Event) : Prop :=
  exists os, steps = Ret <$> os /\ evs = omap Datatypes.id os.

Lemma on_world_bind (m k : DbM R unit) (w : World R) :
  on_world (on_core (m;; k)) w
  = match on_world (on_core m) w with
    | (w', Ok _) => on_world (on_core k) w'
    | (w', Err e) => (w', Err e)
    end.
Proof.
  unfold on_world, on_core, mbind, db_bind. destruct (m (core (w_facade w))) as [db [a|e]]; [|done]. cbn.
  by destruct (k db).
Qed.

(** [update_block_stats] on the database writes the block events of the message. *)
Lemma update_steps_puts (o : Obs) (steps : list (outcome (option Event))) (evs : list Event) :
  parsed_events steps evs -> forall w : World R,
  update_steps o steps w
  = Ret (on_world (on_core (for_each (PutStatsBlockV2 <$> omap (update_event o) evs) run_put)) w).
Proof.
  intros (os & -> & ->). induction os as [|[e|] os IH]; intros w.
  - destruct w as [[]]. done.
  - cbn [fmap list_fmap update_steps mbind outcome_bind]. cbn [omap list_omap Datatypes.id option_bind mbind].
    destruct (update_event o e) as [ev|]; [|apply IH]. cbn [fmap list_fmap for_each run_put].
    rewrite on_world_bind. unfold db_stats_block_v2, world_stats_db, facade_stats_block_v2.
    destruct (on_world _ w) as [w' [[]|]]; [apply IH|done].
  - cbn [fmap list_fmap update_steps mbind outcome_bind]. apply IH.
Qed.

End History.

(** C30: the readers of the statistics give back the history of the writes. After
    any writes to the three families, in any order, all of them succeed and, for
    every height: the block events are the last ones stored for each time, in the
    order of their times (an event with the time of an earlier one replaces it, and
    a latency of zero is lost); the statistics are those of every node that stored
    some for the height, the last ones of each, joined in the order of the
    addresses; the rows of the helper's gossip are the last ones of each time, in
    the order of the times, and without repetitions each row keeps what its node did
    not send or receive before, but the list ends at the first row that keeps
    nothing. *)
Theorem statistics_history
    `{RadiationLaws, !RadiationDerive, !RadiationDeriveLaws, !GossipLib, !BinprotStable}
    {R : Type} `{!Rocks R, !RocksLaws R} (ps : list StatPut) (db : DbCore R) :
  healthy (db_inner db) ->
  Forall (fun cf => contents (db_inner db) cf = ∅) [STATS_BLOCK_V2; STATS; CAPNP] ->
  Forall put_ok_stat ps ->
  exists db', for_each ps run_put db = (db', Ok tt) /\ forall h, uint_ok 4 h ->
    (let l := fetch_stats_block_v2 h db' in
     StronglySorted Z.lt (se_better_time <$> l) /\
     forall e, e ∈ l <-> stored_event <$> last_event h (se_better_time e) (omap put_event ps) = Some e) /\
    (exists rows : list (SocketAddr * BlockStat),
      StronglySorted (fun a b => key_cmp (addr_emit a) (addr_emit b) = Lt) rows.*1 /\
      (forall a b, (a, b) ∈ rows <->
         stored_block_stat <$> last_write (mkStatsDbKey h a) (omap put_node_stat ps) = Some b) /\
      fetch_stats h db' = match rows with
                          | [] => None
                          | (a, _) :: _ => Some (mkStatsDbKey h a,
                                             mkBlockStat h (rows ≫= fun ab => Stats.events ab.2))
                          end) /\
    (exists rows : list (CapnpEventWithMetadataKey * CapnpEventWithMetadata),
      StronglySorted Z.lt (ck_time <$> rows.*1) /\
      (forall k c, (k, c) ∈ rows <-> ck_height k = h /\ last_write k (omap put_gossip ps) = Some c) /\
      fetch_capnp h true db' = transform <$> rows /\
      fetch_capnp h false db' = take_while has_events (fresh_rows [] (transform <$> rows))).
Proof.
  intros Hh Hc Hps. rewrite !Forall_cons in Hc. destruct Hc as (Hc1 & Hc2 & Hc3 & _).
  destruct (run_puts_rows stats_v2_key_codec stat_event_codec v2_height _ STATS_BLOCK_V2 v2_key_ok event_ok
              event_row ps db) as (db' & Ep & Hh' & R1 & O1); [| |done..|].
  { intros [h a b|e|k c]; eexists _, _, _; (split; [done|]); done. }
  { intros [h a b|e|k c] ? ? Hp [= <- <-]. split; [|done]. destruct Hp as (? & ? & ? & ? & ? & ? & ? & _). done. }
  destruct (run_puts_rows stats_key_codec block_stat_codec sk_height _ STATS stats_key_ok block_stat_ok
              put_node_stat ps db) as (db2 & Ep2 & _ & R2 & O2); [| |done..|].
  { intros [h a b|e|k c]; eexists _, _, _; (split; [done|]); done. }
  { intros [h a b|e|k c] ? ? Hp [= <- <-]. by destruct Hp as (? & ? & ?). }
  destruct (run_puts_rows capnp_key_codec capnp_metadata_codec ck_height _ CAPNP capnp_key_ok metadata_ok
              put_gossip ps db) as (db3 & Ep3 & _ & R3 & O3); [| |done..|].
  { intros [h a b|e|k c]; eexists _, _, _; (split; [done|]); done. }
  { intros [h a b|e|k c] ? ? Hp [= <- <-]. done. }
  rewrite Ep in Ep2, Ep3. injection Ep2 as <-. injection Ep3 as <-. rewrite event_rows in R1, O1.
  exists db'. split; [done|]. intros h Hz.
  split_and!; [by apply block_stats_rows|by apply node_stats_rows|by apply capnp_history].
Qed.

(** ** Concrete codecs and a history *)

Fixpoint demo_absorb_items {A} (a : bytes -> option (A * bytes)) (n : nat) (l : bytes) : option (list A * bytes) :=
  match n with
  | O => Some ([], l)
  | S n => '(x, r) ← a l; '(xs, r) ← demo_absorb_items a n r; Some (x :: xs, r)
  end.

Definition demo_derive : RadiationDerive := {|
  emit_vec A e l := be_encode 4 (Z.of_nat (length l)) ++ (l ≫= e);
  absorb_vec A a l := '(n, r) ← demo_absorb_uint 4 l; demo_absorb_items a (Z.to_nat n) r;
  emit_option A e o := match o with Some x => [1] ++ e x | None => [0] end;
  absorb_option A a l :=
    match l with
    | 1 :: l => '(x, r) ← a l; Some (Some x, r)
    | 0 :: l => Some (None, l)
    | _ => None
    end;
  emit_variant v := [v];
  absorb_variant l := match l with v :: r => Some (v, r) | [] => None end;
|}.

Lemma demo_derive_laws : @RadiationDeriveLaws demo_derive.
Proof.
  split; cbn.
  - intros A e a f l r Hl Ha. rewrite <- app_assoc, demo_uint_rt by lia. cbn [mbind option_bind].
    rewrite Nat2Z.id. clear Hl. induction l as [|x l IH]; [done|]. cbn. rewrite <- app_assoc, Ha by (by left).
    cbn. rewrite IH by (intros y r' Hy; apply Ha; by right). done.
  - intros A e a [x|] r Ha; [|done]. cbn. by rewrite Ha.
  - done.
Qed.

Definition demo_stable : BinprotStable := {| command_read := Some; work_read := Some |}.

Section demo.
#[local] Existing Instances demo_radiation demo_radiation_laws demo_derive demo_derive_laws demo_stable
  demo_gossip mem_rocks mem_laws.

Definition demo_node (n : Z) : SocketAddr := mkSocketAddr (V4 [10; 0; 0; n]) 8302.
Definition demo_stat (id t : Z) (latency : option Z) : StatEvent :=
  mkStatEvent [7] (repeat id 32) 1 1 true PublishNewState id t t latency (demo_node 1) (demo_node 2).
Definition demo_received (n : Z) : CapnpEvent := EvReceivedGossip [] (str "10.0.0.1") 1 [1; n] (repeat n 32).
Definition demo_row (node : Z) (es : list CapnpEvent) : CapnpEventWithMetadata :=
  mkCapnpMetadata 0 (demo_node node) es.

(** Two events of one time; statistics of two nodes; four rows of gossip, the
    third of which repeats the first. *)
Definition demo_puts : list StatPut :=
  [PutStatsBlockV2 (demo_stat 1 2000 None);
   PutCapnp (mkCapnpKey 1 3000) (demo_row 1 [demo_received 5]);
   PutStatsBlockV2 (demo_stat 2 1000 (Some 0));
   PutStats 1 (demo_node 2) (mkBlockStat 1 [demo_stat 4 1 None]);
   PutStatsBlockV2 (demo_stat 3 2000 (Some 7));
   PutCapnp (mkCapnpKey 1 1000) (demo_row 1 [demo_received 5; demo_received 6; demo_received 6]);
   PutStats 1 (demo_node 1) (mkBlockStat 1 [demo_stat 5 2 None]);
   PutCapnp (mkCapnpKey 2 1000) (demo_row 1 [demo_received 8]);
   PutCapnp (mkCapnpKey 1 2000) (demo_row 2 [demo_received 5]);
   PutCapnp (mkCapnpKey 1 4000) (demo_row 1 [demo_received 7])].

Definition demo_db : DbCore MemStore := mkCore ∅ (fun _ => ∅).
Definition demo_after : DbCore MemStore := (for_each demo_puts run_put demo_db).1.

Definition row_hashes (v : CapnpTableRow) : list Z :=
  e ← row_events v; match received e with Some (b :: _) => [b] | _ => [] end.

(** The event of id 1 is gone, the latency of zero is lost; the last row of gossip
    is only listed with the repetitions. *)
Example demo_readers :
  List.map (fun e => (se_message_id e, se_latency e)) (fetch_stats_block_v2 1 demo_after)
    = [(2, None); (3, Some 7)] /\
  option_map (fun kb => (sk_node_address kb.1, List.map se_message_id (Stats.events kb.2))) (fetch_stats 1 demo_after)
    = Some (demo_node 1, [5; 4]) /\
  List.map row_hashes (fetch_capnp 1 true demo_after) = [[5; 6; 6]; [5]; [5]; [7]] /\
  List.map row_hashes (fetch_capnp 1 false demo_after) = [[5; 6]; [5]] /\
  fetch_stats 3 demo_after = None /\
  option_map fst (fetch_last_stat_block_v2 demo_after) = Some 1 /\
  option_map (List.map row_hashes) (fetch_capnp_latest false demo_after) = Some [[8]].
Proof. vm_compute. split_and!; reflexivity. Qed.

Lemma statistics_history_witness :
  exists db', for_each demo_puts run_put demo_db = (db', Ok tt) /\
    StronglySorted Z.lt (se_better_time <$> fetch_stats_block_v2 1 db').
Proof.
  destruct (statistics_history demo_puts demo_db) as (db' & Ep & Hr).
  - exact I.
  - repeat constructor.
  - repeat constructor; vm_compute; intuition congruence.
  - exists db'. split; [exact Ep|]. apply (Hr 1). split; [discriminate|reflexivity].
Defined.

End demo.
