(* ===== verification/Views.v ===== *)
(** How a stored message is shown: [fetch_full_message] of [database/core.rs] and the
    [parse] functions of [decode/] ([noise.rs], [yamux.rs], [json_string.rs],
    [rpc.rs], [identify.rs], [kademlia.rs], [meshsub.rs], [utils.rs]), which turn the
    bytes a layer stored into JSON. The generated protobuf code, the registry of RPC
    payloads, the JSON of Mina messages, the key and address formats and the JSON
    parser are the class [ViewLib]. *)

From stdpp Require Import base list gmap sorting strings.
From Stdlib Require Import ZArith Lia.
From S2P Require Import Prelude Types Framing Accumulator Yamux Mplex Noise MinaProtocol Handle Text Coding Params Rocks DbCore.
From S2P Require Import DbIndex DbSpec DbBlobs Decode Facade DbDemo Meshsub.

(** * JSON *)

(** [serde_json::Value]; the fields of an object in the order of the struct. *)
Inductive JValue : Type :=
| JNull
| JBool (b : bool)
| JNum (n : Z)
| JString (s : bytes)
| JArr (l : list JValue)
| JObj (fields : list (bytes * JValue)).

#[export] Instance JValue_json : Json JValue := JString.

Definition jopt {A} (f : A -> JValue) (o : option A) : JValue := match o with Some a => f a | None => JNull end.
Definition jlist {A} (f : A -> JValue) (l : list A) : JValue := JArr (List.map f l).

(** [#[serde(tag = "type")]] *)
Definition tagged (name : bytes) (fields : list (bytes * JValue)) : JValue :=
  JObj ((str "type", JString name) :: fields).

(** * Decoded messages *)

(** [keys_proto::KeyType] and [pb::Envelope] *)
Inductive KeyType : Type := Rsa | Ed25519 | Secp256k1 | Ecdsa.

Record Envelope : Type := mkEnvelope {
  en_public_key : option (KeyType * bytes);
  en_payload_type : bytes;
  en_payload : bytes;
  en_signature : bytes;
}.

(** [pb::Identify] *)
Record Identify : Type := mkIdentify {
  id_protocol_version : option bytes;
  id_agent_version : option bytes;
  id_public_key : option bytes;
  id_listen_addrs : list bytes;
  id_observed_addr : option bytes;
  id_protocols : list bytes;
}.

(** [pb::Message] of [kad.proto] *)
Inductive ConnectionType : Type := NotConnected | Connected | CanConnect | CannotConnect.

Record KadRecord : Type := mkKadRecord { kr_key : bytes; kr_value : bytes; kr_time_received : bytes }.
Record KadPeer : Type := mkKadPeer { kp_id : bytes; kp_addrs : list bytes; kp_connection : ConnectionType }.
Record KadMessage : Type := mkKadMessage {
  km_type : KadType;
  km_key : bytes;
  km_record : option KadRecord;
  km_closer_peers : list KadPeer;
  km_provider_peers : list KadPeer;
}.

(** [JSONinifyPayloadReader] *)
Record PayloadReader : Type := mkReader {
  rd_query : bytes -> option JValue;
  rd_response : bytes -> option JValue;
}.

Inductive Registry : Type := V1 | V2.

Class ViewLib : Type := {
  envelope_decode : bytes -> option Envelope;
  (** [try_from_bytes] of the key type, [PeerId::from_public_key], [to_base58] *)
  key_peer_id : KeyType -> bytes -> option bytes;
  key_type_name : KeyType -> bytes;
  identify_decode : bytes -> option Identify;
  kad_message_decode : bytes -> option KadMessage;
  (** [multiaddr::Protocol::from_bytes], printed, and the rest; or the error *)
  protocol_from_bytes : bytes -> result (bytes * bytes) bytes;
  json_from_str : bytes -> option JValue;
  registry_get : Registry -> bytes -> Z -> option PayloadReader;
  peer_id_json : bytes -> JValue;
  gossip_v1_json : GossipNetMessageV1 -> JValue;
  gossip_v2_json : GossipNetMessageV2 -> JValue;
}.

(** A protocol of an address takes at least a byte. *)
Class ViewLaws `{!ViewLib} : Prop :=
  protocol_consumes : forall l p r, protocol_from_bytes l = Ok (p, r) -> (length r < length l)%nat.

Section Views.
Context `{!Radiation, !Binprot, !Blake2, !GossipLib, !ViewLib}.

(** * The parsers *)

Definition jhex (b : bytes) : JValue := JString (hex_encode b).

(** ** [decode/noise.rs] *)

Definition failure_view (data : bytes) : option JValue :=
  let u64s := '(a, r) ← absorb_uint 8 data; '(b, r) ← absorb_uint 8 r;
              '(c, r) ← absorb_uint 8 r; '(d, r) ← absorb_uint 8 r; Some ((a, b, c, d), r) in
  match u64s with
  | Some ((a, b, c, d), r) =>
      if leftover_ok r then
        Some (JObj [(str "this_decrypted", JNum a); (str "this_failed", JNum b);
                    (str "total_decrypted", JNum c); (str "total_failed", JNum d)])
      else None
  | None => None
  end.

Definition key_view (pk : option (KeyType * bytes)) : option (bytes * bytes * bytes) :=
  match pk with
  | None => Some ([], [], [])
  | Some (Rsa, _) => None
  | Some (t, data) => id ← key_peer_id t data; Some (key_type_name t, hex_encode data, id)
  end.

Definition noise_view (data : bytes) : option JValue :=
  if starts_with mismatch_prefix data then failure_view (drop 16 data)
  else
    msg ← envelope_decode data;
    '(ty, public_key, peer_id) ← key_view (en_public_key msg);
    Some (JObj [(str "type", JString ty); (str "public_key", JString public_key);
                (str "peer_id", JString peer_id); (str "signature", jhex (en_signature msg));
                (str "payload_type", jhex (en_payload_type msg)); (str "payload", jhex (en_payload msg))]).

(** ** [decode/yamux.rs] and the derived JSON of [Header] *)

Definition header_type_json (t : HeaderType) : JValue :=
  match t with
  | Data length => tagged (str "data") [(str "length", JNum length)]
  | WindowUpdate delta => tagged (str "window_update") [(str "delta", JNum delta)]
  | HPing opaque => tagged (str "ping") [(str "opaque", JNum opaque)]
  | GoAway (Ok _) => tagged (str "go_away") [(str "Ok", JNull)]
  | GoAway (Err Protocol) => tagged (str "go_away") [(str "Err", JString (str "protocol"))]
  | GoAway (Err Internal) => tagged (str "go_away") [(str "Err", JString (str "internal"))]
  end.

Definition header_json (h : Yamux.Header) : JValue :=
  JObj [(str "version", JNum (Yamux.version h)); (str "ty", header_type_json (Yamux.ty h));
        (str "flags", JObj [(str "bits", JNum (Yamux.flags h))]);
        (str "stream_id", JNum (Yamux.stream_id h))].

Definition yamux_view (data : bytes) : option JValue :=
  if blen data =? 12 then
    match try_from data with Ok header => Some (header_json header) | Err _ => None end
  else None.

(** ** [decode/json_string.rs] *)
Definition json_view (data : bytes) (preview : bool) : option JValue :=
  if preview then Some (JString (MessageType_display PeerExchange))
  else if utf8_valid data then json_from_str data else None.

(** ** [decode/rpc.rs] *)

Definition default_reader : PayloadReader :=
  mkReader (fun data => Some (jhex data)) (fun data => Some (jhex data)).

Definition payload_reader (tag : bytes) (version : Z) : PayloadReader :=
  match registry_get V2 tag version with
  | Some r => r
  | None => match registry_get V1 tag version with Some r => r | None => default_reader end
  end.

Definition rpc_view (data : bytes) (preview : bool) : option JValue :=
  '(_, l0) ← stream_decode_size data;
  '(d, rest) ← read_nat0 (drop (Z.to_nat l0) data);
  '(msg, rest) ← read_query rest;
  let tag := to_string_lossy (q_tag msg) in
  let reader := payload_reader tag (q_version msg) in
  let fields := [(str "tag", JString tag); (str "version", JNum (q_version msg)); (str "id", JNum (q_id msg))] in
  if d =? 1 then
    if preview then Some (JString (str "Request " ++ tag))
    else query ← rd_query reader rest; Some (tagged (str "request") (fields ++ [(str "query", query)]))
  else if d =? 2 then
    if preview then Some (JString (str "Response " ++ tag))
    else value ← rd_response reader rest; Some (tagged (str "response") (fields ++ [(str "value", value)]))
  else Some JNull.

(** ** [decode/utils.rs], [decode/identify.rs], [decode/kademlia.rs] *)

(** The loop of [parse_addr]; every protocol takes at least a byte, so the length
    of the input is enough fuel. *)
Fixpoint parse_addr_loop (fuel : nat) (input acc : bytes) : bytes :=
  match input, fuel with
  | [], _ => acc
  | _, O => acc
  | _, S fuel =>
      match protocol_from_bytes input with
      | Ok (p, i) => parse_addr_loop fuel i (acc ++ p)
      | Err err => acc ++ err
      end
  end.

Definition parse_addr (input : bytes) : bytes := parse_addr_loop (length input) input [].

Definition jaddr (a : bytes) : JValue := JString (parse_addr a).

Definition identify_view (data : bytes) (preview : bool) (kind : StreamKind) : option JValue :=
  if preview then Some (JString (match kind with IpfsId => str "identify" | _ => str "identify_push" end))
  else
    i ← identify_decode data;
    Some (JObj [(str "protocol_version", jopt JString (id_protocol_version i));
                (str "agent_version", jopt JString (id_agent_version i));
                (str "public_key", jopt jhex (id_public_key i));
                (str "listen_addrs", jlist jaddr (id_listen_addrs i));
                (str "observed_addr", jopt jaddr (id_observed_addr i));
                (str "protocols", jlist JString (id_protocols i))]).

Definition kad_type_json (t : KadType) : JValue :=
  JString (match t with
           | KadPutValue => str "put_value"
           | KadGetValue => str "get_value"
           | KadAddProvider => str "add_provider"
           | KadGetProviders => str "get_providers"
           | KadFindNode => str "find_node"
           | KadPing => str "ping"
           end).

Definition kad_record_json (r : KadRecord) : JValue :=
  JObj [(str "key", jhex (kr_key r)); (str "value", jhex (kr_value r));
        (str "time_received", JString (kr_time_received r))].

Definition kad_peer_json (p : KadPeer) : JValue :=
  JObj [(str "id", jhex (kp_id p)); (str "addrs", jlist jaddr (kp_addrs p));
        (str "connection", JString (match kp_connection p with
                                    | NotConnected => str "not_connected"
                                    | Connected => str "connected"
                                    | CanConnect => str "can_connect"
                                    | CannotConnect => str "cannot_connect"
                                    end))].

Definition kad_view (data : bytes) (preview : bool) : option JValue :=
  msg ← kad_message_decode data;
  Some (if preview then kad_type_json (km_type msg)
        else JObj [(str "type", kad_type_json (km_type msg)); (str "key", jhex (km_key msg));
                   (str "record", jopt kad_record_json (km_record msg));
                   (str "closer_peers", jlist kad_peer_json (km_closer_peers msg));
                   (str "provider_peers", jlist kad_peer_json (km_provider_peers msg))]).

(** ** [decode/meshsub.rs]: the derived JSON of [Event] *)

Definition preview_json (p : GossipNetMessagePreview) : JValue :=
  tagged (match p with
          | PreviewNewState => str "new_state"
          | PreviewSnarkPoolDiff => str "snark_pool_diff"
          | PreviewTransactionPoolDiff => str "transaction_pool_diff"
          end) [].

Definition prune_json (p : PbPrune) : JValue :=
  JObj [(str "topic_id", jopt JString (pp_topic_id p));
        (str "peers", jlist (fun '(peer_id, record) =>
           JObj [(str "peer_id", jopt JString peer_id); (str "signed_peer_record", jopt JString record)])
           (pp_peers p));
        (str "backoff", jopt JNum (pp_backoff p))].

Definition event_json (e : Event) : JValue :=
  match e with
  | ESubscribe topic => tagged (str "subscribe") [(str "topic", JString topic)]
  | EUnsubscribe topic => tagged (str "unsubscribe") [(str "topic", JString topic)]
  | EPublish from seqno signature key topic message =>
      tagged (str "publish")
        [(str "from", jopt JString from); (str "seqno", jopt JString seqno);
         (str "signature", jopt JString signature); (str "key", jopt JString key);
         (str "topic", JString topic); (str "message", gossip_v1_json message)]
  | EPublishV2 from seqno signature key topic message _ =>
      tagged (str "publish_v2")
        [(str "from", jopt peer_id_json from); (str "seqno", jopt JString seqno);
         (str "signature", jopt JString signature); (str "key", jopt JString key);
         (str "topic", JString topic); (str "message", gossip_v2_json message)]
  | EPublishPreview topic message =>
      tagged (str "publish") [(str "topic", JString topic); (str "message", preview_json message)]
  | EPublishTestingMessage from topic message hash =>
      tagged (str "publish_testing_message")
        [(str "from", peer_id_json from); (str "topic", JString topic); (str "message", JString message);
         (str "hash", jlist JNum hash)]
  | EControl ihave iwant graft prune =>
      tagged (str "control")
        [(str "ihave", jlist (fun '(topic_id, ids) =>
            JObj [(str "topic_id", jopt JString topic_id); (str "message_ids", jlist JString ids)]) ihave);
         (str "iwant", jlist (fun ids => JObj [(str "message_ids", jlist JString ids)]) iwant);
         (str "graft", jlist (fun topic_id => JObj [(str "topic_id", jopt JString topic_id)]) graft);
         (str "prune", jlist prune_json prune)]
  end.

(** [parse_it(..)?.collect()] *)
Fixpoint collect (steps : list (outcome (option Event))) : outcome (list Event) :=
  match steps with
  | [] => Ret []
  | step :: steps => e ← step; es ← collect steps; Ret (option_list e ++ es)
  end.

Definition meshsub_view (data : bytes) (preview : bool) : outcome (option JValue) :=
  match parse_it data preview false with
  | None => Ret None
  | Some steps => es ← collect steps; Ret (Some (jlist event_json es))
  end.

(** ** The branch of [fetch_details_inner] for mplex *)

Definition mplex_action (header : Z) : outcome bytes :=
  if header =? 0 then Ret (str "create stream")
  else if header =? 3 then Ret (str "close receiver")
  else if header =? 4 then Ret (str "close initiator")
  else if header =? 5 then Ret (str "reset receiver")
  else if header =? 6 then Ret (str "reset initiator")
  else Panic.

Definition mplex_view (buf : bytes) : outcome (option JValue) :=
  if blen buf =? 8 then
    let v := be_decode buf in
    let stream := Z.shiftr v 3 in
    action ← mplex_action (Z.land v 7);
    Ret (Some (JObj [(str "action", JString action); (str "stream", JNum stream)]))
  else Ret None.

(** * [fetch_full_message] *)

(** The [match] on the kind of the stream. *)
Definition view (kind : StreamKind) (buf : bytes) (preview : bool) : outcome (option JValue) :=
  match kind with
  | Kad => Ret (kad_view buf preview)
  | Meshsub => meshsub_view buf preview
  | KHandshake => Ret (noise_view buf)
  | Rpc => Ret (rpc_view buf preview)
  | IpfsId | IpfsPush => Ret (identify_view buf preview kind)
  | IpfsDelta | KBitswapExchange | KNodeStatus | KUnknown => Ret (Some (jhex buf))
  | KPeerExchange => Ret (json_view buf preview)
  | KSelect => Ret (if utf8_valid buf then Some (JString buf) else None)
  | KMplex => mplex_view buf
  | KYamux => Ret (yamux_view buf)
  end.

Context {R : Type} `{!Rocks R}.

Definition fetch_details_inner (msg : Message) (preview : bool) (db : DbCore R)
    : outcome (DbResult (FullMessage JValue)) :=
  match db_get (A := Connection) CONNECTIONS (be_encode 8 (connection_id msg)) db with
  | Err e => Ret (Err e)
  | Ok connection =>
      buf ← fetch_blob (connection_id msg) (offset msg) db;
      match buf with
      | Err e => Ret (Err e)
      | Ok buf =>
          message ← view (stream_kind msg) buf preview;
          Ret (match message with
               | Some message =>
                   Ok (mkFullMessage (connection_id msg) (addr (info connection)) (m_incoming msg)
                         (m_timestamp msg) (m_stream_id msg) (stream_kind msg) message (size msg))
               | None => Err DbDecode
               end)
      end
  end.

Definition fetch_full_message (id : Z) (db : DbCore R) : outcome (DbResult (FullMessage JValue)) :=
  match db_get (A := Message) MESSAGES (be_encode 8 id) db with
  | Err e => Ret (Err e)
  | Ok msg => fetch_details_inner msg false db
  end.

End Views.

(** * What is shown *)

Section Shown.
Context `{RadiationLaws, !Binprot, !Blake2, !GossipLib, !ViewLib}.

(** The fuel of [parse_addr] is enough. *)
Lemma parse_addr_fuel `{!ViewLaws} (input : bytes) : forall n m acc,
  (length input <= n)%nat -> (length input <= m)%nat ->
  parse_addr_loop n input acc = parse_addr_loop m input acc.
Proof.
  induction input as [input IH] using (induction_ltof1 _ (@length Z)); unfold ltof in IH.
  intros n m acc Hn Hm. destruct input as [|b l]; [by destruct n, m|].
  destruct n as [|n], m as [|m]; cbn [length] in *; try lia. cbn [parse_addr_loop].
  destruct (protocol_from_bytes (b :: l)) as [[p i]|] eqn:E; [|done].
  apply protocol_consumes in E. cbn in E. apply IH; cbn; lia.
Qed.

(** The record of a failed decryption shows its four counters. *)
Lemma failure_shown (a b c d : Z) :
  uint_ok 8 a -> uint_ok 8 b -> uint_ok 8 c -> uint_ok 8 d ->
  noise_view (failure_record a b c d)
  = Some (JObj [(str "this_decrypted", JNum a); (str "this_failed", JNum b);
                (str "total_decrypted", JNum c); (str "total_failed", JNum d)]).
Proof.
  intros Ha Hb Hc Hd. unfold noise_view, failure_record. rewrite starts_with_app.
  rewrite drop_app_length' by reflexivity. unfold failure_view.
  rewrite <- (app_nil_r (be_encode 8 d)). rewrite !absorb_uint_be by done. cbn [mbind option_bind].
  repeat (rewrite absorb_uint_be by done; cbn [mbind option_bind]). by rewrite leftover_nil.
Qed.

(** The header of a yamux frame is shown as it was on the wire. *)
Lemma yamux_shown (h : Yamux.Header) : wf_header h -> yamux_view (header_bytes h) = Some (header_json h).
Proof.
  intros Hh. unfold yamux_view, blen. rewrite header_bytes_length. cbn. by rewrite try_from_header_bytes.
Qed.

Lemma mplex_view_header (v : Z) (action : bytes) :
  0 <= v < 2 ^ 64 -> mplex_action (v mod 8) = Ret action ->
  mplex_view (be_encode 8 v)
  = Ret (Some (JObj [(str "action", JString action); (str "stream", JNum (v / 8))])).
Proof.
  intros Hv Ha. unfold mplex_view, blen. rewrite length_be_encode. cbn [Z.of_nat Pos.of_succ_nat Z.eqb Pos.eqb].
  rewrite be_decode_encode by done. rewrite land_7, Z.shiftr_div_pow2 by lia.
  by rewrite Ha.
Qed.

End Shown.

(** ** Control frames of mplex *)

(** The header of an output that is stored. *)
Definition stored_header (o : Mplex.OutputVariant) : option Z :=
  match o with ONew h _ _ => Some h | OClose h _ => Some h | OReset h => Some h | OMsg _ _ => None end.

(** What is shown of a frame that carries the number [n] on the wire. *)
Definition shown_action (incoming : bool) (n : Z) : bytes :=
  if n =? 0 then str "create stream"
  else if n =? 3 then (if incoming then str "close receiver" else str "close initiator")
  else if n =? 4 then (if incoming then str "close initiator" else str "close receiver")
  else if n =? 5 then (if incoming then str "reset receiver" else str "reset initiator")
  else (if incoming then str "reset initiator" else str "reset receiver").

(** A control frame of mplex is stored and shown as a message with its stream
    and its action, and showing it never fails: the header is the one on the wire,
    except that an outgoing close or reset is stored, and so shown, with the other
    side as the one that acts, because the header is rebuilt from the side of the
    stream. *)
Theorem mplex_control_shown `{!Radiation, !Binprot, !Blake2, !GossipLib, !ViewLib} {I : Type} `{!FromStreamId I}
    (b : bool) (st : Mplex.State I) (v h : Z) (t : Tag) (data : bytes) :
  0 <= v < 2 ^ 64 -> tag_of v = Ret t ->
  stored_header (handle_frame b (mkAccOutput t (stream_of b v) data) st).2.2 = Some h ->
  (b = true \/ v mod 8 = 0 -> h = v) /\
  view KMplex (be_encode 8 h) false
  = Ret (Some (JObj [(str "action", JString (shown_action b (v mod 8))); (str "stream", JNum (v / 8))])).
Proof.
  intros Hv Ht Hs. pose proof (mplex_stored_header b st v t data Hv Ht) as Hh. apply tag_of_inv in Ht.
  assert (Hd : forall k, 0 <= k < 8 -> h = v - v mod 8 + k -> h mod 8 = k /\ h / 8 = v / 8).
  { intros k Hk ->. pose proof (Z.div_mod v 8). replace (v - v mod 8 + k) with (k + v / 8 * 8) by lia.
    rewrite Z.mod_add, Z.div_add, Z.mod_small, Z.div_small by lia. lia. }
  assert (Hr : v - v mod 8 + 8 <= 2 ^ 64).
  { pose proof (Z.div_mod v 8). assert (v / 8 < 2 ^ 61) by (apply Z.div_lt_upper_bound; lia). lia. }
  assert (Hw : forall k, 0 <= k < 8 -> h = v - v mod 8 + k -> mplex_action k = Ret (shown_action b (v mod 8)) ->
     view KMplex (be_encode 8 h) false
     = Ret (Some (JObj [(str "action", JString (shown_action b (v mod 8))); (str "stream", JNum (v / 8))]))).
  { intros k Hk E Ha. destruct (Hd k Hk E) as [E1 E2]. rewrite <- E2. apply mplex_view_header; [|by rewrite E1].
    pose proof (Z.mod_pos_bound v 8). pose proof (Z.div_mod v 8). pose proof (Z.div_pos v 8). lia. }
  clear Hd Hr Hv.
  destruct t; [| |destruct (handle_close b st (stream_of b v) data) as [e Ee]; rewrite Ee in *|];
    cbn in Hs, Hh; [|done|..]; injection Hs as <-.
  - split; [done|]. apply (Hw 0); [lia|lia|]. by rewrite Ht.
  - destruct Ht as [Ht|Ht], b; rewrite ?Ht in Hh; cbn in Hh; (split; [intros [?|?]; [done|lia]|]);
      [apply (Hw 3)|apply (Hw 4)|apply (Hw 4)|apply (Hw 3)]; try lia; by rewrite Ht.
  - destruct Ht as [Ht|Ht], b; rewrite ?Ht in Hh; cbn in Hh; (split; [intros [?|?]; [done|lia]|]);
      [apply (Hw 5)|apply (Hw 6)|apply (Hw 6)|apply (Hw 5)]; try lia; by rewrite Ht.
Qed.

(** ** RPC exchanges *)

(** C10: a response is stored, and shown, under the query it answers. After a query
    and a response with the same id, the query is forgotten and the stored response
    is one complete length-prefixed message that carries the query's header in front
    of the response's own payload. It is filed under the query's tag and shown as a
    response with the tag, version and id of the query and the payload as the reader
    registered for that tag and version shows it (the second version of the protocol
    first; as hexadecimal digits if there is none). *)
Theorem rpc_response_shown `{BinprotLaws, !Radiation, !Blake2, !GossipLib, !ViewLib}
    (q : QueryHeader) (qmsg rmsg : bytes) (p : gmap Z RpcStream.Header) (qpos rpos : Z) :
  wf_query q -> 8 <= blen qmsg -> 8 <= blen rmsg ->
  read_message_header (drop 8 qmsg) = Some (Query q, qpos) ->
  read_message_header (drop 8 rmsg) = Some (Response (q_id q), rpos) ->
  rpos <= blen rmsg - 8 -> blen rmsg + blen (write_query q) < 2 ^ 64 ->
  let tag := to_string_lossy (q_tag q) in
  let payload := drop (Z.to_nat rpos) (drop 8 rmsg) in
  exists b,
    (let '(bs, p', rest) := rpc_frames [qmsg; rmsg] p in
     bs = [qmsg; b] /\ p' !! q_id q = None /\ rest = []) /\
    u64_le_size b = Some (8, blen b - 8) /\
    drop (Z.to_nat (9 + blen (write_query q))) b = payload /\
    rpc_parse_types b = Some (option_list (MessageType_from_str tag)) /\
    view Rpc b true = Ret (Some (JString (str "Response " ++ tag))) /\
    view Rpc b false = Ret (value ← rd_response (payload_reader tag (q_version q)) payload;
                            Some (tagged (str "response")
                                    [(str "tag", JString tag); (str "version", JNum (q_version q));
                                     (str "id", JNum (q_id q)); (str "value", value)])).
Proof.
  intros Hwq Hlq Hlr Hq Hr Hpos Hsz tag payload.
  destruct (rpc_response_rewritten q qmsg rmsg p qpos rpos) as (b & Hf & (n & Hb) & Hs & Hd & Ht); [done..|].
  exists b. split; [exact Hf|]. split; [exact Hs|]. split; [exact Hd|]. split; [exact Ht|].
  assert (Hv : forall preview, rpc_view b preview =
    if preview then Some (JString (str "Response " ++ tag))
    else value ← rd_response (payload_reader tag (q_version q)) payload;
         Some (tagged (str "response") [(str "tag", JString tag); (str "version", JNum (q_version q));
                 (str "id", JNum (q_id q)); (str "value", value)])).
  { intros preview. unfold rpc_view. rewrite Hb, decode_size_le.
    rewrite (proj2 (Z.leb_le _ _))
      by (rewrite (blen_app (le_encode _ _)), blen_le_encode; pose proof (blen_nonneg ([2] ++ write_query q ++ drop (Z.to_nat rpos) (drop 8 rmsg))); lia).
    cbn [mbind option_bind]. change (Z.to_nat 8) with 8%nat.
    rewrite drop_app_length' by (by rewrite length_le_encode). cbn [app].
    rewrite nat0_small by lia. cbn [mbind option_bind]. rewrite query_roundtrip by done. done. }
  unfold view. by rewrite !Hv.
Qed.

(** ** Recorded messages *)

Section Full.
Context `{RadiationLaws, !Binprot, !Blake2, !GossipLib, !ViewLib} {R : Type} `{!Rocks R, !RocksLaws R}.
Implicit Types (A : Log) (C : gmap Z Connection) (D : gmap Z bytes) (f : Facade R).

(** A message of the log with the bytes that were stored, as it is shown. *)
Definition shown_message (m : Message) (c : Connection) (payload : bytes) : outcome (DbResult (FullMessage JValue)) :=
  message ← view (stream_kind m) payload false;
  Ret (match message with
       | Some message => Ok (mkFullMessage (connection_id m) (addr (info c)) (m_incoming m) (m_timestamp m)
                               (m_stream_id m) (stream_kind m) message (size m))
       | None => Err DbDecode
       end).

Lemma fetch_full_ok A C D f id e c payload :
  facade_ok A C D f -> A !! id = Some e -> D !! id = Some payload ->
  C !! connection_id (e_msg e) = Some c ->
  fetch_full_message id (core f) = shown_message (e_msg e) c payload.
Proof.
  intros Hok He Hp Hc. unfold fetch_full_message, fetch_details_inner.
  rewrite (get_message_ok A C (core f) id e (fo_rep _ _ _ _ Hok) He).
  rewrite (get_connection_ok A C (core f) _ c (fo_rep _ _ _ _ Hok) Hc).
  destruct (fo_data _ _ _ _ Hok _ _ He) as (h & p & Hp' & Hl & Hb). simplify_eq.
  rewrite (fetch_blob_ok (core f) _ _ h payload) by (done || apply (fo_rep _ _ _ _ Hok)). done.
Qed.

End Full.

(** C23: a recorded message can be read back and shown. On a consistent database,
    [DbStream::add] of a message that can be classified returns the next message
    id, which was not in use; the log is extended by an entry with the connection,
    stream, kind, direction, time, size and types of the message, and the database
    stays consistent. For the new id, [fetch_full_message_bin] gives exactly the
    bytes of the message and [fetch_full_message] what its kind of stream makes of
    them, with the address of the connection; for every earlier id both give what
    they gave before. *)
Theorem stream_add_shown `{RadiationLaws, !Binprot, !Decoders, !Blake2, !GossipLib, !ViewLib}
    {R : Type} `{!Rocks R, !RocksLaws R} (A : Log) (C : gmap Z Connection) (D : gmap Z bytes) (f : Facade R)
    (idx : bool) (g : Group) (s_id : StreamId) (did : DirectedId) (kind : StreamKind) (data : bytes)
    (tys : list MessageType) (hashes : list LedgerHash) (c : Connection) :
  facade_ok A C D f -> can_add C f idx g s_id did kind data tys hashes -> C !! g_id g = Some c ->
  let id := f_messages f in
  exists f' off, stream_add idx g s_id did kind data f = (f', Ok id) /\ A !! id = None /\
    let e := new_entry g s_id did kind data tys off in
    facade_ok (<[id := e]> A) C (<[id := data]> D) f' /\ f_messages f' = id + 1 /\
    fetch_full_message_bin id (core f') = Ret (Ok data) /\
    fetch_full_message id (core f') = shown_message (e_msg e) c data /\
    forall id', is_Some (A !! id') ->
      fetch_full_message_bin id' (core f') = fetch_full_message_bin id' (core f) /\
      fetch_full_message id' (core f') = fetch_full_message id' (core f).
Proof.
  intros Hok Hca Hc id. destruct (stream_add_records A C D f idx g s_id did kind data tys hashes Hok Hca)
    as (f' & off & E & Hn & Hok' & Em & Eb & Eold).
  exists f', off. split; [done|]. split; [done|]. intros e. fold id e in Hok', Em.
  split; [done|]. split; [done|]. split; [exact Eb|]. split.
  - eapply fetch_full_ok; [exact Hok'|by rewrite lookup_insert_eq..|exact Hc].
  - intros i [e' He]. split; [by apply Eold|].
    destruct (fo_data _ _ _ _ Hok _ _ He) as (h & p & Hp & _ & _).
    destruct (rep_entries _ _ _ (fo_rep _ _ _ _ Hok) i e' He) as [_ _ _ [c' Hc']].
    assert (i <> id) by (intros ->; unfold id in *; congruence).
    rewrite (fetch_full_ok A C D f i e' c' p) by done.
    eapply fetch_full_ok; [exact Hok'|by rewrite lookup_insert_ne..|exact Hc'].
Qed.

(** ** Concrete libraries *)

Definition demo_protocol (l : bytes) : result (bytes * bytes) bytes :=
  match l with b :: r => Ok ([47; b], r) | [] => Err (str "less data than required") end.

Definition demo_views : ViewLib := {|
  envelope_decode _ := None;
  key_peer_id _ data := Some data;
  key_type_name _ := str "Ed25519";
  identify_decode l := Some (mkIdentify None None (Some l) [l] None []);
  kad_message_decode l := Some (mkKadMessage KadPing l None [] []);
  protocol_from_bytes := demo_protocol;
  json_from_str _ := None;
  registry_get _ _ _ := None;
  peer_id_json := JString;
  gossip_v1_json m := JString (v1_raw m);
  gossip_v2_json _ := JNull;
|}.

Definition demo_gossip_lib : GossipLib := {|
  rpc_decode_delimited _ := None;
  gossip_v2_read _ := None;
  gossip_v1_read _ := None;
  peer_id_from_bytes b := Some b;
|}.

Section demo.
#[local] Existing Instances demo_radiation demo_radiation_laws demo_binprot demo_binprot_laws demo_decoders
  mem_rocks mem_laws demo_views demo_gossip_lib.

#[local] Instance demo_views_laws : ViewLaws.
Proof. intros [|b l] p r; cbn; intros; simplify_eq. cbn. lia. Qed.

Example views_examples :
  view KSelect (str "/noise") false = Ret (Some (JString (str "/noise"))) /\
  view KSelect [255] false = Ret None /\
  view KUnknown [1; 171] false = Ret (Some (JString (str "01ab"))) /\
  view KMplex (be_encode 8 9) false = Panic /\
  view KMplex [1; 2] false = Ret None /\
  view KYamux [0; 3; 0; 0; 0; 0; 0; 0; 0; 0; 0; 1] false
    = Ret (Some (JObj [(str "version", JNum 0);
                       (str "ty", tagged (str "go_away") [(str "Err", JString (str "protocol"))]);
                       (str "flags", JObj [(str "bits", JNum 0)]); (str "stream_id", JNum 0)])) /\
  parse_addr [65; 66] = [47; 65; 47; 66] /\
  view KHandshake (failure_record 1 2 3 4) false
    = Ret (Some (JObj [(str "this_decrypted", JNum 1); (str "this_failed", JNum 2);
                       (str "total_decrypted", JNum 3); (str "total_failed", JNum 4)])).
Proof. vm_compute. split_and!; reflexivity. Qed.

Lemma mplex_control_shown_witness :
  view KMplex (be_encode 8 11) false
  = Ret (Some (JObj [(str "action", JString (str "close receiver")); (str "stream", JNum 1)])).
Proof.
  exact (proj2 (mplex_control_shown (I := Sink) false Mplex.init 12 11 TClose [] ltac:(lia) eq_refl eq_refl)).
Defined.

Lemma rpc_response_shown_witness :
  exists b, view Rpc b false
  = Ret (Some (tagged (str "response")
      [(str "tag", JString (str "get_best_tip")); (str "version", JNum 2); (str "id", JNum 7);
       (str "value", JString (str "2a2b"))])).
Proof.
  destruct (rpc_response_shown MinaProtocol.demo_query demo_qmsg demo_rmsg ∅ 33 9)
    as (b & _ & _ & _ & _ & _ & E); [vm_compute; done..|].
  exists b. rewrite E. vm_compute. reflexivity.
Defined.

Lemma stream_add_shown_witness :
  exists f', stream_add false demo_group (Forward 2) demo_did KSelect [1; 2; 3] demo_facade = (f', Ok 0) /\
    fetch_full_message 0 (core f')
    = Ret (Ok (mkFullMessage 0 (addr demo_info) true 0 (Forward 2) KSelect (JString [1; 2; 3]) 3)).
Proof.
  destruct (stream_add_shown ∅ {[0 := demo_conn]} ∅ demo_facade false demo_group (Forward 2) demo_did
    KSelect [1; 2; 3] [Select] [] demo_conn demo_facade_ok demo_can_add eq_refl)
    as (f' & off & E & _ & _ & _ & _ & Hf & _).
  exists f'. split; [exact E|]. exact Hf.
Defined.

End demo.
