(* ===== verification/Listing.v ===== *)
(** Two more queries of [database/core.rs]: the list of connections with their
    statistics ([fetch_connections], with [Connection::post_process] and
    [ConnectionStats::calc_speed] of [database/types.rs]), and the snark works that
    mention a ledger hash ([fetch_snark_by_hash]). *)

From stdpp Require Import base list gmap sorting strings.
From Stdlib Require Import ZArith Lia.
From S2P Require Import Prelude Types Handle Text Coding SortedIntersect Params Rocks DbCore DbIndex DbSpec.
From S2P Require Import Decode Facade Meshsub Views.

(** * Connections *)

(** A number of bytes per second, as [f64] prints it. *)
Class Speed : Type := json_speed : Z -> Z -> JValue.

(** [SystemTime] as [serde] writes it. *)
Definition time_json (t : Z) : JValue :=
  JObj [(str "secs_since_epoch", JNum (t / 10 ^ 9)); (str "nanos_since_epoch", JNum (t mod 10 ^ 9))].

Definition info_json (i : ConnectionInfo) : JValue :=
  JObj [(str "addr", JString (show_addr (addr i))); (str "pid", JNum (pid i)); (str "fd", JNum (fd i))].

Definition calc_speed `{!Speed} (s : ConnectionStats) (duration : Z) : JValue :=
  JObj [(str "total_bytes", JNum (total_bytes s)); (str "decrypted_bytes", JNum (decrypted_bytes s));
        (str "decrypted_chunks", JNum (decrypted_chunks s)); (str "messages", JNum (messages s));
        (str "speed", json_speed (total_bytes s) duration)].

(** [post_process(Some(now))]; [duration_since(..).expect(..)] fails on a connection
    that ends before it starts. *)
Definition post_process `{!Speed} (now : Z) (c : Connection) : outcome JValue :=
  let end_ := if timestamp_close c =? 0 then now else timestamp_close c in
  if end_ <? cn_timestamp c then Panic
  else
    let duration := end_ - cn_timestamp c in
    Ret (JObj [(str "info", info_json (info c));
               (str "incoming", JBool (cn_incoming c));
               (str "timestamp", time_json (cn_timestamp c));
               (str "timestamp_close", time_json (timestamp_close c));
               (str "alias", JString (cn_alias c));
               (str "stats_in", calc_speed (stats_in c) duration);
               (str "stats_out", calc_speed (stats_out c) duration)]).

(** The iterator of [fetch_connections] is lazy: [take(limit)] of
    [take_while(keep)] of the rows, each of which may be skipped or may panic. *)
Fixpoint pull {A} (n : nat) (keep : A -> bool) (it : list (outcome (option A))) : outcome (list A) :=
  match n, it with
  | O, _ => Ret []
  | _, [] => Ret []
  | S n', item :: it =>
      o ← item;
      match o with
      | None => pull n keep it
      | Some a => if keep a then l ← pull n' keep it; Ret (a :: l) else Ret []
      end
  end.

(** [Timestamp for serde_json::Value] of a row is the time of its connection. *)
Definition keep_row (c : ValidParamsCoordinate) (row : Z * (Z * JValue)) : bool :=
  match limit_timestamp c with
  | Some t => Bool.eqb (row.2.1 / 10 ^ 9 <? t) (is_forward (direction c))
  | None => true
  end.

Section Connections.
Context `{!Radiation, !Speed} {R : Type} `{!Rocks R}.

(** [DbCore::connection_id] *)
Definition connection_start (c : ValidParamsCoordinate) (db : DbCore R) : bool * Z :=
  match start c with
  | ById id explicit => (explicit, id)
  | ByTimestamp timestamp =>
      let total := match total CONNECTIONS_CNT db with Ok n => n | Err _ => 0 end in
      match search_timestamp cn_timestamp CONNECTIONS total timestamp db with
      | Ok c => (true, c)
      | Err _ => (false, 0)
      end
  end.

Definition connection_row (now : Z) (kc : Z * Connection) : outcome (option (Z * (Z * JValue))) :=
  let '(id, c) := kc in
  if (total_bytes (stats_in c) =? 0) && (total_bytes (stats_out c) =? 0) then Ret None
  else v ← post_process now c; Ret (Some (id, (cn_timestamp c, v))).

(** The rows with the time of the connection, which the JSON holds too. *)
Definition fetch_connections (params : ValidParamsCoordinate) (now : Z) (db : DbCore R)
    : outcome (list (Z * (Z * JValue))) :=
  let '(present, id) := connection_start params db in
  let direction := direction params in
  let mode := if present then IFrom (be_encode 8 id) (rocks_direction direction) else rocks_mode direction in
  pull (Z.to_nat (limit params)) (keep_row params)
    (connection_row now <$> omap (decode u64_codec connection_codec) (iterator_cf CONNECTIONS mode (db_inner db))).

(** The rows of connections that do not end before they start. *)
Definition shown_row (now : Z) (kc : Z * Connection) : option (Z * (Z * JValue)) :=
  match connection_row now kc with Ret o => o | _ => None end.

Definition ends_after_start (now : Z) (c : Connection) : Prop :=
  cn_timestamp c <= now /\ (timestamp_close c = 0 \/ cn_timestamp c <= timestamp_close c).

Lemma connection_row_ret (now : Z) (kc : Z * Connection) :
  ends_after_start now kc.2 -> connection_row now kc = Ret (shown_row now kc).
Proof.
  destruct kc as [id c]. intros [Hn Hc]. unfold shown_row, connection_row, post_process.
  destruct (_ && _); [done|]. cbv zeta.
  assert (E : ((if timestamp_close c =? 0 then now else timestamp_close c) <? cn_timestamp c) = false).
  { cbn in *. apply Z.ltb_ge. destruct (Z.eqb_spec (timestamp_close c) 0); [done|]. destruct Hc; lia. }
  by rewrite E.
Qed.

Lemma pull_ret {A B} (keep : B -> bool) (f : A -> option B) (l : list A) : forall n,
  pull n keep ((fun a => Ret (f a)) <$> l) = Ret (take n (take_while keep (omap f l))).
Proof.
  induction l as [|a l IH]; intros n; [by destruct n|]. destruct n as [|n]; [done|]. cbn.
  destruct (f a) as [b|]; cbn; [|apply (IH (S n))]. destruct (keep b); cbn; [by rewrite IH|done].
Qed.

(** As long as no connection ends before it starts, the list is that of the
    connections that carried data, within the limits of the query. *)
Lemma fetch_connections_ok (params : ValidParamsCoordinate) (now : Z) (db : DbCore R) (kcs : list (Z * Connection)) :
  let '(present, id) := connection_start params db in
  omap (decode u64_codec connection_codec)
    (iterator_cf CONNECTIONS (if present : bool then IFrom (be_encode 8 id) (rocks_direction (direction params))
                              else rocks_mode (direction params)) (db_inner db)) = kcs ->
  Forall (fun kc => ends_after_start now kc.2) kcs ->
  fetch_connections params now db
  = Ret (take (Z.to_nat (limit params)) (take_while (keep_row params) (omap (shown_row now) kcs))).
Proof.
  unfold fetch_connections. destruct (connection_start params db) as [present id]. intros -> Hk.
  rewrite <- pull_ret. f_equal. induction Hk as [|kc kcs Hkc Hk IH]; [done|].
  cbn. by rewrite connection_row_ret, IH.
Qed.

End Connections.

(** * Snark works by ledger hash *)

(** [v2::LedgerHash] from its text: 32 bytes. *)
Class LedgerHashText : Type := ledger_hash_from_str : bytes -> option bytes.

(** [LedgerHashIdx::get_31] and [LedgerHashIdx::new] *)
Definition get_31 (h : LedgerHash) : bytes :=
  match h with
  | LSource x => x | LTarget x => x | LFirstSource x => x | LMiddle x => x | LSecondTarget x => x
  end.

Definition idx_new (h : LedgerHash) : LedgerHashIdx := mkLedgerHashIdx h 0 0 (mkStreamFullId 0 SHandshake) 0.

(** The [match (&snark, &id.hash)]. *)
Definition conform (s : SnarkWithHash) (h : LedgerHash) : bool :=
  match s, h with
  | Leaf a _, LSource v => bool_decide (drop 1 a = v)
  | Leaf _ b, LTarget v => bool_decide (drop 1 b = v)
  | Merge a _ _, LFirstSource v => bool_decide (drop 1 a = v)
  | Merge _ b _, LMiddle v => bool_decide (drop 1 b = v)
  | Merge _ _ c, LSecondTarget v => bool_decide (drop 1 c = v)
  | _, _ => false
  end.

Definition snarks_of (m : GossipNetMessageV2) : list SnarkWithHash :=
  match m with
  | SnarkPool message => option_list (try_from_inner message)
  | NewState b => try_from_block b
  | TransactionPool _ => []
  end.

(** The list found so far and the hashes of the messages in it. *)
Definition FoundSnarks : Type := list (SnarkWithHash * Z) * gset bytes.

Definition add_snark (id : LedgerHashIdx) (hash : bytes) (acc : FoundSnarks) (s : SnarkWithHash) : FoundSnarks :=
  if conform s (l_hash id) then
    if decide (hash ∈ acc.2) then acc else (acc.1 ++ [(s, l_message_id id)], {[hash]} ∪ acc.2)
  else acc.

Definition add_event (id : LedgerHashIdx) (acc : FoundSnarks) (e : Event) : FoundSnarks :=
  match e with
  | EPublishV2 _ _ _ _ _ message hash => foldl (add_snark id hash) acc (snarks_of message)
  | _ => acc
  end.

Record SnarkByHash : Type := mkSnarkByHash {
  by_source : list (SnarkWithHash * Z);
  by_target : list (SnarkWithHash * Z);
  by_first_source : list (SnarkWithHash * Z);
  by_middle : list (SnarkWithHash * Z);
  by_second_target : list (SnarkWithHash * Z);
}.

Section Snarks.
Context `{!Radiation, !Blake2, !GossipLib, !LedgerHashText} {R : Type} `{!Rocks R}.
Implicit Types (db : DbCore R).

(** The loop over the index rows; [?] of [fetch_blob] and [parse_it]. *)
Fixpoint scan_works (ids : list LedgerHashIdx) (acc : FoundSnarks) db : outcome (DbResult FoundSnarks) :=
  match ids with
  | [] => Ret (Ok acc)
  | id :: ids =>
      buf ← fetch_blob (cn (l_id id)) (l_offset id) db;
      match buf with
      | Err e => Ret (Err e)
      | Ok buf =>
          match parse_it buf false true with
          | None => Ret (Err DbDecode)
          | Some steps => es ← collect steps; scan_works ids (foldl (add_event id) acc es) db
          end
      end
  end.

(** The closure [o]. *)
Definition works_of (h : LedgerHash) db : outcome (DbResult (list (SnarkWithHash * Z))) :=
  let key_b := emit (idx_new h) in
  let indexes := take_while (fun idx => bool_decide (get_31 (l_hash idx) = take 31 (drop 1 key_b)))
    (omap (decode_index ledger_hash_idx_codec) (iterator_cf LEDGER_HASH_INDEX (IFrom key_b RForward) (db_inner db))) in
  r ← scan_works indexes ([], ∅) db;
  Ret (match r with Ok (v, _) => Ok v | Err e => Err e end).

(** [o(..)?] *)
Definition then_works {A} (r : outcome (DbResult A)) (k : A -> outcome (DbResult SnarkByHash))
    : outcome (DbResult SnarkByHash) :=
  x ← r; match x with Ok a => k a | Err e => Ret (Err e) end.

Definition fetch_snark_by_hash (hash_str : bytes) db : outcome (DbResult SnarkByHash) :=
  match ledger_hash_from_str hash_str with
  | None => Ret (Err ParamDeserialize)
  | Some h =>
      let h := drop 1 h in
      then_works (works_of (LSource h) db) (fun a =>
      then_works (works_of (LTarget h) db) (fun b =>
      then_works (works_of (LFirstSource h) db) (fun c =>
      then_works (works_of (LMiddle h) db) (fun d =>
      then_works (works_of (LSecondTarget h) db) (fun e =>
      Ret (Ok (mkSnarkByHash a b c d e)))))))
  end.

(** ** What is found *)

(** The works of a row's message that play the role the row is filed under, each
    with the hash of the message that carries it. *)
Definition candidates (row : LedgerHashIdx * list Event) : list (bytes * (SnarkWithHash * Z)) :=
  e ← row.2;
  match e with
  | EPublishV2 _ _ _ _ _ message hash =>
      (fun s => (hash, (s, l_message_id row.1))) <$>
      filter (fun s => conform s (l_hash row.1) = true) (snarks_of message)
  | _ => []
  end.

(** The first candidate of every message. *)
Fixpoint firsts (seen : gset bytes) (l : list (bytes * (SnarkWithHash * Z))) : list (SnarkWithHash * Z) :=
  match l with
  | [] => []
  | (hash, x) :: l => if decide (hash ∈ seen) then firsts seen l else x :: firsts ({[hash]} ∪ seen) l
  end.

Definition take_candidate (acc : FoundSnarks) (c : bytes * (SnarkWithHash * Z)) : FoundSnarks :=
  if decide (c.1 ∈ acc.2) then acc else (acc.1 ++ [c.2], {[c.1]} ∪ acc.2).

Lemma firsts_foldl (l : list (bytes * (SnarkWithHash * Z))) : forall acc,
  (foldl take_candidate acc l).1 = acc.1 ++ firsts acc.2 l.
Proof.
  induction l as [|[hash x] l IH]; intros [v seen]; cbn; [by rewrite app_nil_r|].
  rewrite IH. unfold take_candidate. cbn. case_decide; [done|]. cbn. by rewrite <- app_assoc.
Qed.

Lemma add_event_candidates (id : LedgerHashIdx) (es : list Event) : forall acc,
  foldl (add_event id) acc es = foldl take_candidate acc (candidates (id, es)).
Proof.
  induction es as [|e es IH]; intros acc; [done|]. unfold candidates in *. cbn [fst snd] in *.
  rewrite bind_cons, foldl_app. cbn [foldl]. rewrite IH. f_equal. destruct e; try done.
  cbn [add_event]. revert acc. induction (snarks_of message) as [|s ss IHs]; intros acc; [done|]. cbn [foldl].
  rewrite IHs. unfold add_snark. destruct (conform s (l_hash id)) eqn:E.
  - by rewrite filter_cons_True by done.
  - by rewrite filter_cons_False by congruence.
Qed.

(** The rows can be read and parsed. *)
Definition readable db (row : LedgerHashIdx * list Event) : Prop :=
  exists buf steps, fetch_blob (cn (l_id row.1)) (l_offset row.1) db = Ret (Ok buf) /\
    parse_it buf false true = Some steps /\ collect steps = Ret row.2.

Lemma scan_works_ok db (rows : list (LedgerHashIdx * list Event)) : forall acc,
  Forall (readable db) rows ->
  scan_works rows.*1 acc db = Ret (Ok (foldl take_candidate acc (rows ≫= candidates))).
Proof.
  induction rows as [|[id es] rows IH]; intros acc Hr; [done|].
  apply Forall_cons_1 in Hr as [(buf & steps & Eb & Ep & Es) Hr]. cbn [fst snd] in *.
  cbn [fmap list_fmap fst scan_works]. rewrite Eb. cbn [mbind outcome_bind]. rewrite Ep, Es.
  cbn [mbind outcome_bind]. rewrite IH by done. by rewrite bind_cons, foldl_app, add_event_candidates.
Qed.

(** The answer for a role: the first work of every message among those the rows
    lead to. *)
Lemma works_of_ok (h : LedgerHash) db (rows : list (LedgerHashIdx * list Event)) :
  take_while (fun idx => bool_decide (get_31 (l_hash idx) = take 31 (drop 1 (emit (idx_new h)))))
    (omap (decode_index ledger_hash_idx_codec)
       (iterator_cf LEDGER_HASH_INDEX (IFrom (emit (idx_new h)) RForward) (db_inner db))) = rows.*1 ->
  Forall (readable db) rows ->
  works_of h db = Ret (Ok (firsts ∅ (rows ≫= candidates))).
Proof.
  intros E Hr. unfold works_of. cbv zeta. rewrite E, scan_works_ok by done. cbn [mbind outcome_bind].
  pose proof (firsts_foldl (rows ≫= candidates) ([], ∅)) as F. cbn in F.
  destruct (foldl _ _ _) as [v seen]. cbn in F. by rewrite F.
Qed.

Lemma firsts_elem (l : list (bytes * (SnarkWithHash * Z))) : forall seen x,
  x ∈ firsts seen l -> exists hash, hash ∉ seen /\ (hash, x) ∈ l.
Proof.
  induction l as [|[hash y] l IH]; intros seen x; cbn; [by rewrite elem_of_nil|].
  case_decide as Hd; [intros (k & Hk & Hx)%IH; exists k; split; [done|by right]|].
  intros [->|Hx]%elem_of_cons; [exists hash; split; [done|by left]|].
  apply IH in Hx as (k & Hk & Hx). exists k. split; [set_solver|by right].
Qed.

End Snarks.

(** Whatever is listed plays the role of a row. *)
Lemma candidates_conform (row : LedgerHashIdx * list Event) hash (s : SnarkWithHash) (id : Z) :
  (hash, (s, id)) ∈ candidates row -> conform s (l_hash row.1) = true /\ id = l_message_id row.1.
Proof.
  unfold candidates. intros (e & He & _)%list_elem_of_bind. destruct e; try by apply elem_of_nil in He.
  apply list_elem_of_fmap in He as (s' & [= -> -> ->] & Hs). by apply list_elem_of_filter in Hs as [? _].
Qed.

(** A solved work of a single transition is filed under its source in both roles,
    so no row leads to it from its target. *)
Lemma solved_leaf_not_by_target (source target : bytes) (h : LedgerHash) :
  drop 1 source <> drop 1 target -> h ∈ solved_hashes (OneWork source target) ->
  conform (Leaf source target) h = true -> h = LSource (drop 1 source).
Proof.
  intros Hne Hh Hc. cbn in Hh. rewrite !elem_of_cons, elem_of_nil in Hh. destruct Hh as [->|[->|[]]]; [done|].
  cbn in Hc. by apply bool_decide_eq_true in Hc.
Qed.
