(* ===== verification/Aggregator.v ===== *)
(** The aggregator ([mina-aggregator/src/database.rs] and [rocksdb.rs]): a service
    that collects the block events of several recorders, keeps what each node did
    with the blocks of the greatest height, and stores it by height.

    A column family is what [rocksdb] offers of it ([BlockCf]); the encoding of a
    stored value by the derived codecs of [radiation] is [BlockCodec]. The part of
    [post_data] under the lock and the write after it are two definitions, because
    another call can come between them. *)

From stdpp Require Import base list gmap sorting strings.
From Stdlib Require Import ZArith Lia.
From S2P Require Import Prelude Types Text Rocks Stats.

(** * Records *)

Record GlobalEvent : Type := mkGlobalEvent {
  ge_producer_id : bytes;
  ge_hash : bytes;
  ge_block_height : Z;
  ge_global_slot : Z;
  debugger_name : bytes;
  received_message_id : option Z;
  sent_message_id : option Z;
  receiving_time_microseconds : option Z;
  sending_time_microseconds : option Z;
  source_addr : option bytes;
  node_addr : SocketAddr;
  destination_addr : option bytes;
  node_id : Z;
}.

Record GlobalBlockState : Type := mkGlobalBlockState { gb_hash : bytes; gb_events : list GlobalEvent }.

(** [Key]: the recorder's name and the node's address. *)
Abbreviation Key := (bytes * SocketAddr)%type.

(** [t.duration_since(UNIX_EPOCH).unwrap().as_micros() as u64] of nanoseconds. *)
Definition micros (t : Z) : outcome Z := if t <? 0 then Panic else Ret (wrap 64 (t / 1000)).

Definition global_event_new (e : StatEvent) (addr : SocketAddr) (id : Z) (name : bytes) : outcome GlobalEvent :=
  t ← micros (se_better_time e);
  Ret (if se_incoming e
       then mkGlobalEvent (se_producer_id e) (se_hash e) (se_block_height e) (se_global_slot e) name
              (Some (se_message_id e)) None (Some t) None (Some (show_addr (se_sender_addr e))) addr None id
       else mkGlobalEvent (se_producer_id e) (se_hash e) (se_block_height e) (se_global_slot e) name
              None (Some (se_message_id e)) None (Some t) None addr (Some (show_addr (se_receiver_addr e))) id).

Definition append (g : GlobalEvent) (e : StatEvent) : outcome GlobalEvent :=
  match se_latency e with
  | Some latency =>
      if negb (se_incoming e) then
        t ← micros (se_time e + latency);
        Ret (mkGlobalEvent (ge_producer_id g) (ge_hash g) (ge_block_height g) (ge_global_slot g) (debugger_name g)
               (received_message_id g) (Some (se_message_id e)) (receiving_time_microseconds g) (Some t)
               (source_addr g) (node_addr g) (Some (show_addr (se_receiver_addr e))) (node_id g))
      else Ret g
  | None => Ret g
  end.

Record State : Type := mkState {
  height : Z;
  last : gmap bytes (gmap Key GlobalEvent);
  ids : gmap SocketAddr Z;
  counter : Z;
}.

Definition state_new : State := mkState 0 ∅ ∅ 0.

(** * The order of what is shown *)

(** The order of [Hash] and that of [Key]: name, then version, octets and port. *)
Definition addr_key (a : SocketAddr) : bytes :=
  match ip a with V4 o => 0 :: o ++ be_encode 2 (port a) | V6 o => 1 :: o ++ be_encode 2 (port a) end.

Definition key_order (a b : Key) : comparison :=
  match key_cmp a.1 b.1 with Eq => key_cmp (addr_key a.2) (addr_key b.2) | c => c end.

Definition hash_le {A} (x y : bytes * A) : Prop := key_cmp x.1 y.1 <> Gt.
Definition key_le {A} (x y : Key * A) : Prop := key_order x.1 y.1 <> Gt.

(** [None] is less than every time. *)
Definition received_le (x y : GlobalEvent) : Prop :=
  match receiving_time_microseconds x, receiving_time_microseconds y with
  | None, _ => True
  | Some _, None => False
  | Some t, Some t' => t <= t'
  end.

#[export] Instance hash_le_dec {A} : RelDecision (@hash_le A).
Proof. intros x y. unfold hash_le. destruct (key_cmp _ _); [left|left|right]; congruence. Defined.
#[export] Instance key_le_dec {A} : RelDecision (@key_le A).
Proof. intros x y. unfold key_le. destruct (key_order _ _); [left|left|right]; congruence. Defined.
#[export] Instance received_le_dec : RelDecision received_le.
Proof. intros x y. unfold received_le. repeat case_match; apply _. Defined.

(** What [post_data] stores and [latest] gives: the blocks in the order of their
    hashes, the events of each in the order they were received; the sort is
    stable, on the order of the keys. *)
Definition view (m : gmap bytes (gmap Key GlobalEvent)) : list GlobalBlockState :=
  List.map (fun '(hash, events) =>
              mkGlobalBlockState hash
                (merge_sort received_le (snd <$> merge_sort key_le (map_to_list events))))
    (merge_sort hash_le (map_to_list m)).

(** * Operations *)

(** The number of a node. *)
Definition id_of (addr : SocketAddr) (st : State) : Z * State :=
  match ids st !! addr with
  | Some id => (id, st)
  | None => (counter st, mkState (height st) (last st) (<[addr := counter st]> (ids st)) (wrap 32 (counter st + 1)))
  end.

(** The entry of the node for the block of the event. *)
Definition update_storage (name : bytes) (e : StatEvent) (id : Z) (storage : gmap Key GlobalEvent)
    : outcome (gmap Key GlobalEvent) :=
  let key : Key := (name, node_address e) in
  match storage !! key with
  | Some g =>
      match sent_message_id g with
      | None => '(g : GlobalEvent) ← append g e; Ret (<[key := g]> storage)
      | Some _ => Ret storage
      end
  | None => '(g : GlobalEvent) ← global_event_new e (node_address e) id name; Ret (<[key := g]> storage)
  end.

(** The part of [post_data] under the lock: the value to be written, if any. *)
Definition post_cache (name : bytes) (e : StatEvent) (st : State) : outcome (State * option (Z * list GlobalBlockState)) :=
  let addr := node_address e in
  let current := se_block_height e in
  if current <? height st then Ret (st, None)
  else
    let st := if height st <? current then mkState current ∅ (ids st) (counter st) else st in
    let '(id, st) := id_of addr st in
    let storage := match last st !! se_hash e with Some m => m | None => ∅ end in
    storage ← update_storage name e id storage;
    let st := mkState (height st) (<[se_hash e := storage]> (last st)) (ids st) (counter st) in
    Ret (st, Some (current, view (last st))).

(** [DbInner] *)
Class BlockCf (R : Type) : Type := {
  cf_put : bytes -> bytes -> R -> R * result unit unit;
  cf_get : bytes -> R -> result (option bytes) unit;
}.

Class BlockCodec : Type := {
  emit_blocks : list GlobalBlockState -> bytes;
  absorb_blocks : bytes -> option (list GlobalBlockState);
}.

Section database.
Context {R : Type} `{!BlockCf R, !BlockCodec}.

Definition put_block (h : Z) (v : list GlobalBlockState) (r : R) : R * result unit unit :=
  cf_put (be_encode 4 h) (emit_blocks v) r.

Definition fetch_block (h : Z) (r : R) : result (option (list GlobalBlockState)) unit :=
  match cf_get (be_encode 4 h) r with
  | Err e => Err e
  | Ok None => Ok None
  | Ok (Some b) => match absorb_blocks b with Some v => Ok (Some v) | None => Err tt end
  end.

(** The write after the lock; an error is logged. *)
Definition write (v : option (Z * list GlobalBlockState)) (r : R) : R :=
  match v with Some (h, v) => (put_block h v r).1 | None => r end.

Definition post_data (name : bytes) (e : StatEvent) (db : State * R) : outcome (State * R) :=
  '(st, v) ← post_cache name e db.1;
  Ret (st, write v db.2).

Definition by_height (h : Z) (r : R) : option (list GlobalBlockState) :=
  match fetch_block h r with Ok v => v | Err _ => None end.

Definition latest (st : State) : option (Z * list GlobalBlockState) := Some (height st, view (last st)).

Fixpoint post_all (l : list (bytes * StatEvent)) (db : State * R) : outcome (State * R) :=
  match l with
  | [] => Ret db
  | (name, e) :: l => db ← post_data name e db; post_all l db
  end.

End database.

(** * What the aggregator shows *)

Abbreviation Post := (bytes * StatEvent)%type.

Definition post_height (x : Post) : Z := se_block_height x.2.
Definition post_key (x : Post) : Key := (x.1, node_address x.2).

Definition top_height (l : list Post) : Z := foldl (fun h x => Z.max h (post_height x)) 0 l.

(** The events that concern a node and a block of height [H]. *)
Definition concerns (H : Z) (hash : bytes) (key : Key) (x : Post) : bool :=
  (post_height x =? H) && bool_decide (se_hash x.2 = hash) && bool_decide (post_key x = key).

Definition history (H : Z) (hash : bytes) (key : Key) (l : list Post) : list Post := List.filter (concerns H hash key) l.

(** The entry such a history makes: the first event starts it, later ones
    complete it until it has been sent. *)
Definition merge_step (id : Z) (g : option GlobalEvent) (x : Post) : outcome (option GlobalEvent) :=
  match g with
  | None => '(g : GlobalEvent) ← global_event_new x.2 (node_address x.2) id x.1; Ret (Some g)
  | Some g =>
      match sent_message_id g with
      | None => '(g : GlobalEvent) ← append g x.2; Ret (Some g)
      | Some _ => Ret (Some g)
      end
  end.

Fixpoint merge (id : Z) (g : option GlobalEvent) (l : list Post) : outcome (option GlobalEvent) :=
  match l with
  | [] => Ret g
  | x :: l => g ← merge_step id g x; merge id g l
  end.

Definition entry (st : State) (hash : bytes) (key : Key) : option GlobalEvent :=
  match last st !! hash with Some m => m !! key | None => None end.

Definition node_number (st : State) (a : SocketAddr) : Z := match ids st !! a with Some id => id | None => 0 end.

(** Times that [SystemTime] can convert. *)
Definition times_ok (x : Post) : Prop :=
  0 <= se_better_time x.2 /\ forall latency, se_latency x.2 = Some latency -> 0 <= se_time x.2 + latency.

Lemma merge_app (id : Z) (g : option GlobalEvent) (l l' : list Post) :
  merge id g (l ++ l') = (g ← merge id g l; merge id g l').
Proof.
  revert g. induction l as [|x l IH]; intros g; cbn; [done|]. destruct (merge_step id g x); cbn; [apply IH|done|done].
Qed.

Lemma top_height_snoc (l : list Post) (x : Post) : top_height (l ++ [x]) = Z.max (top_height l) (post_height x).
Proof. unfold top_height. by rewrite foldl_app. Qed.

Lemma top_height_le (l : list Post) (h : Z) : 0 <= h -> top_height l <= h <-> Forall (fun x => post_height x <= h) l.
Proof.
  intros Hh. induction l as [|x l IH] using rev_ind; [cbn; split; [constructor|lia]|].
  rewrite top_height_snoc, Forall_app, Forall_singleton, <- IH. lia.
Qed.

Lemma top_height_nonneg (l : list Post) : 0 <= top_height l.
Proof. induction l as [|x l IH] using rev_ind; [done|]. rewrite top_height_snoc. lia. Qed.

Lemma agg_history_snoc (H : Z) (hash : bytes) (key : Key) (l : list Post) (x : Post) :
  history H hash key (l ++ [x]) = history H hash key l ++ (if concerns H hash key x then [x] else []).
Proof. unfold history. rewrite List.filter_app. cbn. by destruct (concerns H hash key x). Qed.

(** Nothing above the greatest height. *)
Lemma history_above (H : Z) (hash : bytes) (key : Key) (l : list Post) : top_height l < H -> history H hash key l = [].
Proof.
  intros Hl. assert (Forall (fun x => post_height x <= H - 1) l) as HF.
  { apply top_height_le; pose proof (top_height_nonneg l); lia. }
  induction HF as [|x l Hx HF IH] in Hl |- *; [done|]. cbn. unfold concerns.
  rewrite (proj2 (Z.eqb_neq _ _)) by lia. cbn. apply IH.
  assert (top_height l <= H - 1); [|lia]. apply top_height_le; [|done]. pose proof (top_height_nonneg (x :: l)). lia.
Qed.

Lemma micros_ok (t : Z) : 0 <= t -> micros t = Ret (wrap 64 (t / 1000)).
Proof. intros Ht. unfold micros. by rewrite (proj2 (Z.ltb_ge _ _)). Qed.

Lemma global_event_new_ok (e : StatEvent) (a : SocketAddr) (id : Z) (name : bytes) :
  0 <= se_better_time e -> exists g, global_event_new e a id name = Ret g.
Proof. intros Ht. unfold global_event_new. rewrite micros_ok by done. cbn. by eexists. Qed.

Lemma append_ok (g : GlobalEvent) (x : Post) : times_ok x -> exists g', append g x.2 = Ret g'.
Proof.
  intros [_ Ht]. unfold append. destruct (se_latency x.2) as [d|]; [|by eexists].
  destruct (negb _); [|by eexists]. rewrite micros_ok by (by apply Ht). cbn. by eexists.
Qed.

(** The step on an entry is the step of [merge]. *)
Lemma update_storage_ok (x : Post) (id : Z) (m : gmap Key GlobalEvent) :
  times_ok x -> exists g, merge_step id (m !! post_key x) x = Ret (Some g) /\
    update_storage x.1 x.2 id m = Ret (<[post_key x := g]> m).
Proof.
  intros Ht. unfold update_storage, merge_step. fold (post_key x). destruct (m !! post_key x) as [g|] eqn:E.
  - destruct (sent_message_id g) eqn:Es.
    + exists g. split; [done|]. by rewrite insert_id.
    + destruct (append_ok g x Ht) as (g' & ->). by exists g'.
  - destruct (global_event_new_ok x.2 (node_address x.2) id x.1 (proj1 Ht)) as (g & ->). by exists g.
Qed.

(** ** The state *)

Record agg_ok (l : list Post) (st : State) : Prop := {
  ao_height : height st = top_height l;
  ao_entry : forall hash key,
    merge (node_number st key.2) None (history (top_height l) hash key l) = Ret (entry st hash key);
  ao_known : forall x, x ∈ l -> post_height x = top_height l -> is_Some (ids st !! node_address x.2);
  ao_nonempty : forall hash m, last st !! hash = Some m -> m <> ∅;
  ao_ids : forall a i, ids st !! a = Some i -> 0 <= i < counter st;
  ao_inj : forall a b i, ids st !! a = Some i -> ids st !! b = Some i -> a = b;
  ao_counter : 0 <= counter st <= Z.of_nat (length l);
}.

(** What [id_of] does to the table of numbers. *)
Lemma id_of_ok (l : list Post) (st : State) (a : SocketAddr) :
  agg_ok l st -> Z.of_nat (length l) + 1 < 2 ^ 32 ->
  forall m h, exists st', id_of a (mkState h m (ids st) (counter st)) = (node_number st' a, st') /\
    height st' = h /\ last st' = m /\ is_Some (ids st' !! a) /\
    (forall b, is_Some (ids st !! b) -> ids st' !! b = ids st !! b) /\
    (forall b i, ids st' !! b = Some i -> 0 <= i < counter st') /\
    (forall b c i, ids st' !! b = Some i -> ids st' !! c = Some i -> b = c) /\
    0 <= counter st' <= Z.of_nat (length l) + 1.
Proof.
  intros [_ _ _ _ Hids Hinj Hc] Hlen m h. unfold id_of. cbn [ids].
  destruct (ids st !! a) as [id|] eqn:E.
  - exists (mkState h m (ids st) (counter st)). unfold node_number. cbn [ids counter height last]. rewrite E.
    split_and!; try done; try lia; by eexists.
  - set (st' := mkState h m (<[a := counter st]> (ids st)) (wrap 32 (counter st + 1))). exists st'. assert (wrap 32 (counter st + 1) = counter st + 1) as Ew
      by (apply wrap_small; lia).
    unfold node_number, st'. cbn [ids counter height last]. rewrite lookup_insert_eq, Ew. split_and!; try done; try lia.
    + intros b [i Hb]. destruct (decide (a = b)) as [<-|]; [congruence|]. by rewrite lookup_insert_ne.
    + intros b i Hb. apply lookup_insert_Some in Hb as [[<- <-]|[_ Hb]]; [lia|]. specialize (Hids b i Hb). lia.
    + intros b c i Hb Hc'. apply lookup_insert_Some in Hb as [[Eb Ei]|[Hnb Hb]];
        apply lookup_insert_Some in Hc' as [[Ec Ei']|[Hnc Hc']]; [congruence| | |by eapply Hinj].
      * specialize (Hids c _ Hc'). lia.
      * specialize (Hids b _ Hb). lia.
Qed.

(** The entries before the event is filed: those of its height. *)
Lemma base_entries (l : list Post) (st st' : State) (x : Post) :
  agg_ok l st -> top_height l <= post_height x ->
  last st' = (if top_height l <? post_height x then ∅ else last st) ->
  (forall b, is_Some (ids st !! b) -> ids st' !! b = ids st !! b) ->
  forall hash key, merge (node_number st' key.2) None (history (post_height x) hash key l) = Ret (entry st' hash key).
Proof.
  intros [Hh He Hk _ _ _ _] Hle El Hids hash key. unfold entry. rewrite El.
  destruct (Z.ltb_spec (top_height l) (post_height x)) as [Hlt|Hge].
  - rewrite history_above by done. by rewrite lookup_empty.
  - assert (post_height x = top_height l) as -> by lia. fold (entry st hash key).
    destruct (ids st !! key.2) as [i|] eqn:Ei.
    + unfold node_number. rewrite Hids by (by eexists). apply He.
    + assert (history (top_height l) hash key l = []) as Eh.
      { destruct (history (top_height l) hash key l) as [|y ys] eqn:Ey; [done|].
        assert (y ∈ history (top_height l) hash key l) as Hy by (rewrite Ey; constructor).
        apply list_elem_of_In, List.filter_In in Hy as [Hin Hc]. unfold concerns in Hc.
        apply andb_prop in Hc as [[Hyh _]%andb_prop Hyk%bool_decide_eq_true_1].
        destruct (Hk y) as [i Hi]; [by apply list_elem_of_In|lia|]. rewrite <- Hyk in Ei. cbn in Ei. congruence. }
      rewrite <- He, Eh. done.
Qed.

Lemma post_cache_ignored (l : list Post) (st : State) (x : Post) :
  agg_ok l st -> post_height x < top_height l -> Z.of_nat (length l) + 1 < 2 ^ 32 ->
  post_cache x.1 x.2 st = Ret (st, None) /\ agg_ok (l ++ [x]) st.
Proof.
  intros Hok Hlt Hlen. pose proof Hok as [Hh He Hk Hn Hi Hj Hc].
  assert (top_height (l ++ [x]) = top_height l) as Em by (rewrite top_height_snoc; lia). split.
  - unfold post_cache. rewrite Hh. fold (post_height x). by rewrite (proj2 (Z.ltb_lt _ _)).
  - split; rewrite ?Em; try done.
    + intros hash key. rewrite agg_history_snoc. unfold concerns. rewrite (proj2 (Z.eqb_neq _ _)) by lia.
      cbn. rewrite app_nil_r. apply He.
    + intros y [Hy|Hy]%elem_of_app Hyh; [by apply Hk|]. apply list_elem_of_singleton in Hy as ->. lia.
    + rewrite length_app. cbn. lia.
Qed.

Lemma post_cache_filed (l : list Post) (st : State) (x : Post) :
  agg_ok l st -> top_height l <= post_height x -> times_ok x -> Z.of_nat (length l) + 1 < 2 ^ 32 ->
  exists st', post_cache x.1 x.2 st = Ret (st', Some (post_height x, view (last st'))) /\ agg_ok (l ++ [x]) st'.
Proof.
  intros Hok Hle Ht Hlen. assert (top_height (l ++ [x]) = post_height x) as Em by (rewrite top_height_snoc; lia).
  unfold post_cache. fold (post_height x). rewrite (ao_height _ _ Hok), (proj2 (Z.ltb_ge _ _)) by done.
  assert ((if top_height l <? post_height x then mkState (post_height x) ∅ (ids st) (counter st) else st)
    = mkState (post_height x) (if top_height l <? post_height x then ∅ else last st) (ids st) (counter st)) as ->.
  { destruct (Z.ltb_spec (top_height l) (post_height x)); [done|]. destruct st as [h m i c] eqn:Est. cbn.
    f_equal. pose proof (ao_height _ _ Hok) as Hh. cbn in Hh. lia. }
  destruct (id_of_ok l st (node_address x.2) Hok Hlen (if top_height l <? post_height x then ∅ else last st)
    (post_height x)) as (st2 & -> & Hh2 & Hl2 & Hid2 & Hext & Hids2 & Hinj2 & Hc2).
  pose proof (base_entries l st st2 x Hok Hle Hl2 Hext) as Hbase.
  set (m := match last st2 !! se_hash x.2 with Some m => m | None => ∅ end).
  destruct (update_storage_ok x (node_number st2 (node_address x.2)) m Ht) as (g & Hstep & Hupd).
  rewrite Hupd. cbn [mbind outcome_bind]. eexists. split; [done|].
  assert (entry st2 (se_hash x.2) (post_key x) = m !! post_key x) as Em0.
  { unfold entry, m. destruct (last st2 !! se_hash x.2); [done|]. by rewrite lookup_empty. }
  split; rewrite ?Em; try done; cbn [height last ids counter].
  - intros hash key. rewrite agg_history_snoc, merge_app. unfold node_number. cbn [ids]. fold (node_number st2 key.2).
    rewrite Hbase. cbn [mbind outcome_bind]. unfold entry at 2. cbn [last]. unfold concerns. rewrite Z.eqb_refl. cbn [andb].
    destruct (decide (se_hash x.2 = hash)) as [<-|Hne].
    + rewrite lookup_insert_eq, bool_decide_eq_true_2 by done. cbn [andb].
      destruct (decide (post_key x = key)) as [<-|Hnk].
      * rewrite lookup_insert_eq, bool_decide_eq_true_2 by done. cbn [merge]. rewrite Em0. unfold post_key at 1. cbn [snd].
        by rewrite Hstep.
      * rewrite lookup_insert_ne, bool_decide_eq_false_2 by done. cbn [merge]. unfold entry, m.
        destruct (last st2 !! se_hash x.2); [done|]. by rewrite lookup_empty.
    + rewrite lookup_insert_ne, bool_decide_eq_false_2 by done. done.
  - intros y [Hy|Hy]%elem_of_app Hyh.
    + destruct (ao_known _ _ Hok y Hy) as [i Hi].
      { assert (post_height y <= top_height l); [|lia].
        pose proof (proj1 (top_height_le l (top_height l) (top_height_nonneg l)) (Z.le_refl _)) as HF.
        rewrite Forall_forall in HF. by apply HF. }
      rewrite Hext by (by eexists). by eexists.
    + by apply list_elem_of_singleton in Hy as ->.
  - intros hash m' Hm'. apply lookup_insert_Some in Hm' as [[_ <-]|[_ Hm']]; [apply insert_non_empty|].
    rewrite Hl2 in Hm'. case_match; [by rewrite lookup_empty in Hm'|]. by apply (ao_nonempty _ _ Hok hash).
  - rewrite length_app. cbn. lia.
Qed.

(** ** The rows *)

(** A column family that does not fail. *)
Class BlockCfLaws (R : Type) `{!BlockCf R} : Prop :=
  cf_get_put : forall k v k' (r : R), (cf_put k v r).2 = Ok tt /\
    cf_get k' (cf_put k v r).1 = if decide (k = k') then Ok (Some v) else cf_get k' r.

(** The events up to the first one of a greater height. *)
Fixpoint until (h : Z) (l : list Post) : list Post :=
  match l with
  | [] => []
  | x :: l => if post_height x <=? h then x :: until h l else []
  end.

Definition some_at (h : Z) (l : list Post) : bool := existsb (fun x => post_height x =? h) l.

Lemma until_snoc (h : Z) (l : list Post) (x : Post) :
  0 <= h ->
  until h (l ++ [x]) = if top_height l <=? h then (if post_height x <=? h then l ++ [x] else l) else until h l.
Proof.
  intros Hh. destruct (Z.leb_spec (top_height l) h) as [Hle|Hlt].
  - apply top_height_le in Hle; [|done]. induction Hle as [|y l Hy HF IH]; cbn; [by destruct (_ <=? _)|].
    rewrite (proj2 (Z.leb_le _ _)) by done. rewrite IH. by destruct (post_height x <=? h).
  - assert (~ Forall (fun y => post_height y <= h) l) as Hn by (rewrite <- top_height_le by done; lia).
    clear Hlt. induction l as [|y l IH]; cbn; [by destruct Hn|].
    destruct (Z.leb_spec (post_height y) h); [|done]. f_equal. apply IH. intros HF. apply Hn. by constructor.
Qed.

Lemma until_all (h : Z) (l : list Post) : 0 <= h -> top_height l <= h -> until h l = l.
Proof.
  intros Hh Hle. apply top_height_le in Hle; [|done]. induction Hle as [|y l Hy HF IH]; cbn; [done|].
  by rewrite (proj2 (Z.leb_le _ _)), IH by done.
Qed.

Lemma some_at_snoc (h : Z) (l : list Post) (x : Post) : some_at h (l ++ [x]) = some_at h l || (post_height x =? h).
Proof. unfold some_at. rewrite existsb_app. cbn. by rewrite orb_false_r. Qed.

Lemma some_at_above (h : Z) (l : list Post) : top_height l < h -> some_at h l = false.
Proof.
  intros Hl. induction l as [|x l IH] using rev_ind; [done|]. rewrite top_height_snoc in Hl.
  rewrite some_at_snoc, IH by lia. by rewrite (proj2 (Z.eqb_neq _ _)) by lia.
Qed.

Section rows.
Context {R : Type} `{!BlockCf R, !BlockCodec, !BlockCfLaws R}.

Definition height_ok (x : Post) : Prop := 0 <= post_height x < 2 ^ 32.

Lemma by_height_write (h k : Z) (v : list GlobalBlockState) (r : R) :
  0 <= h < 2 ^ 32 -> 0 <= k < 2 ^ 32 ->
  by_height h (write (Some (k, v)) r) = if k =? h then absorb_blocks (emit_blocks v) else by_height h r.
Proof.
  intros Hh Hk. unfold by_height, fetch_block. cbn. unfold put_block.
  destruct (cf_get_put (be_encode 4 k) (emit_blocks v) (be_encode 4 h) r) as [_ ->].
  destruct (Z.eqb_spec k h) as [->|Hne].
  - rewrite decide_True by done. by destruct (absorb_blocks _).
  - rewrite decide_False; [done|]. intros E. apply (f_equal be_decode) in E. rewrite !be_decode_encode in E by (cbn; lia). done.
Qed.

(** The row of a height is what was known when the height was left. *)
Definition rows_ok (r0 : R) (l : list Post) (r : R) : Prop :=
  forall h, 0 <= h < 2 ^ 32 ->
    if some_at h (until h l)
    then exists st r', post_all (until h l) (state_new, r0) = Ret (st, r') /\
                       by_height h r = absorb_blocks (emit_blocks (view (last st)))
    else by_height h r = by_height h r0.

Lemma post_all_app (l l' : list Post) (db : State * R) :
  post_all (l ++ l') db = (db ← post_all l db; post_all l' db).
Proof.
  revert db. induction l as [|[name e] l IH]; intros db; cbn; [done|].
  destruct (post_data name e db); cbn; [apply IH|done|done].
Qed.

Lemma post_all_snoc (l : list Post) (x : Post) db st r st' v :
  post_all l db = Ret (st, r) -> post_cache x.1 x.2 st = Ret (st', v) ->
  post_all (l ++ [x]) db = Ret (st', write v r).
Proof.
  intros E Ep. rewrite post_all_app, E. destruct x as [name e]. cbn in *. unfold post_data. cbn. by rewrite Ep.
Qed.

Lemma rows_ignored (r0 r : R) (l : list Post) (x : Post) st :
  post_all l (state_new, r0) = Ret (st, r) -> post_cache x.1 x.2 st = Ret (st, None) ->
  post_height x < top_height l -> rows_ok r0 l r -> rows_ok r0 (l ++ [x]) r.
Proof.
  intros E Ep Hlt Hrows h Hh. specialize (Hrows h Hh). rewrite until_snoc by lia.
  destruct (Z.leb_spec (top_height l) h) as [Hle|Hgt]; [|done].
  rewrite until_all in Hrows by lia. rewrite (proj2 (Z.leb_le _ _)) by lia.
  rewrite some_at_snoc, (proj2 (Z.eqb_neq (post_height x) h)), orb_false_r by lia.
  destruct (some_at h l); [|done]. destruct Hrows as (st' & r' & E' & Hr). rewrite E in E'. injection E' as <- <-.
  exists st, r. split; [|done]. exact (post_all_snoc l x _ st r st None E Ep).
Qed.

Lemma rows_filed (r0 r : R) (l : list Post) (x : Post) st st' :
  post_all l (state_new, r0) = Ret (st, r) ->
  post_cache x.1 x.2 st = Ret (st', Some (post_height x, view (last st'))) ->
  height_ok x -> top_height l <= post_height x -> rows_ok r0 l r ->
  rows_ok r0 (l ++ [x]) (write (Some (post_height x, view (last st'))) r).
Proof.
  intros E Ep Hx Hle Hrows h Hh. specialize (Hrows h Hh). rewrite until_snoc by lia.
  rewrite by_height_write by done.
  destruct (Z.leb_spec (top_height l) h) as [Hlh|Hgt].
  - rewrite until_all in Hrows by lia. destruct (Z.leb_spec (post_height x) h) as [Hxh|Hxh].
    + rewrite some_at_snoc. destruct (Z.eqb_spec (post_height x) h) as [Exh|Hne].
      * rewrite orb_true_r. exists st', (write (Some (post_height x, view (last st'))) r).
        split; [|done]. exact (post_all_snoc l x _ st r st' _ E Ep).
      * rewrite some_at_above in Hrows by lia. by rewrite some_at_above by lia.
    + rewrite (proj2 (Z.eqb_neq _ _)) by lia. exact Hrows.
  - rewrite (proj2 (Z.eqb_neq _ _)) by lia. exact Hrows.
Qed.

Lemma post_all_ok (r0 : R) (l : list Post) :
  Forall height_ok l -> Forall times_ok l -> Z.of_nat (length l) < 2 ^ 32 ->
  exists st r, post_all l (state_new, r0) = Ret (st, r) /\ agg_ok l st /\ rows_ok r0 l r.
Proof.
  induction l as [|x l IH] using rev_ind; intros Hh Ht Hlen.
  - exists state_new, r0. split; [done|]. split; [|done]. split; try done.
    intros y Hy. by apply not_elem_of_nil in Hy.
  - rewrite length_app in Hlen. cbn in Hlen. apply Forall_app in Hh as [Hh [Hx _]%Forall_cons].
    apply Forall_app in Ht as [Ht [Htx _]%Forall_cons].
    destruct (IH Hh Ht) as (st & r & E & Hok & Hrows); [lia|].
    destruct (Z.lt_ge_cases (post_height x) (top_height l)) as [Hlt|Hge].
    + destruct (post_cache_ignored l st x Hok Hlt) as [Ep Hok']; [lia|]. exists st, r.
      split; [exact (post_all_snoc l x _ st r st None E Ep)|]. split; [done|]. by eapply rows_ignored.
    + destruct (post_cache_filed l st x Hok Hge Htx) as (st' & Ep & Hok'); [lia|].
      exists st', (write (Some (post_height x, view (last st'))) r).
      split; [exact (post_all_snoc l x _ st r st' _ E Ep)|]. split; [done|]. by eapply rows_filed.
Qed.

(** C40: what the aggregator keeps is a function of the history of each node and
    block. After any posts, one after the other, with times after the epoch: the
    height is the greatest one posted; the entry of a node for a block is made of the
    events of that node about that block at that height, in order, whatever the
    other nodes posted in between; no block is listed without an entry; two nodes never
    have the same number; and the row stored for a height is what was known of that
    height when it was left for a greater one, later posts about it being ignored. *)
Theorem aggregator_history (r0 : R) (l : list Post) :
  Forall height_ok l -> Forall times_ok l -> Z.of_nat (length l) < 2 ^ 32 ->
  exists st r, post_all l (state_new, r0) = Ret (st, r) /\
    height st = top_height l /\
    (forall hash key, merge (node_number st key.2) None (history (top_height l) hash key l) = Ret (entry st hash key)) /\
    (forall hash m, last st !! hash = Some m -> m <> ∅) /\
    (forall a b i, ids st !! a = Some i -> ids st !! b = Some i -> a = b) /\
    (forall h, 0 <= h < 2 ^ 32 ->
       if some_at h (until h l)
       then exists st' r', post_all (until h l) (state_new, r0) = Ret (st', r') /\
                           by_height h r = absorb_blocks (emit_blocks (view (last st')))
       else by_height h r = by_height h r0).
Proof.
  intros Hh Ht Hlen. destruct (post_all_ok r0 l Hh Ht Hlen) as (st & r & E & [] & Hrows). by exists st, r.
Qed.

End rows.

(** ** A run *)

#[export] Instance map_cf : BlockCf (gmap bytes bytes) := {|
  cf_put k v r := (<[k := v]> r, Ok tt);
  cf_get k r := Ok (r !! k);
|}.

#[export] Instance map_cf_laws : BlockCfLaws (gmap bytes bytes).
Proof.
  intros k v k' r. split; [done|]. cbn. case_decide; [subst; by rewrite lookup_insert_eq|by rewrite lookup_insert_ne].
Qed.

#[export] Instance GlobalEvent_eq_dec : EqDecision GlobalEvent.
Proof. solve_decision. Defined.

#[export] Program Instance GlobalEvent_countable : Countable GlobalEvent :=
  inj_countable' (fun g => (ge_producer_id g, ge_hash g, ge_block_height g, ge_global_slot g, debugger_name g,
      received_message_id g, sent_message_id g, receiving_time_microseconds g, sending_time_microseconds g,
      source_addr g, node_addr g, destination_addr g, node_id g))
    (fun '(a, b, c, d, e, f, g, h, i, j, k, l, m) => mkGlobalEvent a b c d e f g h i j k l m) _.
Next Obligation. by intros []. Qed.

#[export] Instance GlobalBlockState_eq_dec : EqDecision GlobalBlockState.
Proof. solve_decision. Defined.

#[export] Program Instance GlobalBlockState_countable : Countable GlobalBlockState :=
  inj_countable' (fun b => (gb_hash b, gb_events b)) (fun '(h, e) => mkGlobalBlockState h e) _.
Next Obligation. by intros []. Qed.

(** A codec that is never run, only used through its round trip. *)
Section run.
#[local] Instance demo_codec : BlockCodec := {|
  emit_blocks v := [Zpos (encode v)];
  absorb_blocks b := match b with [Zpos p] => decode p | _ => None end;
|}.

Lemma demo_codec_rt (v : list GlobalBlockState) : absorb_blocks (emit_blocks v) = Some v.
Proof. cbn. apply decode_encode. Qed.

Definition demo_node (n : Z) : SocketAddr := mkSocketAddr (V4 [10; 0; 0; n]) 8302.

(** Node [n] receives (or sends) block [b] of height [h] at time [t]. *)
Definition demo_post (incoming : bool) (n b h t : Z) : Post :=
  (str "debugger", mkStatEvent [1] [b] h h incoming PublishNewState t t t (if incoming then None else Some 5)
     (demo_node (if incoming then 9 else n)) (demo_node (if incoming then n else 9))).

Definition demo_posts : list Post :=
  [demo_post true 1 7 5 1000; demo_post true 1 8 6 2000; demo_post true 2 8 6 3000; demo_post true 2 7 5 3500;
   demo_post false 1 8 6 4000].

Definition demo_state (l : list Post) : State :=
  match post_all l (state_new, ∅ : gmap bytes bytes) with Ret (st, _) => st | _ => state_new end.

Lemma aggregator_history_witness :
  exists st (r : gmap bytes bytes), post_all demo_posts (state_new, ∅) = Ret (st, r) /\
    height st = 6 /\
    by_height 5 r = Some (view (last (demo_state (take 1 demo_posts)))) /\
    option_map (fun g => (received_message_id g, sent_message_id g)) (entry st [8] (str "debugger", demo_node 1))
    = Some (Some 2000, Some 4000).
Proof.
  destruct (aggregator_history (∅ : gmap bytes bytes) demo_posts) as (st & r & E & Hh & He & _ & _ & Hr).
  - unfold height_ok. repeat (apply Forall_cons_2; [split; vm_compute; congruence|]). apply Forall_nil_2.
  - repeat (apply Forall_cons_2; [split; [vm_compute; discriminate|]; intros d Hd; vm_compute in Hd; simplify_eq; vm_compute; discriminate|]).
    apply Forall_nil_2.
  - reflexivity.
  - exists st, r. split; [exact E|]. split; [exact Hh|]. split.
    + specialize (Hr 5 ltac:(lia)). destruct Hr as (st' & r' & E' & ->). rewrite demo_codec_rt.
      unfold demo_state. change (take 1 demo_posts) with (until 5 demo_posts). by rewrite E'.
    + specialize (He [8] (str "debugger", demo_node 1)). revert He.
      generalize (node_number st (str "debugger", demo_node 1).2), (entry st [8] (str "debugger", demo_node 1)).
      intros n g He. vm_compute in He. injection He as <-. reflexivity.
Defined.

(** The lock is released before the row is written: when a second call comes
    between, the older row can be written last, and stays. *)
Definition race_first : Post := demo_post true 1 8 6 2000.
Definition race_second : Post := demo_post true 2 8 6 3000.

Definition after_post (x : Post) (st : State) : State :=
  match post_cache x.1 x.2 st with Ret (st, _) => st | _ => st end.

Definition race_1 : State := after_post race_first state_new.
Definition race_2 : State := after_post race_second race_1.

Example post_data_race :
  post_cache race_first.1 race_first.2 state_new = Ret (race_1, Some (6, view (last race_1))) /\
  post_cache race_second.1 race_second.2 race_1 = Ret (race_2, Some (6, view (last race_2))) /\
  by_height 6 (write (Some (6, view (last race_1))) (write (Some (6, view (last race_2))) (∅ : gmap bytes bytes)))
  = Some (view (last race_1)) /\
  latest race_2 = Some (6, view (last race_2)) /\ view (last race_1) <> view (last race_2).
Proof.
  split; [vm_compute; reflexivity|]. split; [vm_compute; reflexivity|]. split.
  - rewrite by_height_write, Z.eqb_refl by lia. apply demo_codec_rt.
  - split; [vm_compute; reflexivity|]. intros E.
    apply (f_equal (List.map (fun b => length (gb_events b)))) in E. vm_compute in E. discriminate.
Qed.

End run.
