(* ===== verification/Http.v ===== *)
(** The filters of the [warp] library, of which the HTTP servers of the recorder
    ([mina-recorder/src/server.rs]) and of the aggregator
    ([mina-aggregator/src/routes.rs]) are made, as an interface with what its
    documentation says of them. A filter takes a value out of a request or rejects it;
    the value here is what is to be done, so that handlers with effects are values. *)

From stdpp Require Import base list strings.
From Stdlib Require Import ZArith Lia.
From S2P Require Import Prelude Types.

(** * Requests *)

Inductive Method : Type := GET | POST | OtherMethod (name : bytes).
#[export] Instance Method_eq_dec : EqDecision Method.
Proof. solve_decision. Defined.

(** The segments of the path; the query string, empty when there is none; and whether
    the request comes from a page of another origin. *)
Record HttpRequest : Type := mkHttp {
  rq_method : Method;
  rq_path : list bytes;
  rq_query : bytes;
  rq_body : bytes;
  rq_cross_origin : bool;
}.

(** The last segment of a path that has exactly one more than [segs]. *)
Fixpoint one_more (segs path : list bytes) : option bytes :=
  match segs, path with
  | [], [s] => Some s
  | a :: segs, b :: path => if decide (a = b) then one_more segs path else None
  | _, _ => None
  end.

Lemma one_more_Some (segs path : list bytes) (s : bytes) : one_more segs path = Some s <-> path = segs ++ [s].
Proof.
  revert path. induction segs as [|a segs IH]; intros [|b path]; cbn.
  - done.
  - destruct path; split; intros; simplify_eq; done.
  - done.
  - case_decide as E; [subst; rewrite IH|]; naive_solver.
Qed.

(** * Filters *)

(** [warp::path!] with all segments given, and with a last segment that is parsed;
    [query], [body::json], [method], [and], [or], [map], [cors]. *)
Class Warp : Type := {
  Filter : Type -> Type;
  run_filter : forall {A : Type}, Filter A -> HttpRequest -> option A;
  w_path : list bytes -> Filter unit;
  w_param : forall {A : Type}, list bytes -> (bytes -> option A) -> Filter A;
  w_query : forall {A : Type}, (bytes -> option A) -> Filter A;
  w_body : forall {A : Type}, (bytes -> option A) -> Filter A;
  w_method : Method -> Filter unit;
  w_and : forall {A B : Type}, Filter A -> Filter B -> Filter (A * B);
  w_or : forall {A : Type}, Filter A -> Filter A -> Filter A;
  w_map : forall {A B : Type}, (A -> B) -> Filter A -> Filter B;
  w_cors : forall {A : Type}, list bytes -> list bytes -> Filter A -> Filter A;
}.

Class WarpLaws `{!Warp} : Prop := {
  run_path : forall segs r, run_filter (w_path segs) r = if decide (rq_path r = segs) then Some tt else None;
  run_param : forall {A} segs (p : bytes -> option A) r,
    run_filter (w_param segs p) r = one_more segs (rq_path r) ≫= p;
  run_query : forall {A} (p : bytes -> option A) r, run_filter (w_query p) r = p (rq_query r);
  run_body : forall {A} (p : bytes -> option A) r, run_filter (w_body p) r = p (rq_body r);
  run_method : forall m r, run_filter (w_method m) r = if decide (rq_method r = m) then Some tt else None;
  run_and : forall {A B} (f : Filter A) (g : Filter B) r,
    run_filter (w_and f g) r = a ← run_filter f r; b ← run_filter g r; Some (a, b);
  run_or : forall {A} (f g : Filter A) r,
    run_filter (w_or f g) r = match run_filter f r with Some a => Some a | None => run_filter g r end;
  run_map : forall {A B} (h : A -> B) (f : Filter A) r, run_filter (w_map h f) r = h <$> run_filter f r;
  (** Requests of the same origin are not touched. *)
  run_cors : forall {A} methods headers (f : Filter A) r,
    rq_cross_origin r = false -> run_filter (w_cors methods headers f) r = run_filter f r;
}.

Infix "<or>" := w_or (at level 55, right associativity).
Infix "<and>" := w_and (at level 50, left associativity).

(** The filters as functions; cross-origin requests are rejected. *)
Definition fun_warp : Warp := {|
  Filter A := HttpRequest -> option A;
  run_filter A f := f;
  w_path segs r := if decide (rq_path r = segs) then Some tt else None;
  w_param A segs p r := one_more segs (rq_path r) ≫= p;
  w_query A p r := p (rq_query r);
  w_body A p r := p (rq_body r);
  w_method m r := if decide (rq_method r = m) then Some tt else None;
  w_and A B f g r := a ← f r; b ← g r; Some (a, b);
  w_or A f g r := match f r with Some a => Some a | None => g r end;
  w_map A B h f r := h <$> f r;
  w_cors A _ _ f r := if rq_cross_origin r then None else f r;
|}.

Lemma fun_warp_laws : @WarpLaws fun_warp.
Proof. split; try done. intros A m h f r E. cbn. by rewrite E. Qed.

(** * What a filter gives *)

Definition yields `{!Warp} {A} (f : Filter A) (r : HttpRequest) (a : A) : Prop := run_filter f r = Some a.
Definition accepted `{!Warp} {A} (f : Filter A) (r : HttpRequest) : Prop := is_Some (run_filter f r).

Section yields.
Context `{WarpLaws}.
Implicit Types (r : HttpRequest).

Lemma yields_path (segs : list bytes) r u : yields (w_path segs) r u <-> rq_path r = segs.
Proof. destruct u. unfold yields. rewrite run_path. case_decide; naive_solver. Qed.

Lemma yields_param {A} (segs : list bytes) (p : bytes -> option A) r (a : A) :
  yields (w_param segs p) r a <-> exists s, rq_path r = segs ++ [s] /\ p s = Some a.
Proof. unfold yields. rewrite run_param, bind_Some. by setoid_rewrite one_more_Some. Qed.

Lemma yields_query {A} (p : bytes -> option A) r (a : A) : yields (w_query p) r a <-> p (rq_query r) = Some a.
Proof. unfold yields. by rewrite run_query. Qed.

Lemma yields_body {A} (p : bytes -> option A) r (a : A) : yields (w_body p) r a <-> p (rq_body r) = Some a.
Proof. unfold yields. by rewrite run_body. Qed.

Lemma yields_method (m : Method) r u : yields (w_method m) r u <-> rq_method r = m.
Proof. destruct u. unfold yields. rewrite run_method. case_decide; naive_solver. Qed.

Lemma yields_and {A B} (f : Filter A) (g : Filter B) r (ab : A * B) :
  yields (f <and> g) r ab <-> yields f r ab.1 /\ yields g r ab.2.
Proof.
  destruct ab as [a b]. unfold yields. rewrite run_and. cbn.
  destruct (run_filter f r), (run_filter g r); cbn; naive_solver.
Qed.

Lemma yields_map {A B} (h : A -> B) (f : Filter A) r (b : B) :
  yields (w_map h f) r b <-> exists a, yields f r a /\ b = h a.
Proof. unfold yields. rewrite run_map, fmap_Some. naive_solver. Qed.

Lemma yields_cors {A} (ms hs : list bytes) (f : Filter A) r (a : A) :
  rq_cross_origin r = false -> yields (w_cors ms hs f) r a <-> yields f r a.
Proof. intros Ho. unfold yields. by rewrite run_cors. Qed.

(** The first alternative that accepts the request gives the value. *)
Lemma yields_or {A} (f g : Filter A) r (a : A) : yields (f <or> g) r a -> yields f r a \/ yields g r a.
Proof. unfold yields. rewrite run_or. destruct (run_filter f r); naive_solver. Qed.

Lemma accepted_or {A} (f g : Filter A) r : accepted (f <or> g) r <-> accepted f r \/ accepted g r.
Proof.
  unfold accepted. rewrite run_or. destruct (run_filter f r) eqn:E; [|naive_solver].
  split; [by left|by eexists].
Qed.

Lemma accepted_yields {A} (f : Filter A) r : accepted f r <-> exists a, yields f r a.
Proof. done. Qed.

Lemma accepted_map {A B} (h : A -> B) (f : Filter A) r : accepted (w_map h f) r <-> accepted f r.
Proof. unfold accepted. by rewrite run_map, fmap_is_Some. Qed.

Lemma accepted_and {A B} (f : Filter A) (g : Filter B) r :
  accepted (f <and> g) r <-> accepted f r /\ accepted g r.
Proof.
  unfold accepted. rewrite run_and. destruct (run_filter f r), (run_filter g r); cbn; unfold is_Some; naive_solver.
Qed.

Lemma accepted_cors {A} (ms hs : list bytes) (f : Filter A) r :
  rq_cross_origin r = false -> accepted (w_cors ms hs f) r <-> accepted f r.
Proof. intros Ho. unfold accepted. by rewrite run_cors. Qed.

(** When every value is the answer to an endpoint, every endpoint is accepted and a
    request is for one endpoint only, the filter is the table of endpoints, in
    whatever order it tries them. *)
Lemma filter_is_table {A E} (f : Filter A) r (serves : E -> Prop) (answer : E -> A) :
  (forall a, yields f r a -> exists e, serves e /\ a = answer e) ->
  (forall e, serves e -> accepted f r) ->
  (forall e e', serves e -> serves e' -> e = e') ->
  (forall e, serves e -> run_filter f r = Some (answer e)) /\
  ((forall e, ~ serves e) -> run_filter f r = None).
Proof.
  intros Hs Hc Hd. split.
  - intros e He. destruct (Hc e He) as [a Ha]. destruct (Hs a Ha) as (e' & He' & ->).
    by rewrite Ha, (Hd e e').
  - intros Hn. destruct (run_filter f r) as [a|] eqn:Ef; [|done]. destruct (Hs a Ef) as (e & He & _).
    by destruct (Hn e).
Qed.

End yields.

(** * Routes

    A path, a path with a number or a text at its end, both with a query; and only
    requests of one method. *)

Create HintDb routes.

Section routes.
Context {HW : Warp} {T : Type}.

Definition on_path (segs : list bytes) (h : T) : Filter T := w_map (fun _ => h) (w_path segs).
Definition on_param {A} (segs : list bytes) (p : bytes -> option A) (h : A -> T) : Filter T :=
  w_map h (w_param segs p).
Definition on_query {A} (segs : list bytes) (q : bytes -> option A) (h : A -> T) : Filter T :=
  w_map (fun uq => h uq.2) (w_path segs <and> w_query q).
Definition on_param_query {A Q} (segs : list bytes) (p : bytes -> option A) (q : bytes -> option Q)
    (h : A -> Q -> T) : Filter T :=
  w_map (fun aq => h aq.1 aq.2) (w_param segs p <and> w_query q).
Definition only (m : Method) (f : Filter T) : Filter T := w_map snd (w_method m <and> f).

End routes.

#[export] Hint Unfold on_path on_param on_query on_param_query only : routes.

(** What a route that accepts a request gives. *)
Ltac route_inv :=
  autounfold with routes in *;
  repeat match goal with
  | H : yields (w_map _ _) _ _ |- _ => apply yields_map in H; destruct H as (? & ? & ->)
  | H : yields (_ <and> _) _ _ |- _ => apply yields_and in H; destruct H
  | H : yields (w_param _ _) _ _ |- _ => apply yields_param in H; destruct H as (? & ? & ?)
  | H : yields (w_path _) _ _ |- _ => apply yields_path in H
  | H : yields (w_query _) _ _ |- _ => apply yields_query in H
  | H : yields (w_body _) _ _ |- _ => apply yields_body in H
  | H : yields (w_method _) _ _ |- _ => apply yields_method in H
  end; cbn [fst snd app] in *.

(** Two different paths, one of which may end in a number. *)
Ltac other_path :=
  match goal with
  | E1 : rq_path ?r = ?a, E2 : rq_path ?r = ?b |- _ =>
      exfalso; assert (E : a = b) by congruence; vm_compute in E; simplify_eq;
      match goal with Hp : _ = Some _ |- _ => vm_compute in Hp; discriminate end
  end.

(** The leaves of a route that accepts the request. *)
Ltac accepted_leaf :=
  autounfold with routes;
  repeat first [apply accepted_map | apply accepted_and; split];
  first [ eexists; apply yields_param; eexists; split; [cbn [app]; eassumption|eassumption || reflexivity]
        | exists tt; apply yields_path; eassumption | exists tt; apply yields_method; eassumption
        | eexists; apply yields_query; eassumption | eexists; apply yields_body; eassumption ].

(** The alternative that accepts it. *)
Ltac accepted_here :=
  first [solve [accepted_leaf] | apply accepted_or; left; solve [accepted_leaf] | apply accepted_or; right; accepted_here].
