(* ===== verification/Server.v ===== *)
(** The HTTP server of the recorder ([mina-recorder/src/server.rs]) with the client
    side of the firewall ([Application] of [application.rs]): every route with its
    handler, put together as [routes] does. The handlers call the queries of the
    database ([DbCore], [Views], [Listing], [DbStats]) and the server of the firewall
    ([Firewall]). A panic of a handler only ends its request. *)

From stdpp Require Import base list gmap strings.
From Stdlib Require Import ZArith Lia.
From S2P Require Import Prelude Types Handle Text Coding Params Rocks DbCore DbIndex DbSpec DbBlobs Decode Facade DbDemo.
From S2P Require Import MinaProtocol Meshsub Probes Firewall Stats DbStats DbStatsSpec Views Listing Http.

(** * Replies *)

(** The value given to [reply::json], or raw bytes; errors by what they are, not by
    their text. *)
Inductive Body : Type :=
| BJson (v : JValue)
| BConnections (l : list (Z * (Z * JValue)))
| BMessages (l : list (Z * FullMessage JValue))
| BMessage (m : FullMessage JValue)
| BBytes (b : bytes)
| BBlock (b : option BlockStat)
| BTx (t : option TxStat)
| BSnark (s : SnarkByHash)
| BRows (l : list CapnpTableRow)
| BLatestRows (l : option (list CapnpTableRow))
| BBlocked (l : gmap (SocketAddr * SocketAddr) StatsBlocked)
| BUnit
| BDbError (e : DbError)
| BCoordinateError (e : ParamsCoordinateValidateError)
| BParamsError (e : ParamsValidateError).

Definition OK : Z := 200.
Definition NOT_FOUND : Z := 404.
Definition INTERNAL_SERVER_ERROR : Z := 500.

(** The last value set for the header [Content-Type], if any. *)
Record Response : Type := mkResponse { rs_status : Z; rs_content_type : option bytes; rs_body : Body }.
Definition with_status (b : Body) (s : Z) : Response := mkResponse s None b.
Definition set_content_type (v : bytes) (r : Response) : Response :=
  mkResponse (rs_status r) (Some v) (rs_body r).

(** [BlockParams::all] *)
Definition show_all (all : option bool) : bool := default true all.

(** The decoders derived for the parameters and bodies of requests, and [env!] of the
    build. *)
Class ServerLib : Type := {
  query_params : bytes -> option Params;
  query_block_params : bytes -> option (option bool);
  query_unit : bytes -> option unit;
  body_enable_whitelist : bytes -> option (list IpAddr * list Z);
  parse_socket_addr : bytes -> option SocketAddr;
  git_hash : bytes;
  openapi_json : bytes;
}.

Section server.
Context `{!Radiation, !RadiationDerive, !GossipLib, !BinprotStable, !Binprot, !Blake2, !ViewLib, !Itertools, !Speed}.
Context `{!LedgerHashText, !ServerLib} {R : Type} `{!Rocks R}.
Context {W B : Type} `{!BpfMap bytes Z W, !BpfMap bytes StatsBlocked B, !BpfKeys bytes W, !BpfKeys bytes B}.

(** [Application]: the server at the other end of the channel, until it ends. It takes
    the commands in the order they are sent, so its turn is shown when they are. *)
Definition Application : Type := option (Firewall (W := W) (B := B)).

(** Sending a command, and the answer if the server gives one. Errors of a closed
    channel are dropped; [defaults] are the addresses of [FIREWALL_DEFAULT_WHITELIST]. *)
Definition app_send (defaults : list IpAddr) (c : ApplicationCommand) (app : Application)
    : Application * option (gmap (SocketAddr * SocketAddr) StatsBlocked) :=
  match app with
  | None => (None, None)
  | Some fw =>
      match run defaults [c] fw [] with
      | Ret (fw, out) => (match c with Terminate => None | _ => Some fw end, head out)
      | _ => (None, None)
      end
  end.

(** What the handlers share: the database as it is at the request, the clock, and the
    application when there is a firewall. *)
Record Server : Type := mkServer {
  sv_db : DbCore R;
  sv_now : Z;
  sv_defaults : list IpAddr;
  sv_app : option Application;
}.
Definition set_app (a : Application) (s : Server) : Server :=
  mkServer (sv_db s) (sv_now s) (sv_defaults s) (Some a).

Definition Handler : Type := Server -> outcome (Server * Response).

(** A handler that only asks the database. *)
Definition query (f : DbCore R -> outcome Response) : Handler := fun s => v ← f (sv_db s); Ret (s, v).

Definition db_reply {A} (f : A -> Body) (r : DbResult A) : Response :=
  match r with
  | Ok v => with_status (f v) OK
  | Err e => with_status (BDbError e) INTERNAL_SERVER_ERROR
  end.

(** * Handlers *)

Definition connection_handler (id : Z) : Handler := fun s =>
  match fetch_connection id (sv_db s) with
  | Ok c => v ← post_process (sv_now s) c; Ret (s, with_status (BJson v) OK)
  | Err e => Ret (s, with_status (BDbError e) INTERNAL_SERVER_ERROR)
  end.

(** [params.validate_connection()] keeps the coordinate only. *)
Definition connections_handler (params : Params) : Handler := fun s =>
  match validate_coordinate params with
  | Ok valid => v ← fetch_connections valid (sv_now s) (sv_db s); Ret (s, with_status (BConnections v) OK)
  | Err e => Ret (s, with_status (BCoordinateError e) INTERNAL_SERVER_ERROR)
  end.

Definition messages_handler (params : Params) : Handler := query (fun db =>
  match validate parse_socket_addr params with
  | Ok valid => v ← fetch_messages valid db; Ret (with_status (BMessages v) OK)
  | Err e => Ret (with_status (BParamsError e) INTERNAL_SERVER_ERROR)
  end).

Definition message_handler (id : Z) : Handler := query (fun db =>
  r ← fetch_full_message id db; Ret (db_reply BMessage r)).

Definition message_hex_handler (id : Z) : Handler := query (fun db =>
  r ← fetch_full_message_hex id db; Ret (db_reply (fun s => BJson (JString s)) r)).

Definition message_bin_handler (id : Z) : Handler := query (fun db =>
  r ← fetch_full_message_bin id db; Ret (db_reply BBytes r)).

Definition stats_handler (id : Z) : Handler := query (fun db =>
  Ret (with_status (BBlock (snd <$> fetch_stats id db)) OK)).

Definition stats_block_v2_handler (height : Z) : Handler := query (fun db =>
  Ret (with_status (BBlock (Some (mkBlockStat height (fetch_stats_block_v2 height db)))) OK)).

Definition stats_last_handler : Handler := query (fun db =>
  Ret (with_status (BBlock (snd <$> fetch_last_stat db)) OK)).

Definition stats_block_v2_latest_handler : Handler := query (fun db =>
  Ret (with_status (BBlock ((fun he => mkBlockStat he.1 he.2) <$> fetch_last_stat_block_v2 db)) OK)).

Definition stats_tx_handler (id : Z) : Handler := query (fun db =>
  Ret (db_reply (fun v => BTx (snd <$> v)) (fetch_stats_tx id db))).

Definition stats_tx_latest_handler : Handler := query (fun db =>
  Ret (with_status (BTx (snd <$> fetch_last_stat_tx db)) OK)).

Definition snark_handler (hash : bytes) : Handler := query (fun db =>
  r ← fetch_snark_by_hash hash db; Ret (db_reply BSnark r)).

Definition capnp_handler (height : Z) (params : option bool) : Handler := query (fun db =>
  Ret (with_status (BRows (fetch_capnp height (show_all params) db)) OK)).

Definition capnp_all_handler : Handler := query (fun db => Ret (with_status (BRows (fetch_capnp_all db)) OK)).

Definition capnp_latest_handler (params : option bool) : Handler := query (fun db =>
  Ret (with_status (BLatestRows (fetch_capnp_latest (show_all params) db)) OK)).

(** [if let Some(app) = &app], and else not found. *)
Definition with_app (f : Application -> Application * Body) : Handler := fun s =>
  match sv_app s with
  | Some app => let '(app, b) := f app in Ret (set_app app s, with_status b OK)
  | None => Ret (s, with_status BUnit NOT_FOUND)
  end.

Definition firewall_set_handler (ips : list IpAddr) (ports : list Z) : Handler := fun s =>
  with_app (fun app => ((app_send (sv_defaults s) (EnableWhitelist ips ports) app).1, BUnit)) s.

Definition firewall_clear_handler : Handler := fun s =>
  with_app (fun app => ((app_send (sv_defaults s) DisableWhitelist app).1, BUnit)) s.

(** [drx.recv().unwrap_or_default()] *)
Definition firewall_stats_handler : Handler := fun s =>
  with_app (fun app => let '(app, l) := app_send (sv_defaults s) GetFirewallStats app in
                       (app, BBlocked (default ∅ l))) s.

Definition version_handler : Handler := fun s => Ret (s, with_status (BJson (JString git_hash)) OK).

(** [serde_json::from_str(..).expect(..)] *)
Definition openapi_handler : Handler := fun s =>
  match json_from_str openapi_json with
  | Some d => Ret (s, with_status (BJson d) OK)
  | None => Panic
  end.

(** * Routes *)

Context `{!Warp}.

Definition connection : Filter Handler := on_param [str "connection"] parse_u64 connection_handler.
Definition connections : Filter Handler := on_query [str "connections"] query_params connections_handler.
Definition messages : Filter Handler := on_query [str "messages"] query_params messages_handler.
Definition message : Filter Handler := on_param [str "message"] parse_u64 message_handler.
Definition message_hex : Filter Handler := on_param [str "message_hex"] parse_u64 message_hex_handler.
Definition message_bin : Filter Handler := on_param [str "message_bin"] parse_u64 message_bin_handler.
Definition stats : Filter Handler := on_param [str "block_v1"] parse_u32 stats_handler.
Definition stats_block_v2 : Filter Handler := on_param [str "block"] parse_u32 stats_block_v2_handler.
Definition stats_last : Filter Handler := on_path [str "block_v1"; str "last"] stats_last_handler.
Definition stats_latest : Filter Handler := on_path [str "block_v1"; str "latest"] stats_last_handler.
Definition stats_block_v2_latest : Filter Handler :=
  on_path [str "block"; str "latest"] stats_block_v2_latest_handler.
Definition stats_tx : Filter Handler := on_param [str "tx"] parse_u32 stats_tx_handler.
Definition stats_tx_latest : Filter Handler := on_path [str "tx"; str "latest"] stats_tx_latest_handler.
Definition snark : Filter Handler := on_param [str "snark"] Some snark_handler.
Definition capnp : Filter Handler :=
  on_param_query [str "capnp"; str "block"] parse_u32 query_block_params capnp_handler.
Definition libp2p_ipc : Filter Handler :=
  on_param_query [str "libp2p_ipc"; str "block"] parse_u32 query_block_params capnp_handler.
Definition libp2p_ipc_all : Filter Handler := on_path [str "libp2p_ipc"; str "block"; str "all"] capnp_all_handler.
Definition capnp_latest : Filter Handler :=
  on_query [str "capnp"; str "block"; str "latest"] query_block_params capnp_latest_handler.
Definition libp2p_ipc_latest : Filter Handler :=
  on_query [str "libp2p_ipc"; str "block"; str "latest"] query_block_params capnp_latest_handler.

Definition firewall_whitelist_set : Filter Handler :=
  w_map (fun x => firewall_set_handler x.1.2.1 x.1.2.2)
    (w_path [str "firewall"; str "whitelist"; str "enable"] <and> w_body body_enable_whitelist <and> w_method POST).
Definition firewall_whitelist_clear : Filter Handler :=
  w_map (fun _ => firewall_clear_handler)
    (w_path [str "firewall"; str "whitelist"; str "disable"] <and> w_method POST).
Definition firewall_stats : Filter Handler := on_path [str "firewall"; str "stats"] firewall_stats_handler.
Definition version : Filter Handler := on_query [str "version"] query_unit (fun _ => version_handler).
Definition openapi : Filter Handler := on_query [str "openapi"] query_unit (fun _ => openapi_handler).

(** [with(header("Content-Type", v))] *)
Definition typed (v : bytes) (h : Handler) : Handler := fun s =>
  '(s, r) ← h s; Ret (s, set_content_type v r).

Definition cors_methods : list bytes :=
  [str "OPTIONS"; str "GET"; str "POST"; str "DELETE"; str "PUT"; str "HEAD"].
Definition cors_headers : list bytes :=
  [str "Accept"; str "Authorization"; str "baggage"; str "Cache-Control"; str "Content-Type"; str "DNT";
   str "If-Modified-Since"; str "Keep-Alive"; str "Origin"; str "sentry-trace"; str "User-Agent";
   str "X-Requested-With"; str "X-Cache-Hash"].
Definition cors {A} : Filter A -> Filter A := w_cors cors_methods cors_headers.

Definition TEXT_JSON : bytes := str "application/json".
Definition OCTETS : bytes := str "application/octet-stream".

Definition gets : Filter Handler :=
  only GET (connection <or> connections <or> message <or> message_hex <or> messages <or> stats <or> stats_last
    <or> stats_latest <or> stats_block_v2 <or> stats_block_v2_latest <or> stats_tx <or> stats_tx_latest <or> snark
    <or> capnp <or> libp2p_ipc <or> capnp_latest <or> libp2p_ipc_latest <or> libp2p_ipc_all <or> firewall_stats
    <or> version <or> openapi).
Definition posts : Filter Handler := only POST (firewall_whitelist_set <or> firewall_whitelist_clear).
Definition binary : Filter Handler := cors (w_map (typed OCTETS) (only GET message_bin)).

Definition routes : Filter Handler := cors (w_map (typed TEXT_JSON) (gets <or> posts)) <or> binary.

(** A request: the reply, or a rejection. *)
Definition serve (r : HttpRequest) (s : Server) : option (outcome (Server * Response)) :=
  (fun h => h s) <$> run_filter routes r.

(** * The interface of the debugger, as a table *)

Inductive Endpoint : Type :=
| EConnection (id : Z)
| EConnections (p : Params)
| EMessages (p : Params)
| EMessage (id : Z)
| EMessageHex (id : Z)
| EMessageBin (id : Z)
| EBlockV1 (height : Z)
| EBlockV1Latest
| EBlock (height : Z)
| EBlockLatest
| ETx (height : Z)
| ETxLatest
| ESnark (hash : bytes)
| EIpcBlock (height : Z) (all : option bool)
| EIpcLatest (all : option bool)
| EIpcAll
| EFirewallEnable (ips : list IpAddr) (ports : list Z)
| EFirewallDisable
| EFirewallStats
| EVersion
| EOpenapi.

(** Method, path, and what the query or the body must hold. *)
Inductive serves (r : HttpRequest) : Endpoint -> Prop :=
| s_connection s id : rq_method r = GET -> rq_path r = [str "connection"; s] -> parse_u64 s = Some id ->
    serves r (EConnection id)
| s_connections p : rq_method r = GET -> rq_path r = [str "connections"] -> query_params (rq_query r) = Some p ->
    serves r (EConnections p)
| s_messages p : rq_method r = GET -> rq_path r = [str "messages"] -> query_params (rq_query r) = Some p ->
    serves r (EMessages p)
| s_message s id : rq_method r = GET -> rq_path r = [str "message"; s] -> parse_u64 s = Some id ->
    serves r (EMessage id)
| s_message_hex s id : rq_method r = GET -> rq_path r = [str "message_hex"; s] -> parse_u64 s = Some id ->
    serves r (EMessageHex id)
| s_message_bin s id : rq_method r = GET -> rq_path r = [str "message_bin"; s] -> parse_u64 s = Some id ->
    serves r (EMessageBin id)
| s_block_v1 s h : rq_method r = GET -> rq_path r = [str "block_v1"; s] -> parse_u32 s = Some h ->
    serves r (EBlockV1 h)
| s_block_v1_latest s : rq_method r = GET -> rq_path r = [str "block_v1"; s] -> s = str "last" \/ s = str "latest" ->
    serves r EBlockV1Latest
| s_block s h : rq_method r = GET -> rq_path r = [str "block"; s] -> parse_u32 s = Some h -> serves r (EBlock h)
| s_block_latest : rq_method r = GET -> rq_path r = [str "block"; str "latest"] -> serves r EBlockLatest
| s_tx s h : rq_method r = GET -> rq_path r = [str "tx"; s] -> parse_u32 s = Some h -> serves r (ETx h)
| s_tx_latest : rq_method r = GET -> rq_path r = [str "tx"; str "latest"] -> serves r ETxLatest
| s_snark s : rq_method r = GET -> rq_path r = [str "snark"; s] -> serves r (ESnark s)
| s_ipc p s h all : rq_method r = GET -> rq_path r = [p; str "block"; s] ->
    p = str "capnp" \/ p = str "libp2p_ipc" -> parse_u32 s = Some h -> query_block_params (rq_query r) = Some all ->
    serves r (EIpcBlock h all)
| s_ipc_latest p all : rq_method r = GET -> rq_path r = [p; str "block"; str "latest"] ->
    p = str "capnp" \/ p = str "libp2p_ipc" -> query_block_params (rq_query r) = Some all ->
    serves r (EIpcLatest all)
| s_ipc_all : rq_method r = GET -> rq_path r = [str "libp2p_ipc"; str "block"; str "all"] -> serves r EIpcAll
| s_enable ips ports : rq_method r = POST -> rq_path r = [str "firewall"; str "whitelist"; str "enable"] ->
    body_enable_whitelist (rq_body r) = Some (ips, ports) -> serves r (EFirewallEnable ips ports)
| s_disable : rq_method r = POST -> rq_path r = [str "firewall"; str "whitelist"; str "disable"] ->
    serves r EFirewallDisable
| s_stats : rq_method r = GET -> rq_path r = [str "firewall"; str "stats"] -> serves r EFirewallStats
| s_version u : rq_method r = GET -> rq_path r = [str "version"] -> query_unit (rq_query r) = Some u ->
    serves r EVersion
| s_openapi u : rq_method r = GET -> rq_path r = [str "openapi"] -> query_unit (rq_query r) = Some u ->
    serves r EOpenapi.

Definition answer (e : Endpoint) : Handler :=
  match e with
  | EMessageBin id => typed OCTETS (message_bin_handler id)
  | _ =>
      typed TEXT_JSON
        match e with
        | EConnection id => connection_handler id
        | EConnections p => connections_handler p
        | EMessages p => messages_handler p
        | EMessage id => message_handler id
        | EMessageHex id => message_hex_handler id
        | EMessageBin id => message_bin_handler id
        | EBlockV1 h => stats_handler h
        | EBlockV1Latest => stats_last_handler
        | EBlock h => stats_block_v2_handler h
        | EBlockLatest => stats_block_v2_latest_handler
        | ETx h => stats_tx_handler h
        | ETxLatest => stats_tx_latest_handler
        | ESnark hash => snark_handler hash
        | EIpcBlock h all => capnp_handler h all
        | EIpcLatest all => capnp_latest_handler all
        | EIpcAll => capnp_all_handler
        | EFirewallEnable ips ports => firewall_set_handler ips ports
        | EFirewallDisable => firewall_clear_handler
        | EFirewallStats => firewall_stats_handler
        | EVersion => version_handler
        | EOpenapi => openapi_handler
        end
  end.

(** ** Every route is an endpoint, and every endpoint a route *)

Context {HL : WarpLaws}.

#[local] Hint Unfold connection connections messages message message_hex message_bin stats stats_block_v2
  stats_last stats_latest stats_block_v2_latest stats_tx stats_tx_latest snark capnp libp2p_ipc libp2p_ipc_all
  capnp_latest libp2p_ipc_latest firewall_whitelist_set firewall_whitelist_clear firewall_stats version openapi : routes.

(** The endpoint of a route. *)
Ltac endpoint := simplify_eq; eexists; split; [solve [econstructor; eauto]|reflexivity].

Lemma gets_sound (r : HttpRequest) (h : Handler) :
  yields gets r h -> exists e, serves r e /\ typed TEXT_JSON h = answer e.
Proof.
  unfold gets, only. intros ([u h'] & [Hm Hy]%yields_and & ->)%yields_map. apply yields_method in Hm.
  cbn [fst snd] in *.
  repeat (apply yields_or in Hy as [Hy|Hy]; [route_inv; endpoint|]). route_inv; endpoint.
Qed.

Lemma posts_sound (r : HttpRequest) (h : Handler) :
  yields posts r h -> exists e, serves r e /\ typed TEXT_JSON h = answer e.
Proof.
  unfold posts, only. intros ([u h'] & [Hm Hy]%yields_and & ->)%yields_map. apply yields_method in Hm.
  cbn [fst snd] in *. apply yields_or in Hy as [Hy|Hy]; route_inv; [|endpoint].
  destruct x as [[[] [ips ports]] u']. cbn in *. endpoint.
Qed.

Lemma routes_sound (r : HttpRequest) (h : Handler) :
  rq_cross_origin r = false -> yields routes r h -> exists e, serves r e /\ h = answer e.
Proof.
  intros Ho [Hy|Hy]%yields_or.
  - apply yields_cors in Hy; [|done]. apply yields_map in Hy as (h' & Hy & ->).
    apply yields_or in Hy as [Hy|Hy]; [by apply gets_sound|by apply posts_sound].
  - apply yields_cors in Hy; [|done]. unfold only in Hy. route_inv. endpoint.
Qed.

Lemma serves_deterministic (r : HttpRequest) (e e' : Endpoint) : serves r e -> serves r e' -> e = e'.
Proof.
  intros S1 S2. destruct S1, S2; destruct_or?; subst; first [congruence|other_path].
Qed.

Lemma routes_complete (r : HttpRequest) (e : Endpoint) :
  rq_cross_origin r = false -> serves r e -> accepted routes r.
Proof.
  intros Ho Hs.
  assert (accepted gets r \/ accepted posts r \/ accepted (only GET message_bin) r -> accepted routes r) as Hr.
  { unfold routes, binary, cors. rewrite accepted_or, !accepted_cors, !accepted_map, accepted_or by done. tauto. }
  apply Hr. unfold gets, posts, only. rewrite !accepted_map, !accepted_and.
  destruct Hs; destruct_or?; subst;
    first [left; split; [accepted_leaf|accepted_here]
          |right; left; split; [accepted_leaf|accepted_here]
          |right; right; split; accepted_leaf].
Qed.

(** The server answers the requests of the table and no others, whatever the order in
    which it tries its routes. *)
Lemma serve_table (r : HttpRequest) (s : Server) :
  rq_cross_origin r = false ->
  (forall e, serves r e -> serve r s = Some (answer e s)) /\
  ((forall e, ~ serves r e) -> serve r s = None).
Proof.
  intros Ho. unfold serve.
  destruct (filter_is_table routes r (serves r) answer) as [Hs1 Hs2].
  - intros h. by apply routes_sound.
  - intros e. by apply routes_complete.
  - intros e e'. apply serves_deterministic.
  - split; [intros e He; by rewrite (Hs1 e)|]. intros Hn. by rewrite Hs2.
Qed.

End server.

(** * What is shown is the log *)

Section shown.
Context {HR : Radiation} {HRL : RadiationLaws} {HRD : RadiationDerive} {HG : GossipLib} {HB : BinprotStable}.
Context {HBp : Binprot} {HBl : Blake2} {HV : ViewLib} {HI : Itertools} {HIL : ItertoolsLaws} {HS : Speed}.
Context {HH : LedgerHashText} {HSl : ServerLib} {R : Type} {Hr : Rocks R} {HrL : RocksLaws R}.
Context {W B : Type} {M1 : BpfMap bytes Z W} {M2 : BpfMap bytes StatsBlocked B} {K1 : BpfKeys bytes W} {K2 : BpfKeys bytes B}.
Context {HW : Warp} {HWL : WarpLaws}.
Implicit Types (A : Log) (C : gmap Z Connection) (D : gmap Z bytes) (f : Facade R).

Definition json (s : Z) (b : Body) : Response := mkResponse s (Some TEXT_JSON) b.

(** The reply the log gives for an endpoint that shows messages or a connection. *)
Definition shows A C D (s : Server (R := R) (W := W) (B := B)) (e : Endpoint)
    (reply : outcome (Server (R := R) (W := W) (B := B) * Response)) : Prop :=
  match e with
  | EMessages p =>
      match validate parse_socket_addr p with
      | Ok valid =>
          filter_ok valid -> uint_ok 8 (message_id valid (sv_db s)).2 ->
          exists ids, selects A valid (message_id valid (sv_db s)) ids /\
            reply = Ret (s, json OK (BMessages
              (limit_results (coordinate valid) fm_timestamp (omap (show A C) ids))))
      | Err err => reply = Ret (s, json INTERNAL_SERVER_ERROR (BParamsError err))
      end
  | EMessageBin id =>
      forall m data, A !! id = Some m -> D !! id = Some data ->
        reply = Ret (s, mkResponse OK (Some OCTETS) (BBytes data))
  | EMessageHex id =>
      forall m data, A !! id = Some m -> D !! id = Some data ->
        reply = Ret (s, json OK (BJson (JString (hex_encode data))))
  | EMessage id =>
      forall m data c, A !! id = Some m -> D !! id = Some data -> C !! connection_id (e_msg m) = Some c ->
        reply = (v ← shown_message (e_msg m) c data; Ret (s, set_content_type TEXT_JSON (db_reply BMessage v)))
  | EConnection id =>
      forall c, C !! id = Some c -> reply = (v ← post_process (sv_now s) c; Ret (s, json OK (BJson v)))
  | _ => True
  end.

(** A message that is not in the log. *)
Lemma get_message_none A C (db : DbCore R) (id : Z) :
  represents A C (db_inner db) -> uint_ok 8 id -> A !! id = None ->
  db_get (A := Message) MESSAGES (be_encode 8 id) db = Err (NoItemAtCursor (hex_encode (be_encode 8 id))).
Proof.
  intros Hrep Hid Ha. unfold db_get. rewrite get_ok by apply Hrep.
  destruct (contents (db_inner db) MESSAGES !! be_encode 8 id) as [v|] eqn:E; [|done].
  apply (rep_messages _ _ _ Hrep) in E as (id' & e & He & Hk & _).
  apply be_encode_inj in Hk; [congruence|done|by apply (rep_entries _ _ _ Hrep id' e)].
Qed.

Lemma answer_shows A C D f (s : Server (R := R) (W := W) (B := B)) (e : Endpoint) :
  facade_ok A C D f -> sv_db s = core f -> shows A C D s e (answer e s).
Proof.
  intros Hok Hdb. pose proof (fo_rep _ _ _ _ Hok) as Hrep. destruct e; try done; cbn.
  - intros c Ec. unfold typed, connection_handler, fetch_connection.
    rewrite Hdb, (get_connection_ok A C (core f) id c Hrep Ec). by destruct (post_process _ _).
  - unfold typed, messages_handler, query. rewrite Hdb. destruct (validate parse_socket_addr p) as [valid|err]; [|done].
    intros Hf Hid. destruct (fetch_messages_log A C (core f) valid Hrep Hf Hid) as (ids & E & Hsel).
    exists ids. split; [exact Hsel|]. rewrite E. done.
  - intros m data c Hm Hd Hc. unfold typed, message_handler, query.
    rewrite Hdb, (fetch_full_ok A C D f id m c data) by done. by destruct (shown_message _ _ _).
  - intros m data Hm Hd. unfold typed, message_hex_handler, query, fetch_full_message_hex. by rewrite Hdb, (fetch_bin_ok A C D f id m data).
  - intros m data Hm Hd. unfold typed, message_bin_handler, query. by rewrite Hdb, (fetch_bin_ok A C D f id m data).
Qed.

(** C12: the interface of the debugger shows the log. A request that is not cross-origin
    is for at most one endpoint of the table, whatever the order in which the server
    tries its routes, and is rejected when it is for none. On a database of the
    recorder: [/messages] gives exactly the entries of the log that its parameters
    select, or an error for parameters that make no sense; [/message_bin],
    [/message_hex] and [/message] give the bytes of a message of the log as they were
    stored, in hex, and as its kind of stream shows them, and for an id that is not in
    the log the error of a missing item; [/connection] gives the record of a
    connection. These requests change nothing, and the content type is JSON except
    for the raw bytes. *)
Theorem http_shows_log A C D f (s : Server (R := R) (W := W) (B := B)) (r : HttpRequest) :
  facade_ok A C D f -> sv_db s = core f -> rq_cross_origin r = false ->
  ((forall e, ~ serves r e) -> serve r s = None) /\
  forall e, serves r e ->
    (forall e', serves r e' -> e' = e) /\ serve r s = Some (answer e s) /\ shows A C D s e (answer e s) /\
    forall id, e = EMessage id \/ e = EMessageHex id \/ e = EMessageBin id -> A !! id = None ->
      exists t, answer e s = Ret (s, mkResponse INTERNAL_SERVER_ERROR t
                                     (BDbError (NoItemAtCursor (hex_encode (be_encode 8 id))))).
Proof.
  intros Hok Hdb Ho. destruct (serve_table r s Ho) as [Hs Hn]. split; [exact Hn|]. intros e He.
  split; [intros e' He'; by apply (serves_deterministic r)|].
  split; [by apply Hs|]. split; [by apply (answer_shows A C D f)|].
  intros id Hid Ha. pose proof (fo_rep _ _ _ _ Hok) as Hrep.
  assert (uint_ok 8 id) as Hb.
  { destruct He; destruct_or?; simplify_eq; by apply parse_unsigned_bound in H1. }
  pose proof (get_message_none A C (core f) id Hrep Hb Ha) as Hg.
  destruct_or?; subst e; eexists; cbn; unfold typed, message_handler, message_hex_handler, message_bin_handler, query,
    fetch_full_message, fetch_full_message_hex, fetch_full_message_bin; rewrite Hdb, Hg; reflexivity.
Qed.

(** ** The firewall over HTTP *)

Context {KL1 : BpfMapLaws bytes Z W} {KL2 : BpfKeysLaws bytes Z W} {M3 : BpfMut bytes StatsBlocked B}.
Context {KL3 : BpfMapLaws bytes StatsBlocked B} {KL4 : BpfMutLaws bytes StatsBlocked B}.

(** A post to [/firewall/whitelist/enable] reaches the packet filter: unless a table was
    too small, and the server of the firewall ended, a TCP packet passes afterwards
    exactly when none of its ports was listed or its source was. Without a firewall the
    answer is that there is none. *)
Lemma http_enable_filters (s : Server (R := R) (W := W) (B := B)) (fw : Firewall) (r : HttpRequest)
    (ips : list IpAddr) (ports : list Z) (data : bytes) (src dst : IpAddr) (sp dp : Z) :
  rq_cross_origin r = false -> serves r (EFirewallEnable ips ports) -> sv_app s = Some (Some fw) ->
  wf_bytes data -> Forall (fun x => 0 <= x < 2 ^ 16) ports ->
  zeros16 ∉ octets6 <$> ips ++ sv_defaults s -> tcp_packet data src dst sp dp ->
  exists s', serve r s = Some (Ret (s', json OK BUnit)) /\ sv_db s' = sv_db s /\
    (sv_app s' = Some None \/
     exists fw', sv_app s' = Some (Some fw') /\
       if bool_decide ((sp ∉ ports /\ dp ∉ ports) \/ octets6 src ∈ octets6 <$> ips ++ sv_defaults s)
       then disable_connections data fw' = (fw', Ok Pass)
       else (disable_connections data fw').2 <> Ok Pass).
Proof.
  intros Ho Hs Happ Hw Hp Hz Hpkt. rewrite (proj1 (serve_table r s Ho) _ Hs).
  pose proof (enabled_verdict (sv_defaults s) ips ports fw data src dst sp dp Hw Hp Hz Hpkt) as Hv.
  cbn [answer]. unfold typed, firewall_set_handler, with_app. rewrite Happ. cbn [mbind outcome_bind].
  eexists. split; [done|]. split; [done|]. cbn [set_app sv_app app_send run].
  destruct (enable_whitelist (sv_defaults s) ips ports fw) as [fw'| |]; [right|by left|done].
  cbn. exists fw'. split; [done|]. case_bool_decide; [done|].
  destruct Hv as [[c Hv]|[fw'' [Hv _]]]; by rewrite Hv.
Qed.

End shown.

(** * A server *)

Section demo.
#[local] Existing Instances demo_radiation demo_radiation_laws demo_derive demo_stable demo_binprot demo_binprot_laws
  demo_decoders demo_itertools demo_itertools_laws mem_rocks mem_laws demo_views demo_gossip_lib fun_warp fun_warp_laws.

#[local] Instance demo_speed : Speed := fun _ _ => JNull.
#[local] Instance demo_ledger_hash : LedgerHashText := fun _ => None.
#[local] Instance demo_server_lib : ServerLib := {|
  query_params _ := Some (mkParams None None DForward None None None None None None None);
  query_block_params _ := Some None;
  query_unit _ := Some tt;
  body_enable_whitelist _ := Some ([V4 [10; 0; 0; 1]], [8302]);
  parse_socket_addr _ := None;
  git_hash := str "0000000";
  openapi_json := str "{}";
|}.

Definition demo_get (path : list bytes) : HttpRequest := mkHttp GET path [] [] false.
Definition demo_server (f : Facade MemStore) : Server (R := MemStore) (W := gmap bytes Z) (B := gmap bytes StatsBlocked) :=
  mkServer (core f) (10 * 10 ^ 9) [] None.

(** The stored bytes are served; the latest block is not taken for a height; what is
    not in the table is rejected; there is no firewall. *)
Lemma http_shows_log_witness :
  exists f', stream_add false demo_group (Forward 2) demo_did KSelect [1; 2; 3] demo_facade = (f', Ok 0) /\
    serve (demo_get [str "message_bin"; str "0"]) (demo_server f')
    = Some (Ret (demo_server f', mkResponse 200 (Some OCTETS) (BBytes [1; 2; 3]))).
Proof.
  destruct (stream_add_records ∅ {[0 := demo_conn]} ∅ demo_facade false demo_group (Forward 2) demo_did
    KSelect [1; 2; 3] [Select] [] demo_facade_ok demo_can_add) as (f' & off & E & _ & Hok & _).
  exists f'. split; [exact E|].
  destruct (http_shows_log _ _ _ f' (demo_server f') (demo_get [str "message_bin"; str "0"]) Hok eq_refl eq_refl)
    as [_ Hs].
  destruct (Hs (EMessageBin 0)) as (_ & -> & Hsh & _); [by apply (s_message_bin _ (str "0"))|].
  f_equal. by eapply Hsh; rewrite lookup_insert_eq.
Defined.

Example demo_routes :
  serve (demo_get [str "block"; str "latest"]) (demo_server demo_facade)
    = Some (Ret (demo_server demo_facade, json 200 (BBlock None))) /\
  serve (demo_get [str "block"; str "7"]) (demo_server demo_facade)
    = Some (Ret (demo_server demo_facade, json 200 (BBlock (Some (mkBlockStat 7 []))))) /\
  serve (demo_get [str "block"; str "last"]) (demo_server demo_facade) = None /\
  serve (demo_get [str "firewall"; str "stats"]) (demo_server demo_facade)
    = Some (Ret (demo_server demo_facade, json 404 BUnit)) /\
  serve (demo_get [str "message_hex"; str "5"]) (demo_server demo_facade)
    = Some (Ret (demo_server demo_facade, json 500 (BDbError (NoItemAtCursor (str "0000000000000005"))))).
Proof. vm_compute. split_and!; reflexivity. Qed.

End demo.
