(* ===== verification/AggregatorServer.v ===== *)
(** The HTTP service of the aggregator ([mina-aggregator/src/routes.rs]) over its database
    ([Aggregator]). The mutex around the cache is poisoned by a panic of the handler
    that holds it, and then every handler that locks it panics; a panic ends the
    request, not the service. *)

From stdpp Require Import base list gmap strings.
From Stdlib Require Import ZArith Lia.
From S2P Require Import Prelude Types Text Stats Aggregator Http.

(** The decoders of the body of a post and of the empty query, what the build fixes,
    and whether a text is JSON. *)
Class AggregatorLib : Type := {
  new_body : bytes -> option (bytes * StatEvent);
  no_query : bytes -> option unit;
  agg_git_hash : bytes;
  agg_openapi : bytes;
  is_json : bytes -> bool;
}.

Inductive AggBody : Type :=
| AText (s : bytes)
| ABlocks (v : option (Z * list GlobalBlockState))
| AEmpty.
Abbreviation AggReply := (Z * AggBody)%type.

Inductive Cache : Type := Alive (st : State) | Poisoned.

Section service.
Context {R : Type} {HC : BlockCf R} {HE : BlockCodec} {HA : AggregatorLib} {HW : Warp}.

Abbreviation Agg := (Cache * R)%type.
Definition AggHandler : Type := Agg -> Agg * outcome AggReply.

(** * Handlers and routes *)

(** [cache.lock().expect("poisoned")] *)
Definition locked (f : State -> Agg * outcome AggReply) (db : Agg) : Agg * outcome AggReply :=
  match db.1 with Alive st => f st | Poisoned => (db, Panic) end.

Definition register_handler (name : bytes) (e : StatEvent) : AggHandler := fun db =>
  locked (fun st =>
    match post_data name e (st, db.2) with
    | Ret (st, r) => ((Alive st, r), Ret (200, AEmpty))
    | _ => ((Poisoned, db.2), Panic)
    end) db.

Definition stats_latest_handler : AggHandler := fun db =>
  locked (fun st => (db, Ret (200, ABlocks (latest st)))) db.

Definition stats_handler (height : Z) : AggHandler := fun db =>
  (db, Ret (200, ABlocks ((fun c => (height, c)) <$> by_height height db.2))).

Definition version_handler : AggHandler := fun db => (db, Ret (200, AText agg_git_hash)).
Definition openapi_handler : AggHandler := fun db =>
  (db, if is_json agg_openapi then Ret (200, AText agg_openapi) else Panic).

Definition version : Filter AggHandler := on_query [str "version"] no_query (fun _ => version_handler).
Definition openapi : Filter AggHandler := on_query [str "openapi"] no_query (fun _ => openapi_handler).
Definition register : Filter AggHandler :=
  w_map (fun x => register_handler x.2.1 x.2.2) (w_path [str "new"] <and> w_method POST <and> w_body new_body).
Definition stats_latest : Filter AggHandler := on_path [str "block"; str "latest"] stats_latest_handler.
Definition stats : Filter AggHandler := on_param [str "block"] parse_u32 stats_handler.

Definition cors_methods : list bytes := [str "OPTIONS"; str "GET"; str "POST"; str "DELETE"; str "PUT"].

(** The two headers that are added to every reply are left out. *)
Definition routes : Filter AggHandler :=
  w_cors cors_methods []
    (only GET (version <or> openapi <or> stats_latest <or> stats) <or> only POST register).

(** A request: the database afterwards and the reply, [None] for a rejection. *)
Definition handle (db : Agg) (r : HttpRequest) : Agg * option (outcome AggReply) :=
  match run_filter routes r with
  | Some h => let '(db, o) := h db in (db, Some o)
  | None => (db, None)
  end.

Definition serve_all (rs : list HttpRequest) (db : Agg) : Agg := foldl (fun db r => (handle db r).1) db rs.

(** * The interface as a table *)

Inductive AggEndpoint : Type :=
| AVersion
| AOpenapi
| ALatest
| AHeight (h : Z)
| ANew (name : bytes) (e : StatEvent).

Inductive serves (r : HttpRequest) : AggEndpoint -> Prop :=
| s_version u : rq_method r = GET -> rq_path r = [str "version"] -> no_query (rq_query r) = Some u -> serves r AVersion
| s_openapi u : rq_method r = GET -> rq_path r = [str "openapi"] -> no_query (rq_query r) = Some u -> serves r AOpenapi
| s_latest : rq_method r = GET -> rq_path r = [str "block"; str "latest"] -> serves r ALatest
| s_height s h : rq_method r = GET -> rq_path r = [str "block"; s] -> parse_u32 s = Some h -> serves r (AHeight h)
| s_new name e : rq_method r = POST -> rq_path r = [str "new"] -> new_body (rq_body r) = Some (name, e) ->
    serves r (ANew name e).

Definition answer (e : AggEndpoint) : AggHandler :=
  match e with
  | AVersion => version_handler
  | AOpenapi => openapi_handler
  | ALatest => stats_latest_handler
  | AHeight h => stats_handler h
  | ANew name e => register_handler name e
  end.

Context {HL : WarpLaws}.

#[local] Hint Unfold version openapi register stats_latest stats : routes.

Lemma agg_serves_deterministic (r : HttpRequest) (e e' : AggEndpoint) : serves r e -> serves r e' -> e = e'.
Proof. intros S1 S2. destruct S1, S2; first [congruence|other_path]. Qed.

Lemma agg_routes_sound (r : HttpRequest) (h : AggHandler) :
  rq_cross_origin r = false -> yields routes r h -> exists e, serves r e /\ h = answer e.
Proof.
  intros Ho Hy. apply yields_cors in Hy; [|done].
  apply yields_or in Hy as [Hy|Hy]; unfold only in Hy; route_inv.
  - repeat match goal with
      | Hy : yields (_ <or> _) _ _ |- _ => apply yields_or in Hy as [Hy|Hy] end;
      route_inv; eexists; (split; [solve [econstructor; eauto]|reflexivity]).
  - match goal with Hb : new_body _ = Some ?p.2 |- _ => destruct p as [[u v] [name e]] end. cbn in *.
    eexists; (split; [solve [econstructor; eauto]|reflexivity]).
Qed.

(** The routes are the table. *)
Lemma agg_routes_table (r : HttpRequest) :
  rq_cross_origin r = false ->
  (forall e, serves r e -> run_filter routes r = Some (answer e)) /\
  ((forall e, ~ serves r e) -> run_filter routes r = None).
Proof.
  intros Ho. apply (filter_is_table routes r (serves r) answer).
  - intros h. by apply agg_routes_sound.
  - intros e Hs. apply accepted_cors; [done|]. apply accepted_or. unfold only.
    rewrite !accepted_map, !accepted_and.
    destruct Hs; first [left; split; [accepted_leaf|accepted_here] | right; split; accepted_leaf].
  - intros e e'. apply agg_serves_deterministic.
Qed.

Lemma handle_answer (db : Agg) (r : HttpRequest) (e : AggEndpoint) :
  rq_cross_origin r = false -> serves r e ->
  handle db r = let '(db, o) := answer e db in (db, Some o).
Proof. intros Ho Hs. unfold handle. by rewrite (proj1 (agg_routes_table r Ho) e). Qed.

(** * The service over time *)

(** The event a request posts. *)
Definition request_post (r : HttpRequest) : option Post :=
  if decide (rq_method r = POST /\ rq_path r = [str "new"]) then new_body (rq_body r) else None.

Lemma handle_post (db : Agg) (r : HttpRequest) (name : bytes) (e : StatEvent) :
  rq_cross_origin r = false -> request_post r = Some (name, e) -> (handle db r).1 = (register_handler name e db).1.
Proof.
  unfold request_post. intros Ho Hp. case_decide as Hd; [|done]. destruct Hd.
  rewrite (handle_answer db r (ANew name e)) by (done || by constructor). cbn [answer].
  by destruct (register_handler name e db).
Qed.

(** Every other request leaves the database alone. *)
Lemma handle_other (db : Agg) (r : HttpRequest) :
  rq_cross_origin r = false -> request_post r = None -> (handle db r).1 = db.
Proof.
  intros Ho Hp. unfold handle. destruct (run_filter routes r) as [h|] eqn:E; [|done].
  destruct (agg_routes_sound r h Ho E) as (e & He & ->).
  destruct He as [| | | |name e Hm Hpath Hb]; try done; cbn [answer].
  - unfold stats_latest_handler, locked. by destruct db as [[] r0].
  - unfold request_post in Hp. rewrite decide_True, Hb in Hp by done. done.
Qed.

(** As long as no posted event makes the handler panic, the database is that of the
    posted events, whatever else was asked in between. *)
Lemma serve_all_posts (rs : list HttpRequest) (r0 : R) (st : State) (r : R) :
  Forall (fun q => rq_cross_origin q = false) rs ->
  post_all (omap request_post rs) (state_new, r0) = Ret (st, r) ->
  serve_all rs (Alive state_new, r0) = (Alive st, r).
Proof.
  intros Ho. revert st r. induction rs as [|q rs IH] using rev_ind; intros st r; [by intros [= <- <-]|].
  apply Forall_app in Ho as [Ho [Hq _]%Forall_cons]. unfold serve_all. rewrite omap_app, foldl_app. cbn [foldl].
  fold (serve_all rs (Alive state_new, r0)). cbn [omap list_omap].
  destruct (request_post q) as [[name e]|] eqn:Ep; cbn [app].
  - rewrite post_all_app. destruct (post_all (omap request_post rs) (state_new, r0)) as [[st' r']| |] eqn:E; [|done|done].
    cbn [mbind outcome_bind post_all]. destruct (post_data name e (st', r')) as [[st'' r'']| |] eqn:Ed; [|done|done].
    intros [= <- <-]. rewrite (IH Ho _ _ eq_refl), (handle_post _ _ name e) by done.
    unfold register_handler, locked. cbn. by rewrite Ed.
  - rewrite app_nil_r. intros E. by rewrite (IH Ho _ _ E), handle_other.
Qed.

(** Once poisoned, the service only shows what is stored. *)
Lemma poisoned_for_ever (rs : list HttpRequest) (r0 : R) :
  Forall (fun q => rq_cross_origin q = false) rs -> serve_all rs (Poisoned, r0) = (Poisoned, r0).
Proof.
  induction 1 as [|q rs Hq Hrs IH]; [done|]. unfold serve_all. cbn [foldl].
  destruct (request_post q) as [[name e]|] eqn:Ep; [by rewrite (handle_post _ _ name e)|by rewrite handle_other].
Qed.

Context {HCL : BlockCfLaws R}.

(** What the service shows after any requests, among them posts with times after the
    epoch: the latest block is that of the greatest height posted, a stored height is
    what was known of it when it was left for a greater one. *)
Lemma aggregator_service (rs : list HttpRequest) (r0 : R) (q : HttpRequest) :
  let l := omap request_post rs in
  Forall (fun q => rq_cross_origin q = false) (q :: rs) ->
  Forall height_ok l -> Forall times_ok l -> Z.of_nat (length l) < 2 ^ 32 ->
  exists st r, serve_all rs (Alive state_new, r0) = (Alive st, r) /\ agg_ok l st /\ rows_ok r0 l r /\
    (serves q ALatest ->
       handle (Alive st, r) q = ((Alive st, r), Some (Ret (200, ABlocks (Some (top_height l, view (last st))))))) /\
    (forall h, serves q (AHeight h) ->
       handle (Alive st, r) q = ((Alive st, r), Some (Ret (200, ABlocks ((fun c => (h, c)) <$> by_height h r))))).
Proof.
  intros l [Hq Ho]%Forall_cons Hh Ht Hl. destruct (post_all_ok r0 l Hh Ht Hl) as (st & r & E & Hok & Hrows).
  exists st, r. split; [by apply serve_all_posts|]. split; [done|]. split; [done|]. split.
  - intros Hs. rewrite (handle_answer _ q ALatest) by done. cbn. unfold latest. by destruct Hok as [->].
  - intros h Hs. by rewrite (handle_answer _ q (AHeight h)).
Qed.

End service.

(** An event from before the epoch poisons the cache: later posts and requests for the
    latest block end in a panic. *)
Section poison.
#[local] Instance poison_codec : BlockCodec := {| emit_blocks _ := []; absorb_blocks _ := None |}.
#[local] Instance poison_lib (e : StatEvent) : AggregatorLib := {|
  new_body _ := Some (str "debugger", e); no_query _ := Some tt;
  agg_git_hash := []; agg_openapi := []; is_json _ := true |}.
#[local] Existing Instances fun_warp fun_warp_laws.

Example early_event_poisons :
  let e := mkStatEvent [1] [8] 6 6 true PublishNewState 0 (-1) (-1) None (demo_node 9) (demo_node 1) in
  let post := mkHttp POST [str "new"] [] [] false in
  let ask := mkHttp GET [str "block"; str "latest"] [] [] false in
  let db := serve_all (HA := poison_lib e) [post] (Alive state_new, ∅ : gmap bytes bytes) in
  (handle (HA := poison_lib e) (Alive state_new, ∅ : gmap bytes bytes) ask).2 = Some (Ret (200, ABlocks (Some (0, [])))) /\
  db.1 = Poisoned /\ (handle (HA := poison_lib e) db ask).2 = Some Panic.
Proof. vm_compute. done. Qed.

End poison.
