(* ===== verification/KeyRecover.v ===== *)
(** Finding the secret keys of a connection ([mina-recorder/src/key_recover.rs]): keys
    that an earlier search stored, or the keys a generator makes of a recorded seed.

    The mutex [generators] is locked in the condition of an [if let], whose temporaries
    live until the end of the whole expression: the guard is still there when a key was
    found and the mutex is locked again to store the generators. [parking_lot]'s mutex
    is not reentrant. The model keeps the guard explicit; locking what is held gives
    [Deadlock]. *)

From stdpp Require Import base list gmap strings.
From Stdlib Require Import ZArith Lia.
From S2P Require Import Prelude Types Handle Noise Coding Rocks DbCore DbIndex DbSpec DbDemo.

(** What comes of a call that may wait for ever. *)
Inductive waits (A : Type) : Type :=
| Done (a : A)
| Deadlock.
Arguments Done {A} a.
Arguments Deadlock {A}.

(** [Shake256] over what was absorbed, and [read] of 32 bytes at a block. *)
Class Shake : Type := shake_block : bytes -> nat -> bytes.

Section recover.
Context {HP : NoisePrims} {HS : Shake} {HR : Radiation} {R : Type} {Hr : Rocks R}.

(** * Generators *)

Record KeyGenerator : Type := mkGenerator { kg_input : bytes; kg_block : nat }.

Definition generator_new (seed needle : bytes) : KeyGenerator := mkGenerator (seed ++ needle) 0.

(** [Iterator::next]: 32 bytes of the stream, clamped. *)
Definition generator_next (g : KeyGenerator) : KeyGenerator * bytes :=
  (mkGenerator (kg_input g) (S (kg_block g)),
   scalar_from_bits (clamp (shake_block (kg_input g) (kg_block g)))).

Definition public_key (sk : bytes) : bytes := base_mul_montgomery sk.

(** [find]: at most [n] keys, each of which is given to [cache]. *)
Fixpoint generator_find {T} (cache : bytes -> bytes -> T -> T) (n : nat) (pk : bytes) (g : KeyGenerator) (s : T)
    : KeyGenerator * T * option bytes :=
  match n with
  | O => (g, s, None)
  | S n =>
      let '(g, sk) := generator_next g in
      let s := cache (public_key sk) sk s in
      if decide (public_key sk = pk) then (g, s, Some sk) else generator_find cache n pk g s
  end.

Record KeyGenerators : Type := mkGenerators { kg_st : KeyGenerator; kg_eph : KeyGenerator }.

Definition generators_new (seed : bytes) : KeyGenerators :=
  mkGenerators (generator_new seed (str "static")) (generator_new seed (str "ephemeral")).

Definition part (ephemeral : bool) (g : KeyGenerators) : KeyGenerator :=
  if ephemeral then kg_eph g else kg_st g.
Definition set_part (ephemeral : bool) (k : KeyGenerator) (g : KeyGenerators) : KeyGenerators :=
  if ephemeral then mkGenerators (kg_st g) k else mkGenerators k (kg_eph g).

(** * [KeyGeneratorWithCache] *)

Record Keygen : Type := mkKeygen { generators : option KeyGenerators; held : bool; kg_db : DbCore R }.
Definition keygen_new (db : DbCore R) : Keygen := mkKeygen None false db.

(** [generators.lock()] and the drop of the guard. *)
Definition lock (k : Keygen) : waits Keygen :=
  if held k then Deadlock else Done (mkKeygen (generators k) true (kg_db k)).
Definition unlock (k : Keygen) : Keygen := mkKeygen (generators k) false (kg_db k).

(** [*generators.lock() = Some(g)] *)
Definition store_generators (g : KeyGenerators) (k : Keygen) : waits Keygen :=
  match lock k with
  | Done k => Done (mkKeygen (Some g) false (kg_db k))
  | Deadlock => Deadlock
  end.

Definition cache_sk (pk sk : bytes) (db : DbCore R) : DbCore R := (put_sk pk sk db).1.

(** The seeds that are tried: the first eight recorded randomnesses, of 32 bytes. *)
Definition seeds (db : DbCore R) : list bytes :=
  List.filter (fun x => blen x =? 32) (take 8 (iterate_randomness db)).

Definition find_from_seed (ephemeral : bool) (pk seed : bytes) : option bytes :=
  (generator_find (fun _ _ (u : unit) => u) 100 pk (part ephemeral (generators_new seed)) tt).2.

Fixpoint search_seed (ephemeral : bool) (pk : bytes) (l : list bytes) : option (bytes * bytes) :=
  match l with
  | [] => None
  | seed :: l =>
      match find_from_seed ephemeral pk seed with
      | Some sk => Some (seed, sk)
      | None => search_seed ephemeral pk l
      end
  end.

(** The closure of [or_else]; the guard is dropped at its end. *)
Definition search_key (ephemeral : bool) (pk : bytes) (k : Keygen) : waits (Keygen * option bytes) :=
  match lock k with
  | Deadlock => Deadlock
  | Done k =>
      match generators k with
      | Some g =>
          let k := mkKeygen None (held k) (kg_db k) in
          let '(p, db, found) := generator_find cache_sk 100 pk (part ephemeral g) (kg_db k) in
          let k := mkKeygen (generators k) (held k) db in
          match found with
          | None => Done (unlock k, None)
          | Some sk =>
              match store_generators (set_part ephemeral p g) k with
              | Done k => Done (unlock k, Some sk)
              | Deadlock => Deadlock
              end
          end
      | None =>
          match search_seed ephemeral pk (seeds (kg_db k)) with
          | None => Done (unlock k, None)
          | Some (seed, sk) =>
              match store_generators (generators_new seed) k with
              | Done k => Done (unlock k, Some sk)
              | Deadlock => Deadlock
              end
          end
      end
  end.

Definition reproduced_sk (ephemeral : bool) (pk : bytes) (k : Keygen) : waits (Keygen * option bytes) :=
  match get_sk pk (kg_db k) with
  | Err _ => Done (k, None)
  | Ok (Some sk) => Done (k, Some sk)
  | Ok None => search_key ephemeral pk k
  end.

(** Calls one after the other; randomness is recorded in between. *)
Inductive KeyCall : Type :=
| Reproduce (ephemeral : bool) (pk : bytes)
| Randomness (id : Z) (data : bytes).

Definition key_call (c : KeyCall) (k : Keygen) : waits (Keygen * option bytes) :=
  match c with
  | Reproduce e pk => reproduced_sk e pk k
  | Randomness id data =>
      Done (mkKeygen (generators k) (held k) (put_randomness id data (kg_db k)).1, None)
  end.

Fixpoint key_calls (cs : list KeyCall) (k : Keygen) : waits (Keygen * list (option bytes)) :=
  match cs with
  | [] => Done (k, [])
  | c :: cs =>
      match key_call c k with
      | Deadlock => Deadlock
      | Done (k, o) =>
          match key_calls cs k with
          | Deadlock => Deadlock
          | Done (k, os) => Done (k, o :: os)
          end
      end
  end.

(** * What a search finds *)

(** The keys of a generator. *)
Definition nth_key (g : KeyGenerator) (i : nat) : bytes :=
  scalar_from_bits (clamp (shake_block (kg_input g) (kg_block g + i))).

Lemma generator_find_spec {T} (cache : bytes -> bytes -> T -> T) (n : nat) (pk : bytes) (g : KeyGenerator) (s : T) :
  match (generator_find cache n pk g s).2 with
  | Some sk => public_key sk = pk /\ exists i, (i < n)%nat /\ sk = nth_key g i
  | None => forall i, (i < n)%nat -> public_key (nth_key g i) <> pk
  end.
Proof.
  revert g s. induction n as [|n IH]; intros g s; cbn; [lia|].
  destruct (decide (public_key (scalar_from_bits (clamp (shake_block (kg_input g) (kg_block g)))) = pk)) as [E|Hne]; cbn.
  - split; [done|]. exists 0%nat. unfold nth_key. rewrite Nat.add_0_r. split; [lia|done].
  - set (g' := mkGenerator (kg_input g) (S (kg_block g))).
    match goal with |- context [generator_find cache n pk g' ?s'] => specialize (IH g' s') end.
    assert (forall i, nth_key g' i = nth_key g (S i)) as Hk by (intros i; unfold nth_key, g'; cbn; by rewrite Nat.add_succ_r).
    destruct (generator_find _ n pk g' _) as [[g'' s'] [sk|]]; cbn in *.
    + destruct IH as [Hp (i & Hi & ->)]. split; [done|]. exists (S i). split; [lia|]. by rewrite Hk.
    + intros [|i] Hi.
      * unfold nth_key. by rewrite Nat.add_0_r.
      * rewrite <- Hk. apply IH. lia.
Qed.

(** A key that a recorded seed makes. *)
Definition recoverable (ephemeral : bool) (pk : bytes) (db : DbCore R) : Prop :=
  exists seed i, seed ∈ seeds db /\ (i < 100)%nat /\ public_key (nth_key (part ephemeral (generators_new seed)) i) = pk.

Lemma search_seed_spec (ephemeral : bool) (pk : bytes) (l : list bytes) :
  is_Some (search_seed ephemeral pk l) <->
  exists seed i, seed ∈ l /\ (i < 100)%nat /\ public_key (nth_key (part ephemeral (generators_new seed)) i) = pk.
Proof.
  induction l as [|seed l IH]; cbn.
  - split; [intros [? ?]; done|]. intros (seed & i & Hs & _). by apply elem_of_nil in Hs.
  - unfold find_from_seed.
    pose proof (generator_find_spec (fun _ _ (u : unit) => u) 100 pk (part ephemeral (generators_new seed)) tt) as Hf.
    destruct (generator_find _ 100 pk _ tt) as [[p u] [sk|]]; cbn in *.
    + split; [|by eexists]. intros _. destruct Hf as [Hp (i & Hi & ->)]. exists seed, i. split; [by left|done].
    + rewrite IH. split.
      * intros (s & i & Hs & ?). exists s, i. split; [by right|done].
      * intros (s & i & Hs & Hi & Hp). exists s, i. apply elem_of_cons in Hs as [->|Hs]; [|done].
        by destruct (Hf i Hi).
Qed.

(** As long as no generators are stored, a call gives back a stored key, gives up, or
    waits for ever, and changes nothing. *)
Lemma reproduced_sk_unstored (ephemeral : bool) (pk : bytes) (k : Keygen) :
  generators k = None -> held k = false ->
  match get_sk pk (kg_db k) with
  | Err _ => reproduced_sk ephemeral pk k = Done (k, None)
  | Ok (Some sk) => reproduced_sk ephemeral pk k = Done (k, Some sk)
  | Ok None =>
      (recoverable ephemeral pk (kg_db k) /\ reproduced_sk ephemeral pk k = Deadlock) \/
      (~ recoverable ephemeral pk (kg_db k) /\ reproduced_sk ephemeral pk k = Done (k, None))
  end.
Proof.
  destruct k as [g h db]. cbn. intros -> ->. unfold reproduced_sk. cbn [kg_db].
  destruct (get_sk pk db) as [[sk|]|e]; [done| |done]. unfold recoverable.
  unfold search_key. cbn. pose proof (search_seed_spec ephemeral pk (seeds db)) as Hs.
  destruct (search_seed ephemeral pk (seeds db)) as [[seed sk]|].
  - left. split; [by apply Hs; eexists|done].
  - right. split; [|done]. rewrite <- Hs. intros [? ?]; done.
Qed.

(** ** No key is ever reproduced *)

Context {HrL : RocksLaws R}.

(** Nothing else writes the family of the keys. *)
Definition no_keys (k : Keygen) : Prop :=
  healthy (db_inner (kg_db k)) /\ contents (db_inner (kg_db k)) KEYS = ∅ /\ generators k = None /\ held k = false.

Lemma no_keys_randomness (k : Keygen) (id : Z) (data : bytes) :
  no_keys k -> no_keys (mkKeygen (generators k) (held k) (put_randomness id data (kg_db k)).1).
Proof.
  intros (Hh & Hk & Hg & Hl). unfold put_randomness, put.
  destruct (put_ok (db_inner (kg_db k)) RANDOMNESS (be_encode 8 id) data Hh) as (r' & E & Hh' & Hc). rewrite E. cbn.
  split; [done|]. split; [|done]. by rewrite Hc, decide_False.
Qed.

Lemma no_keys_get (k : Keygen) (pk : bytes) : no_keys k -> get_sk pk (kg_db k) = Ok None.
Proof. intros (Hh & Hk & _). unfold get_sk. by rewrite get_ok, Hk, lookup_empty by done. Qed.

(** Starting without stored keys, calls that return have found nothing; the first one
    that looks for a key which a recorded seed makes never returns. *)
Theorem keys_not_reproduced (cs : list KeyCall) (k : Keygen) :
  no_keys k ->
  match key_calls cs k with
  | Done (k', os) => no_keys k' /\ Forall (eq None) os
  | Deadlock => exists pre e pk post k' os, cs = pre ++ Reproduce e pk :: post /\
      key_calls pre k = Done (k', os) /\ recoverable e pk (kg_db k')
  end.
Proof.
  revert k. induction cs as [|c cs IH]; intros k Hk; cbn; [done|].
  assert (match key_call c k with
          | Done (k', o) => no_keys k' /\ o = None
          | Deadlock => exists e pk, c = Reproduce e pk /\ recoverable e pk (kg_db k)
          end) as Hc.
  { destruct c as [e pk|id data]; cbn [key_call]; [|split; [by apply no_keys_randomness|done]].
    pose proof (reproduced_sk_unstored e pk k) as Hs. rewrite no_keys_get in Hs by done.
    destruct Hs as [[Hr' ->]|[_ ->]]; [apply Hk|apply Hk| |done]. by exists e, pk. }
  destruct (key_call c k) as [[k1 o]|] eqn:E.
  - destruct Hc as [Hk1 ->]. specialize (IH k1 Hk1). destruct (key_calls cs k1) as [[k2 os]|].
    + destruct IH. split; [done|by constructor].
    + destruct IH as (pre & e & pk & post & k' & os & -> & Hp & Hrec).
      exists (c :: pre), e, pk, post, k', (None :: os). split; [done|]. split; [|done]. cbn. by rewrite E, Hp.
  - destruct Hc as (e & pk & -> & Hrec). by exists [], e, pk, cs, k, [].
Qed.

End recover.

(** A seed whose third key is the one looked for. *)
Section demo.
#[local] Existing Instances demo_radiation demo_prims mem_rocks mem_laws.
#[local] Instance demo_shake : Shake := fun input i => Z.of_nat (8 * i) :: repeat 1 31.

Example third_key_blocks :
  let seed := repeat 9 32 in
  let pk := public_key (nth_key (part true (generators_new seed)) 2) in
  let k := keygen_new (mkCore ∅ (fun _ => ∅) : DbCore MemStore) in
  key_calls [Reproduce true pk; Randomness 0 [1]] k <> Deadlock /\
  key_calls [Reproduce true pk; Randomness 0 seed; Reproduce true pk] k = Deadlock.
Proof. vm_compute. done. Qed.

End demo.
