(* ===== verification/Mock.v ===== *)
(** The simulated node ([simulator/src/libp2p_helper.rs], [peer/main_behavior.rs],
    [peer/split_behavior.rs]): the process of the helper with its requests and answers,
    the messages a node publishes and receives, and the run that reports them.

    What the operating system and the helper do is given: the pieces in which each
    request is written and whether that worked, the messages that come out of the pipe,
    the clock and the random numbers. *)

From stdpp Require Import base strings list sets sorting.
From Stdlib Require Import ZArith Lia.
From S2P Require Import Prelude Types Text Rocks Meshsub BTree Checksum Ipc PeerTests Registry.

(** * The pipe from the helper *)

(** The thread that decodes: [None] when the pipe ends or a message is broken. *)
Fixpoint reader (ds : list (result OutMsg IpcError)) : list (option OutMsg) :=
  match ds with
  | [] => []
  | Ok m :: ds => Some m :: reader ds
  | Err _ :: _ => [None]
  end.

(** What the thread that distributes has handed on, and whether it still runs; it
    panics when it has a push message and nobody receives them ([listening]). *)
Record Dispatched : Type := mkDispatched {
  d_push : list PushMessage;
  d_rpc : list RpcResponse;
  d_running : bool;
}.

Fixpoint dispatch (listening : bool) (ms : list (option OutMsg)) : Dispatched :=
  match ms with
  | [] => mkDispatched [] [] true
  | Some (OutPushMessage m) :: ms =>
      if listening then let d := dispatch listening ms in mkDispatched (m :: d_push d) (d_rpc d) (d_running d)
      else mkDispatched [] [] false
  | Some (OutRpcResponse r) :: ms =>
      let d := dispatch listening ms in mkDispatched (d_push d) (r :: d_rpc d) (d_running d)
  | Some (OutUnknown _) :: _ | None :: _ => mkDispatched [] [] false
  end.

Definition as_push (m : OutMsg) : option PushMessage := match m with OutPushMessage m => Some m | _ => None end.
Definition as_response (m : OutMsg) : option RpcResponse := match m with OutRpcResponse r => Some r | _ => None end.
Definition is_known (m : OutMsg) : bool := match m with OutUnknown _ => false | _ => true end.

(** Messages before [stop_receiving] reach their channels in order; none after it does. *)
Lemma dispatch_until_stop (ms : list OutMsg) (rest : list (option OutMsg)) :
  Forall (fun m => is_known m = true) ms ->
  dispatch true ((Some <$> ms) ++ None :: rest) = mkDispatched (omap as_push ms) (omap as_response ms) false.
Proof. induction 1 as [|[] ms Hm _ IH]; cbn in *; [done|done| |]; by rewrite IH. Qed.

(** Without a receiver the first push message ends the answers, too. *)
Lemma dispatch_unheard (rs : list RpcResponse) (m : PushMessage) (rest : list (option OutMsg)) :
  dispatch false (((fun r => Some (OutRpcResponse r)) <$> rs) ++ Some (OutPushMessage m) :: rest)
  = mkDispatched [] rs false.
Proof. induction rs as [|r rs IH]; cbn; [done|]. by rewrite IH. Qed.

(** * Requests *)

Section process.
Context {R : Type} {HT : CapnpTree R} {HC : Crc64}.
(** The pieces in which the [n]th request is written, and whether that worked. *)
Context (wr : nat -> RpcRequest -> list bytes * result unit IpcError).

Record Process : Type := mkProcess {
  p_stdin : ChecksumIo;
  p_count : nat;
  p_rpc : list RpcResponse;
}.

Abbreviation res := (fun A => result A IpcError).

Definition send_request (r : RpcRequest) (p : Process) : Process * res unit :=
  let '(calls, written) := wr (p_count p) r in
  let '(io, x) := io_encode (InRpcRequest r) calls written (p_stdin p) in
  (mkProcess io (S (p_count p)) (p_rpc p), x).

(** [rpc_rx.recv()]: the next answer, [None] when the channel is closed. *)
Definition recv (p : Process) : Process * option RpcResponse :=
  match p_rpc p with
  | [] => (p, None)
  | x :: l => (mkProcess (p_stdin p) (p_count p) l, Some x)
  end.

Definition call {A} (r : RpcRequest) (f : option RpcResponse -> A) (p : Process) : Process * res A :=
  match send_request r p with
  | (p, Err e) => (p, Err e)
  | (p, Ok _) => let '(p, x) := recv p in (p, Ok (f x))
  end.

Definition generate_keypair : Process -> Process * res (option (bytes * bytes * bytes)) :=
  call ReqGenerateKeypair (fun r =>
    match r with Some (ResGenerateKeypair peer_id pk sk) => Some (peer_id, pk, sk) | _ => None end).

Definition configure (c : Config) : Process -> Process * res unit := call (ReqConfigure c) (fun _ => tt).

Definition list_peers : Process -> Process * res (option (list Peer)) :=
  call ReqListPeers (fun r => match r with Some (ResListPeers l) => Some l | _ => None end).

Definition publish (topic data : bytes) : Process -> Process * res unit := call (ReqPublish topic data) (fun _ => tt).
Definition subscribe (id : Z) (topic : bytes) : Process -> Process * res unit :=
  call (ReqSubscribe id topic) (fun _ => tt).

(** The number of the stream, or the error of the helper. *)
Definition open_stream (peer_id protocol : bytes) (p : Process) : Process * res (result Z bytes) :=
  match call (ReqAddStreamHandler protocol) Datatypes.id p with
  | (p, Err e) => (p, Err e)
  | (p, Ok (Some (ResError err))) => (p, Ok (Err err))
  | (p, Ok _) =>
      call (ReqOpenStream peer_id protocol) (fun r =>
        match r with
        | Some (ResOutgoingStream _ stream_id) => Ok stream_id
        | Some (ResError err) => Err err
        | _ => Err []
        end) p
  end.

(** [StreamSender::send_stream]: the answer is left in the channel. *)
Definition send_stream (data : bytes) (stream_id : Z) : Process -> Process * res unit :=
  send_request (ReqSendStream data stream_id).

(** ** Which answer a request gets *)

Inductive Op : Type := OpCall (r : RpcRequest) | OpSend (data : bytes) (stream_id : Z).
Definition op_request (o : Op) : RpcRequest :=
  match o with OpCall r => r | OpSend data id => ReqSendStream data id end.
Definition is_call (o : Op) : bool := match o with OpCall _ => true | OpSend _ _ => false end.

(** The answers the calls get. *)
Fixpoint run_ops (ops : list Op) (p : Process) : Process * list (res (option RpcResponse)) :=
  match ops with
  | [] => (p, [])
  | OpCall r :: ops =>
      let '(p, x) := call r Datatypes.id p in let '(p, xs) := run_ops ops p in (p, x :: xs)
  | OpSend data id :: ops => run_ops ops (send_stream data id p).1
  end.

(** A request that is built and written. *)
Definition goes_out (n : nat) (r : RpcRequest) : Prop :=
  (exists root, in_build (InRpcRequest r) = Ok root) /\ (wr n r).2 = Ok tt.

Lemma send_request_ok (r : RpcRequest) (p : Process) :
  goes_out (p_count p) r -> exists io, send_request r p = (mkProcess io (S (p_count p)) (p_rpc p), Ok tt).
Proof.
  intros [[root Hb] Hw]. unfold send_request. destruct (wr (p_count p) r) as [calls w] eqn:E. cbn in Hw. subst w.
  unfold io_encode. rewrite Hb. by eexists.
Qed.

(** The helper answers the requests in order, one answer each. The [n]th call gets the
    [n]th answer, which is that of its own request only as long as nothing was sent to
    a stream before it. *)
Theorem answers_in_order (answer : RpcRequest -> RpcResponse) (ops : list Op) (p : Process) (rest : list RpcResponse) :
  p_rpc p = (answer ∘ op_request <$> ops) ++ rest ->
  (forall i o, ops !! i = Some o -> goes_out (p_count p + i) (op_request o)) ->
  (run_ops ops p).2 = (fun o => Ok (Some (answer (op_request o)))) <$>
                      take (length (List.filter is_call ops)) ops.
Proof.
  cut (forall l, p_rpc p = (answer ∘ op_request <$> l) ++ rest -> (length (List.filter is_call ops) <= length l)%nat ->
    (forall i o, ops !! i = Some o -> goes_out (p_count p + i) (op_request o)) ->
    (run_ops ops p).2 = (fun o => Ok (Some (answer (op_request o)))) <$> take (length (List.filter is_call ops)) l).
  { intros Hc Hp Hg. apply Hc; [done| |done]. clear. induction ops as [|[] ops IH]; cbn; lia. }
  revert p. induction ops as [|o ops IH]; intros p l Hp Hl Hg; [done|].
  pose proof (Hg 0%nat o eq_refl) as H0. rewrite Nat.add_0_r in H0.
  destruct (send_request_ok (op_request o) p H0) as [io Es].
  assert (forall rs i o', ops !! i = Some o' -> goes_out (p_count (mkProcess io (S (p_count p)) rs) + i) (op_request o')) as Hg'.
  { intros rs i o' Hi. cbn. specialize (Hg (S i) o' Hi). by rewrite Nat.add_succ_r in Hg. }
  destruct o as [r|data id]; cbn [run_ops is_call List.filter op_request] in *.
  - unfold call. rewrite Es. cbn [length] in Hl. destruct l as [|o' l]; cbn in Hl; [lia|].
    unfold recv. cbn [p_rpc]. rewrite Hp. cbn [fmap list_fmap app].
    specialize (IH (mkProcess io (S (p_count p)) ((answer ∘ op_request <$> l) ++ rest)) l eq_refl ltac:(lia) (Hg' _)).
    cbn [p_stdin p_count]. destruct (run_ops ops _) as [p' xs]. cbn in IH. cbn. by rewrite IH.
  - unfold send_stream. rewrite Es. cbn [fst].
    specialize (IH (mkProcess io (S (p_count p)) (p_rpc p)) l). cbn [p_rpc] in IH.
    rewrite (IH Hp ltac:(lia) (Hg' _)). done.
Qed.

(** A node that sends nothing to streams gets the answers to its own requests. *)
Corollary calls_get_their_answers (answer : RpcRequest -> RpcResponse) (rs : list RpcRequest) (p : Process)
    (rest : list RpcResponse) :
  p_rpc p = (answer <$> rs) ++ rest -> (forall i r, rs !! i = Some r -> goes_out (p_count p + i) r) ->
  (run_ops (OpCall <$> rs) p).2 = (fun r => Ok (Some (answer r))) <$> rs.
Proof.
  intros Hp Hg. rewrite (answers_in_order answer _ p rest).
  - assert (List.filter is_call (OpCall <$> rs) = OpCall <$> rs) as -> by (clear; induction rs; cbn; congruence).
    rewrite firstn_all. by rewrite <- list_fmap_compose.
  - rewrite <- list_fmap_compose. exact Hp.
  - intros i o Hi. rewrite list_lookup_fmap in Hi. apply fmap_Some in Hi as (r & Hr & ->). by apply Hg.
Qed.

(** After one message to a stream, the next request is given the answer to that. *)
Corollary answer_after_stream (answer : RpcRequest -> RpcResponse) (data : bytes) (id : Z) (r : RpcRequest)
    (p : Process) (rest : list RpcResponse) :
  p_rpc p = answer (ReqSendStream data id) :: answer r :: rest ->
  goes_out (p_count p) (ReqSendStream data id) -> goes_out (S (p_count p)) r ->
  (run_ops [OpSend data id; OpCall r] p).2 = [Ok (Some (answer (ReqSendStream data id)))].
Proof.
  intros Hp H0 H1. apply (answers_in_order answer [OpSend data id; OpCall r] p rest Hp).
  intros [|[|i]] o [= <-]; [by rewrite Nat.add_0_r|by rewrite Nat.add_1_r].
Qed.

(** [stop]: the checksums of the two directions; [stdout] as the reader left it. *)
Definition stop (stdout : ChecksumIo) (p : Process) : ChecksumPair :=
  mkPair (io_checksum (p_stdin p)) (io_checksum stdout).

(** * A node *)

(** [launch_stream_sender]: up to [tries] times, the stream or none. *)
Fixpoint try_open (tries : nat) (peer_id : bytes) (p : Process) : Process * res (option Z) :=
  match tries with
  | O => (p, Ok None)
  | S tries =>
      match open_stream peer_id (str "/mina/node-status") p with
      | (p, Err e) => (p, Err e)
      | (p, Ok (Ok id)) => (p, Ok (Some id))
      | (p, Ok (Err _)) => try_open tries peer_id p
      end
  end.

Definition multiaddr_of (a : IpAddr) : bytes := str "/dns4/" ++ show_ip a ++ str "/tcp/" ++ show_u16 PEER_PORT.

(** The configuration of a node that was registered. *)
Definition node_config (root : bytes) (key : bytes) (topics : list (list bytes)) (r : Registered) : Config :=
  config_new root key (str "00000000000000000000000066616b65206e6574776f726b00000000deadbeef")
    [str "/ip4/0.0.0.0/tcp/" ++ show_u16 PEER_PORT] (multiaddr_of (rg_external r))
    ((fun '(a, id) => multiaddr_of a ++ str "/p2p/" ++ id) <$> rg_peers r) topics.

End process.

(** ** What is sent to a stream *)

(** 128 times the number, in a kilobyte. *)
Definition stream_data (n : Z) : bytes := concat (repeat (le_encode 4 n) 128) ++ repeat 0 512.

Lemma stream_data_length (n : Z) : length (stream_data n) = 1024%nat.
Proof.
  unfold stream_data. rewrite length_app, repeat_length.
  assert (forall k, length (concat (repeat (le_encode 4 n) k)) = (k * 4)%nat) as ->; [|done].
  induction k as [|k IH]; [done|]. cbn [repeat concat]. rewrite length_app, length_le_encode, IH. lia.
Qed.

(** The check of the order finds the numbers that were sent. *)
Lemma stream_numbers (ns : list Z) (fuel : nat) :
  (length ns <= fuel)%nat -> Forall (fun n => 0 <= n < 2 ^ 32) ns ->
  chunk_numbers fuel (concat (stream_data <$> ns)) = Ret ns.
Proof.
  revert fuel. induction ns as [|n ns IH]; intros fuel Hf Hn; [by destruct fuel|].
  destruct fuel as [|fuel]; cbn in Hf; [lia|]. apply Forall_cons in Hn as [Hn Hns].
  cbn [fmap list_fmap concat]. set (rest := concat (stream_data <$> ns)).
  destruct (stream_data n ++ rest) as [|b l] eqn:E.
  { apply (f_equal length) in E. rewrite length_app, stream_data_length in E. cbn in E. lia. }
  cbn [chunk_numbers]. rewrite <- E.
  rewrite take_app_length', drop_app_length' by (by rewrite stream_data_length).
  unfold rest. rewrite (IH fuel) by (done || lia).
  assert (slice_to 4 (stream_data n) = Ret (le_encode 4 n)) as ->.
  { rewrite slice_to_within by (unfold blen; rewrite stream_data_length; lia).
    unfold stream_data. change (repeat (le_encode 4 n) 128) with (le_encode 4 n :: repeat (le_encode 4 n) 127).
    cbn [concat]. rewrite <- app_assoc, take_app_length' by (by rewrite length_le_encode). done. }
  cbn. by rewrite le_decode_encode by (cbn; lia).
Qed.

(** ** Test messages *)

(** [format!("test message, id: {this_addr}, slot: {slot}")] *)
Definition test_message (a : IpAddr) (slot : Z) : bytes :=
  str "test message, id: " ++ show_ip a ++ str ", slot: " ++ show_u32 slot.

(** ASCII, and not the first letter of the separator. *)
Definition not_s (c : Z) : Prop := 0 <= c < 128 /\ c <> 115.
Ltac plain_text := repeat (apply Forall_cons_2; [unfold not_s; lia|]); apply Forall_nil_2.

Lemma hex_digit_not_s (d : Z) : 0 <= d < 16 -> not_s (hex_digit d).
Proof. intros Hd. unfold not_s, hex_digit. destruct (Z.ltb_spec d 10); lia. Qed.

Lemma show_radix_not_s (fuel : nat) (radix n : Z) : 0 < radix <= 16 -> Forall not_s (show_radix fuel radix n).
Proof.
  intros Hr. revert n. induction fuel as [|fuel IH]; intros n; cbn; [done|].
  apply Forall_app. split; [destruct (_ <? _); [done|apply IH]|].
  constructor; [|done]. apply hex_digit_not_s. pose proof (Z.mod_pos_bound n radix). lia.
Qed.

Lemma join_not_s (sep : bytes) (l : list bytes) :
  Forall not_s sep -> Forall (Forall not_s) l -> Forall not_s (join_with sep l).
Proof.
  intros Hs Hl. induction Hl as [|w [|w' l] Hw Hl IH]; [done|done|]. cbn [join_with] in *. by rewrite !Forall_app.
Qed.

Lemma show_ipv4_not_s (o : bytes) : Forall not_s (show_ipv4 o).
Proof.
  apply join_not_s; [plain_text|]. induction o as [|b o IH]; cbn [List.map]; constructor; [|done].
  apply show_radix_not_s. lia.
Qed.

Lemma show_ip_not_s (a : IpAddr) : Forall not_s (show_ip a).
Proof.
  assert (forall l, Forall not_s (join_with [58] (List.map show_x16 l))) as Hx.
  { intros l. apply join_not_s; [plain_text|]. induction l as [|b l IH]; cbn [List.map]; constructor; [|done].
    apply show_radix_not_s. lia. }
  destruct a as [o|o]; cbn; [apply show_ipv4_not_s|]. unfold show_ipv6. destruct (decide _).
  - apply Forall_app. split; [vm_compute str; plain_text|apply show_ipv4_not_s].
  - destruct (zero_span _ _ _ _) as [i len]. destruct (1 <? len)%nat; [|apply Hx].
    rewrite !Forall_app. split; [apply Hx|]. split; [plain_text|apply Hx].
Qed.

(** Text without the first letter of the separator belongs to one piece. *)
Lemma split_str_skip (p w s : bytes) :
  Forall not_s w -> split_str_from (115 :: p) (w ++ s) 0 =
  match split_str_from (115 :: p) s 0 with x :: xs => (w ++ x) :: xs | [] => [w] end.
Proof.
  intros Hw. induction Hw as [|c w Hc Hw IH]; cbn [app].
  - assert (split_str_from (115 :: p) s 0 <> []) as Hne.
    { destruct s as [|b s]; cbn; [done|]. destruct (_ && _); [done|]. by destruct (split_str_from _ s 0). }
    by destruct (split_str_from (115 :: p) s 0).
  - assert (starts_with (115 :: p) (c :: w ++ s) = false) as Hst.
    { cbn [starts_with]. rewrite (proj2 (Z.eqb_neq 115 c)) by (unfold not_s in Hc; lia). done. }
    cbn [split_str_from]. rewrite Hst, IH. by destruct (split_str_from (115 :: p) s 0).
Qed.

Lemma utf8_ascii (s : bytes) : Forall (fun c => 0 <= c < 128) s -> utf8_valid s = true.
Proof.
  intros Hs. unfold utf8_valid. induction Hs as [|c s Hc Hs IH]; [done|]. cbn [length utf8_valid_fuel].
  assert (in_range 0 127 c = true) as ->; [|done]. unfold in_range. apply andb_true_iff. rewrite !Z.leb_le. lia.
Qed.

Lemma test_message_utf8 (a : IpAddr) (slot : Z) : utf8_valid (test_message a slot) = true.
Proof.
  apply utf8_ascii. unfold test_message. rewrite !Forall_app. split_and!.
  - by repeat constructor.
  - eapply Forall_impl; [apply show_ip_not_s|]. by intros c [].
  - by repeat constructor.
  - eapply Forall_impl; [apply (show_radix_not_s 10 10 slot); lia|]. by intros c [].
Qed.

(** The receivers of a test message read the slot it was sent in. *)
Lemma test_message_slot (a : IpAddr) (slot : Z) :
  0 <= slot < 2 ^ 32 -> parse_block_height (test_message a slot) = Some slot.
Proof.
  intros Hs. unfold parse_block_height, test_message, split_str.
  change (str "slot: ") with (115 :: str "lot: ").
  assert (split_str_from (115 :: str "lot: ") (str ", slot: " ++ show_u32 slot) 0 = [str ", "; show_u32 slot]) as Htail.
  { pose proof (split_str_skip (str "lot: ") (show_u32 slot) [] ltac:(apply show_radix_not_s; lia)) as Hd.
    rewrite app_nil_r in Hd. revert Hd. generalize (show_u32 slot) as t. intros t Hd. cbn in *. by rewrite Hd, app_nil_r. }
  pose proof (split_str_skip (str "lot: ") (show_ip a) (str ", slot: " ++ show_u32 slot) (show_ip_not_s a)) as Ha.
  rewrite Htail in Ha. revert Ha. generalize (show_ip a ++ str ", slot: " ++ show_u32 slot) as t. intros t Ha.
  pose proof (parse_show_u32 slot Hs) as Hp. revert Ha Hp. generalize (show_u32 slot) as u, (show_ip a) as v.
  intros u v Ha Hp. cbn in Ha |- *. by rewrite Ha.
Qed.

(** ** Events *)

Section events.
Context {G : Type} {HG : GossipV2 G} {HB : Blake2}.

(** The thread that receives, on one message at [now] (in microseconds); the panics are
    those of [unwrap] and of slices. *)
Definition receive (topic : bytes) (now : Z) (m : PushMessage) : outcome (option DbEventWithMetadata) :=
  match m with
  | PushGossipReceived 0 peer data =>
      c ← consensus_from_bytes data;
      match c with
      | Err _ => Panic
      | Ok (CTest msg) =>
          Ret (Some (mkDbEvents (wrap 64 now)
            [DbReceivedGossip (peer_id peer) (peer_host peer ++ str ":" ++ show_u16 (peer_port peer))
               (TestMessage (default (2 ^ 32 - 1) (parse_block_height msg)))
               (hex_encode (consensus_calc_hash data topic))]))
      | Ok (CInner _) => Ret None
      end
  | StreamMessageReceived data _ => _ ← slice_to 4 data; Ret None
  | _ => Ret None
  end.

Fixpoint receive_all (topic : bytes) (ms : list (Z * PushMessage)) : outcome (list DbEventWithMetadata) :=
  match ms with
  | [] => Ret []
  | (now, m) :: ms =>
      o ← receive topic now m; es ← receive_all topic ms;
      Ret (match o with Some e => e :: es | None => es end)
  end.

(** The data published in a slot, and the event that is remembered. *)
Definition slot_data (a : IpAddr) (slot : Z) : bytes := consensus_into_bytes (CTest (G := G) (test_message a slot)).
Definition slot_event (topic : bytes) (a : IpAddr) (now slot : Z) : DbEventWithMetadata :=
  mkDbEvents (wrap 64 now)
    [DbPublishGossip (TestMessage slot) (hex_encode (consensus_calc_hash (slot_data a slot) topic))].

(** [sort_by] of the height, then of the time. *)
Definition event_le (a b : DbEventWithMetadata) : bool :=
  match Z.compare (events_height a) (events_height b) with
  | Lt => true
  | Eq => de_time a <=? de_time b
  | Gt => false
  end.
Definition merge_events (sent received : list DbEventWithMetadata) : list DbEventWithMetadata :=
  sort_by event_le (sent ++ received).

(** A message published in a slot is received with the same height and hash. *)
Lemma published_is_received (topic : bytes) (a : IpAddr) (peer : Peer) (now now' slot : Z) :
  0 <= slot < 2 ^ 32 ->
  exists addr, receive topic now' (PushGossipReceived 0 peer (slot_data a slot))
    = Ret (Some (mkDbEvents (wrap 64 now')
        [DbReceivedGossip (peer_id peer) addr (TestMessage slot)
           (hex_encode (consensus_calc_hash (slot_data a slot) topic))])) /\
  events_height (slot_event topic a now slot) = slot.
Proof.
  intros Hs. eexists. split; [|done]. unfold receive, slot_data, consensus_into_bytes, consensus_from_bytes.
  rewrite slice_from_within by (rewrite blen_app, blen_be_encode; pose proof (blen_nonneg (3 :: test_message a slot)); lia).
  rewrite drop_app_length' by (by rewrite length_be_encode). cbn [mbind outcome_bind].
  change (3 =? 3) with true. cbv iota beta.
  rewrite test_message_utf8. cbn [mbind outcome_bind]. rewrite test_message_slot by done. done.
Qed.

(** The events of a run are those that were sent and received, in the order of the
    heights and of the times. *)
Lemma merge_events_spec (sent received : list DbEventWithMetadata) :
  merge_events sent received ≡ₚ sent ++ received /\
  StronglySorted (fun a b => events_height a < events_height b \/
                             events_height a = events_height b /\ de_time a <= de_time b)
    (merge_events sent received).
Proof.
  split; [apply sort_by_perm|]. unfold merge_events.
  assert (forall a b, event_le a b = true <->
            events_height a < events_height b \/ events_height a = events_height b /\ de_time a <= de_time b) as He.
  { intros a b. unfold event_le. destruct (Z.compare_spec (events_height a) (events_height b)); rewrite ?Z.leb_le; split; intros; (lia || done). }
  pose proof (sort_by_sorted event_le) as HS.
  specialize (HS ltac:(intros a b Hf; apply He; pose proof (proj2 (He a b)); destruct (event_le a b); [done|]; lia)).
  specialize (HS ltac:(intros a b c; rewrite !He; lia) (sent ++ received)).
  clear -HS He. induction HS as [|x l HS IH HF]; constructor; [done|].
  eapply Forall_impl; [exact HF|]. intros y. apply He.
Qed.

End events.

(** * The runs

    What a run of a node does to the world, in order. *)

Inductive Effect : Type :=
| SpawnHelper
| StopHelper
| SpawnFlow
| StopFlow
| PostNet (r : list NetReport)
| PostMock (r : MockReport)
| PostSplit (r : MockSplitReport).

Inductive RunError : Type := ClientError | FlowError | InnerError | SendError.

(** [main_behavior::run]: whether the HTTP client and [tcpflow] could be started, the
    result of [run_inner], the flows and the checksums at the end, and which of the two
    posts go through. *)
Definition main_run (client flow : bool) (inner : result TestReport unit) (net : option (list NetReport))
    (ipc : ChecksumPair) (net_sent mock_sent : bool) : list Effect * result unit RunError :=
  if negb client then ([SpawnHelper; StopHelper], Err ClientError)
  else if negb flow then ([SpawnHelper; StopHelper], Err FlowError)
  else
    let started := [SpawnHelper; SpawnFlow; StopHelper; StopFlow] in
    let posted := match net with Some r => [PostNet r] | None => [] end in
    if match net with Some _ => negb net_sent | None => false end then (started ++ posted, Err SendError)
    else
      match inner with
      | Err _ => (started ++ posted, Err InnerError)
      | Ok test =>
          (started ++ posted ++ [PostMock (mkMockReport ipc test)],
           if mock_sent then Ok tt else Err SendError)
      end.

(** [split_behavior::run] *)
Definition split_run (client : bool) (inner : result MockSplitReport unit) (sent : bool)
    : list Effect * result unit RunError :=
  if negb client then ([SpawnHelper; StopHelper], Err ClientError)
  else
    match inner with
    | Err _ => ([SpawnHelper; StopHelper], Err InnerError)
    | Ok report => ([SpawnHelper; StopHelper; PostSplit report], if sent then Ok tt else Err SendError)
    end.

(** The helper and [tcpflow] are stopped whenever they were started, before anything is
    reported, on every path. *)
Definition balance (start stop : Effect -> bool) (l : list Effect) : nat * nat :=
  (length (List.filter start l), length (List.filter stop l)).
Definition is_effect (e : Effect) (x : Effect) : bool :=
  match e, x with
  | SpawnHelper, SpawnHelper | StopHelper, StopHelper | SpawnFlow, SpawnFlow | StopFlow, StopFlow => true
  | _, _ => false
  end.

Lemma runs_stop_what_they_start (client flow : bool) (inner : result TestReport unit) (net : option (list NetReport))
    (ipc : ChecksumPair) (net_sent mock_sent : bool) (split : result MockSplitReport unit) :
  balance (is_effect SpawnHelper) (is_effect StopHelper) (main_run client flow inner net ipc net_sent mock_sent).1
    = (1%nat, 1%nat) /\
  balance (is_effect SpawnHelper) (is_effect StopHelper) (split_run client split mock_sent).1 = (1%nat, 1%nat) /\
  (let '(a, b) := balance (is_effect SpawnFlow) (is_effect StopFlow)
                    (main_run client flow inner net ipc net_sent mock_sent).1 in a = b).
Proof. destruct client, flow, inner, net, net_sent, mock_sent, split; done. Qed.

(** A failed run still reports the flows, when they could be sent, and never its tests. *)
Lemma failed_run_reports_flows (r : list NetReport) (ipc : ChecksumPair) (net_sent mock_sent : bool) :
  let l := (main_run true true (Err tt) (Some r) ipc net_sent mock_sent).1 in
  last l = Some (PostNet r) /\ forall m, PostMock m ∉ l.
Proof. destruct net_sent; (split; [done|]); intros m H; repeat (apply elem_of_cons in H as [H|H]; [done|]); by apply elem_of_nil in H. Qed.

Section split.
Context {R : Type} {HT : CapnpTree R} {HC : Crc64}.
Context (wr : nat -> RpcRequest -> list bytes * result unit IpcError).

(** [split_behavior::run_inner] from the configuration on; [clock] gives the times, and
    the request for the split may fail. *)
Definition split_inner (clock : nat -> Z) (config : Config) (split_sent : bool) (p : Process)
    : Process * result MockSplitReport unit :=
  let peers (p : Process) : Process * result (list Peer) IpcError :=
    let '(p, r) := list_peers wr p in
    (p, match r with Ok l => Ok (default [] l) | Err e => Err e end) in
  match configure wr config p with
  | (p, Err _) => (p, Err tt)
  | (p, Ok _) =>
      match peers p with
      | (p, Err _) => (p, Err tt)
      | (p, Ok before) =>
          if negb split_sent then (p, Err tt)
          else
            match peers p with
            | (p, Err _) => (p, Err tt)
            | (p, Ok after_split) =>
                match peers p with
                | (p, Err _) => (p, Err tt)
                | (p, Ok after_reunite) =>
                    (p, Ok (mkSplitReport (before, clock 0%nat) (after_split, clock 1%nat)
                                          (after_reunite, clock 2%nat)))
                end
            end
      end
  end.

(** When every request goes out, the report has the three lists of peers the helper gave. *)
Lemma split_inner_reports (clock : nat -> Z) (config : Config) (p : Process) (a b c : list Peer)
    (rest : list RpcResponse) :
  p_rpc p = ResConfigure :: ResListPeers a :: ResListPeers b :: ResListPeers c :: rest ->
  (forall i r, i < 4 -> r = ReqListPeers \/ r = ReqConfigure config -> goes_out wr (p_count p + Z.to_nat i) r) ->
  (split_inner clock config true p).2
  = Ok (mkSplitReport (a, clock 0%nat) (b, clock 1%nat) (c, clock 2%nat)).
Proof.
  intros Hp Hg. unfold split_inner, configure, list_peers, call.
  destruct (send_request_ok wr (ReqConfigure config) p) as [io1 ->].
  { specialize (Hg 0 (ReqConfigure config) ltac:(lia) (or_intror eq_refl)). by rewrite Nat.add_0_r in Hg. }
  unfold recv. cbn [p_rpc p_stdin p_count]. rewrite Hp.
  destruct (send_request_ok wr ReqListPeers (mkProcess io1 (S (p_count p)) (ResListPeers a :: ResListPeers b :: ResListPeers c :: rest))) as [io2 ->].
  { specialize (Hg 1 ReqListPeers ltac:(lia) (or_introl eq_refl)). by rewrite Nat.add_1_r in Hg. }
  cbn [p_rpc p_stdin p_count negb default].
  destruct (send_request_ok wr ReqListPeers (mkProcess io2 (S (S (p_count p))) (ResListPeers b :: ResListPeers c :: rest))) as [io3 ->].
  { specialize (Hg 2 ReqListPeers ltac:(lia) (or_introl eq_refl)). by rewrite Nat.add_comm in Hg. }
  cbn [p_rpc p_stdin p_count negb default].
  destruct (send_request_ok wr ReqListPeers (mkProcess io3 (S (S (S (p_count p)))) (ResListPeers c :: rest))) as [io4 ->].
  { specialize (Hg 3 ReqListPeers ltac:(lia) (or_introl eq_refl)). by rewrite Nat.add_comm in Hg. }
  done.
Qed.

End split.

Section main.
Context {R : Type} {HT : CapnpTree R} {HC : Crc64} {G : Type} {HG : GossipV2 G} {HB : Blake2}.
Context (wr : nat -> RpcRequest -> list bytes * result unit IpcError).

Definition TEST_TOPIC : bytes := str "coda/test-messages/0.0.1".

(** The loop over the slots: those in which the node publishes, with the times;
    [publish(..).unwrap()]. *)
Fixpoint publish_slots (a : IpAddr) (slots : list (Z * Z)) (p : Process)
    : outcome (Process * list DbEventWithMetadata) :=
  match slots with
  | [] => Ret (p, [])
  | (slot, now) :: slots =>
      match publish wr TEST_TOPIC (slot_data (G := G) a slot) p with
      | (_, Err _) => Panic
      | (p, Ok _) =>
          '(p, es) ← publish_slots a slots p; Ret (p, slot_event (G := G) TEST_TOPIC a now slot :: es)
      end
  end.

(** [main_behavior::run_inner] from the answer of the registry to the events of the run;
    the secret key must be hexadecimal. [received] are the messages until the end. *)
Definition main_inner (root key : bytes) (r : Registered) (slots : list (Z * Z))
    (received : list (Z * PushMessage)) (p : Process) : outcome (Process * result (list DbEventWithMetadata) unit) :=
  match configure wr (node_config root key [[TEST_TOPIC]] r) p with
  | (p, Err _) => Ret (p, Err tt)
  | (p, Ok _) =>
      match subscribe wr 0 TEST_TOPIC p with
      | (p, Err _) => Ret (p, Err tt)
      | (p, Ok _) =>
          let prev_peer := ip ← rg_prev r; bt_get ip (rg_peers r) in
          match (match prev_peer with
                 | Some peer_id => try_open wr 10 peer_id p
                 | None => (p, Ok None)
                 end) with
          | (p, Err _) => Ret (p, Err tt)
          | (p, Ok _) =>
              '(p, sent) ← publish_slots (rg_external r) slots p;
              recv_events ← receive_all (G := G) TEST_TOPIC received;
              Ret (p, Ok (merge_events sent recv_events))
          end
      end
  end.

(** The heights of what a node remembers to have sent are the slots it published in. *)
Lemma publish_slots_heights (a : IpAddr) (slots : list (Z * Z)) : forall (p p' : Process) es,
  publish_slots a slots p = Ret (p', es) -> events_height <$> es = slots.*1.
Proof.
  induction slots as [|[slot now] slots IH]; intros p p' es; cbn [publish_slots]; [by intros [= <- <-]|].
  destruct (publish wr TEST_TOPIC _ p) as [p1 [[]|e]]; [|done].
  destruct (publish_slots a slots p1) as [[p2 es2]| |] eqn:E; cbn; [|done|done]. intros [= <- <-]. cbn.
  by rewrite (IH _ _ _ E).
Qed.

(** Messages of other topics and of other kinds give no event; a message that is too
    short ends the receiver. *)
Example receive_examples :
  receive (G := G) TEST_TOPIC 7 (PeerConnected [1]) = Ret None /\
  receive (G := G) TEST_TOPIC 7 (PushGossipReceived 1 (mkPeer [] [] 0) []) = Ret None /\
  receive (G := G) TEST_TOPIC 7 (PushGossipReceived 0 (mkPeer [] [] 0) [1; 2; 3]) = Panic /\
  receive (G := G) TEST_TOPIC 7 (StreamMessageReceived [1; 2] 5) = Panic.
Proof. done. Qed.

End main.
