(* ===== verification/Chunks.v ===== *)
(** Reading the records of a connection from raw bytes: [ChunkParser] of
    [mina-recorder/src/chunk.rs], the loop of [bin/replay.rs] that feeds a dump to the
    recorder again, and what decoding may give on bytes nobody checked. *)

From stdpp Require Import base list gmap.
From Stdlib Require Import ZArith Lia.
From S2P Require Import Prelude Types Coding.

Section chunks.
Context `{RadiationLaws}.

Definition SIZE : Z := 18.

(** [Iterator::next]: a header, and the bytes it announces. *)
Definition chunk_next (l : bytes) : option (ChunkHeader * bytes * bytes) :=
  '(header_bytes, r) ← absorb_array SIZE l;
  header ← absorb_ext (A := ChunkHeader) header_bytes;
  '(data, r) ← absorb_array (ch_size header) r;
  Some (header, data, r).

(** [for .. in parser]; every chunk takes at least a header off the input. *)
Fixpoint chunks_from (fuel : nat) (l : bytes) : list (ChunkHeader * bytes) :=
  match fuel with
  | O => []
  | S fuel =>
      match chunk_next l with
      | None => []
      | Some (header, data, r) => (header, data) :: chunks_from fuel r
      end
  end.
Definition parse_chunks (l : bytes) : list (ChunkHeader * bytes) := chunks_from (length l) l.

(** A call of [on_data] of the recorder: direction, time and data. *)
Abbreviation Fed := (bool * Z * bytes)%type.

(** The loop of [replay]: slices out of range and headers that cannot be read panic. *)
Fixpoint replay_from (fuel : nat) (l : bytes) : outcome (list Fed) :=
  match fuel with
  | O => OutOfFuel
  | S fuel =>
      match l with
      | [] => Ret []
      | _ =>
          header_bytes ← slice_to SIZE l;
          match absorb_ext (A := ChunkHeader) header_bytes with
          | None => Panic
          | Some header =>
              rest ← slice_from SIZE l;
              match encryption_status header with
              | Raw =>
                  data ← slice_to (ch_size header) rest;
                  fed ← replay_from fuel (drop (Z.to_nat (ch_size header)) rest);
                  Ret ((ch_incoming header, ch_time header, data) :: fed)
              | _ => replay_from fuel (drop (Z.to_nat (ch_size header)) rest)
              end
          end
      end
  end.
Definition replay (l : bytes) : outcome (list Fed) := replay_from (S (length l)) l.

(** * A dump that was written by the recorder *)

Definition chunk_ok (c : ChunkHeader * bytes) : Prop := well_formed c.1 /\ ch_size c.1 = blen c.2.
Definition dump (cs : list (ChunkHeader * bytes)) : bytes := cs ≫= fun c => emit c.1 ++ c.2.

Lemma dump_cons (c : ChunkHeader * bytes) (cs : list (ChunkHeader * bytes)) :
  dump (c :: cs) = emit c.1 ++ c.2 ++ dump cs.
Proof. unfold dump. cbn [mbind list_bind]. by rewrite <- app_assoc. Qed.

Lemma chunk_next_dump (c : ChunkHeader * bytes) (r : bytes) :
  chunk_ok c -> chunk_next (emit c.1 ++ c.2 ++ r) = Some (c.1, c.2, r).
Proof.
  intros [Hw Hs]. pose proof (chunk_header_length c.1 Hw) as Hl. unfold chunk_next, absorb_array, SIZE.
  rewrite (proj2 (Z.leb_le _ _)) by (rewrite !blen_app; unfold blen; rewrite Hl; lia).
  change (Z.to_nat 18) with 18%nat. rewrite <- Hl at 1 2. rewrite take_app_length, drop_app_length.
  cbn [mbind option_bind]. rewrite absorb_ext_emit by done. cbn [mbind option_bind].
  rewrite Hs, (proj2 (Z.leb_le _ _)) by (rewrite blen_app; pose proof (blen_nonneg r); lia).
  unfold blen. rewrite Nat2Z.id, take_app_length, drop_app_length. done.
Qed.

Lemma chunks_from_dump (cs : list (ChunkHeader * bytes)) : forall fuel,
  (length cs <= fuel)%nat -> Forall chunk_ok cs -> chunks_from fuel (dump cs) = cs.
Proof.
  induction cs as [|c cs IH]; intros fuel Hf Hc.
  - destruct fuel; [done|]. cbn. unfold chunk_next, absorb_array. cbn. done.
  - destruct fuel as [|fuel]; cbn in Hf; [lia|]. apply Forall_cons in Hc as [Hc Hcs].
    rewrite dump_cons. cbn [chunks_from].
    rewrite (chunk_next_dump c (dump cs) Hc). destruct c. by rewrite IH by (done || lia).
Qed.

Lemma dump_length (cs : list (ChunkHeader * bytes)) : Forall chunk_ok cs -> (length cs <= length (dump cs))%nat.
Proof.
  induction 1 as [|c cs [Hw _] _ IH]; [done|]. rewrite dump_cons. cbn [length].
  rewrite !length_app, (chunk_header_length c.1 Hw). lia.
Qed.

(** What was written is read: all chunks by the parser, and the raw ones by the replay. *)
Theorem dump_roundtrip (cs : list (ChunkHeader * bytes)) :
  Forall chunk_ok cs ->
  parse_chunks (dump cs) = cs /\
  replay (dump cs) = Ret (omap (fun c => match encryption_status c.1 with
                                         | Raw => Some (ch_incoming c.1, ch_time c.1, c.2)
                                         | _ => None
                                         end) cs).
Proof.
  intros Hcs. split; [by apply chunks_from_dump; [apply dump_length|]|].
  unfold replay. assert (length cs < S (length (dump cs)))%nat as Hf by (pose proof (dump_length cs Hcs); lia).
  revert Hf. generalize (S (length (dump cs))) as fuel. induction Hcs as [|c cs Hc Hcs IH]; intros fuel Hf.
  - destruct fuel; [lia|]. done.
  - destruct fuel as [|fuel]; cbn in Hf; [lia|]. destruct Hc as [Hw Hs].
    pose proof (chunk_header_length c.1 Hw) as Hl. rewrite dump_cons. cbn [replay_from]. destruct (emit c.1 ++ c.2 ++ dump cs) as [|b l] eqn:E.
    { apply (f_equal length) in E. rewrite length_app, Hl in E. cbn in E. lia. }
    rewrite <- E.
    assert (SIZE <= blen (emit c.1 ++ c.2 ++ dump cs)) as Hsz.
    { rewrite blen_app. unfold blen at 1. rewrite Hl. unfold SIZE. pose proof (blen_nonneg (c.2 ++ dump cs)). lia. }
    rewrite slice_to_within, slice_from_within by (unfold SIZE in *; lia).
    assert (Z.to_nat SIZE = length (emit c.1)) as -> by (by rewrite Hl).
    rewrite take_app_length, drop_app_length. cbn [mbind outcome_bind]. rewrite absorb_ext_emit by done.
    rewrite Hs. cbn [omap list_omap].
    assert (drop (Z.to_nat (blen c.2)) (c.2 ++ dump cs) = dump cs) as -> by (unfold blen; by rewrite Nat2Z.id, drop_app_length).
    assert (slice_to (blen c.2) (c.2 ++ dump cs) = Ret c.2) as ->.
    { rewrite slice_to_within by (rewrite blen_app; pose proof (blen_nonneg c.2); pose proof (blen_nonneg (dump cs)); lia).
      unfold blen. by rewrite Nat2Z.id, take_app_length. }
    cbn [mbind outcome_bind]. rewrite IH by lia. by destruct (encryption_status c.1).
Qed.

End chunks.

(** * Decoding unchecked bytes *)

(** What an unsigned integer or a string is read as fits its type, and decoders only
    take bytes off the front. *)
Class RadiationRanges `{Radiation} : Prop := {
  absorb_uint_range : forall n l z r, absorb_uint n l = Some (z, r) -> uint_ok n z /\ exists w, l = w ++ r;
  absorb_bool_front : forall l b r, absorb_bool l = Some (b, r) -> exists w, l = w ++ r;
  absorb_string_range : forall l s r, absorb_string l = Some (s, r) -> blen s < 2 ^ 32 /\ exists w, l = w ++ r;
}.

Section ranges.
Context `{RadiationRanges}.

(** A decoder gives values of [P] and leaves bytes. *)
Definition gives {A} (d : bytes -> option (A * bytes)) (P : A -> Prop) : Prop :=
  forall l a r, wf_bytes l -> d l = Some (a, r) -> P a /\ wf_bytes r.

Lemma wf_bytes_rest (w r : bytes) : wf_bytes (w ++ r) -> wf_bytes r.
Proof. unfold wf_bytes. rewrite Forall_app. by intros []. Qed.

Lemma gives_uint (n : nat) : gives (absorb_uint n) (uint_ok n).
Proof. intros l z r Hl [Hz [w ->]]%absorb_uint_range. split; [done|by eapply wf_bytes_rest]. Qed.

Lemma gives_bool : gives absorb_bool (fun _ => True).
Proof. intros l b r Hl [w ->]%absorb_bool_front. split; [done|by eapply wf_bytes_rest]. Qed.

Lemma gives_string : gives absorb_string (fun s => blen s < 2 ^ 32).
Proof. intros l s r Hl [Hs [w ->]]%absorb_string_range. split; [done|by eapply wf_bytes_rest]. Qed.

Lemma gives_bind {A B} (d : bytes -> option (A * bytes)) (f : A -> bytes -> option (B * bytes)) (P : A -> Prop)
    (Q : B -> Prop) :
  gives d P -> (forall a, P a -> gives (f a) Q) -> gives (fun l => '(a, r) ← d l; f a r) Q.
Proof.
  intros Hd Hf l b r Hl. destruct (d l) as [[a r1]|] eqn:E; cbn; [|done].
  destruct (Hd l a r1 Hl E) as [Ha Hr]. by apply Hf.
Qed.

Lemma gives_ret {A} (a : A) (P : A -> Prop) : P a -> gives (fun r => Some (a, r)) P.
Proof. intros Ha l a' r Hl [= <- <-]. done. Qed.

Lemma gives_array (n : Z) : 0 <= n -> gives (absorb_array n) (fun o => blen o = n /\ wf_bytes o).
Proof.
  intros Hn l o r Hl. unfold absorb_array. destruct (Z.leb_spec n (blen l)); [|done]. intros [= <- <-].
  unfold wf_bytes in *. rewrite <- (take_drop (Z.to_nat n) l) in Hl. apply Forall_app in Hl as [Ht Hd].
  split; [|done]. split; [|done]. unfold blen in *. rewrite length_take. lia.
Qed.

(** Times are the only fields that may be out of range. *)
Lemma gives_time : gives time_absorb (fun t => 0 <= t).
Proof.
  unfold time_absorb, duration_absorb. eapply gives_bind; [apply gives_uint|]. intros secs Hs.
  eapply gives_bind; [apply gives_uint|]. intros nanos Hn. apply gives_ret. unfold uint_ok in *. lia.
Qed.

Lemma gives_addr : gives addr_absorb addr_ok.
Proof.
  unfold addr_absorb. eapply gives_bind; [by apply gives_array|]. intros o [Ho Hw].
  eapply gives_bind; [apply gives_uint|]. intros p Hp. apply gives_ret.
  unfold addr_ok, wf_addr, blen in *. cbn [ip port wf_ip]. destruct (starts_with mapped_prefix o) eqn:E; cbn [wf_ip].
  - split; [|done]. split; [|exact Hp]. split; [|rewrite length_drop; lia].
    unfold wf_bytes in *. rewrite <- (take_drop 12 o) in Hw. by apply Forall_app in Hw as [_ ?].
  - split; [|done]. split; [|exact Hp]. split; [done|lia].
Qed.

Lemma gives_stream_id : gives stream_id_absorb stream_id_ok.
Proof.
  unfold stream_id_absorb. eapply gives_bind; [apply gives_uint|]. intros u Hu. apply gives_ret.
  unfold uint_ok in Hu. change (256 ^ Z.of_nat 8) with (2 ^ 64) in Hu.
  assert (- 2 ^ 63 <= to_signed 64 u < 2 ^ 63) as Hd.
  { unfold to_signed. change (64 - 1) with 63. destruct (Z.ltb_spec u (2 ^ 63)); lia. }
  destruct (Z.eqb_spec (to_signed 64 u) (- 2 ^ 63)); [done|].
  destruct (Z.leb_spec 0 (to_signed 64 u)); cbn; lia.
Qed.

Lemma gives_stream_kind : gives stream_kind_absorb (fun _ => True).
Proof. unfold stream_kind_absorb. eapply gives_bind; [apply gives_uint|]. intros u _. by apply gives_ret. Qed.

Lemma gives_encryption : gives encryption_absorb (fun _ => True).
Proof.
  unfold encryption_absorb. eapply gives_bind; [apply gives_uint|]. intros u _.
  destruct (u =? 1); [by apply gives_ret|]. destruct (u =? 255); [by apply gives_ret|].
  destruct (u =? 0); [by apply gives_ret|]. by intros l a r _ [=].
Qed.

Lemma gives_info : gives (absorb (A := ConnectionInfo)) well_formed.
Proof.
  eapply gives_bind; [apply gives_addr|]. intros a Ha. eapply gives_bind; [apply gives_uint|]. intros p Hp.
  eapply gives_bind; [apply gives_uint|]. intros f Hf. by apply gives_ret.
Qed.

Lemma gives_stats : gives (absorb (A := ConnectionStats)) well_formed.
Proof.
  eapply gives_bind; [apply gives_uint|]. intros a Ha. eapply gives_bind; [apply gives_uint|]. intros b Hb.
  eapply gives_bind; [apply gives_uint|]. intros c Hc. eapply gives_bind; [apply gives_uint|]. intros d Hd.
  by apply gives_ret.
Qed.

Lemma gives_message : gives (absorb (A := Message)) (fun m => time_ok (m_timestamp m) -> well_formed m).
Proof.
  eapply gives_bind; [apply gives_uint|]. intros c Hc. eapply gives_bind; [apply gives_stream_id|]. intros s Hs.
  eapply gives_bind; [apply gives_stream_kind|]. intros k _. eapply gives_bind; [apply gives_bool|]. intros inc _.
  eapply gives_bind; [apply gives_time|]. intros t _. eapply gives_bind; [apply gives_uint|]. intros o Ho.
  eapply gives_bind; [apply gives_uint|]. intros sz Hz. eapply gives_bind; [apply gives_string|]. intros b Hb.
  apply gives_ret. cbn. intros Ht. done.
Qed.

Lemma gives_connection :
  gives (absorb (A := Connection)) (fun c => time_ok (cn_timestamp c) -> time_ok (timestamp_close c) -> well_formed c).
Proof.
  eapply gives_bind; [apply gives_info|]. intros i Hi. eapply gives_bind; [apply gives_bool|]. intros inc _.
  eapply gives_bind; [apply gives_time|]. intros t _. eapply gives_bind; [apply gives_stats|]. intros si Hsi.
  eapply gives_bind; [apply gives_stats|]. intros so Hso. eapply gives_bind; [apply gives_time|]. intros tc _.
  eapply gives_bind; [apply gives_string|]. intros a Ha. apply gives_ret. cbn. intros Ht Htc. done.
Qed.

Lemma gives_header : gives (absorb (A := ChunkHeader)) (fun h => time_ok (ch_time h) -> well_formed h).
Proof.
  eapply gives_bind; [apply gives_uint|]. intros s Hs. eapply gives_bind; [apply gives_time|]. intros t _.
  eapply gives_bind; [apply gives_encryption|]. intros e _. eapply gives_bind; [apply gives_bool|]. intros i _.
  apply gives_ret. cbn. intros Ht. done.
Qed.

End ranges.


Section demo.
#[local] Existing Instances demo_radiation demo_radiation_laws.

#[local] Instance demo_ranges : RadiationRanges.
Proof.
  assert (forall n l z r, demo_absorb_uint n l = Some (z, r) -> exists w, l = w ++ r) as Hrest.
  { intros n l z r. unfold demo_absorb_uint. destruct (_ <=? _); [|done]. intros [= <- <-].
    exists (take n l). by rewrite take_drop. }
  assert (forall n l z r, demo_absorb_uint n l = Some (z, r) -> uint_ok n z) as Hrange.
  { intros n l z r. unfold demo_absorb_uint.
    destruct (Z.leb_spec (Z.of_nat n) (blen l)) as [Hl|]; [|done]. intros [= <- _].
    pose proof (be_decode_bound (take n l)) as Hb. unfold uint_ok, blen in *. rewrite length_take in Hb.
    by replace (n `min` length l)%nat with n in Hb by lia. }
  split; cbn.
  - intros n l z r E. split; [by eapply Hrange|by eapply Hrest].
  - intros [|x l] b r [=]; subst. by exists [x].
  - intros l s r. destruct (demo_absorb_uint 4 l) as [[n r1]|] eqn:E; cbn; [|done]. unfold absorb_array.
    destruct (Z.leb_spec n (blen r1)) as [Hn|]; [|done]. intros [= <- <-].
    pose proof (Hrange _ _ _ _ E) as Hu. destruct (Hrest _ _ _ _ E) as [w ->].
    split; [|exists (w ++ take (Z.to_nat n) r1); by rewrite <- app_assoc, take_drop].
    unfold uint_ok, blen in *. change (256 ^ Z.of_nat 4) with (2 ^ 32) in Hu. rewrite length_take. lia.
Qed.


End demo.
