(* ===== verification/System.v ===== *)
(** The recorder as a whole: the table of connections and their threads ([Recorder]), the
    stack of each connection ([Stack]), the statistics ([Stats], [DbStats]), the search
    for keys ([KeyRecover]) and the database ([Facade]) put together as [recorder.rs]
    does. [system_connections] is the instance of [Recorder.Connections] that is made of
    the other components, [Shared] the [Cx] they share.

    [recording_keeps_log] is what holds of the database after any traffic; its proof goes
    through [Frames], which reduces the layers to the calls they make. *)

From stdpp Require Import base list gmap strings relations.
From Stdlib Require Import ZArith Lia.
From S2P Require Import Prelude Types Handle Varint Coding Accumulator Noise Pnet MinaProtocol Stack Text.
From S2P Require Import Params Rocks DbCore DbIndex DbSpec DbBlobs Decode Facade Meshsub Stats DbStats.
From S2P Require Import KeyRecover Recorder Frames.

(** * The client of the aggregator *)

Record Aggregator : Type := mkAggregator { ag_url : bytes; debugger_name : bytes }.

(** [reqwest::Url] with [join("new")], and [serde_json::to_string] of an event. *)
Class AggregatorClient : Type := {
  url_parse : bytes -> option bytes;
  url_join_new : bytes -> option bytes;
  event_json : StatEvent -> option bytes;
}.

(** The body of a post: the name is put between quotes as it is. *)
Definition post_body (name event_str : bytes) : bytes :=
  [123; 34] ++ str "alias" ++ [34; 58; 32; 34] ++ name ++ [34; 44; 32; 34] ++ str "event" ++ [34; 58; 32] ++
  event_str ++ [32; 125].

(** [Aggregator::post_event]: the requests it makes; their result is only logged. *)
Definition post_event {HA : AggregatorClient} (a : Aggregator) (e : StatEvent) : list (bytes * bytes) :=
  match event_json e with
  | Some event_str => [(ag_url a, post_body (debugger_name a) event_str)]
  | None => []
  end.

(** The aggregator that [P2pRecorder::new] makes of the environment. *)
Definition aggregator_of {HA : AggregatorClient} (env : bytes -> option bytes) : outcome (option Aggregator) :=
  match env (str "AGGREGATOR") with
  | None => Ret None
  | Some aggregator_str =>
      match url_parse aggregator_str with
      | None => Ret None
      | Some url =>
          match url_join_new url with
          | Some url => Ret (Some (mkAggregator url (default (str "noname") (env (str "DEBUGGER_NAME")))))
          | None => Panic
          end
      end
  end.

(** * The shared state

    [Cx] with the database, the key generators, the statistics and the byte counters;
    the aggregator, if there is one, and what was posted to it; the environment variable that
    turns the index of ledger hashes on; and the clock, the values [SystemTime::now] gives
    one after the other. [sh_group] and [sh_apps] are what the layers of the connection
    at hand are given. [sh_overflow] is an auxiliary variable that no operation reads: it
    records that a counter of the database did not fit in its machine integer. *)
Record Shared (R : Type) : Type := mkShared {
  sh_facade : Facade R;
  sh_generators : option KeyGenerators;
  sh_held : bool;
  sh_stats_state : gmap SocketAddr StatsState;
  sh_decrypted : Z;
  sh_failed : Z;
  sh_aggregator : option Aggregator;
  sh_posts : list (bytes * bytes);
  sh_index : bool;
  sh_clock : nat -> Z;
  sh_ticks : nat;
  sh_group : Group;
  sh_apps : gmap Z (bytes * SocketAddr);
  sh_overflow : bool;
}.
Arguments mkShared {R}. Arguments sh_facade {R}. Arguments sh_generators {R}. Arguments sh_held {R}.
Arguments sh_stats_state {R}. Arguments sh_decrypted {R}. Arguments sh_failed {R}.
Arguments sh_aggregator {R}. Arguments sh_posts {R}. Arguments sh_index {R}. Arguments sh_clock {R}. Arguments sh_ticks {R}.
Arguments sh_group {R}. Arguments sh_apps {R}. Arguments sh_overflow {R}.

Section system.
Context {HR : Radiation} {HRD : RadiationDerive} {HB : Binprot} {HBS : BinprotStable} {HDc : Decoders}.
Context {HG : GossipLib} {HBl : Blake2} {HNp : NoisePrims} {HSk : Shake} {HC : StreamCipher}.
Context {HV : Varint} {HPr : Prost} {HA : AggregatorClient} {R : Type} {Hr : Rocks R}.
Implicit Types (w : Shared R).

Definition with_facade (f : Facade R) w : Shared R :=
  mkShared f (sh_generators w) (sh_held w) (sh_stats_state w) (sh_decrypted w) (sh_failed w) (sh_aggregator w) (sh_posts w)
    (sh_index w) (sh_clock w) (sh_ticks w) (sh_group w) (sh_apps w) (sh_overflow w).

Definition on_shared {A} (m : FacadeM A) w : Shared R * DbResult A :=
  let '(f, r) := m (sh_facade w) in (with_facade f w, r).

(** A value that must fit. *)
Definition note (fits : bool) w : Shared R :=
  mkShared (sh_facade w) (sh_generators w) (sh_held w) (sh_stats_state w) (sh_decrypted w) (sh_failed w)
    (sh_aggregator w) (sh_posts w) (sh_index w) (sh_clock w) (sh_ticks w) (sh_group w) (sh_apps w) (sh_overflow w || negb fits).

(** The connection at hand. *)
Definition enter (g : Group) (ap : gmap Z (bytes * SocketAddr)) w : Shared R :=
  mkShared (sh_facade w) (sh_generators w) (sh_held w) (sh_stats_state w) (sh_decrypted w) (sh_failed w)
    (sh_aggregator w) (sh_posts w) (sh_index w) (sh_clock w) (sh_ticks w) g ap (sh_overflow w).

(** [Drop] of a group, at the time the clock shows. *)
Definition drop_group (g : Group) w : Shared R :=
  mkShared (group_drop (sh_clock w (sh_ticks w)) g (sh_facade w)) (sh_generators w) (sh_held w) (sh_stats_state w)
    (sh_decrypted w) (sh_failed w) (sh_aggregator w) (sh_posts w) (sh_index w) (sh_clock w) (S (sh_ticks w)) (sh_group w)
    (sh_apps w) (sh_overflow w).

(** There is an offset for a chunk of [n] bytes, and the last offset is free. *)
Definition fits_blob (cn n : Z) (db : DbCore R) : bool :=
  match get_cf BLOBS (blob_key cn (2 ^ 64 - 1)) (db_inner db), blob_position db cn with
  | Some None, Ok off => off + n <? 2 ^ 64
  | _, _ => false
  end.

Definition fits_message (kind : StreamKind) (data : bytes) w : bool :=
  (f_messages (sh_facade w) + 1 <? 2 ^ 64) &&
  match parse_types (sh_index w) kind data with
  | Some (tys, _) => blen (join_comma (MessageType_display <$> tys)) <? 2 ^ 32
  | None => true
  end.

(** * The interfaces *)

#[export] Instance shared_db : DbGroup (Shared R) := {|
  db_add_raw status inc time data w :=
    on_shared (group_add_raw (sh_group w) status inc time data)
      (note (fits_blob (g_id (sh_group w)) (18 + blen data) (core (sh_facade w))) w);
  db_update stats inc w := on_shared (group_update (sh_group w) stats inc) w;
  db_stream_add sid did kind data w :=
    let '(w, r) := on_shared (stream_add (sh_index w) (sh_group w) sid did kind data)
      (note (fits_blob (g_id (sh_group w)) (18 + blen data) (core (sh_facade w)) && fits_message kind data w) w) in
    (drop_group (sh_group w) w, r);
|}.

#[export] Instance shared_stats_db : StatsDb (Shared R) := {|
  db_stats height node_address value := on_shared (facade_stats height node_address value);
  db_stats_block_v2 event := on_shared (facade_stats_block_v2 event);
  db_stats_tx height value := on_shared (facade_stats_tx height value);
|}.

#[export] Instance shared_sink_cx : SinkCx (Shared R) := {|
  cx_apps := sh_apps;
  cx_stats_state := sh_stats_state;
  cx_set_stats_state m w :=
    mkShared (sh_facade w) (sh_generators w) (sh_held w) m (sh_decrypted w) (sh_failed w) (sh_aggregator w) (sh_posts w)
      (sh_index w) (sh_clock w) (sh_ticks w) (sh_group w) (sh_apps w) (sh_overflow w);
  cx_post_event e w :=
    mkShared (sh_facade w) (sh_generators w) (sh_held w) (sh_stats_state w) (sh_decrypted w) (sh_failed w)
      (sh_aggregator w) (match sh_aggregator w with Some a => sh_posts w ++ post_event a e | None => sh_posts w end) (sh_index w) (sh_clock w) (sh_ticks w) (sh_group w) (sh_apps w)
      (sh_overflow w);
|}.

Definition with_keygen (k : Keygen) w : Shared R :=
  mkShared (mkFacade (Facade.cns (sh_facade w)) (f_messages (sh_facade w)) (rnd_cnt (sh_facade w)) (kg_db k))
    (generators k) (held k) (sh_stats_state w) (sh_decrypted w) (sh_failed w) (sh_aggregator w) (sh_posts w) (sh_index w)
    (sh_clock w) (sh_ticks w) (sh_group w) (sh_apps w) (sh_overflow w).

#[export] Instance shared_noise_cx : NoiseCx (Shared R) := {|
  Noise.iterate_randomness w := iterate_randomness (core (sh_facade w));
  Noise.reproduced_sk ephemeral pk w :=
    match reproduced_sk ephemeral pk (mkKeygen (sh_generators w) (sh_held w) (core (sh_facade w))) with
    | Done (k, sk) => Ret (with_keygen k w, sk)
    | Deadlock => OutOfFuel
    end;
  add_decrypted n w :=
    mkShared (sh_facade w) (sh_generators w) (sh_held w) (sh_stats_state w) (wrap 64 (sh_decrypted w + n)) (sh_failed w)
      (sh_aggregator w) (sh_posts w) (sh_index w) (sh_clock w) (sh_ticks w) (sh_group w) (sh_apps w) (sh_overflow w);
  add_failed n w :=
    mkShared (sh_facade w) (sh_generators w) (sh_held w) (sh_stats_state w) (sh_decrypted w) (wrap 64 (sh_failed w + n))
      (sh_aggregator w) (sh_posts w) (sh_index w) (sh_clock w) (sh_ticks w) (sh_group w) (sh_apps w) (sh_overflow w);
  total_decrypted := sh_decrypted;
  total_failed := sh_failed;
|}.

(** * The recorder over them *)

#[export] Instance system_connections : Connections (Shared R) Group Stack.Cn := {|
  cx_add info incoming alias time w :=
    on_shared (facade_add info incoming alias time) (note (Facade.cns (sh_facade w) + 1 <? 2 ^ 64) w);
  cx_drop := drop_group;
  cx_add_randomness data w := on_shared (add_randomness data) w;
  cn_new := new_connection;
  cn_on_chunk g ap did data cn w := cn_on_data did data cn (enter g ap w);
|}.

Abbreviation Rec := (P2pRecorder Group Stack.Cn).

(** [P2pRecorder::new] over an opened database; the last two arguments are the environment
    variable that is read when messages are stored, and the clock. *)
Definition system_new (env : bytes -> option bytes) (test : bool) (f : Facade R) (index : bool) (clock : nat -> Z)
    : outcome (Rec * Shared R) :=
  a ← aggregator_of env;
  Ret (recorder_new test, mkShared f None false ∅ 0 0 a [] index clock 0 (mkGroup (mkSocketAddr (V4 [0; 0; 0; 0]) 0) 0) ∅ false).

(** What happens to the recorder, one step at a time: the calls of the main thread and
    the turns of the threads, as in [rec_step]. *)
Inductive Turn : Type :=
| TConnect (main_thread incoming : bool) (md : EventMetadata) (buffered : Z) (chain : bytes)
| TData (incoming : bool) (md : EventMetadata) (buffered : Z) (data : bytes)
| TGone (md : EventMetadata) (buffered : Z)
| TThread (id : ConnectionInfo)
| TDetached (i : nat)
| TApp (p : Z) (alias : bytes) (port : Z)
| TRandomness (data : bytes).

Definition turn (t : Turn) (r : Rec) w : outcome (Rec * Shared R) :=
  match t with
  | TConnect main_thread incoming md buffered chain =>
      Ret (on_connect main_thread incoming md buffered chain r w).1
  | TData incoming md buffered data => Recorder.on_data incoming md buffered data r w
  | TGone md buffered => Ret (on_disconnect md buffered r w)
  | TThread id =>
      match Recorder.cns r !! id with
      | Some t => let '(t, w) := thread_turn t r w in Ret (set_cns (<[id := t]> (Recorder.cns r)) r, w)
      | None => Ret (r, w)
      end
  | TDetached i =>
      match detached r !! i with
      | Some t => let '(t, w) := thread_turn t r w in Ret (set_detached (<[i := t]> (detached r)) r, w)
      | None => Ret (r, w)
      end
  | TApp p alias port => Ret (set_port p port (on_alias p alias r), w)
  | TRandomness data => Ret (on_randomness data r w)
  end.

Fixpoint turns (ts : list Turn) (r : Rec) w : outcome (Rec * Shared R) :=
  match ts with
  | [] => Ret (r, w)
  | t :: ts => '(r, w) ← turn t r w; turns ts r w
  end.
End system.

(** * What traffic does to the database *)

Section invariant.
Context {HR : Radiation} {HRL : RadiationLaws} {HB : Binprot} {HDc : Decoders} {R : Type} {Hr : Rocks R} {HrL : RocksLaws R}.
Implicit Types (A : Log) (C : gmap Z Connection) (D : gmap Z bytes) (f : Facade R).

Lemma room_of_fits (db : DbCore R) (cn n : Z) :
  blobs_ok db -> uint_ok 8 cn -> 0 <= n -> fits_blob cn n db = true -> room db cn n.
Proof.
  intros Hok Hcn Hn Hfit. unfold fits_blob in Hfit. rewrite get_ok in Hfit by apply Hok.
  destruct (contents _ BLOBS !! blob_key cn (2 ^ 64 - 1)) eqn:Elast; [done|].
  assert (forall off, uint_ok 8 off -> stored db cn off -> off + 1 < 2 ^ 64) as Hlast.
  { intros off Ho [v Hs]. destruct (Z.eq_dec off (2 ^ 64 - 1)) as [->|]; [congruence|].
    unfold uint_ok in Ho. cbn in Ho. lia. }
  destruct (blob_position db cn) as [off|] eqn:Ep; [|done]. apply Z.ltb_lt in Hfit. unfold blob_position in Ep.
  destruct (Z.eqb_spec (default 0 (cache db !! cn)) 0) as [E0|E0].
  - destruct (next_offset_spec db cn Hok Hcn Hlast) as (off1 & E1 & Ho1 & _ & Hall). rewrite E1 in Ep. simplify_eq.
    split; [rewrite E0; destruct Ho1; lia|]. intros off' Ho' Hs. specialize (Hall _ Ho' Hs). lia.
  - simplify_eq. split; [done|]. intros off' Ho' Hs. destruct (cache db !! cn) as [pos|] eqn:Ec; [|done].
    destruct (bo_cache _ Hok _ _ Ec) as (_ & _ & Hall). cbn in *. specialize (Hall E0 _ Ho' Hs). lia.
Qed.

(** ** Growth *)

(** The fields of a connection that stay. *)
Definition same_cn (c c' : Connection) : Prop :=
  info c' = info c /\ cn_incoming c' = cn_incoming c /\ cn_timestamp c' = cn_timestamp c /\ cn_alias c' = cn_alias c.

(** The log grows by messages of the connection [own], whose record may change. *)
Record grown (own : Z) A C D A' C' D' : Prop := {
  gr_log : A ⊆ A';
  gr_data : D ⊆ D';
  gr_new : forall id e, A' !! id = Some e -> A !! id = Some e \/ connection_id (e_msg e) = own;
  gr_cns : forall id, id <> own -> C' !! id = C !! id;
  gr_own : forall c, C !! own = Some c -> exists c', C' !! own = Some c' /\ same_cn c c';
}.

Lemma same_cn_trans c1 c2 c3 : same_cn c1 c2 -> same_cn c2 c3 -> same_cn c1 c3.
Proof. unfold same_cn. intros (-> & -> & -> & ->) (-> & -> & -> & ->). done. Qed.

Lemma grown_refl own A C D : grown own A C D A C D.
Proof. split; try done; [by left|]. intros c Hc. exists c. by split. Qed.

Lemma grown_trans own A C D A1 C1 D1 A2 C2 D2 :
  grown own A C D A1 C1 D1 -> grown own A1 C1 D1 A2 C2 D2 -> grown own A C D A2 C2 D2.
Proof.
  intros [L1 D1' N1 C1' O1] [L2 D2' N2 C2' O2]. split; [by etrans|by etrans| | |].
  - intros id e He. destruct (N2 id e He) as [He1|]; [by apply N1|by right].
  - intros id Hne. by rewrite C2', C1'.
  - intros c Hc. destruct (O1 c Hc) as (c1 & Hc1 & S1). destruct (O2 c1 Hc1) as (c2 & Hc2 & S2).
    exists c2. split; [done|]. by eapply same_cn_trans.
Qed.

(** A consistent database whose messages are filed under the address of their
    connection. *)
Record sys_ok A C D f : Prop := {
  so_facade : facade_ok A C D f;
  so_addr : forall id e, A !! id = Some e ->
    exists c, C !! connection_id (e_msg e) = Some c /\ addr (info c) = e_addr e;
  so_data : forall id, is_Some (D !! id) -> is_Some (A !! id);
}.

(** The record of a connection is replaced by one that is about the same connection. *)
Lemma sys_ok_update A C D f f' own c c' :
  sys_ok A C D f -> C !! own = Some c -> same_cn c c' -> facade_ok A (<[own := c']> C) D f' ->
  sys_ok A (<[own := c']> C) D f' /\ grown own A C D A (<[own := c']> C) D.
Proof.
  intros [_ Ha Hd] Hc Hs Hok. split.
  - split; [done| |done]. intros id e He. destruct (Ha id e He) as (c0 & Hc0 & E0).
    destruct (decide (own = connection_id (e_msg e))) as [Eo|Hne].
    + rewrite <- Eo in *. assert (c0 = c) as -> by congruence. exists c'. rewrite lookup_insert_eq. split; [done|]. by destruct Hs as (-> & _).
    + exists c0. by rewrite lookup_insert_ne.
  - split; try done; [by left| |].
    + intros id Hne. by rewrite lookup_insert_ne.
    + intros c0 Hc0. assert (c0 = c) as -> by congruence. exists c'. by rewrite lookup_insert_eq.
Qed.

(** ** Writes of a connection *)

(** From [f] to [f'] the database stays consistent and grows by what belongs to the
    connection of [g]; no connection is registered. *)
Definition writes_own (g : Group) f f' : Prop :=
  Facade.cns f' = Facade.cns f /\
  forall A C D c, sys_ok A C D f -> C !! g_id g = Some c -> addr (info c) = g_addr g ->
    exists A' C' D', sys_ok A' C' D' f' /\ grown (g_id g) A C D A' C' D'.

#[export] Instance writes_own_preorder (g : Group) : PreOrder (writes_own g).
Proof.
  split.
  - intros f. split; [done|]. intros A C D c Hok _ _. exists A, C, D. split; [done|apply grown_refl].
  - intros f1 f2 f3 [E1 H1] [E2 H2]. split; [congruence|]. intros A C D c Hok Hc Ha.
    destruct (H1 A C D c Hok Hc Ha) as (A1 & C1 & D1 & Hok1 & G1).
    destruct (gr_own _ _ _ _ _ _ _ G1 c Hc) as (c1 & Hc1 & (Ei & _)).
    destruct (H2 A1 C1 D1 c1 Hok1 Hc1 ltac:(congruence)) as (A2 & C2 & D2 & Hok2 & G2).
    exists A2, C2, D2. split; [done|]. by eapply grown_trans.
Qed.

Lemma on_core_cns {T} (m : DbM R T) f : Facade.cns (on_core m f).1 = Facade.cns f.
Proof. unfold on_core. by destruct (m (core f)). Qed.

Lemma group_drop_cns now (g : Group) f : Facade.cns (group_drop now g f) = Facade.cns f.
Proof. unfold group_drop. destruct (fetch_connection _ _); [apply on_core_cns|done]. Qed.

(** What the record of a registered connection says about its id and address. *)
Lemma registered_ok A C D f (g : Group) c :
  facade_ok A C D f -> C !! g_id g = Some c -> addr (info c) = g_addr g -> uint_ok 8 (g_id g) /\ addr_ok (g_addr g).
Proof.
  intros Hok Hc <-. destruct (rep_connections _ _ _ (fo_rep _ _ _ _ Hok) _ _ Hc) as (Hi & ((Ha & _) & _) & _). done.
Qed.

Lemma raw_writes (g : Group) status inc time data f :
  time_ok time -> fits_blob (g_id g) (18 + blen data) (core f) = true ->
  writes_own g f (group_add_raw g status inc time data f).1.
Proof.
  intros Ht Hfit. split; [apply on_core_cns|]. intros A C D c [Hok Hlog Hdat] Hc Ha.
  destruct (registered_ok _ _ _ _ _ _ Hok Hc Ha) as [Hi _].
  pose proof (blen_nonneg data) as Hn.
  destruct (group_add_raw_ok A C D f g status inc time data Hok Hi Ht) as (f' & off & h & -> & Hok' & _).
  { apply room_of_fits; [apply Hok|done|lia|done]. }
  exists A, C, D. split; [by split|apply grown_refl].
Qed.

Lemma update_writes (g : Group) stats inc f : writes_own g f (group_update g stats inc f).1.
Proof.
  split.
  { unfold group_update, mbind, facade_bind, lift. by destruct (fetch_connection _ _); [apply on_core_cns|]. }
  intros A C D c Hok Hc Ha.
  destruct (group_update_ok A C D f g c (stats, inc) (so_facade _ _ _ _ Hok) Hc) as (f' & E & Hok' & _).
  cbn [fst snd] in E. rewrite E. exists A, (<[g_id g := add_stats c (stats, inc)]> C), D.
  apply (sys_ok_update A C D f f' _ c); [done|done| |done]. by destruct inc.
Qed.

Lemma drop_writes now (g : Group) f : time_ok now -> writes_own g f (group_drop now g f).
Proof.
  intros Hn. split; [apply group_drop_cns|]. intros A C D c Hok Hc Ha.
  destruct (group_drop_ok A C D f g c now (so_facade _ _ _ _ Hok) Hc Hn) as [Hok' _].
  exists A, (<[g_id g := closed_at now c]> C), D. by apply (sys_ok_update A C D f _ _ c (closed_at now c)).
Qed.

Lemma grown_add own A C D id e payload :
  A !! id = None -> D !! id = None -> connection_id (e_msg e) = own ->
  grown own A C D (<[id := e]> A) C (<[id := payload]> D).
Proof.
  intros HA HD He. split; [by apply insert_subseteq|by apply insert_subseteq| |done|].
  - intros i x [[<- <-]|[_ Hx]]%lookup_insert_Some; [by right|by left].
  - intros c Hc. exists c. by split.
Qed.

Lemma stream_add_undecoded idx (g : Group) sid did kind data f :
  parse_types idx kind data = None ->
  (stream_add idx g sid did kind data f).1
  = (group_add_raw g DecryptedNoise (incoming did) (md_time (metadata did)) data f).1.
Proof.
  intros E. unfold stream_add, mbind, facade_bind, lift. destruct (group_add_raw _ _ _ _ _ f) as [f1 [off|]]; [|done].
  by rewrite E.
Qed.

Lemma stream_add_writes idx (g : Group) sid did kind data f :
  stream_id_ok sid -> id_ok did -> fits_blob (g_id g) (18 + blen data) (core f) = true ->
  f_messages f + 1 < 2 ^ 64 ->
  (forall tys hs, parse_types idx kind data = Some (tys, hs) -> blen (join_comma (MessageType_display <$> tys)) < 2 ^ 32) ->
  writes_own g f (stream_add idx g sid did kind data f).1.
Proof.
  intros Hs Ht Hfit Hid Hbr. destruct (parse_types idx kind data) as [[tys hs]|] eqn:Et.
  2: { rewrite stream_add_undecoded by done. by apply raw_writes. }
  split.
  { unfold stream_add, mbind, facade_bind, lift, next_message.
    pose proof (on_core_cns (put_blob (g_id g) (emit (mkChunkHeader (wrap 32 (blen data)) (md_time (metadata did))
      DecryptedNoise (incoming did)) ++ data)) f) as E1. unfold group_add_raw.
    destruct (on_core (put_blob _ _) f) as [f1 [off|]]; [|done]. cbn [fst] in E1. rewrite Et.
    match goal with |- context [on_core (put_message ?a ?b ?c ?d ?e) ?f2] =>
      pose proof (on_core_cns (put_message a b c d e) f2) as E2; destruct (on_core (put_message a b c d e) f2) as [f3 [|]] end;
      cbn [fst Facade.cns] in *; [|congruence].
    match goal with |- context [on_core (set_total ?a ?b) ?f4] =>
      pose proof (on_core_cns (set_total a b) f4) as E3; destruct (on_core (set_total a b) f4) as [f5 [|]] end; cbn in *; congruence. }
  intros A C D c [Hok Hlog Hdat] Hc Ha. destruct (registered_ok _ _ _ _ _ _ Hok Hc Ha) as [Hi Hga].
  pose proof (blen_nonneg data) as Hn.
  destruct (stream_add_ok A C D f idx g sid did kind data tys hs Hok) as (f' & off & -> & Hok' & _).
  { split; [by exists c|done|done|exact Ht|done|by apply (Hbr tys hs)| |done].
    apply room_of_fits; [apply Hok|done|lia|done]. }
  assert (A !! f_messages f = None) as HA.
  { destruct (A !! f_messages f) eqn:E; [|done]. destruct (fo_messages _ _ _ _ Hok) as [_ Hlt].
    assert (f_messages f < f_messages f) by (apply Hlt; by eexists). lia. }
  eexists _, C, _. split; [split; [exact Hok'| |]|apply grown_add; [done| |done]].
  - intros id e [[<- <-]|[_ He]]%lookup_insert_Some; [by exists c|by eapply Hlog].
  - intros id. rewrite !lookup_insert_is_Some'. intros [?|?]; [by left|right; by apply Hdat].
  - destruct (D !! f_messages f) eqn:E; [|done]. assert (is_Some (A !! f_messages f)) as [? ?] by (apply Hdat; by eexists).
    congruence.
Qed.

(** Families that are not about connections and messages. *)
Definition other_cf (cf : CF) : bool :=
  match cf with RANDOMNESS | STRACE | STATS | STATS_TX | CAPNP | STATS_BLOCK_V2 | KEYS => true | _ => false end.

Lemma put_other_ok A C D f cf k v :
  other_cf cf = true -> facade_ok A C D f -> facade_ok A C D (on_core (put cf k v) f).1.
Proof.
  intros Hcf [HRp HBb HM HCc HD HT].
  destruct (writes_put cf k v (core f) (rep_healthy _ _ _ HRp)) as (r' & E & Hh & Hcon).
  assert (forall cf', other_cf cf' = false -> contents r' cf' = contents (db_inner (core f)) cf') as Hsame.
  { intros cf' Hcf'. rewrite Hcon, apply_writes_one, decide_False; [done|]. intros ->. congruence. }
  unfold on_core. rewrite E. cbn [fst]. split; cbn [core db_inner f_messages Facade.cns]; [| |done|done|..].
  - destruct HRp. split; [done|done|..]; unfold indexes in *; intros; rewrite Hsame by done; auto.
  - by apply blobs_ok_frame; [|done|apply Hsame].
  - intros id e He. rewrite Hsame by done. by apply HD.
  - rewrite Hsame by done. exact HT.
Qed.

Lemma other_writes (g : Group) cf k v f : other_cf cf = true -> writes_own g f (on_core (put cf k v) f).1.
Proof.
  intros Hcf. split; [apply on_core_cns|]. intros A C D c [Hok Hl Hd] _ _. exists A, C, D.
  split; [split; [by apply put_other_ok|done..]|apply grown_refl].
Qed.
End invariant.

(** ** The interfaces only make such writes *)

Section evolution.
Context {HR : Radiation} {HRL : RadiationLaws} {HRD : RadiationDerive} {HB : Binprot} {HBS : BinprotStable} {HDc : Decoders}.
Context {HG : GossipLib} {HBl : Blake2} {HNp : NoisePrims} {HSk : Shake} {HC : StreamCipher}.
Context {HV : Varint} {HVL : VarintLaws} {HPr : Prost} {HA : AggregatorClient} {R : Type} {Hr : Rocks R} {HrL : RocksLaws R}.
Implicit Types (A : Log) (C : gmap Z Connection) (D : gmap Z bytes) (f : Facade R) (w : Shared R).

Definition clock_ok w : Prop := forall n, time_ok (sh_clock w n).

Definition evolves w w' : Prop :=
  sh_group w' = sh_group w /\ sh_clock w' = sh_clock w /\
  (clock_ok w -> sh_overflow w' = false ->
   sh_overflow w = false /\ writes_own (sh_group w) (sh_facade w) (sh_facade w')).

#[export] Instance evolves_preorder : PreOrder evolves.
Proof.
  split.
  - intros w. by split_and!.
  - intros w1 w2 w3 (G1 & C1 & H1) (G2 & C2 & H2). split_and!; [congruence..|]. unfold clock_ok in *.
    intros Hc Ho. rewrite C1 in H2. destruct (H2 Hc Ho) as [Ho2 W2]. destruct (H1 Hc Ho2) as [Ho1 W1].
    split; [done|]. rewrite G1 in W2. by etrans.
Qed.

(** What does not concern the database. *)
Lemma evolves_same w w' :
  sh_group w' = sh_group w -> sh_clock w' = sh_clock w -> sh_facade w' = sh_facade w ->
  sh_overflow w' = sh_overflow w -> evolves w w'.
Proof. intros G K F O. split_and!; [done..|]. intros _ Ho. split; [congruence|]. by rewrite F. Qed.

(** A call of the database. *)
Lemma evolves_on_shared {T} (m : FacadeM T) w w' r :
  writes_own (sh_group w) (sh_facade w) (m (sh_facade w)).1 -> on_shared m w = (w', r) -> evolves w w'.
Proof.
  intros Hw E. unfold on_shared in E. destruct (m (sh_facade w)) as [f' r']. injection E as <- _. split_and!; done.
Qed.

Lemma evolves_noted (b : bool) {T} (m : FacadeM T) w w' r :
  (b = true -> writes_own (sh_group w) (sh_facade w) (m (sh_facade w)).1) -> on_shared m (note b w) = (w', r) ->
  evolves w w'.
Proof.
  intros Hw E. unfold on_shared in E. cbn [note sh_facade] in E. destruct (m (sh_facade w)) as [f' r']. injection E as <- _.
  split_and!; [done..|]. cbn. intros _ [Ho Hb]%orb_false_iff. split; [done|]. apply Hw. by destruct b.
Qed.

Lemma evolves_drop w : evolves w (drop_group (sh_group w) w).
Proof. split_and!; [done..|]. intros Hc Ho. split; [done|]. apply drop_writes, Hc. Qed.

Lemma evolves_stream_add sid id k data w w' r :
  stream_id_ok sid -> id_ok id -> db_stream_add sid id k data w = (w', r) -> evolves w w'.
Proof.
  intros Hs Hi E. cbn in E. destruct (on_shared _ _) as [w1 r1] eqn:E1. injection E as <- _.
  apply evolves_noted in E1 as HE; [etrans; [exact HE|apply evolves_drop]|].
  intros [Hf Hm]%andb_true_iff. unfold fits_message in Hm. apply andb_true_iff in Hm as [Hid Hbr].
  apply stream_add_writes; [done..|by apply Z.ltb_lt|]. intros tys hs Ht. rewrite Ht in Hbr. by apply Z.ltb_lt.
Qed.

Lemma evolves_put_other (cf : CF) (key v : bytes) w w' r :
  other_cf cf = true -> on_shared (on_core (put cf key v)) w = (w', r) -> evolves w w'.
Proof. intros Hcf. apply evolves_on_shared. by apply other_writes. Qed.

(** *** The search for keys *)

Lemma generator_find_frame {T} (Q : relation T) `{!PreOrder Q} (cache : bytes -> bytes -> T -> T) n pk g s :
  (forall a b t, Q t (cache a b t)) -> Q s (generator_find cache n pk g s).1.2.
Proof.
  intros HQ. revert g s. induction n as [|n IH]; intros g s; cbn; [done|].
  case_decide; [apply HQ|]. etrans; [apply HQ|apply IH].
Qed.

Definition keys_stored (g : Group) f (db db' : DbCore R) : Prop :=
  writes_own g (mkFacade (Facade.cns f) (f_messages f) (rnd_cnt f) db) (mkFacade (Facade.cns f) (f_messages f) (rnd_cnt f) db').

Lemma evolves_search e pk w w' sk :
  Noise.reproduced_sk e pk w = Ret (w', sk) -> evolves w w'.
Proof.
  intros E. cbn in E. set (k := mkKeygen (sh_generators w) (sh_held w) (core (sh_facade w))) in E.
  destruct (reproduced_sk e pk k) as [[k' sk']|] eqn:Ek; [|done]. injection E as <- _.
  enough (keys_stored (sh_group w) (sh_facade w) (kg_db k) (kg_db k')) as Hk.
  { split_and!; [done..|]. intros _ Ho. split; [exact Ho|]. clear -Hk. unfold keys_stored, k in Hk. cbn in *.
    by destruct (sh_facade w). }
  assert (PreOrder (keys_stored (sh_group w) (sh_facade w))) as Hpre.
  { unfold keys_stored. split; [intros db; reflexivity|intros a b c; etrans; eassumption]. }
  assert (forall a b db, keys_stored (sh_group w) (sh_facade w) db (cache_sk a b db)) as Hcache.
  { intros a b db. unfold keys_stored, cache_sk, put_sk.
    pose proof (other_writes (sh_group w) KEYS a b (mkFacade (Facade.cns (sh_facade w)) (f_messages (sh_facade w)) (rnd_cnt (sh_facade w)) db) eq_refl) as Hw.
    unfold on_core in Hw. cbn in Hw. by destruct (put KEYS a b db). }
  unfold reproduced_sk, search_key, lock, store_generators, lock in Ek.
  repeat (case_match; simplify_eq; try reflexivity).
  all: cbn; match goal with Hg : generator_find cache_sk ?n ?pk ?g ?d = (_, ?db', _) |- keys_stored _ _ _ _ =>
         pose proof (generator_find_frame _ cache_sk n pk g d Hcache) as Hf; rewrite Hg in Hf; exact Hf end.
Qed.

(** *** The gossip statistics *)

Lemma update_steps_evolve (o : Obs) (steps : list (outcome (option Event))) w w' r :
  update_steps o steps w = Ret (w', r) -> evolves w w'.
Proof.
  revert w. induction steps as [|[e| |] steps IH]; intros w E; try done; cbn in E; [by simplify_eq|].
  destruct (e ≫= update_event o) as [ev|]; [|by apply IH].
  destruct (on_shared (facade_stats_block_v2 ev) w) as [w1 [?|]] eqn:E1;
    apply (evolves_put_other STATS_BLOCK_V2) in E1 as H1; try done; [|by simplify_eq].
  etrans; [exact H1|by apply IH].
Qed.

Lemma post_events_evolve (evs : list StatEvent) w : evolves w (foldl (fun w e => cx_post_event e w) w evs).
Proof.
  revert w. induction evs as [|e evs IH]; intros w; cbn [foldl]; [done|]. etrans; [|apply IH]. by apply evolves_same.
Qed.

Lemma evolves_sink id sid msg w w' :
  stream_id_ok sid -> id_ok id -> meshsub_sink id sid msg w = Ret w' -> evolves w w'.
Proof.
  intros Hs Hi E. unfold meshsub_sink, stats_sink in E.
  destruct (db_stream_add sid id Meshsub msg w) as [w1 [mid|]] eqn:E1; apply evolves_stream_add in E1 as H1; try done;
    [|by simplify_eq].
  destruct (update_block_stats _ msg w1) as [[w2 r2]| |] eqn:E2; cbn [mbind outcome_bind] in E; try done.
  assert (evolves w1 w2) as H2.
  { unfold update_block_stats in E2. destruct (parse_it msg false true); [by eapply update_steps_evolve|done]. }
  destruct (observe _ msg _) as [[[[st b] t] evs]| |]; cbn [mbind outcome_bind] in E; try done.
  match type of E with context [foldl _ ?w3 evs] =>
    assert (evolves w2 w3) as H3 by (by apply evolves_same); pose proof (post_events_evolve evs w3) as H4;
    set (w4 := foldl _ w3 evs) in * end.
  match type of E with mbind _ ?x = _ => assert (forall w5, x = Ret w5 -> evolves w4 w5) as H5; [|destruct x as [w5| |]; try done] end.
  { intros w5. destruct b; [|by intros [= <-]]. unfold unwrap_db.
    destruct (db_stats _ _ _ w4) as [? [?|]] eqn:E5; intros [= <-]. by apply (evolves_put_other STATS) in E5. }
  cbn [mbind outcome_bind] in E. specialize (H5 w5 eq_refl).
  assert (evolves w5 w') as H6.
  { destruct t; [|by simplify_eq]. destruct (tx_stat st) as [ts|]; [|by simplify_eq]. unfold unwrap_db in E.
    destruct (db_stats_tx _ _ w5) as [? [?|]] eqn:E6; simplify_eq. by apply (evolves_put_other STATS_TX) in E6. }
  worlds.
Qed.

#[export] Instance shared_frame : Frame evolves.
Proof.
  split.
  - apply _.
  - intros s inc t data w w' r Ht E. cbn in E. eapply evolves_noted; [|exact E]. by apply raw_writes.
  - intros s inc w w' r E. cbn in E. eapply evolves_on_shared; [|exact E]. apply update_writes.
  - intros. by eapply evolves_stream_add.
  - intros. by eapply evolves_sink.
  - intros. by eapply evolves_search.
  - intros. by apply evolves_same.
  - intros. by apply evolves_same.
Qed.

(** ** Steps of the recorder *)

(** A step that writes for the group [g]. *)
Definition own_step (g : Group) w w' : Prop :=
  sh_clock w' = sh_clock w /\
  (clock_ok w -> sh_overflow w' = false -> sh_overflow w = false /\ writes_own g (sh_facade w) (sh_facade w')).

#[export] Instance own_step_preorder (g : Group) : PreOrder (own_step g).
Proof.
  split; [by intros w; split|]. intros w1 w2 w3 [C1 H1] [C2 H2]. split; [congruence|]. unfold clock_ok in *.
  intros Hc Ho. rewrite C1 in H2. destruct (H2 Hc Ho) as [Ho2 W2]. destruct (H1 Hc Ho2) as [Ho1 W1]. split; [done|]. by etrans.
Qed.

Lemma drop_own (g : Group) w : own_step g w (drop_group g w).
Proof. split; [done|]. intros Hc Ho. split; [done|]. apply drop_writes, Hc. Qed.

(** A chunk of a connection. *)
Lemma chunk_own (g : Group) ap did data (cn cn' : Stack.Cn) w w' r :
  id_ok did -> layer_inv cn -> cn_on_chunk g ap did data cn w = Ret (cn', w', r) ->
  layer_inv cn' /\ own_step g w w'.
Proof.
  intros Hi Hc E. cbn in E. destruct (stack_framed evolves did data cn cn' _ _ _ Hi Hc E) as [Hc' (_ & Hk & Hw)].
  done.
Qed.

Definition chunk_fine (c : NetworkChunk) : Prop := time_ok (md_time (nc_metadata c)).
Definition thread_fine (t : ThreadContext Group Stack.Cn) : Prop :=
  (forall cn, th_cn t = Some cn -> layer_inv cn) /\ Forall chunk_fine (th_queue t).

Lemma thread_turn_own (t t' : ThreadContext Group Stack.Cn) (r : P2pRecorder Group Stack.Cn) w w' :
  thread_fine t -> thread_turn t r w = (t', w') -> thread_fine t' /\ th_group t' = th_group t /\ own_step (th_group t) w w'.
Proof.
  intros Hf E. unfold thread_turn in E. destruct (th_cn t) as [cn|] eqn:Ec; [|by simplify_eq].
  destruct (th_queue t) as [|c q] eqn:Eq; [by simplify_eq|].
  destruct Hf as [Hl Hq]. rewrite Eq in Hq. apply Forall_cons in Hq as [Hc Hq].
  destruct (cn_on_chunk _ _ _ _ _ _) as [[[cn' w1] res]| |] eqn:Er; simplify_eq.
  - destruct (chunk_own _ _ _ _ _ _ _ _ _ (Hc : id_ok (directed c r)) (Hl _ Ec) Er) as [Hcn Hw].
    split_and!; [|done|done]. split; [by intros cn0 [= <-]|done].
  - split_and!; [by split|done|apply drop_own].
  - split_and!; [by split|done|done].
Qed.

Lemma join_own fuel (t : ThreadContext Group Stack.Cn) (r : P2pRecorder Group Stack.Cn) w :
  thread_fine t -> own_step (th_group t) w (join fuel t r w).2.
Proof.
  revert t w. induction fuel as [|fuel IH]; intros t w Hf; cbn.
  - destruct (th_cn t); [apply drop_own|done].
  - destruct (thread_turn t r w) as [t' w'] eqn:E. destruct (thread_turn_own _ _ _ _ _ Hf E) as (Hf' & Eg & Hw).
    etrans; [exact Hw|]. rewrite <- Eg. by apply IH.
Qed.
End evolution.

(** * Runs *)

Section runs.
Context {HR : Radiation} {HRL : RadiationLaws} {HRD : RadiationDerive} {HB : Binprot} {HBS : BinprotStable} {HDc : Decoders}.
Context {HG : GossipLib} {HBl : Blake2} {HNp : NoisePrims} {HSk : Shake} {HC : StreamCipher}.
Context {HV : Varint} {HVL : VarintLaws} {HPr : Prost} {HA : AggregatorClient} {R : Type} {Hr : Rocks R} {HrL : RocksLaws R}.
Implicit Types (A : Log) (C : gmap Z Connection) (D : gmap Z bytes) (f : Facade R) (w : Shared R).
Implicit Types (r : P2pRecorder Group Stack.Cn).

(** The groups the recorder holds. *)
Definition has_group r (g : Group) : Prop :=
  (exists id t, Recorder.cns r !! id = Some t /\ th_group t = g) \/
  (exists id c, cns_main_thread r !! id = Some c /\ cc_db c = g) \/
  (exists t, t ∈ detached r /\ th_group t = g).

Lemma has_group_main r id c g :
  has_group (set_main (<[id := c]> (cns_main_thread r)) r) g -> has_group r g \/ g = cc_db c.
Proof.
  intros [Hg|[(i & c' & Hl & <-)|Hg]]; [by left; left| |by left; right; right]. cbn in Hl.
  apply lookup_insert_Some in Hl as [[_ <-]|[_ Hl]]; [by right|]. left; right; left; eauto.
Qed.

Lemma has_group_cns r id t g :
  has_group (set_cns (<[id := t]> (Recorder.cns r)) r) g -> has_group r g \/ g = th_group t.
Proof.
  intros [(i & t' & Hl & <-)|Hg]; [|by left; right]. cbn in Hl.
  apply lookup_insert_Some in Hl as [[_ <-]|[_ Hl]]; [by right|]. left; left; eauto.
Qed.

Lemma has_group_detached r i t t' g :
  detached r !! i = Some t -> th_group t' = th_group t ->
  has_group (set_detached (<[i := t']> (detached r)) r) g -> has_group r g.
Proof.
  intros Hi Et [Hg|[Hg|(t0 & Ht0 & <-)]]; [by left|by right; left|]. right; right. cbn in Ht0.
  apply list_elem_of_lookup in Ht0 as [j Hj]. destruct (decide (i = j)) as [<-|Hne].
  - rewrite list_lookup_insert_eq in Hj by (by eapply lookup_lt_Some). simplify_eq. exists t. split; [|done].
    by eapply list_elem_of_lookup_2.
  - rewrite list_lookup_insert_ne in Hj by done. exists t0. split; [|done]. by eapply list_elem_of_lookup_2.
Qed.

Definition registered (n0 : Z) C (g : Group) : Prop :=
  n0 <= g_id g /\ exists c, C !! g_id g = Some c /\ addr (info c) = g_addr g.

(** What was recorded since there were [n0] connections and the log was [A0]: nothing is
    lost or changed, and what is new belongs to new connections. *)
Record since (n0 : Z) A0 C0 D0 A C D : Prop := {
  si_log : A0 ⊆ A;
  si_data : D0 ⊆ D;
  si_cns : forall id, id < n0 -> C !! id = C0 !! id;
  si_new : forall id e, A !! id = Some e -> A0 !! id = Some e \/ n0 <= connection_id (e_msg e);
}.

Record db_inv (n0 : Z) A0 C0 D0 A C D (G : Group -> Prop) f : Prop := {
  di_sys : sys_ok A C D f;
  di_since : since n0 A0 C0 D0 A C D;
  di_cns : n0 <= Facade.cns f;
  di_groups : forall g, G g -> registered n0 C g;
}.

Lemma db_inv_groups n0 A0 C0 D0 A C D (G G' : Group -> Prop) f :
  (forall g, G' g -> G g) -> db_inv n0 A0 C0 D0 A C D G f -> db_inv n0 A0 C0 D0 A C D G' f.
Proof. intros Hg []. split; auto. Qed.

Lemma registered_grown n0 A C D A' C' D' own (g : Group) :
  grown own A C D A' C' D' -> registered n0 C g -> registered n0 C' g.
Proof.
  intros [_ _ _ Hc Ho] [Hn (c & Hcg & Ha)]. split; [done|]. destruct (decide (g_id g = own)) as [<-|Hne].
  - destruct (Ho c Hcg) as (c' & Hc' & (Ei & _)). exists c'. split; [done|]. congruence.
  - exists c. by rewrite Hc.
Qed.

Lemma db_inv_write n0 A0 C0 D0 A C D (G : Group -> Prop) f f' (g : Group) :
  db_inv n0 A0 C0 D0 A C D G f -> registered n0 C g -> writes_own g f f' ->
  exists A' C' D', db_inv n0 A0 C0 D0 A' C' D' G f'.
Proof.
  intros [Hs [S1 S2 S3 S4] Hn Hg] [Hgn (c & Hc & Ha)] [Ec Hw].
  destruct (Hw A C D c Hs Hc Ha) as (A' & C' & D' & Hs' & Hgr). pose proof Hgr as [G1 G2 G3 G4 _].
  exists A', C', D'. split; [done| |by rewrite Ec|].
  - split; [by etrans|by etrans| |].
    + intros id Hid. rewrite G4 by lia. by apply S3.
    + intros id e He. destruct (G3 id e He) as [He1|E]; [by apply S4|]. right. lia.
  - intros g' Hg'. eapply registered_grown; [exact Hgr|by apply Hg].
Qed.

(** ** The invariant *)

Record run_inv (n0 : Z) A0 C0 D0 r w : Prop := {
  ri_clock : clock_ok w;
  ri_apps : map_Forall (fun _ a => blen a.1 < 2 ^ 32) (apps r);
  ri_threads : map_Forall (fun _ t => thread_fine t) (Recorder.cns r);
  ri_main : map_Forall (fun _ c => layer_inv (cc_cn c)) (cns_main_thread r);
  ri_detached : Forall thread_fine (detached r);
  ri_db : sh_overflow w = false -> exists A C D, db_inv n0 A0 C0 D0 A C D (has_group r) (sh_facade w);
}.

(** A step that writes for a group of the recorder. *)
Lemma ri_db_step n0 A0 C0 D0 (G G' : Group -> Prop) w w' (g : Group) :
  clock_ok w -> (sh_overflow w = false -> exists A C D, db_inv n0 A0 C0 D0 A C D G (sh_facade w)) ->
  own_step g w w' -> G g -> (forall g', G' g' -> G g') ->
  sh_overflow w' = false -> exists A C D, db_inv n0 A0 C0 D0 A C D G' (sh_facade w').
Proof.
  intros Hk Hdb [_ Hw] Hg Hsub Ho. destruct (Hw Hk Ho) as [Ho1 W1]. destruct (Hdb Ho1) as (A & C & D & Hi).
  destruct (db_inv_write _ _ _ _ _ _ _ _ _ _ g Hi (di_groups _ _ _ _ _ _ _ _ _ Hi g Hg) W1) as (A' & C' & D' & Hi').
  exists A', C', D'. by eapply db_inv_groups.
Qed.

Lemma clock_ok_step (g : Group) w w' : own_step g w w' -> clock_ok w -> clock_ok w'.
Proof. intros [E _] Hc n. rewrite E. apply Hc. Qed.

(** ** The steps *)

(** What the inputs of a step have to satisfy: times, addresses and numbers are those of
    machine values. *)
Definition turn_ok (t : Turn) : Prop :=
  match t with
  | TConnect _ _ md _ _ => well_formed (md_id md) /\ time_ok (md_time md)
  | TData _ md _ _ => time_ok (md_time md)
  | TApp _ alias _ => blen alias < 2 ^ 32
  | _ => True
  end.

Lemma data_inv n0 A0 C0 D0 incoming md buffered data r r' w w' :
  time_ok (md_time md) -> run_inv n0 A0 C0 D0 r w ->
  Recorder.on_data incoming md buffered data r w = Ret (r', w') -> run_inv n0 A0 C0 D0 r' w'.
Proof.
  intros Ht Hi E. unfold Recorder.on_data in E. destruct (tester r).
  { destruct (tester_on_data data); cbn in E; simplify_eq. done. }
  destruct Hi as [Hk Ha Hth Hm Hd Hdb].
  destruct (Recorder.cns r !! md_id md) as [t|] eqn:Et; [|destruct (cns_main_thread r !! md_id md) as [c|] eqn:Em]; simplify_eq.
  - assert (thread_fine t) as [Hl Hq] by (apply (Hth _ _ Et)).
    split; [done|done| |done|done|].
    + apply map_Forall_insert_2; [|done]. split; [done|]. cbn. destruct (th_cn t); [|constructor].
      by apply Forall_app_2, Forall_singleton.
    + intros Ho. destruct (Hdb Ho) as (A & C & D & Hi). exists A, C, D. eapply db_inv_groups; [|exact Hi].
      intros g [Hg| ->]%has_group_cns; [done|]. left; eauto.
  - destruct (cn_on_chunk _ _ _ _ _ _) as [[[cn w1] res]| |] eqn:Er; cbn [mbind outcome_bind] in E; simplify_eq.
    destruct (chunk_own _ _ _ _ _ _ _ _ _ (Ht : id_ok (directed (mkNetworkChunk md data incoming buffered) r)) (Hm _ _ Em) Er) as [Hcn Hw].
    split; [by eapply clock_ok_step|done|done| |done|].
    + by apply map_Forall_insert_2.
    + eapply ri_db_step; [exact Hk|exact Hdb|exact Hw|right; left; by eauto|].
      intros g [Hg| ->]%has_group_main; [done|]. right; left; eauto.
  - done.
Qed.

Lemma gone_inv n0 A0 C0 D0 md buffered r r' w w' :
  run_inv n0 A0 C0 D0 r w -> on_disconnect md buffered r w = (r', w') -> run_inv n0 A0 C0 D0 r' w'.
Proof.
  intros Hi E. unfold on_disconnect in E. destruct (tester r); [by simplify_eq|].
  destruct Hi as [Hk Ha Hth Hm Hd Hdb].
  destruct (Recorder.cns r !! md_id md) as [t|] eqn:Et; [|destruct (cns_main_thread r !! md_id md) as [c|] eqn:Em]; simplify_eq.
  - pose proof (join_own (length (th_queue t)) t r w (Hth _ _ Et)) as Hw.
    split; [by eapply clock_ok_step|done|by apply map_Forall_delete|done|done|].
    eapply ri_db_step; [exact Hk|exact Hdb|exact Hw|left; by eauto|].
    intros g [(id & t' & Hl' & <-)|Hg]; [|by right]. left. cbn in Hl'. apply lookup_delete_Some in Hl' as [_ Hl']. eauto.
  - pose proof (drop_own (cc_db c) w) as Hw.
    split; [by eapply clock_ok_step|done|done|by apply map_Forall_delete|done|].
    eapply ri_db_step; [exact Hk|exact Hdb|exact Hw|right; left; by eauto|].
    intros g [Hg|[(id & c' & Hl' & <-)|Hg]]; [by left| |by right; right]. right; left.
    cbn in Hl'. apply lookup_delete_Some in Hl' as [_ Hl']. eauto.
  - done.
Qed.

Lemma facade_add_cns ci inc alias time f : 0 <= Facade.cns f -> Facade.cns f + 1 < 2 ^ 64 ->
  Facade.cns (facade_add ci inc alias time f).1 = Facade.cns f + 1.
Proof.
  intros H0 Hlt. unfold facade_add, mbind, facade_bind, next_cn. rewrite wrap_small by lia.
  match goal with |- context [on_core (put_cn ?a ?b) ?f2] =>
    pose proof (on_core_cns (put_cn a b) f2) as E2; destruct (on_core (put_cn a b) f2) as [f3 [|]] end; [|done].
  match goal with |- context [on_core (set_total ?a ?b) ?f4] =>
    pose proof (on_core_cns (set_total a b) f4) as E3; destruct (on_core (set_total a b) f4) as [f5 [|]] end; cbn in *; congruence.
Qed.

Lemma alias_bound n0 A0 C0 D0 r w p : run_inv n0 A0 C0 D0 r w -> blen (alias_of p r) < 2 ^ 32.
Proof.
  intros Hi. unfold alias_of. destruct (apps r !! p) as [[a ad]|] eqn:E; [|done]. exact (ri_apps _ _ _ _ _ _ Hi p _ E).
Qed.

(** A new connection gets an id of its own. *)
Lemma add_inv n0 A0 C0 D0 A C D (G : Group -> Prop) f ci inc alias time :
  db_inv n0 A0 C0 D0 A C D G f -> Facade.cns f + 1 < 2 ^ 64 ->
  well_formed ci -> time_ok time -> blen alias < 2 ^ 32 ->
  exists f' C', facade_add ci inc alias time f = (f', Ok (mkGroup (addr ci) (Facade.cns f))) /\
    db_inv n0 A0 C0 D0 A C' D (fun g => G g \/ g = mkGroup (addr ci) (Facade.cns f)) f'.
Proof.
  intros [[Hok Hlog Hdat] [S1 S2 S3 S4] Hn Hg] Hlt Hw Ht Ha.
  assert (well_formed (mkConnection ci inc time stats_default stats_default 0 alias)) as Hwf.
  { split_and!; try done; repeat split; unfold uint_ok; cbn; lia. }
  destruct (facade_add_ok A C D f ci inc alias time Hok Hlt Hwf) as (f' & E & Hnew & Hok').
  exists f', (<[Facade.cns f := mkConnection ci inc time stats_default stats_default 0 alias]> C).
  assert (forall id c, C !! id = Some c -> <[Facade.cns f := mkConnection ci inc time stats_default stats_default 0 alias]> C !! id = Some c) as Hold.
  { intros id c Hc. rewrite lookup_insert_ne; [done|]. intros <-. congruence. }
  split; [done|]. split.
  - split; [done| |done]. intros id e He. destruct (Hlog id e He) as (c & Hc & Hac). exists c. auto.
  - split; [done|done| |done]. intros id Hid. rewrite lookup_insert_ne by lia. by apply S3.
  - pose proof (facade_add_cns ci inc alias time f) as Ec. rewrite E in Ec. cbn in Ec.
    destruct (fo_cns _ _ _ _ Hok) as [[H0 _] _]. rewrite Ec; lia.
  - intros g [Hgr| ->]; [|split; [done|]; eexists; by split; [apply lookup_insert_eq|]].
    destruct (Hg g Hgr) as [Hgn (c & Hc & Hac)]. split; [done|]. exists c. auto.
Qed.

Lemma connect_db n0 A0 C0 D0 r w ci inc time w1 g :
  run_inv n0 A0 C0 D0 r w -> well_formed ci -> time_ok time ->
  cx_add ci inc (alias_of (pid ci) r) time w = (w1, g) ->
  clock_ok w1 /\
  (sh_overflow w1 = false -> exists A C D,
    db_inv n0 A0 C0 D0 A C D (fun g' => has_group r g' \/ g = Ok g') (sh_facade w1)).
Proof.
  intros Hi Hw Ht E. cbn in E. unfold on_shared in E. cbn [note sh_facade] in E.
  destruct (facade_add _ _ _ _ (sh_facade w)) as [f' res] eqn:Ef. injection E as <- <-.
  split; [apply (ri_clock _ _ _ _ _ _ Hi)|]. cbn. intros [Ho Hn]%orb_false_iff.
  apply negb_false_iff, Z.ltb_lt in Hn. destruct (ri_db _ _ _ _ _ _ Hi Ho) as (A & C & D & Hdb).
  destruct (add_inv _ _ _ _ _ _ _ _ _ ci inc (alias_of (pid ci) r) time Hdb Hn Hw Ht (alias_bound _ _ _ _ _ _ _ Hi))
    as (f1 & C' & E1 & Hdb'). rewrite E1 in Ef. simplify_eq. exists A, C', D.
  eapply db_inv_groups; [|exact Hdb']. intros g [Hg|Hg]; [by left|right; congruence].
Qed.

Lemma connect_inv n0 A0 C0 D0 main inc md buffered chain r r' w w' ok :
  well_formed (md_id md) -> time_ok (md_time md) -> run_inv n0 A0 C0 D0 r w ->
  on_connect main inc md buffered chain r w = (r', w', ok) -> run_inv n0 A0 C0 D0 r' w'.
Proof.
  intros Hw Ht Hi E. unfold on_connect in E. destruct (tester r); [by simplify_eq|].
  destruct (cx_add (md_id md) inc (alias_of (pid (md_id md)) r) (md_time md) w) as [w1 g] eqn:Ea.
  destruct (connect_db _ _ _ _ _ _ _ _ _ _ _ Hi Hw Ht Ea) as [Hk1 Hdb1]. clear Ea. destruct Hi as [Hk Ha Hth Hm Hd _].
  destruct g as [g|]; [destruct main|]; simplify_eq.
  - assert (run_inv n0 A0 C0 D0 (set_main (<[md_id md := mkContext (new_connection
      (chain_of chain (alias_of (pid (md_id md)) r))) g]> (cns_main_thread r)) r) w1) as Hi1.
    { split; [done..| | |]; [apply map_Forall_insert_2; [apply new_connection_inv|done]|done|].
      intros Ho. destruct (Hdb1 Ho) as (A & C & D & Hdb). exists A, C, D. eapply db_inv_groups; [|exact Hdb].
      by intros g' [Hg| ->]%has_group_main; [left|right]. }
    destruct (cns_main_thread r !! md_id md) as [c|] eqn:Em; [|exact Hi1].
    pose proof (drop_own (cc_db c) w1) as Hs. destruct Hi1 as [_ Ha1 Hth1 Hm1 Hd1 _].
    split; [by eapply clock_ok_step|done..|].
    eapply ri_db_step; [exact Hk1|exact Hdb1|exact Hs|left; right; left; by eauto|].
    by intros g' [Hg| ->]%has_group_main; [left|right].
  - set (r1 := match Recorder.cns r !! md_id md with Some t => set_detached (detached r ++ [t]) r | None => r end).
    assert (Recorder.cns r1 = Recorder.cns r /\ cns_main_thread r1 = cns_main_thread r /\ apps r1 = apps r) as (E1 & E2 & E3)
      by (unfold r1; by destruct (Recorder.cns r !! md_id md)).
    assert (forall t, t ∈ detached r1 -> t ∈ detached r \/ Recorder.cns r !! md_id md = Some t) as Hdet.
    { unfold r1. destruct (Recorder.cns r !! md_id md) as [t|]; cbn; [|auto].
      intros t0 [Ht0|Ht0%list_elem_of_singleton]%elem_of_app; [auto|]. subst. auto. }
    split; [done|by rewrite <- E3 in Ha| | | |]; cbn.
    + rewrite E1. apply map_Forall_insert_2; [|done]. split; [|constructor]. intros cn [= <-]. apply new_connection_inv.
    + by rewrite E2.
    + apply Forall_forall. intros t [Ht'|Ht']%Hdet; [by eapply Forall_forall|by eapply Hth].
    + intros Ho. destruct (Hdb1 Ho) as (A & C & D & Hdb). exists A, C, D. eapply db_inv_groups; [|exact Hdb].
      intros g' [(id & t & Hl & <-)|[(id & c & Hl & <-)|(t & Htd & <-)]]; cbn in *.
      * rewrite E1 in Hl. apply lookup_insert_Some in Hl as [[_ <-]|[_ Hl]]; [by right|]. left; left; eauto.
      * rewrite E2 in Hl. left; right; left; eauto.
      * apply Hdet in Htd as [Htd|Htd]; left; [by right; right; eauto|left; eauto].
  - split; [done..|]. intros Ho. destruct (Hdb1 Ho) as (A & C & D & Hdb). exists A, C, D.
    eapply db_inv_groups; [|exact Hdb]. intros g Hg. by left.
Qed.

Lemma thread_inv n0 A0 C0 D0 id (t t' : ThreadContext Group Stack.Cn) r w w' :
  run_inv n0 A0 C0 D0 r w -> Recorder.cns r !! id = Some t -> thread_turn t r w = (t', w') ->
  run_inv n0 A0 C0 D0 (set_cns (<[id := t']> (Recorder.cns r)) r) w'.
Proof.
  intros [Hk Ha Hth Hm Hd Hdb] Ht E. destruct (thread_turn_own _ _ _ _ _ (Hth _ _ Ht) E) as (Hf & Eg & Hw).
  split; [by eapply clock_ok_step|done|by apply map_Forall_insert_2|done|done|].
  eapply ri_db_step; [exact Hk|exact Hdb|exact Hw|left; by eauto|].
  intros g [Hg| ->]%has_group_cns; [done|]. left; eauto.
Qed.

Lemma detached_inv n0 A0 C0 D0 i (t t' : ThreadContext Group Stack.Cn) r w w' :
  run_inv n0 A0 C0 D0 r w -> detached r !! i = Some t -> thread_turn t r w = (t', w') ->
  run_inv n0 A0 C0 D0 (set_detached (<[i := t']> (detached r)) r) w'.
Proof.
  intros [Hk Ha Hth Hm Hd Hdb] Ht E.
  assert (thread_fine t) as Hft by (by eapply Forall_lookup_1).
  destruct (thread_turn_own _ _ _ _ _ Hft E) as (Hf & Eg & Hw).
  split; [by eapply clock_ok_step|done..|by apply Forall_insert|].
  eapply ri_db_step; [exact Hk|exact Hdb|exact Hw| |by intros g; apply (has_group_detached r i t t')].
  right; right. exists t. split; [by eapply list_elem_of_lookup_2|done].
Qed.

Lemma app_inv n0 A0 C0 D0 p alias port r w :
  blen alias < 2 ^ 32 -> run_inv n0 A0 C0 D0 r w -> run_inv n0 A0 C0 D0 (set_port p port (on_alias p alias r)) w.
Proof.
  intros Hb [Hk Ha Hth Hm Hd Hdb]. split; [done| |done..]. cbn.
  apply map_Forall_lookup_2. intros q [a ad] Hq. apply lookup_alter_Some in Hq as [(<- & [a0 ad0] & Hq & [= -> _])|[_ Hq]];
    apply lookup_insert_Some in Hq as [[_ [= <- _]]|[_ Hq]]; [done|exact (Ha _ _ Hq)|done|exact (Ha _ _ Hq)].
Qed.

Lemma randomness_inv n0 A0 C0 D0 data r w :
  run_inv n0 A0 C0 D0 r w -> run_inv n0 A0 C0 D0 r (cx_add_randomness data w).1.
Proof.
  intros [Hk Ha Hth Hm Hd Hdb]. cbn. unfold on_shared, add_randomness, mbind, facade_bind, next_rnd.
  set (f1 := mkFacade _ _ _ _).
  destruct (on_core (put_randomness (rnd_cnt (sh_facade w)) data) f1) as [f' res] eqn:E. cbn.
  split; [exact Hk|done..|]. cbn. intros Ho. destruct (Hdb Ho) as (A & C & D & [[Hok Hl Hdt] Hs Hn Hg]).
  assert (facade_ok A C D f1) as Hok1 by (by destruct Hok).
  pose proof (put_other_ok A C D f1 RANDOMNESS (be_encode 8 (rnd_cnt (sh_facade w))) data eq_refl Hok1) as Hok2.
  pose proof (on_core_cns (put_randomness (rnd_cnt (sh_facade w)) data) f1) as Ec. unfold put_randomness in *.
  rewrite E in Hok2, Ec. cbn in *. exists A, C, D. split; [by split|done|by rewrite Ec|done].
Qed.

Lemma turn_inv n0 A0 C0 D0 t r r' w w' :
  turn_ok t -> run_inv n0 A0 C0 D0 r w -> turn t r w = Ret (r', w') -> run_inv n0 A0 C0 D0 r' w'.
Proof.
  intros Ht Hi E. destruct t as [main inc md buffered chain|inc md buffered data|md buffered|id|i|p alias port|data];
    cbn in E, Ht.
  - destruct (on_connect _ _ _ _ _ _ _) as [[r1 w1] ok] eqn:Ec. cbn in E. simplify_eq. destruct Ht. by eapply connect_inv.
  - by eapply data_inv.
  - injection E as Ec. by eapply gone_inv.
  - destruct (Recorder.cns r !! id) as [t|] eqn:Et; [|by simplify_eq].
    destruct (thread_turn t r w) as [t1 w1] eqn:Ew. simplify_eq. by eapply thread_inv.
  - destruct (detached r !! i) as [t|] eqn:Et; [|by simplify_eq].
    destruct (thread_turn t r w) as [t1 w1] eqn:Ew. simplify_eq. by eapply detached_inv.
  - simplify_eq. by apply app_inv.
  - injection E as <- <-. by apply randomness_inv.
Qed.

Lemma turns_inv n0 A0 C0 D0 ts r r' w w' :
  Forall turn_ok ts -> run_inv n0 A0 C0 D0 r w -> turns ts r w = Ret (r', w') -> run_inv n0 A0 C0 D0 r' w'.
Proof.
  intros Hts. revert r w. induction Hts as [|t ts Ht _ IH]; intros r w Hi E; cbn in E; [by simplify_eq|].
  destruct (turn t r w) as [[r1 w1]| |] eqn:E1; cbn in E; [|done..]. eapply IH; [|exact E]. by eapply turn_inv.
Qed.

Lemma run_inv_start A0 C0 D0 test w :
  sys_ok A0 C0 D0 (sh_facade w) -> clock_ok w -> run_inv (Facade.cns (sh_facade w)) A0 C0 D0 (recorder_new test) w.
Proof.
  intros Hs Hk. split; [done|apply map_Forall_empty..|constructor|]. intros _. exists A0, C0, D0. split; [done| |lia|].
  - split; try done. by left.
  - intros g [(id & t & Hl & _)|[(id & c & Hl & _)|(t & Ht & _)]].
    + cbn in Hl. by rewrite lookup_empty in Hl.
    + cbn in Hl. by rewrite lookup_empty in Hl.
    + by apply elem_of_nil in Ht.
Qed.
End runs.

