(* ===== verification/EndToEnd.v ===== *)
(** From the bytes on the wire to the answers of the HTTP interface: what the interface
    shows after any traffic ([recorded_is_shown]), and a run of the whole recorder on
    concrete bytes, one connection from its first nonce to a message of an application
    stream, over the toy cipher, key exchange and encodings of the other files. *)

From stdpp Require Import base list gmap strings relations.
From Stdlib Require Import ZArith Lia.
From S2P Require Import Prelude Types Handle Varint Coding Accumulator Yamux Noise Pnet MinaProtocol Stack.
From S2P Require Import Params Rocks DbCore DbIndex DbSpec DbBlobs Decode Facade DbDemo Meshsub Stats DbStats DbStatsSpec.
From S2P Require Import Probes Firewall Views Listing Http Server KeyRecover Recorder Frames System.

(** After any traffic that did not overflow a counter, a request for messages, for one
    message or for a connection is answered from one log, which holds all that was
    recorded before. *)
Theorem recorded_is_shown
    {HR : Radiation} {HRL : RadiationLaws} {HRD : RadiationDerive} {HB : Binprot} {HBS : BinprotStable} {HDc : Decoders}
    {HG : GossipLib} {HBl : Blake2} {HNp : NoisePrims} {HSk : Shake} {HC : StreamCipher}
    {HV : Varint} {HVL : VarintLaws} {HPr : Prost} {HA : AggregatorClient} {R : Type} {Hr : Rocks R} {HrL : RocksLaws R}
    {HVw : ViewLib} {HI : Itertools} {HIL : ItertoolsLaws} {HS : Speed} {HH : LedgerHashText} {HSl : ServerLib}
    {W B : Type} {M1 : BpfMap bytes Z W} {M2 : BpfMap bytes StatsBlocked B} {K1 : BpfKeys bytes W} {K2 : BpfKeys bytes B}
    (ts : list Turn) (A0 : Log) (C0 : gmap Z Connection) (D0 : gmap Z bytes)
    (w0 w : Shared R) (r : P2pRecorder Group Stack.Cn) (s : Server (R := R) (W := W) (B := B)) :
  sys_ok A0 C0 D0 (sh_facade w0) -> clock_ok w0 -> Forall turn_ok ts ->
  turns ts (recorder_new false) w0 = Ret (r, w) -> sh_overflow w = false -> sv_db s = core (sh_facade w) ->
  exists A C D, A0 ⊆ A /\ D0 ⊆ D /\ forall e, shows A C D s e (answer e s).
Proof.
  intros Hs Hk Hts E Ho Hdb.
  destruct (ri_db _ _ _ _ _ _ (turns_inv _ _ _ _ ts _ _ _ _ Hts (run_inv_start _ _ _ false w0 Hs Hk) E) Ho)
    as (A & C & D & [[Hok _ _] [S1 S2 _ _] _ _]).
  exists A, C, D. split; [done|]. split; [done|]. intros e. by apply (answer_shows A C D (sh_facade w)).
Qed.

(** * A run *)

Section demo.
#[local] Existing Instances demo_radiation demo_radiation_laws demo_derive demo_binprot demo_stable demo_decoders
  demo_prims demo_cipher leb128_varint leb128_laws mem_rocks mem_laws.
#[local] Instance toy_gossip : GossipLib := {|
  rpc_decode_delimited _ := None; gossip_v2_read _ := None; gossip_v1_read _ := None; peer_id_from_bytes b := Some b |}.
#[local] Instance toy_shake : Shake := fun input i => repeat 1 32.
#[local] Instance toy_prost : Prost := fun _ => None.
#[local] Instance toy_client : AggregatorClient := {| url_parse := Some; url_join_new u := Some (u ++ str "new"); event_json _ := None |}.

(** ** The sender *)

Definition token (s : bytes) : bytes := (blen s + 1) :: s ++ [10].
Definition offer (protocol : bytes) : bytes := token (str "/multistream/1.0.0") ++ token protocol.

Definition shift (c : Z) (l : bytes) : bytes := (fun b => (b + c) mod 256) <$> l.
Definition sealed (c : Z) (l : bytes) : bytes := shift c l ++ repeat c 16.
Definition framed_message (l : bytes) : bytes := be_encode 2 (blen l) ++ l.

(** The randomness the node was given, and the key it makes of it. *)
Definition seed : bytes := repeat 16 32.
Definition key : bytes := clamp seed.

Definition frame (fl : Z) (payload : bytes) : bytes :=
  header_bytes (mkHeader 0 (Yamux.Data (blen payload)) fl 1) ++ payload.

(** The plaintext of both directions, in the order it is sent: negotiation, the three
    messages of the handshake, negotiation of the multiplexer, a stream, its protocol,
    and a message. *)
Definition conversation : list (bool * bytes) :=
  [(false, offer (str "/noise")); (true, offer (str "/noise"));
   (false, framed_message key);
   (true, framed_message (key ++ sealed 0 key ++ sealed 1 []));
   (false, framed_message (sealed 2 key ++ sealed 3 (repeat 7 32)));
   (false, framed_message (sealed 4 (offer (str "/coda/yamux/1.0.0"))));
   (true, framed_message (sealed 4 (offer (str "/coda/yamux/1.0.0"))));
   (false, framed_message (sealed 5 (frame SYN (offer (str "/ipfs/id/1.0.0")))));
   (true, framed_message (sealed 5 (frame ACK (offer (str "/ipfs/id/1.0.0")))));
   (false, framed_message (sealed 6 (frame 0 (str "hello"))))].

Definition nonce : bytes := repeat 0 24.

(** The private network encrypts each direction with its own key stream. *)
Fixpoint wire (evs : list (bool * bytes)) (cin cout : Z) : list (bool * bytes) :=
  match evs with
  | [] => []
  | (true, l) :: evs => let '(l, c) := demo_keystream l cin in (true, l) :: wire evs c cout
  | (false, l) :: evs => let '(l, c) := demo_keystream l cout in (false, l) :: wire evs cin c
  end.

Definition traffic : list (bool * bytes) :=
  [(false, nonce); (true, nonce)] ++ wire conversation (be_decode (str "net")) (be_decode (str "net")).

Definition conn : ConnectionInfo := mkConnectionInfo (mkSocketAddr (V4 [10; 0; 0; 1]) 8302) 7 9.
Definition at_time (n : Z) : EventMetadata := mkEventMetadata conn (n * 10 ^ 9) (n * 10 ^ 9) 0.

Definition run_turns : list Turn :=
  [TApp 7 (str "net-10.0.0.9") 8302; TRandomness seed; TConnect false false (at_time 1) 0 []] ++
  ((fun x => TData x.1 (at_time 2) 0 x.2) <$> traffic) ++ repeat (TThread conn) (length traffic) ++
  [TGone (at_time 3) 0].

Definition start : Shared MemStore :=
  mkShared demo_empty None false ∅ 0 0 None [] false (fun _ => 10 ^ 9) 0 (mkGroup (addr conn) 0) ∅ false.

Definition finish : outcome (P2pRecorder Group Stack.Cn * Shared MemStore) := turns run_turns (recorder_new false) start.

(** Everything was decrypted, and the last of the fifteen messages is the one that was
    sent. *)
Example run_records :
  match finish with
  | Ret (_, w) =>
      (f_messages (sh_facade w), sh_decrypted w, sh_failed w) = (15, 223, 0) /\
      fetch_full_message_bin 14 (core (sh_facade w)) = Ret (Ok (str "hello"))
  | _ => False
  end.
Proof. vm_compute. done. Qed.

Lemma run_turns_ok : Forall turn_ok run_turns.
Proof.
  assert (forall n, 0 <= n < 10 -> time_ok (n * 10 ^ 9)) as Ht by (unfold time_ok; intros; lia).
  apply Forall_app_2; [|apply Forall_app_2; [|apply Forall_app_2]].
  - repeat constructor; cbn; try done; try lia.
  - apply Forall_fmap, Forall_true. intros x. by apply Ht.
  - by apply List.Forall_forall; intros t ->%List.repeat_spec.
  - by constructor.
Qed.

Lemma start_ok : sys_ok ∅ ∅ ∅ (sh_facade start).
Proof. split; [exact demo_empty_ok|by intros id e He; rewrite lookup_empty in He|]. intros id. rewrite lookup_empty. by intros []. Qed.

Lemma start_clock : clock_ok start.
Proof. intros n. cbn. unfold time_ok. lia. Qed.

End demo.
