(* ===== verification/RegistryServer.v ===== *)
(** The HTTP service of the registry ([simulator/src/registry/server.rs], [state.rs]) over
    [Registry], and the command that judges its summary
    ([simulator/src/bin/mina-simulator.rs]) over [Verdicts]. *)

From stdpp Require Import base list strings.
From Stdlib Require Import ZArith Lia.
From S2P Require Import Prelude Types Text BTree Checksum Ipc PeerTests Registry Topology Verdicts Http.

(** The decoders the service derives: of the two queries and of the bodies of the posts. *)
Class RegistryLib : Type := {
  build_query : bytes -> option Z;
  partial_query : bytes -> option (option bool);
  net_body : bytes -> option (list NetReport);
  mock_body : bytes -> option MockReport;
  mock_split_body : bytes -> option MockSplitReport;
  debugger_body : bytes -> option DebuggerReport;
}.

(** [SplitContext]: what was sent to the task of the current round, if there is one. *)
Abbreviation SplitContext := (option (list IpAddr)).

Definition split_reset (c : SplitContext) : SplitContext := None.

(** [SplitContext::request]; the first request starts the task. *)
Definition split_request (fr : IpAddr) (c : SplitContext) : SplitContext := Some (default [] c ++ [fr]).

(** A reply, or the one that comes when the round of splits has ended. *)
Inductive RegReply : Type :=
| Now (status : Z) (body : Reply)
| AfterRound.

Definition awaited_reply (r : RegReply) : Z * Reply :=
  match r with Now status body => (status, body) | AfterRound => (OK, RText []) end.

Record RegState : Type := mkRegState { rg_state : State; rg_split : SplitContext }.

Definition reg_default : RegState := mkRegState state_default None.

Section service.
Context {HL : RegistryLib} {HW : Warp} (nodes : Z).

(** A handler gets the address of the client, if it is known, and what the helper of the
    registry would answer to a request for a key pair. *)
Definition RegHandler : Type := option SocketAddr -> Keypair -> RegState -> RegState * RegReply.

Definition on_state (q : option SocketAddr -> Keypair -> Request) : RegHandler := fun addr keypair s =>
  let '(st, (status, body)) := Registry.handle nodes (q addr keypair) (rg_state s) in
  (mkRegState st (rg_split s), Now status body).

(** * Handlers and routes *)

Definition split_handler : RegHandler := fun addr _ s =>
  match addr with
  | None => (s, Now INTERNAL_SERVER_ERROR no_address)
  | Some addr => (mkRegState (rg_state s) (split_request (ip addr) (rg_split s)), AfterRound)
  end.

Definition register_handler (build_number : Z) : RegHandler :=
  on_state (fun addr keypair => GetRegister addr build_number keypair).
Definition summary_handler (partial : option bool) : RegHandler := on_state (fun _ _ => GetSummary partial).
Definition report_handler (build_number : Z) (r : Report) : RegHandler :=
  on_state (fun addr _ => PostReport addr build_number r).
Definition reset_handler : RegHandler := on_state (fun _ _ => PostReset).

(** A route for reports: path, body, query and method. *)
Definition on_report {A} (segs : list bytes) (body : bytes -> option A) (rep : A -> Report) : Filter RegHandler :=
  w_map (fun x => report_handler x.1.2 (rep x.1.1.2))
    (w_path segs <and> w_body body <and> w_query build_query <and> w_method POST).

Definition split : Filter RegHandler := on_path [str "split"] split_handler.
Definition register : Filter RegHandler := on_query [str "register"] build_query register_handler.
Definition summary : Filter RegHandler := on_query [str "summary"] partial_query summary_handler.
Definition net_report : Filter RegHandler := on_report [str "net_report"] net_body RNet.
Definition mock_report : Filter RegHandler := on_report [str "mock_report"] mock_body RMock.
Definition mock_split_report : Filter RegHandler := on_report [str "mock_split_report"] mock_split_body RMockSplit.
Definition debugger_report : Filter RegHandler := on_report [str "report"; str "debugger"] debugger_body RDebugger.
Definition reset : Filter RegHandler :=
  w_map (fun _ => reset_handler) (w_path [str "reset"] <and> w_method POST).

Definition cors_methods : list bytes :=
  [str "OPTIONS"; str "GET"; str "POST"; str "DELETE"; str "PUT"; str "HEAD"].
Definition cors_headers : list bytes :=
  [str "Accept"; str "Authorization"; str "baggage"; str "Cache-Control"; str "Content-Type"; str "DNT";
   str "If-Modified-Since"; str "Keep-Alive"; str "Origin"; str "sentry-trace"; str "User-Agent";
   str "X-Requested-With"; str "X-Cache-Hash"].

(** The header that is added to every reply is left out. *)
Definition routes : Filter RegHandler :=
  w_cors cors_methods cors_headers
    (only GET (register <or> summary <or> split) <or>
     only POST (net_report <or> mock_report <or> mock_split_report <or> debugger_report <or> reset)).

(** A request with where it comes from: the state afterwards and the reply, [None] for a
    rejection. *)
Definition reg_handle (r : HttpRequest) (addr : option SocketAddr) (keypair : Keypair) (s : RegState)
    : RegState * option RegReply :=
  match run_filter routes r with
  | Some h => let '(s, o) := h addr keypair s in (s, Some o)
  | None => (s, None)
  end.

(** * The interface as a table *)

Inductive RegEndpoint : Type :=
| ESplit
| ERegister (build_number : Z)
| ESummary (partial : option bool)
| EReport (build_number : Z) (r : Report)
| EReset.

Inductive serves (r : HttpRequest) : RegEndpoint -> Prop :=
| s_split : rq_method r = GET -> rq_path r = [str "split"] -> serves r ESplit
| s_register b : rq_method r = GET -> rq_path r = [str "register"] -> build_query (rq_query r) = Some b ->
    serves r (ERegister b)
| s_summary p : rq_method r = GET -> rq_path r = [str "summary"] -> partial_query (rq_query r) = Some p ->
    serves r (ESummary p)
| s_net b x : rq_method r = POST -> rq_path r = [str "net_report"] -> net_body (rq_body r) = Some x ->
    build_query (rq_query r) = Some b -> serves r (EReport b (RNet x))
| s_mock b x : rq_method r = POST -> rq_path r = [str "mock_report"] -> mock_body (rq_body r) = Some x ->
    build_query (rq_query r) = Some b -> serves r (EReport b (RMock x))
| s_mock_split b x : rq_method r = POST -> rq_path r = [str "mock_split_report"] ->
    mock_split_body (rq_body r) = Some x -> build_query (rq_query r) = Some b -> serves r (EReport b (RMockSplit x))
| s_debugger b x : rq_method r = POST -> rq_path r = [str "report"; str "debugger"] ->
    debugger_body (rq_body r) = Some x -> build_query (rq_query r) = Some b -> serves r (EReport b (RDebugger x))
| s_reset : rq_method r = POST -> rq_path r = [str "reset"] -> serves r EReset.

Definition answer (e : RegEndpoint) : RegHandler :=
  match e with
  | ESplit => split_handler
  | ERegister b => register_handler b
  | ESummary p => summary_handler p
  | EReport b x => report_handler b x
  | EReset => reset_handler
  end.

Context {HWL : WarpLaws}.

#[local] Hint Unfold split register summary on_report net_report mock_report mock_split_report debugger_report reset : routes.

Lemma reg_serves_deterministic (r : HttpRequest) (e e' : RegEndpoint) : serves r e -> serves r e' -> e = e'.
Proof. intros S1 S2. destruct S1, S2; first [congruence|other_path]. Qed.

Lemma reg_routes_sound (r : HttpRequest) (h : RegHandler) :
  rq_cross_origin r = false -> yields routes r h -> exists e, serves r e /\ h = answer e.
Proof.
  intros Ho Hy. apply yields_cors in Hy; [|done].
  apply yields_or in Hy as [Hy|Hy]; unfold only in Hy; route_inv.
  all: repeat match goal with
    | Hy : yields (_ <or> _) _ _ |- _ => apply yields_or in Hy as [Hy|Hy] end;
    route_inv; eexists; (split; [solve [econstructor; eauto]|reflexivity]).
Qed.

(** The routes are the table. *)
Lemma reg_routes_table (r : HttpRequest) :
  rq_cross_origin r = false ->
  (forall e, serves r e -> run_filter routes r = Some (answer e)) /\
  ((forall e, ~ serves r e) -> run_filter routes r = None).
Proof.
  intros Ho. apply (filter_is_table routes r (serves r) answer).
  - intros h. by apply reg_routes_sound.
  - intros e Hs. apply accepted_cors; [done|]. apply accepted_or. unfold only.
    rewrite !accepted_map, !accepted_and.
    destruct Hs; first [left; split; [accepted_leaf|accepted_here] | right; split; [accepted_leaf|accepted_here]].
  - intros e e'. apply reg_serves_deterministic.
Qed.

(** * The service over time *)

(** What an endpoint asks of the state. *)
Definition asks (e : RegEndpoint) (addr : option SocketAddr) (keypair : Keypair) : option Request :=
  match e with
  | ESplit => None
  | ERegister b => Some (GetRegister addr b keypair)
  | ESummary p => Some (GetSummary p)
  | EReport b x => Some (PostReport addr b x)
  | EReset => Some PostReset
  end.

Definition Asked : Type := HttpRequest * option SocketAddr * Keypair.

Definition reg_serve (rs : list Asked) (s : RegState) : RegState :=
  foldl (fun s '(r, addr, keypair) => (reg_handle r addr keypair s).1) s rs.

(** A list of requests and what they ask, in order. *)
Inductive asked : list Asked -> list Request -> Prop :=
| asked_nil : asked [] []
| asked_request r addr keypair rs e qs :
    rq_cross_origin r = false -> serves r e -> asked rs qs ->
    asked ((r, addr, keypair) :: rs) (option_list (asks e addr keypair) ++ qs)
| asked_rejected r addr keypair rs qs :
    rq_cross_origin r = false -> (forall e, ~ serves r e) -> asked rs qs -> asked ((r, addr, keypair) :: rs) qs.

Lemma reg_handle_state (r : HttpRequest) (e : RegEndpoint) addr keypair (s : RegState) :
  rq_cross_origin r = false -> serves r e ->
  rg_state (reg_handle r addr keypair s).1
  = match asks e addr keypair with Some q => (Registry.handle nodes q (rg_state s)).1 | None => rg_state s end.
Proof.
  intros Ho Hs. unfold reg_handle. rewrite (proj1 (reg_routes_table r Ho) e Hs).
  destruct e; cbn [answer asks].
  1: unfold split_handler; by destruct addr.
  all: unfold register_handler, summary_handler, report_handler, reset_handler, on_state;
    by destruct (Registry.handle _ _ _) as [st [status body]].
Qed.

(** The service is the registry: after any requests its state is that of what they ask, in
    their order, and a known request is answered as the registry answers it. *)
Lemma registry_service (rs : list Asked) (qs : list Request) (r : HttpRequest) (e : RegEndpoint) addr keypair q :
  asked rs qs -> rq_cross_origin r = false -> serves r e -> asks e addr keypair = Some q ->
  rg_state (reg_serve rs reg_default) = serve nodes qs state_default /\
  (reg_handle r addr keypair (reg_serve rs reg_default)).2
    = Some (let '(status, body) := (Registry.handle nodes q (serve nodes qs state_default)).2 in Now status body).
Proof.
  intros HA Ho Hs Hq.
  assert (forall s, rg_state (reg_serve rs s) = serve nodes qs (rg_state s)) as HS.
  { clear Hq Hs Ho. induction HA as [|r0 a0 k0 rs0 e0 qs0 Ho Hs HA IH|r0 a0 k0 rs0 qs0 Ho Hn HA IH]; intros s; [done| |].
    - cbn [reg_serve foldl]. fold (reg_serve rs0 (reg_handle r0 a0 k0 s).1). rewrite IH, (reg_handle_state r0 e0) by done.
      unfold serve. rewrite foldl_app. by destruct (asks e0 a0 k0).
    - cbn [reg_serve foldl]. fold (reg_serve rs0 (reg_handle r0 a0 k0 s).1). rewrite IH. unfold reg_handle.
      by rewrite (proj2 (reg_routes_table r0 Ho) Hn). }
  split; [by rewrite HS|]. unfold reg_handle. rewrite (proj1 (reg_routes_table r Ho) e Hs).
  specialize (HS reg_default). revert HS. generalize (reg_serve rs reg_default). intros s HS. cbn in HS.
  destruct e; cbn [asks] in Hq; simplify_eq; cbn [answer];
    unfold register_handler, summary_handler, report_handler, reset_handler, on_state; rewrite <- HS;
    by destruct (Registry.handle _ _ _) as [st [status body]].
Qed.

End service.

(** * The command that judges a summary *)

(** How the program ends: with the result of [main], or with the failing reports printed
    and the code 1. *)
Inductive MainEnd : Type :=
| MainResult (r : result unit unit)
| ExitFailure (printed : list (IpAddr * NetworkVerbose)).

Definition clear_matches (v : NetworkVerbose) : NetworkVerbose :=
  mkVerbose [] (nv_too_short v) (nv_mismatch v) (nv_local_missing v) (nv_remote_missing v) (nv_both_missing v).

Definition is_empty {A} (l : list A) : bool := match l with [] => true | _ => false end.

(** One of the four searches: [true] when no report has such connections. *)
Definition none_of (sel : NetworkVerbose -> list NetworkMatches) (l : list (IpAddr * NetworkVerbose)) : bool :=
  match find (fun '(_, report) => negb (is_empty (sel report))) l with Some _ => false | None => true end.

Definition network_checksum (summary : Summaries) : MainEnd :=
  let test_result := test_network_checksum summary in
  let ok := none_of nv_mismatch test_result && none_of nv_local_missing test_result &&
            none_of nv_remote_missing test_result && none_of nv_both_missing test_result in
  if ok then MainResult (Ok tt)
  else ExitFailure ((fun '(a, v) => (a, clear_matches v)) <$> test_result).

Section command.
Context `{!PetGraph}.

(** [Command::Test]; [None] is a file that cannot be opened or read. An unknown name is only
    logged. *)
Definition test_command (name : bytes) (file : option Summaries) : outcome MainEnd :=
  match file with
  | None => Ret (MainResult (Err tt))
  | Some summary =>
      if decide (name = str "ipc") then Ret (MainResult (test_ipc summary))
      else if decide (name = str "all-messages-number") then Ret (MainResult (test_all_messages_number summary))
      else if decide (name = str "all-messages-order") then Ret (MainResult (test_all_messages_order summary))
      else if decide (name = str "all-messages-time-filter") then Ret (MainResult (test_all_messages_time_filter summary))
      else if decide (name = str "ipc-events-number") then Ret (MainResult (test_ipc_events_number summary))
      else if decide (name = str "ipc-events-match") then Ret (MainResult (test_ipc_events_match summary))
      else if decide (name = str "ipc-events-consistent") then Ret (MainResult (test_ipc_events_consistent summary))
      else if decide (name = str "stream-messages-number") then Ret (MainResult (test_stream_messages_number summary))
      else if decide (name = str "stream-messages-order") then Ret (MainResult (test_stream_messages_order summary))
      else if decide (name = str "stream-messages-order-time")
           then Ret (MainResult (test_stream_messages_order_time summary))
      else if decide (name = str "network-checksum") then Ret (network_checksum summary)
      else if decide (name = str "split") then r ← test_split summary; Ret (MainResult r)
      else Ret (MainResult (Ok tt))
  end.

End command.

Lemma none_of_spec sel (l : list (IpAddr * NetworkVerbose)) :
  none_of sel l = true <-> Forall (fun av => sel av.2 = []) l.
Proof.
  unfold none_of. induction l as [|[a v] l IH]; cbn; [split; [constructor|done]|].
  rewrite Forall_cons. cbn. destruct (sel v); cbn; [rewrite IH; naive_solver|]. split; [done|by intros []].
Qed.

(** The test of the network passes exactly when every connection a reporting node knows of was
    seen by both debuggers and no checksum differs; else it prints all reports without the
    connections that match. *)
Lemma network_checksum_ends (summary : Summaries) :
  let l := test_network_checksum summary in
  let good := Forall (fun av => nv_mismatch av.2 = [] /\ unseen av.2 = []) l in
  (good -> network_checksum summary = MainResult (Ok tt)) /\
  (~ good -> network_checksum summary = ExitFailure ((fun '(a, v) => (a, clear_matches v)) <$> l)).
Proof.
  cbv zeta. unfold network_checksum. set (l := test_network_checksum summary).
  assert (none_of nv_mismatch l && none_of nv_local_missing l && none_of nv_remote_missing l && none_of nv_both_missing l = true
          <-> Forall (fun av => nv_mismatch av.2 = [] /\ unseen av.2 = []) l) as HE.
  { rewrite !andb_true_iff, !none_of_spec, !Forall_forall. unfold unseen. split.
    - intros [[[H1 H2] H3] H4] av Hav. by rewrite H1, H2, H3, H4.
    - intros HA. repeat split; intros av Hav; destruct (HA av Hav) as [E1 E2]; [done|..];
        apply app_nil in E2 as [E2 E3]; try apply app_nil in E3 as [E3 E4]; done. }
  split.
  - intros Hg. by rewrite (proj2 HE Hg).
  - intros Hn. destruct (_ && none_of nv_both_missing l) eqn:E; [|done]. by destruct Hn; apply HE.
Qed.

(** A misspelled test passes. *)
Example unknown_test_passes `{!PetGraph} : test_command (str "all-message-order") (Some []) = Ret (MainResult (Ok tt)).
Proof. reflexivity. Qed.
