(* ===== verification/Shown.v ===== *)
(** How values are shown as text: hashes ([decode/meshsub_stats.rs]), the time of day
    ([database/types.rs], [chunk.rs]), full stream ids and the keys of the statistics
    ([database/types.rs]); and the times of records ([Timestamp] of [database/types.rs]). *)

From stdpp Require Import base list strings.
From Stdlib Require Import ZArith Lia.
From S2P Require Import Prelude Types Text Coding Meshsub Capnp Stats Rocks Params DbCore DbStats.

(** * Hashes *)

(** [Serialize], [Debug] and [FromStr] of [Hash]. *)
Definition Hash_display (h : bytes) : bytes := hex_encode h.

Definition Hash_from_str (s : bytes) : option bytes :=
  v ← hex_decode s; if negb (blen v =? 32) then None else Some v.

(** * The time of day *)

(** A number in decimal with at least [n] digits, for numbers that have no more. *)
Fixpoint pad (n : nat) (z : Z) : bytes :=
  match n with
  | O => []
  | S n => pad n (z / 10) ++ [48 + z mod 10]
  end.

Definition DAY : Z := 24 * 3600 * 1000000000.

(** [OffsetDateTime::from(t).time().as_hms_nano()] of a time in nanoseconds after the epoch
    (UTC, also before the epoch). *)
Definition as_hms_nano (t : Z) : Z * Z * Z * Z :=
  let d := t mod DAY in
  (d / (3600 * 1000000000), d / (60 * 1000000000) mod 60, d / 1000000000 mod 60, d mod 1000000000).

Definition Time_display (t : Z) : bytes :=
  let '(hour, minute, second, nano) := as_hms_nano t in
  pad 2 hour ++ str ":" ++ pad 2 minute ++ str ":" ++ pad 2 second ++ str "." ++ pad 9 nano.

Definition EncryptionStatus_debug (s : EncryptionStatus) : bytes :=
  match s with Raw => str "Raw" | DecryptedPnet => str "DecryptedPnet" | DecryptedNoise => str "DecryptedNoise" end.

Definition ChunkHeader_display (h : ChunkHeader) : bytes :=
  Time_display (ch_time h) ++ str " " ++ EncryptionStatus_debug (encryption_status h) ++ str " " ++
  (if ch_incoming h then str "incoming" else str "outgoing").

(** * Keys *)

(** [{cn:08x}] of a [u64]: at least eight digits. *)
Definition hex08 (n : Z) : bytes :=
  let d := show_radix 16 16 n in repeat 48 (8 - length d) ++ d.

Definition StreamFullId_display (s : StreamFullId) : bytes :=
  str "stream_" ++ hex08 (cn s) ++ str "_" ++ StreamId_display (sfid s).

Definition StatsDbKey_display (k : StatsDbKey) : bytes :=
  show_u32 (sk_height k) ++ str " " ++ show_addr (sk_node_address k).

(** A time before the epoch panics. *)
Definition since_epoch (t : Z) : outcome Z := if 0 <=? t then Ret t else Panic.

Definition StatsV2DbKey_display (k : StatsV2DbKey) : outcome bytes :=
  n ← since_epoch (v2_time k); Ret (show_u32 (v2_height k) ++ str " " ++ show_radix 39 10 n).

(** * Times of records *)

(** [trait Timestamp] *)
Class Timestamp (T : Type) : Type := timestamp : T -> outcome Z.

#[export] Instance message_timestamp : Timestamp Message := fun m => since_epoch (m_timestamp m).
#[export] Instance connection_timestamp : Timestamp Connection := fun c => since_epoch (cn_timestamp c).
#[export] Instance strace_timestamp : Timestamp StraceLine := fun l => Ret (sl_start l).

(** * Properties *)

(** A hash is read back from its text; a text is read only if it is the text of a hash, in
    either case of its letters. *)
Lemma hash_text_roundtrip (h : bytes) : wf_bytes h -> blen h = 32 -> Hash_from_str (Hash_display h) = Some h.
Proof.
  intros Hw Hl. unfold Hash_from_str, Hash_display. rewrite hex_decode_encode by done. cbn. by rewrite Hl.
Qed.

Lemma hash_from_str_length (s h : bytes) : Hash_from_str s = Some h -> blen h = 32.
Proof.
  unfold Hash_from_str. destruct (hex_decode s) as [v|]; [|done]. cbn.
  destruct (Z.eqb_spec (blen v) 32); [|done]. by intros [= <-].
Qed.

(** The digits of a padded number give it back. *)
Definition unpad (l : bytes) : Z := foldl (fun acc c => 10 * acc + (c - 48)) 0 l.

Lemma length_pad (n : nat) (z : Z) : length (pad n z) = n.
Proof. revert z. induction n as [|n IH]; intros z; [done|]. cbn. rewrite length_app, IH. cbn. lia. Qed.

Lemma unpad_pad (n : nat) (z : Z) : 0 <= z < 10 ^ Z.of_nat n -> unpad (pad n z) = z.
Proof.
  revert z. induction n as [|n IH]; intros z Hz; [cbn in *; lia|].
  unfold unpad in *. cbn [pad]. rewrite foldl_app. cbn [foldl].
  rewrite Nat2Z.inj_succ, Z.pow_succ_r in Hz by lia.
  rewrite IH by (split; [apply Z.div_pos; lia|apply Z.div_lt_upper_bound; lia]).
  pose proof (Z.div_mod z 10). lia.
Qed.

Lemma pad_inj (n : nat) (a b : Z) :
  0 <= a < 10 ^ Z.of_nat n -> 0 <= b < 10 ^ Z.of_nat n -> pad n a = pad n b -> a = b.
Proof. intros Ha Hb E. rewrite <- (unpad_pad n a Ha), <- (unpad_pad n b Hb). by rewrite E. Qed.

Lemma pad_app_inj (n : nat) (a b : Z) (x y : bytes) :
  0 <= a < 10 ^ Z.of_nat n -> 0 <= b < 10 ^ Z.of_nat n -> pad n a ++ x = pad n b ++ y -> a = b /\ x = y.
Proof.
  intros Ha Hb E. apply app_inj_1 in E as [E ->]; [|by rewrite !length_pad]. split; [by eapply pad_inj|done].
Qed.

(** The four parts of the time of day are in range and give it back. *)
Lemma as_hms_nano_spec (t : Z) :
  let '(h, m, s, n) := as_hms_nano t in
  0 <= h < 24 /\ 0 <= m < 60 /\ 0 <= s < 60 /\ 0 <= n < 1000000000 /\
  t mod DAY = ((h * 60 + m) * 60 + s) * 1000000000 + n.
Proof.
  unfold as_hms_nano, DAY. change (24 * 3600 * 1000000000) with 86400000000000. cbn [Z.mul Pos.mul].
  pose proof (Z.mod_pos_bound t 86400000000000). set (d := t mod 86400000000000) in *.
  change (3600 * 1000000000) with 3600000000000. change (60 * 1000000000) with 60000000000.
  Z.to_euclidean_division_equations. lia.
Qed.

(** What is shown of a time tells it apart from the other times of its day. *)
Lemma time_display_inj (t u : Z) : Time_display t = Time_display u -> t mod DAY = u mod DAY.
Proof.
  unfold Time_display. pose proof (as_hms_nano_spec t) as Ht. pose proof (as_hms_nano_spec u) as Hu.
  destruct (as_hms_nano t) as [[[h m] s] n], (as_hms_nano u) as [[[h' m'] s'] n'].
  destruct Ht as (H1 & H2 & H3 & H4 & ->), Hu as (G1 & G2 & G3 & G4 & ->). intros E.
  apply (pad_app_inj 2) in E as [-> E]; [|lia..]. apply app_inv_head in E.
  apply (pad_app_inj 2) in E as [-> E]; [|lia..]. apply app_inv_head in E.
  apply (pad_app_inj 2) in E as [-> E]; [|lia..]. apply app_inv_head in E.
  apply (pad_inj 9) in E as ->; [done|lia..].
Qed.

Example shown_examples :
  Time_display (86400 * 1000000000 * 3 + 3723 * 1000000000 + 5) = str "01:02:03.000000005" /\
  ChunkHeader_display (mkChunkHeader 1 0 DecryptedPnet true) = str "00:00:00.000000000 DecryptedPnet incoming" /\
  StreamFullId_display (mkStreamFullId 10 (Forward 3)) = str "stream_0000000a_forward_00000003" /\
  StatsV2DbKey_display (mkStatsV2DbKey 5 1200) = Ret (str "5 1200").
Proof. vm_compute. done. Qed.
