(* ===== verification/Tools.v ===== *)
(** The small programs of the repository: the check of the order of messages, the counter of
    system calls, the viewer of dumps, the splitter of gossip messages, the parser of yamux
    headers ([mina-recorder/src/bin/]) and the load generator ([tester/src/main.rs]). What they
    print is a list of lines. *)

From stdpp Require Import base list strings sorting.
From Stdlib Require Import ZArith Lia.
From S2P Require Import Prelude Types Text Yamux Coding BTree Meshsub Recorder Chunks Capnp Rocks Params DbCore Stats DbStats Shown.

(** * [ensure_monotonic.rs] *)

(** What is looked at of a message: its id, time (nanoseconds), connection and direction. *)
Record Seen : Type := mkSeen { sn_id : Z; sn_time : Z; sn_cn : Z; sn_incoming : bool }.

(** The loop over one page: the last message, the differences so far, and those of them that
    are within one direction of one connection, which are reported as errors. *)
Definition on_seen (acc : option Seen * list (Z * Z) * list Z) (m : Seen) : option Seen * list (Z * Z) * list Z :=
  let '(last, diffs, errors) := acc in
  match last with
  | None => (Some m, diffs, errors)
  | Some l =>
      if sn_time l - sn_time m <=? 0 then (Some m, diffs, errors)
      else (Some m, diffs ++ [(sn_id m, sn_time l - sn_time m)],
            if (sn_cn l =? sn_cn m) && Bool.eqb (sn_incoming l) (sn_incoming m) then errors ++ [sn_id m] else errors)
  end.

(** The loop over the responses: [None] is a status that is no success; each page is asked for
    with the number of messages so far as id. *)
Fixpoint pages (responses : list (option (list Seen))) (id : Z) (asked : list Z)
    (acc : option Seen * list (Z * Z) * list Z) : outcome (Z * list Z * (option Seen * list (Z * Z) * list Z)) :=
  match responses with
  | [] => OutOfFuel
  | None :: _ | Some [] :: _ => Ret (id, asked ++ [id], acc)
  | Some page :: responses => pages responses (id + blen page) (asked ++ [id]) (foldl on_seen acc page)
  end.

(** The counters by the logarithm of the difference, and the greatest difference. *)
Definition counters (diffs : list (Z * Z)) : list (Z * Z) :=
  foldl (fun m '(_, diff) =>
           let key := Z.log2 diff in bt_insert key (default 0 (bt_get key m) + 1) m) [] diffs.
Definition max_diff (diffs : list (Z * Z)) : Z := foldl (fun m '(_, d) => if m <? d then d else m) 0 diffs.

(** [println!("{a} are smaller {}", 1 << key + 1)]: the shift is of an [i32], so by 32 or more
    it overflows. *)
Definition shift_i32 (n : Z) : outcome Z := if n <? 32 then Ret (to_signed 32 (wrap 32 (Z.shiftl 1 n))) else Panic.

Fixpoint smaller_lines (l : list (Z * Z)) (a : Z) : outcome (list (Z * Z)) :=
  match l with
  | [] => Ret []
  | (key, counter) :: l =>
      let a := a + counter in
      bound ← shift_i32 (key + 1);
      lines ← smaller_lines l a;
      Ret ((a, bound) :: lines)
  end.

Definition ensure_monotonic (responses : list (option (list Seen)))
    : outcome (list (Z * Z) * list Z * list (Z * Z) * Z * Z) :=
  '(total, _, (_, diffs, errors)) ← pages responses 0 [] (None, [], []);
  lines ← smaller_lines (counters diffs) 0;
  Ret (diffs, errors, lines, total, max_diff diffs).

(** Neighbours in time order are skipped; the others are listed. *)
Fixpoint steps_back (l : list Seen) : list (Z * Z) :=
  match l with
  | a :: (b :: _) as l' => (if sn_time b <? sn_time a then [(sn_id b, sn_time a - sn_time b)] else []) ++ steps_back l'
  | _ => []
  end.

Lemma steps_back_cons (a b : Seen) (l : list Seen) :
  steps_back (a :: b :: l)
  = (if sn_time b <? sn_time a then [(sn_id b, sn_time a - sn_time b)] else []) ++ steps_back (b :: l).
Proof. done. Qed.

Lemma on_seen_steps (l : list Seen) : forall last diffs errors,
  (foldl on_seen (last, diffs, errors) l).1.2 = diffs ++ steps_back (option_list last ++ l).
Proof.
  induction l as [|m l IH]; intros last diffs errors; cbn [foldl].
  { rewrite app_nil_r. destruct last; cbn; by rewrite app_nil_r. }
  destruct last as [a|]; cbn [on_seen]; [|by rewrite IH].
  change (option_list (Some a) ++ m :: l) with (a :: m :: l). rewrite steps_back_cons. destruct (Z.leb_spec (sn_time a - sn_time m) 0).
  - rewrite IH. replace (sn_time m <? sn_time a) with false by (symmetry; apply Z.ltb_ge; lia). done.
  - rewrite IH. replace (sn_time m <? sn_time a) with true by (symmetry; apply Z.ltb_lt; lia).
    by rewrite <- app_assoc.
Qed.

(** The differences that are found are those of all messages in a row, wherever the pages end. *)
Lemma ensure_monotonic_diffs (ps : list (list Seen)) (rest : list (option (list Seen))) :
  Forall (fun p => p <> []) ps ->
  exists asked acc, pages ((Some <$> ps) ++ None :: rest) 0 [] (None, [], []) = Ret (blen (mjoin ps), asked, acc) /\
    acc.1.2 = steps_back (mjoin ps).
Proof.
  intros HN.
  assert (forall id asked acc, exists asked',
    pages ((Some <$> ps) ++ None :: rest) id asked acc = Ret (id + blen (mjoin ps), asked', foldl on_seen acc (mjoin ps))) as HP.
  { induction HN as [|p ps Hp _ IH]; intros id asked acc.
    - eexists. cbn. by rewrite Z.add_0_r.
    - destruct (IH (id + blen p) (asked ++ [id]) (foldl on_seen acc p)) as [asked' E].
      exists asked'. cbn [fmap list_fmap app pages]. destruct p; [done|]. cbn [fmap list_fmap app] in E. rewrite E.
      cbn [mjoin list_join]. rewrite foldl_app, blen_app. by rewrite Z.add_assoc. }
  destruct (HP 0 [] (None, [], [])) as [asked' E]. rewrite E. do 2 eexists. split; [reflexivity|].
  by rewrite (on_seen_steps _ None [] []).
Qed.

(** A difference of more than two seconds ends the program before the summary. *)
Example ensure_monotonic_overflow :
  ensure_monotonic [Some [mkSeen 0 5000000000 1 true; mkSeen 1 0 1 true]; None] = Panic.
Proof. reflexivity. Qed.

(** * [count_syscalls.rs] *)

(** [split_whitespace] on ASCII text. *)
Definition is_space (c : Z) : bool := (c =? 32) || ((9 <=? c) && (c <=? 13)).

Fixpoint words (word : bytes) (s : bytes) : list bytes :=
  match s with
  | [] => match word with [] => [] | _ => [word] end
  | c :: s => if is_space c then (match word with [] => [] | _ => [word] end) ++ words [] s else words (word ++ [c]) s
  end.
Definition split_whitespace (s : bytes) : list bytes := words [] s.

Definition in_alphabet (c : Z) : bool := ((97 <=? c) && (c <=? 122)) || (c =? 95).

(** One line: the name in front of the first parenthesis of the third word; an empty one is a
    panic. *)
Definition syscall_of (line : bytes) : outcome (option bytes) :=
  match split_whitespace line !! 2%nat with
  | None => Ret None
  | Some word =>
      match split_on 40 word with
      | [] => Ret None
      | name :: _ => match name with
                     | [] => Panic
                     | c :: _ => Ret (if in_alphabet c then Some name else None)
                     end
      end
  end.

#[local] Instance bytes_ord : Ord bytes := key_cmp.

Fixpoint count_lines (lines : list bytes) (m : list (bytes * Z)) : outcome (list (bytes * Z)) :=
  match lines with
  | [] => Ret m
  | line :: lines =>
      o ← syscall_of line;
      count_lines lines (match o with Some w => bt_insert w (default 0 (bt_get w m) + 1) m | None => m end)
  end.

(** Sorted by the counter, greatest first; equal ones stay in the order of their names. *)
Definition count_syscalls (lines : list bytes) : outcome (list (bytes * Z)) :=
  m ← count_lines lines []; Ret (sort_by (fun a b => b.2 <=? a.2) m).

Example count_syscalls_examples :
  count_syscalls [str "1 0.1 read(3)"; str "1 0.2 write(3)"; str "1 0.3 write(4)"; str "1 0.4 +++"; str "x"]
    = Ret [(str "write", 2); (str "read", 1)] /\
  count_syscalls [str "1 0.1 (unfinished"] = Panic.
Proof. by split. Qed.

(** * [mina-viewer.rs] *)

(** What is printed of the chunks of a dump: one line each, or, when glued, a header when the
    direction changes and then the data, until a chunk that begins with the header of a noise
    message of 32 bytes. *)
Definition view_plain (cs : list (ChunkHeader * bytes)) : bytes :=
  (cs ≫= fun c => ChunkHeader_display c.1 ++ str " " ++ hex_encode c.2 ++ [10]) ++ [10].

Fixpoint view_glued (cs : list (ChunkHeader * bytes)) (prev : option bool) : outcome bytes :=
  match cs with
  | [] => Ret [10]
  | (header, data) :: cs =>
      let fresh := match prev with None => true | Some b => negb (Bool.eqb b (ch_incoming header)) end in
      let text := (if fresh then (match prev with Some _ => [10] | None => [] end) ++ ChunkHeader_display header ++ str " "
                   else []) ++ hex_encode data in
      start ← slice_to 2 data;
      if decide (start = [0; 32]) then Ret (text ++ [10])
      else rest ← view_glued cs (Some (ch_incoming header)); Ret (text ++ rest)
  end.

Section viewer.
Context `{!Radiation}.

Definition mina_viewer (glue : bool) (file : bytes) : outcome bytes :=
  if glue then view_glued (parse_chunks file) None else Ret (view_plain (parse_chunks file)).

(** In glued mode a chunk of less than two bytes is a panic. *)
Lemma viewer_short_chunk (h : ChunkHeader) (data : bytes) cs prev :
  blen data < 2 -> view_glued ((h, data) :: cs) prev = Panic.
Proof.
  intros Hl. cbn [view_glued]. unfold slice_to. by rewrite (proj2 (Z.leb_gt 2 (blen data))).
Qed.

End viewer.

(** * [mina-convert-meshsub.rs] and [yamux-header.rs] *)

Section convert.
Context `{!GossipLib}.

(** [parse_protobuf_publish] *)
Definition parse_protobuf_publish (data : bytes) : option (list bytes) :=
  rpc ← rpc_decode_delimited data; Some (omap pm_data (pb_publish rpc)).

(** [s.trim_end_matches(".bin")]: all of them; [n] is fuel. *)
Fixpoint trim_end_bin (n : nat) (s : bytes) : bytes :=
  match n with
  | O => s
  | S n => if starts_with (rev (str ".bin")) (rev s) then trim_end_bin n (take (length s - 4) s) else s
  end.

(** The files that are written: their names and contents. *)
Definition convert_meshsub (arg : bytes) (file : bytes) : outcome (list (bytes * bytes)) :=
  match parse_protobuf_publish file with
  | None => Panic
  | Some msgs =>
      Ret (imap (fun n m => (trim_end_bin (length arg) arg ++ str "_" ++ show_radix 20 10 (Z.of_nat n) ++ str ".bin", m)) msgs)
  end.

End convert.

(** The header of twelve bytes in hexadecimal. *)
Definition yamux_header (arg : bytes) : outcome Header :=
  match hex_decode arg with
  | Some v => if blen v =? 12 then match try_from v with Ok h => Ret h | Err _ => Panic end else Panic
  | None => Panic
  end.

(** * The load generator *)

Definition WIDTH : nat := 16.
Definition SERIES : nat := 16.

(** One connection: sixteen writes of a prefix of the data, given the random numbers. *)
Definition tester_writes (rands : list Z) : list bytes :=
  (fun r => repeat 17 (Z.to_nat (4096 + r mod 61440))) <$> take 16 rands.

(** All connections, the closing one last. *)
Definition tester_connections (rands : list (list Z)) : list (list bytes) :=
  (tester_writes <$> take (WIDTH * SERIES) rands) ++ [[str "test-is-passed"]].

(** The recorder in test mode accepts the traffic of every connection but the closing one,
    however its writes are cut into chunks. *)
Lemma tester_traffic_passes (rands : list Z) (chunks : list bytes) :
  mjoin chunks = mjoin (tester_writes rands) -> Forall (fun c => tester_on_data c = Ret tt) chunks.
Proof.
  intros E.
  assert (Forall (fun v => v = 17) (mjoin chunks)) as HA.
  { rewrite E. unfold tester_writes. clear E. induction (take 16 rands) as [|r l IH]; [constructor|].
    cbn [fmap list_fmap mjoin list_join]. apply Forall_app. split; [|exact IH].
    apply Forall_forall. intros x Hx. apply list_elem_of_In, repeat_spec in Hx. done. }
  clear E. induction chunks as [|c chunks IH]; [constructor|]. cbn [mjoin list_join] in HA.
  apply Forall_app in HA as [Hc HA]. constructor; [|by apply IH]. unfold tester_on_data.
  rewrite decide_False.
  - replace (forallb (fun v => v =? 17) c) with true; [done|]. symmetry. apply forallb_forall.
    intros x Hx%list_elem_of_In. rewrite Forall_forall in Hc. by rewrite (Hc x Hx).
  - intros ->. apply Forall_cons in Hc as [Hc _]. vm_compute in Hc. done.
Qed.
