(* ===== verification/UnitTests.v ===== *)
(** The tests of the repository, run on the model. Each test is translated as it is written:
    a failed assertion is [Panic], and the example after it says that the test passes.

    The tests of [connection/multistream_select.rs], [connection/mplex.rs] and [connection/yamux.rs] run on the
    data of the source. Those of [stats_test.rs] and [database/core.rs] read recorded
    blocks with a library that is a parameter here; they run on blocks of a toy encoding
    with the heights and hashes the tests rely on. *)

From stdpp Require Import base list gmap strings.
From Stdlib Require Import ZArith Lia.
From S2P Require Import Prelude Types Handle Varint Yamux Mplex Multistream Text Coding Rocks DbCore Facade.
From S2P Require Import Meshsub Capnp Stats DbStats DbStatsSpec.

(** [assert!] *)
Definition assert (b : bool) : outcome unit := if b then Ret tt else Panic.

(** [hex::decode(..).expect("valid constant")], for constants that are valid. *)
Definition hex (s : string) : bytes := default [] (hex_decode (str s)).

(** * Negotiation *)

Module MultistreamTests.

#[local] Existing Instance leb128_varint.

Definition nothing_agreed (o : option (bytes * bytes)) : bool := match o with None => true | Some _ => false end.
Definition something_agreed (o : option (bytes * bytes)) : bool := negb (nothing_agreed o).
Definition payload_is (p : bytes) (o : option (bytes * bytes)) : bool :=
  match o with Some (_, payload) => bool_decide (payload = p) | None => false end.

(** [data.drain(..chunk)] for every chunk. *)
Fixpoint drain (chunks : list Z) (data : bytes) : list bytes :=
  match chunks with
  | [] => []
  | n :: chunks => take (Z.to_nat n) data :: drain chunks (drop (Z.to_nat n) data)
  end.

(** [state.hl.poll] for every piece, each followed by the assertion. *)
Fixpoint polls (incoming : bool) (pieces : list bytes) (check : option (bytes * bytes) -> bool) (st : HlState)
    : outcome HlState :=
  match pieces with
  | [] => Ret st
  | data :: pieces =>
      '(st, o) ← hl_poll incoming data st;
      _ ← assert (check (agreed o));
      polls incoming pieces check st
  end.

Fixpoint run_steps (steps : list (bool * list bytes * (option (bytes * bytes) -> bool))) (st : HlState)
    : outcome unit :=
  match steps with
  | [] => Ret tt
  | (incoming, pieces, check) :: steps => st ← polls incoming pieces check st; run_steps steps st
  end.

(** [State::<()>::from(StreamId::Handshake)] *)
Definition run_test (steps : list (bool * list bytes * (option (bytes * bytes) -> bool))) : outcome unit :=
  run_steps steps (hl (multistream_from_stream_id (I := unit) SHandshake)).

Definition simple_test : outcome unit := run_test
  [(false, [hex "132f6d756c746973747265616d2f312e302e300a1d2f6c69627032702f73696d756c74616e656f75732d636f6e6e6563740a072f6e6f6973650a"], nothing_agreed);
   (true, drain [1; 19; 1; 3; 1; 7] (hex "132f6d756c746973747265616d2f312e302e300a036e610a072f6e6f6973650a"), nothing_agreed);
   (false, [hex "00205d406d48fe6549c8bd67afd93c87295beae0c11efac62742b5ef28c567b5d36b"], something_agreed)].

Definition simple_glue_payload_test : outcome unit := run_test
  [(false, [hex "132f6d756c746973747265616d2f312e302e300a1d2f6c69627032702f73696d756c74616e656f75732d636f6e6e6563740a072f6e6f6973650a"], nothing_agreed);
   (true, [(hex "132f6d756c746973747265616d2f312e302e300a036e610a072f6e6f6973650a" ++ str "payload")], nothing_agreed);
   (true, [str "_additional"], (fun o => something_agreed o && payload_is (str "payload_additional") o))].

Definition simple_early_payload_test : outcome unit := run_test
  [(false, [hex "132f6d756c746973747265616d2f312e302e300a"], nothing_agreed);
   (true, [hex "132f6d756c746973747265616d2f312e302e300a10636f64612f727063732f302e302e310a"], nothing_agreed);
   (true, [hex "070000000000000002fd5250430001"], something_agreed);
   (false, [hex "10636f64612f727063732f302e302e310a"], nothing_agreed);
   (false, [hex "070000000000000002fd5250430001"], something_agreed)].

Definition simultaneous_connect_test : outcome unit := run_test
  [(false, [hex "132f6d756c746973747265616d2f312e302e300a1d2f6c69627032702f73696d756c74616e656f75732d636f6e6e6563740a072f6e6f6973650a"], nothing_agreed);
   (true, [hex "132f6d756c746973747265616d2f312e302e300a1d2f6c69627032702f73696d756c74616e656f75732d636f6e6e6563740a072f6e6f6973650a1c73656c6563743a31383333363733363237323438313935323033380a"], nothing_agreed);
   (false, [hex "1c73656c6563743a31343838333538303531393436383433383239370a0a726573706f6e6465720a"], nothing_agreed);
   (true, [hex "0a696e69746961746f720a072f6e6f6973650a"], nothing_agreed);
   (false, [hex "072f6e6f6973650a"], nothing_agreed);
   (true, [hex "0020c29c4aa9bc861ac3163bfc562ab3f1ca984440f50ca7944ab1fcb40b398bac34"], something_agreed)].

Definition simultaneous_connect_with_accumulator_test : outcome unit := run_test
  [(false, [hex "132f6d756c746973747265616d2f312e302e300a1d2f6c69627032702f73696d756c74616e656f75732d636f6e6e6563740a072f6e6f6973650a"], nothing_agreed);
   (true, drain [1; 19; 1; 29; 1; 7; 1; 28] (hex "132f6d756c746973747265616d2f312e302e300a1d2f6c69627032702f73696d756c74616e656f75732d636f6e6e6563740a072f6e6f6973650a1c73656c6563743a31383333363733363237323438313935323033380a"), nothing_agreed);
   (false, drain [29; 11] (hex "1c73656c6563743a31343838333538303531393436383433383239370a0a726573706f6e6465720a"), nothing_agreed);
   (true, drain [1; 10; 1; 7] (hex "0a696e69746961746f720a072f6e6f6973650a"), nothing_agreed);
   (false, [hex "072f6e6f6973650a"], nothing_agreed);
   (true, [hex "0020c29c4aa9bc861ac3163bfc562ab3f1ca984440f50ca7944ab1fcb40b398bac34"], something_agreed)].

Definition simultaneous_connect_misordered_noise_test : outcome unit := run_test
  [(false, drain [1; 19; 1; 29] (hex "132f6d756c746973747265616d2f312e302e300a1d2f6c69627032702f73696d756c74616e656f75732d636f6e6e6563740a"), nothing_agreed);
   (true, [hex "132f6d756c746973747265616d2f312e302e300a1d2f6c69627032702f73696d756c74616e656f75732d636f6e6e6563740a072f6e6f6973650a"], nothing_agreed);
   (false, [hex "07"], nothing_agreed);
   (true, [hex "132f6d756c746973747265616d2f312e302e300a1d2f6c69627032702f73696d756c74616e656f75732d636f6e6e6563740a072f6e6f6973650a"], nothing_agreed);
   (false, drain [7; 1; 28] (hex "2f6e6f6973650a1c73656c6563743a31343938323336373438313134313138383431310a"), nothing_agreed);
   (true, [hex "0a726573706f6e6465720a"], nothing_agreed);
   (false, drain [1; 10; 1; 7] (hex "0a696e69746961746f720a072f6e6f6973650a"), nothing_agreed);
   (true, [hex "072f6e6f6973650a"], nothing_agreed);
   (false, [hex "002052096fcedd899f60aa1b2893bcfb86b42b8c33c72b39320904d31220a1474e41"], something_agreed);
   (true, [hex "00c8d11e149aa99fd7174cca7738f0bd4ccf0e3b526061b1f7b36e7850bc9cdec4310081d0e07edacefc409660af40a31e043ec59ba1fe009b4c6ca0219b7882ccb55656a4f8e44764f62f627c57aa974e05817e7e1e48983c0ceafecf555cac9ed43f15755d820ec02255855fdabfbac20e572abe457f783ae66914c283794c4df1f4a6f037e38c2044f53fcda4ea414b3f088be82d16910dfa49049f0f257457f7137bb203aed25c2a4f2564675e64f96b9b27305b4ace8ddebf48dc3d0158590e96ebc866034e88fb"], something_agreed)].

(** The chunks the replay test reads of the recorded connection. *)
Definition connection000002b1 : bytes :=
  hex "00000001000000006335571a1e60d526ffff1300000013000000006335571a1e61b24bffff2f6d756c746973747265616d2f312e302e300a0000003a000000006335571a1e62" ++
  hex "1430ff00132f6d756c746973747265616d2f312e302e300a1d2f6c69627032702f73696d756c74616e656f75732d636f6e6e6563740a072f6e6f6973650a0000000100000000" ++
  hex "6335571a1e6244e1ffff1d0000001d000000006335571a1e64a458ffff2f6c69627032702f73696d756c74616e656f75732d636f6e6e6563740a0000001d000000006335571a" ++
  hex "1e698f94ff001c73656c6563743a31323330333230303435333837303831343334370a00000001000000006335571a1e6a7b99ffff0700000007000000006335571a1e7346be" ++
  hex "ffff2f6e6f6973650a00000001000000006335571a1e742541ffff1c0000001c000000006335571a1e74a6cfffff73656c6563743a3137313732333733383331303137373631" ++
  hex "3130320a00000001000000006335571a1e7577dcffff0a0000000a000000006335571a1e7c0669ffff696e69746961746f720a0000000b000000006335571a1e804930ff000a" ++
  hex "726573706f6e6465720a00000001000000006335571a1e869460ffff0700000007000000006335571a1e8707b0ffff2f6e6f6973650a00000008000000006335571a1e87a382" ++
  hex "ff00072f6e6f6973650a00000022000000006335571a1e977b9fffff0020837102978b9373333079aec807c907f4c55bec9c0fba89ee0cd04a617eee8836000000ca00000000" ++
  hex "6335571a1ea2bc59ff0000c80639de7c0addec38607714a3e94647d45220a0889fdf1857609229b38f8aa302794580b88a98021246b487e55421f33224d2bc6d66111c9c0d49" ++
  hex "ea0226c55c29272d0faa26680e6ad18508d2d5bed40660e91aa1a7779a5f2408ed1b6d0e5164bd5c6bfd02498c332ac71201a70c626a39fd36db0b8cb55929ac35cb150e3841" ++
  hex "a73383437f2ab872a4ae00ee2ade5d9f57b4bba0a118e219923cc9a78a4531486d99267aa40025b5b0b850010e9c8e4d8c38019df1aa7ff8c2e76ab32785e88f4f34f5f34ca0" ++
  hex "86fe000000e3000000006335571a1eb28210ffff00a80dcca4d50ad8af5811e91ee68359960e0e49e3c9763444c9fa56a96315c6502f8693842b5d2ebf5a6fe4071895d6254e" ++
  hex "fc2047bb51934d4465d5b05a99732d0b8d087ed2473434f562d44d9d72cd14d7e755411ba3a59d54e6081a94204d2deaf42803a21da7c82d25ec467fbf5b3a14f9cb3ce431a8" ++
  hex "3e7bafc83ca5aa784782c1a20cf94b4e9c5e309906a3f702d1deb76f77019e9f2fffa0f5398ec8bf98afdcf1ca4f17b574460037efefdab9e74ef7b996e963ccd212b1df1a34" ++
  hex "b4950acd0deffc46b2944701bdfbb26c518dce08b72a9e34f37794f41cc827c6ca95dddf56".

#[local] Existing Instance demo_radiation.

(** The loop over the first 19 chunks. *)
Fixpoint replay_steps (rest : bytes) (checks : list (option (bytes * bytes) -> bool)) (st : HlState) : outcome unit :=
  match checks with
  | [] => Ret tt
  | check :: checks =>
      match absorb_ext (A := ChunkHeader) (take 18 rest) with
      | None => Panic
      | Some header =>
          let n := Z.to_nat (ch_size header) in
          '(st, o) ← hl_poll (ch_incoming header) (take n (drop 18 rest)) st;
          _ ← assert (check (agreed o));
          replay_steps (drop n (drop 18 rest)) checks st
      end
  end.

Definition agreed_len (n : Z) (o : option (bytes * bytes)) : bool :=
  match o with Some (_, payload) => blen payload =? n | None => false end.

Definition simultaneous_connect_misordered_noise_replay_test : outcome unit :=
  replay_steps connection000002b1
    (repeat nothing_agreed 16 ++ [agreed_len 34; agreed_len 202; agreed_len 227])
    (hl (multistream_from_stream_id (I := unit) SHandshake)).

Example multistream_tests_pass :
  simple_test = Ret tt /\ simple_glue_payload_test = Ret tt /\ simple_early_payload_test = Ret tt /\
  simultaneous_connect_test = Ret tt /\ simultaneous_connect_with_accumulator_test = Ret tt /\
  simultaneous_connect_misordered_noise_replay_test = Ret tt /\
  simultaneous_connect_misordered_noise_test = Ret tt.
Proof. vm_compute. done. Qed.

End MultistreamTests.

(** * mplex *)

Module MplexTests.

#[local] Existing Instance leb128_varint.
#[local] Instance stream_id_inner : FromStreamId StreamId := fun sid => sid.

(** [{:?}] of a string of ASCII characters. *)
Definition debug_char (c : Z) : bytes :=
  if c =? 34 then [92; 34] else if c =? 92 then [92; 92]
  else if c =? 9 then [92; 116] else if c =? 13 then [92; 114] else if c =? 10 then [92; 110]
  else if c =? 0 then [92; 48]
  else if (c <? 32) || (c =? 127) then [92; 117; 123] ++ show_radix 2 16 c ++ [125]
  else [c].
Definition debug_str (s : bytes) : bytes := [34] ++ (s ≫= debug_char) ++ [34].

Definition show_bool (b : bool) : bytes := if b then str "true" else str "false".
Definition show_u64 (n : Z) : bytes := show_radix 20 10 n.

(** [Display] of [Output] *)
Definition Output_display (o : Mplex.Output) : bytes :=
  StreamId_display o.1 ++ str "::" ++
  match o.2 with
  | ONew header name already_exist =>
      str "new(" ++ show_u64 header ++ str ", " ++ debug_str name ++ str ", " ++ show_bool already_exist ++ str ")"
  | OMsg data bad_stream => str "msg(" ++ hex_encode data ++ str ", " ++ show_bool bad_stream ++ str ")"
  | OClose header None => str "close(" ++ show_u64 header ++ str ", 0)"
  | OClose header (Some OnlyOutgoing) => str "close(" ++ show_u64 header ++ str ", 4)"
  | OClose header (Some OnlyIncoming) => str "close(" ++ show_u64 header ++ str ", 5)"
  | OClose header (Some (DoesntExist true)) => str "close(" ++ show_u64 header ++ str ", 6)"
  | OClose header (Some (DoesntExist false)) => str "close(" ++ show_u64 header ++ str ", 7)"
  | OReset header => str "reset(" ++ show_u64 header ++ str ")"
  end.

(** [Display] of [CloseError] *)
Definition CloseError_display (e : CloseError) : bytes :=
  match e with
  | OnlyOutgoing => str "closing incoming part of stream where only outgoing part remains"
  | OnlyIncoming => str "closing outgoing part of stream where only incoming part remains"
  | DoesntExist incoming =>
      str "closing " ++ (if incoming then str "incoming" else str "outgoing") ++ str " part of stream that doesn't exist"
  end.

(** [generic]: what is compared ends with the shorter of the two sequences. *)
Fixpoint generic_from (cases : list (bool * bytes * list bytes)) (st : Mplex.State StreamId) : outcome unit :=
  match cases with
  | [] => Ret tt
  | (incoming, data, expected) :: cases =>
      '(st, actual) ← Mplex.process incoming st data;
      _ ← assert (forallb (fun ae => bool_decide (Output_display ae.1 = ae.2)) (zip actual expected));
      generic_from cases st
  end.

Definition generic (cases : list (bool * bytes * list bytes)) : outcome unit :=
  generic_from cases (Mplex.mkState [] [] ∅).

(** [forward_0000000i::new(header, "name", exists)] *)
Definition new_text (sid : string) (header : string) (name : string) (exists_ : string) : bytes :=
  str sid ++ str "::new(" ++ str header ++ str ", " ++ [34] ++ str name ++ [34] ++ str ", " ++ str exists_ ++ str ")".

Definition header_new : outcome unit :=
  generic [(true, hex "0000", [new_text "forward_00000000" "0" "" "false"])].
Definition header_new_1 : outcome unit :=
  generic [(true, hex "0800", [new_text "forward_00000001" "8" "" "false"])].
Definition header_new_named : outcome unit :=
  generic [(true, hex "1009736f6d655f6e616d65", [new_text "forward_00000002" "16" "some_name" "false"])].
Definition header_new_repeat : outcome unit :=
  generic [(true, hex "18001800", [new_text "forward_00000003" "24" "" "false";
                                   new_text "forward_00000003" "24" "" "true"])].
Definition msg : outcome unit :=
  generic [(true, hex "00000203abcdef", [new_text "forward_00000000" "0" "" "false";
                                         str "forward_00000000::msg(abcdef, false)"])].
Definition msg_opposite : outcome unit :=
  generic [(true, hex "000002", [new_text "forward_00000000" "0" "" "false"]);
           (false, hex "0103", [str "forward_00000000::msg(abcdef, false)"])].

Example mplex_tests_pass :
  header_new = Ret tt /\ header_new_1 = Ret tt /\ header_new_named = Ret tt /\ header_new_repeat = Ret tt /\
  msg = Ret tt /\ msg_opposite = Ret tt.
Proof. vm_compute. done. Qed.

(** The second case of [msg_opposite] gives nothing, so nothing is compared there: it passes
    with any expectation. *)
Example msg_opposite_vacuous (expected : list bytes) :
  generic [(true, hex "000002", [new_text "forward_00000000" "0" "" "false"]); (false, hex "0103", expected)] = Ret tt.
Proof. vm_compute. done. Qed.

End MplexTests.

(** * Gossip *)

Module GossipTests.

#[local] Existing Instances demo_radiation demo_derive demo_stable demo_gossip mem_rocks.
#[local] Existing Instance demo_blake2.

(** ** The helper's gossip ([duplicates_removed]) *)

Definition SEC : Z := 1000000000.

Definition received (host : string) (m h : bytes) : CapnpEvent := EvReceivedGossip [] (str host) 1 m h.

Definition node (port : Z) : SocketAddr := mkSocketAddr (V4 [0; 0; 0; 0]) port.

Definition put_at (time : Z) (address : SocketAddr) (events : list CapnpEvent) (db : DbCore MemStore)
    : outcome (DbCore MemStore) :=
  match core_put_capnp (mkCapnpKey 5 time) (mkCapnpMetadata time address events) db with
  | (db, Ok _) => Ret db
  | (_, Err _) => Panic
  end.

Definition duplicates_removed (time : Z) (b0 b1 h0 h1 : bytes) : outcome unit :=
  db ← put_at time (node 0) [received "0.1.2.3" b0 h0] (mkCore ∅ (fun _ => ∅));
  let time := time + 1 * SEC in
  db ← put_at time (node 0) [received "0.1.2.4" b0 h0; received "0.1.2.5" b1 h1; received "0.1.2.6" b1 h1] db;
  let time := time + 2 * SEC in
  db ← put_at time (node 1) [received "0.1.2.4" b0 h0] db;
  let time := time + 3 * SEC in
  db ← put_at time (node 0) [received "0.1.2.4" b0 h0] db;
  let lengths all := (fun row => length (row_events row)) <$> fetch_capnp 5 all db in
  _ ← assert (bool_decide (take 4 (lengths true) = [1; 3; 1; 1]%nat));
  assert (bool_decide (lengths false = [1; 1; 1]%nat)).

Example duplicates_removed_passes :
  duplicates_removed (1000 * SEC) [1; 5] [2; 5] (repeat 1 32) (repeat 2 32) = Ret tt.
Proof. vm_compute. done. Qed.

End GossipTests.

(** * yamux *)

Module YamuxTests.

#[local] Instance stream_id_inner : FromStreamId StreamId := fun sid => sid.

Definition trivial_acc : outcome unit :=
  st ← from_name (DynamicProtocol := Yamux.yamux_from_name (I := StreamId)) (str "/coda/yamux/1.0.0") SHandshake;
  let data := hex "000000000000001100000010ffffffff" in
  '(st, r) ← Yamux.process (Yamux.process_fuel true st data) true st data;
  _ ← assert (match r with [] => true | _ => false end);
  let data := hex "ffffffffffffffffffffffff" in
  '(_, r) ← Yamux.process (Yamux.process_fuel true st data) true st data;
  match r with
  | Ok (header, payload) :: _ =>
      _ ← assert (Yamux.payload_length header =? 16);
      assert (bool_decide (payload = repeat 255 16))
  | _ => Panic
  end.

Example yamux_test_passes : trivial_acc = Ret tt.
Proof. vm_compute. done. Qed.

End YamuxTests.

(** ** Statistics ([stats_test.rs]) *)

Module StatsTests.

#[local] Existing Instances demo_radiation demo_derive demo_stable mem_rocks.

(** A message is one published block: its number, seven zero bytes, the height in two bytes
    and the slot; hashes have 32 bytes. *)
#[local] Instance toy_gossip : GossipLib := {|
  rpc_decode_delimited m := Some (mkPbRpc [] [mkPbMessage (Some [1]) (Some m) None (str "t") None None] None);
  gossip_v2_read body :=
    match body with [hi; lo; slot] => Some (NewState (mkBlock (256 * hi + lo) slot (mkDiff [] []) None)) | _ => None end;
  gossip_v1_read _ := None;
  peer_id_from_bytes b := Some b;
|}.
#[local] Instance toy_blake2 : Blake2 :=
  let h data := take 32 (data ++ repeat 0 32) in {| blake2b := h; blake2b_mac _ := h |}.

Definition block_file (n height : Z) : bytes := [n; 0; 0; 0; 0; 0; 0; 0; height / 256; height mod 256; 7].

(** Blocks 2 and 3 have the same height, the next block the next one. *)
Definition FILES (i : Z) : bytes :=
  block_file i (if i <? 3 then 637 + i else 636 + i).

Definition peer (port : Z) : SocketAddr := mkSocketAddr (V4 [1; 1; 1; 1]) port.

Abbreviation DbFacade := (Facade MemStore).

Definition db_new : DbFacade := mkFacade 0 0 0 (mkCore ∅ (fun _ => ∅)).

Definition unwrap {A B} (r : A * DbResult B) : outcome A := match r with (a, Ok _) => Ret a | (_, Err _) => Panic end.

(** [StatsState::observe_w] *)
Definition observe_w (message_id : Z) (m : bytes) (incoming : bool) (time : Z) (peer : SocketAddr)
    (s : StatsState * DbFacade) : outcome (StatsState * DbFacade) :=
  let node_address := mkSocketAddr (V4 [0; 0; 0; 0]) 0 in
  '(st, _, _, _) ← observe (mkObs message_id incoming time time peer node_address) m s.1;
  db ← unwrap (facade_stats (height (block_stat st)) node_address (block_stat st) s.2);
  db ← match tx_stat st with
       | Some ts => unwrap (facade_stats_tx (height (block_stat st)) ts db)
       | None => Ret db
       end;
  Ret (st, db).

Definition SEC : Z := 1000000000.
Definition now : Z := 1000000 * SEC.
Definition secs (d : Z) : Z := now + d * SEC.

(** Observations in a row: message id, file, direction, seconds, port. *)
Fixpoint observe_all_w (l : list (Z * Z * bool * Z * Z)) (s : StatsState * DbFacade)
    : outcome (StatsState * DbFacade) :=
  match l with
  | [] => Ret s
  | (id, i, incoming, t, port) :: l => s ← observe_w id (FILES i) incoming (secs t) (peer port) s; observe_all_w l s
  end.

(** [generic]: the database after the observations. *)
Definition generic (l : list (Z * Z * bool * Z * Z)) (f : DbCore MemStore -> outcome unit) : outcome unit :=
  '(_, db) ← observe_all_w l (stats_state_default, db_new); f (core db).

Definition latencies_are (l : list (option Z)) (stat : BlockStat) : outcome unit :=
  assert (bool_decide (se_latency <$> Stats.events stat = (fun x => (fun s => s * SEC) <$> x) <$> l)).

(** [fetch_last_stat().unwrap()] *)
Definition last_stat (db : DbCore MemStore) : outcome (StatsDbKey * BlockStat) :=
  match fetch_last_stat db with Some x => Ret x | None => Panic end.

Definition last_latencies (l : list (option Z)) (db : DbCore MemStore) : outcome unit :=
  '(_, stat) ← last_stat db; latencies_are l stat.

Definition check_latency_simple : outcome unit :=
  generic [(0, 0, true, 1, 100); (0, 0, false, 2, 100)] (last_latencies [None; Some 1]).

Definition check_latency_outgoing_simple : outcome unit :=
  generic [(0, 0, false, 1, 100); (1, 0, false, 2, 100)] (last_latencies [None; Some 1]).

Definition mixed (dir : bool) : list (Z * Z * bool * Z * Z) :=
  [(0, 2, dir, 0, 1000); (0, 2, false, 1, 1001); (0, 3, dir, 2, 1002); (0, 2, false, 3, 1003); (0, 3, false, 4, 1004)].
Definition mixed_latencies : list (option Z) := [None; Some 1; None; Some 3; Some 2].

Definition check_mixed_hashes : outcome unit := generic (mixed true) (last_latencies mixed_latencies).

Definition check_multiple : outcome unit :=
  generic
    (((fun i => (0, i, true, i, 1000 + i)) <$> seqZ 0 7) ++
     ((fun i => (0, 7, 3 <? i mod 7, 100 + i, 2000 + i)) <$> seqZ 0 100))
    (last_latencies (None :: (Some <$> seqZ 1 99))).

Definition check_mixed_hashes_outgoing : outcome unit := generic (mixed false) (last_latencies mixed_latencies).

Definition check_cleanup : outcome unit :=
  generic (mixed true ++ [(0, 4, true, 10, 1010)]) (fun db =>
    '(id, stat) ← last_stat db;
    _ ← latencies_are [None] stat;
    match fetch_stats (sk_height id - 1) db with
    | Some (_, stat) => latencies_are mixed_latencies stat
    | None => Panic
    end).

Definition check_cleanup_obsolete : outcome unit :=
  generic
    (mixed true ++ [(0, 4, true, 10, 1010); (0, 3, true, 11, 1011); (0, 3, true, 12, 1012); (0, 3, true, 13, 1013);
                    (0, 3, true, 14, 1014)])
    (last_latencies [None]).

(** The statistics of the second kind: message id, file and time. *)
Fixpoint update_all (l : list (Z * Z * Z)) (w : World MemStore) : outcome (World MemStore) :=
  match l with
  | [] => Ret w
  | (id, i, t) :: l =>
      '(w, r) ← update_block_stats (mkObs id true t t (peer 1) (peer 2)) (FILES i) w;
      w ← unwrap (w, r);
      update_all l w
  end.

Definition world_new : World MemStore :=
  mkWorld db_new (mkGroup (peer 1) 0) false 0.

Definition generic_v2 (l : list (Z * Z * Z)) (f : Z * list StatEvent -> outcome unit) : outcome unit :=
  w ← update_all l world_new;
  match fetch_last_stat_block_v2 (core (w_facade w)) with Some x => f x | None => Panic end.

Definition check_block_v2_latest : outcome unit :=
  generic_v2 [(0, 0, now); (1, 1, now); (0, 0, now)]
    (fun '(height, events) => assert ((height =? 638) && (length events =? 1)%nat)).

(** [prev_time <= event.better_time] along the list. *)
Fixpoint in_order (prev : option Z) (l : list StatEvent) : bool :=
  match l with
  | [] => true
  | e :: l => match prev with Some p => p <=? se_better_time e | None => true end && in_order (Some (se_better_time e)) l
  end.

Definition v2_updates (ds : list Z) : list (Z * Z * Z) := imap (fun i d => (Z.of_nat i, 0, now + d)) ds.

Definition check_order_block_v2 : outcome unit :=
  generic_v2 (v2_updates [0; -1; 2; -3]) (fun '(_, events) => assert (in_order None events)).

(** The threads of the test may write in any order. *)
Definition check_mt_order_block_v2 (schedule : list (Z * Z * Z)) : outcome unit :=
  generic_v2 schedule (fun '(_, events) => assert (in_order None events)).

Example stats_tests_pass :
  check_latency_simple = Ret tt /\ check_latency_outgoing_simple = Ret tt /\ check_mixed_hashes = Ret tt /\
  check_multiple = Ret tt /\ check_mixed_hashes_outgoing = Ret tt /\ check_cleanup = Ret tt /\
  check_cleanup_obsolete = Ret tt /\ check_block_v2_latest = Ret tt /\ check_order_block_v2 = Ret tt /\
  List.map check_mt_order_block_v2 (permutations (v2_updates [0; -1; 2; -3])) = repeat (Ret tt) 24.
Proof. vm_compute. done. Qed.

End StatsTests.
