(* ===== verification/Tracing.v ===== *)
(** Tracing of the watched processes: the task that suspends them ([ptrace.rs]) and the
    recorder of the output of [strace] ([strace.rs]).

    The task is two machines. [Task] turns calls into commands; a thread writes each
    command as an [i32] to the standard input of a [cat] process, and the tracer, which
    traces that process too, reads the commands from its memory when its [read] returns.
    The crate [pete], through which the tracer sees the processes, is a class
    parameter. *)

From stdpp Require Import base list gmap sets sorting relations.
From Stdlib Require Import ZArith Lia.
From S2P Require Import Prelude Types Text Coding Params Rocks DbCore DbIndex DbSpec.
From S2P Require Import Facade Meshsub Capnp BTree Stats DbStats DbRows DbStatsSpec.

(** * Commands *)

Inductive Act : Type :=
| Terminate
| Suspend
| Resume
| Attach (pid : Z).

#[export] Instance Act_eq_dec : EqDecision Act.
Proof. solve_decision. Defined.

Definition act_from_i32 (v : Z) : Act :=
  if v =? 0 then Terminate else if v =? -1 then Suspend else if v =? 1 then Resume else Attach v.

Definition act_into_i32 (a : Act) : Z :=
  match a with Terminate => 0 | Suspend => -1 | Resume => 1 | Attach pid => pid end.

(** [to_ne_bytes] and [from_ne_bytes] of an [i32] on the little-endian machines the
    probes are built for. *)
Definition i32_to_ne_bytes (v : Z) : bytes := le_encode 4 (wrap 32 v).
Definition i32_from_ne_bytes (l : bytes) : Z := to_signed 32 (le_decode l).

(** * The task *)

(** [sender] holds what was sent and not yet received; it is [None] when the receiver
    is gone, and then a command is lost without a word ([unwrap_or_default]). *)
Record Task : Type := mkTask {
  running_state : bool;
  has_task : bool;
  sender : option (list Act);
  tracees : gset Z;
}.

Definition task_new : Task := mkTask true true (Some []) ∅.

Definition send_act (a : Act) (t : Task) : Task :=
  mkTask (running_state t) (has_task t) ((fun q => q ++ [a]) <$> sender t) (tracees t).

(** The argument is a [u32] that is cast to [i32]. *)
Definition task_attach (pid : Z) (t : Task) : Task :=
  let pid := to_signed 32 pid in
  if decide (pid ∈ tracees t) then t
  else send_act (Attach pid) (mkTask (running_state t) (has_task t) (sender t) ({[pid]} ∪ tracees t)).

Definition set_running (running : bool) (t : Task) : Task :=
  if Bool.eqb (running_state t) running then t
  else let t := send_act (if running then Resume else Suspend) t in
       mkTask running (has_task t) (sender t) (tracees t).

(** [join], given what the thread of the tracer ends with ([None] if it panicked), and the
    [Drop] of the value that [join] consumes. *)
Definition task_join (ended : option (result unit unit)) (t : Task) : outcome (Task * result unit unit) :=
  let t := send_act Terminate t in
  if has_task t then
    match ended with
    | Some r => Ret (mkTask (running_state t) false (sender t) (tracees t), r)
    | None => Panic
    end
  else Ret (t, Ok tt).

Definition task_drop (t : Task) : outcome unit := if has_task t then Panic else Ret tt.

(** The thread that writes to the pipe: every command up to the first [Terminate]. *)
Fixpoint channel_thread (received : list Act) : bytes :=
  match received with
  | [] => []
  | a :: received =>
      i32_to_ne_bytes (act_into_i32 a) ++
      (if decide (a = Terminate) then [] else channel_thread received)
  end.

(** * The tracer *)

(** [pete::Stop]; the other stops are not told apart. *)
Inductive Stop : Type :=
| SyscallEnter
| SyscallExit
| SignalDelivery (signal : Z)
| Exiting (exit_code : Z)
| OtherStop.

Record Tracee : Type := mkTracee { tr_pid : Z; tr_stop : Stop }.
Record Registers : Type := mkRegisters { orig_rax : Z; rax : Z; rdi : Z; rsi : Z }.

Definition SIGTRAP : Z := 5.

(** What is used of [pete]; [None] or [false] is an error. [stopped] is the set of the
    processes that wait for a restart. *)
Class Pete (T : Type) : Type := {
  wait : T -> T * option (option Tracee);
  registers : Tracee -> T -> option Registers;
  read_memory : Tracee -> Z -> Z -> T -> option bytes;
  restart : Tracee -> T -> T * bool;
  attach : Z -> T -> T * bool;
  stopped : T -> gset Z;
}.

(** A stop is reported once, of a process that is not stopped already. *)
Class PeteLaws (T : Type) `{!Pete T} : Prop := {
  wait_stops : forall (t t' : T) tr, wait t = (t', Some (Some tr)) ->
    tr_pid tr ∉ stopped t /\ stopped t' = {[tr_pid tr]} ∪ stopped t;
  restart_runs : forall (t t' : T) tr, restart tr t = (t', true) -> stopped t' = stopped t ∖ {[tr_pid tr]};
  attach_keeps : forall (t t' : T) pid, attach pid t = (t', true) -> stopped t' = stopped t;
}.

(** [bytes.chunks(4)] *)
Fixpoint chunks4 (l : bytes) : list bytes :=
  match l with
  | a :: b :: c :: d :: l => [a; b; c; d] :: chunks4 l
  | [] => []
  | l => [l]
  end.

(** The commands of one [read] of [cat]: a piece that is not whole is skipped. *)
Definition read_acts (l : bytes) : list Act :=
  (fun c => act_from_i32 (i32_from_ne_bytes c)) <$> List.filter (fun c => blen c =? 4) (chunks4 l).

(** What a step of the main loop ends with: the next round, or the loop is left, with an
    error or by the command. *)
Inductive Flow (A : Type) : Type :=
| Continue (a : A)
| Break
| Failed.
Arguments Continue {A} a.
Arguments Break {A}.
Arguments Failed {A}.

Section tracer.
Context {T : Type} `{!Pete T}.

(** The variables of [run_tracer]; [suspended] is a [BTreeMap]. *)
Record Tracer : Type := mkTracer {
  running : bool;
  suspended : list (Z * Tracee);
}.

Definition tracer_start : Tracer := mkTracer true [].

(** [tracer.restart] of several processes; [?] leaves at the first error. *)
Fixpoint restart_all (l : list Tracee) (t : T) : T * bool :=
  match l with
  | [] => (t, true)
  | tr :: l => let '(t, ok) := restart tr t in if ok then restart_all l t else (t, false)
  end.

(** One command. *)
Definition on_act (a : Act) (t : T) (s : Tracer) : T * Flow Tracer :=
  match a with
  | Terminate => (t, Break)
  | Resume =>
      let '(t, ok) := restart_all (suspended s).*2 t in
      (t, if ok then Continue (mkTracer true []) else Failed)
  | Suspend => (t, Continue (mkTracer false (suspended s)))
  | Attach pid =>
      let '(t, ok) := attach pid t in (t, if ok then Continue s else Failed)
  end.

Fixpoint on_acts (l : list Act) (t : T) (s : Tracer) : T * Flow Tracer :=
  match l with
  | [] => (t, Continue s)
  | a :: l => match on_act a t s with
              | (t, Continue s) => on_acts l t s
              | r => r
              end
  end.

(** The command process returned from a system call: if it read data, its commands. *)
Definition on_channel (tr : Tracee) (t : T) (s : Tracer) : T * Flow Tracer :=
  match registers tr t with
  | None => (t, Failed)
  | Some regs =>
      if (orig_rax regs =? 0) && (rdi regs =? 0) && (0 <? to_signed 64 (rax regs)) then
        match read_memory tr (rsi regs) (rax regs) t with
        | None => (t, Failed)
        | Some l => on_acts (read_acts l) t s
        end
      else (t, Continue s)
  end.

(** [epoll_wait_old], [epoll_wait] and [epoll_pwait] *)
Definition is_epoll (n : Z) : bool := (n =? 215) || (n =? 232) || (n =? 281).

Definition stop_suspends (s : Stop) : bool :=
  match s with SyscallExit => true | SignalDelivery signal => signal =? SIGTRAP | _ => false end.

Definition is_syscall_exit (s : Stop) : bool := match s with SyscallExit => true | _ => false end.

(** The end of the loop's body. *)
Definition restart_tracee (tr : Tracee) (t : T) (s : Tracer) : T * Flow Tracer :=
  let '(t, ok) := restart tr t in (t, if ok then Continue s else Failed).

(** The body of the main loop after [wait]. *)
Definition on_stop (channel_pid : Z) (tr : Tracee) (t : T) (s : Tracer) : T * Flow Tracer :=
  if (tr_pid tr =? channel_pid) && is_syscall_exit (tr_stop tr) then
    match on_channel tr t s with
    | (t, Continue s) => restart_tracee tr t s
    | r => r
    end
  else if negb (tr_pid tr =? channel_pid) && negb (running s) then
    if stop_suspends (tr_stop tr) then
      match registers tr t with
      | None => (t, Failed)
      | Some regs =>
          if is_epoll (orig_rax regs)
          then (t, Continue (mkTracer (running s) (bt_insert (tr_pid tr) tr (suspended s))))
          else restart_tracee tr t s
      end
    else restart_tracee tr t s
  else restart_tracee tr t s.

(** One round of the main loop: [tracer.wait()?], then the body. *)
Definition round (channel_pid : Z) (t : T) (s : Tracer) : T * Flow Tracer :=
  match wait t with
  | (t, None) => (t, Failed)
  | (t, Some None) => (t, Break)
  | (t, Some (Some tr)) => on_stop channel_pid tr t s
  end.

(** [run_tracer] after the [cat] process is there, for [n] rounds at most. At its end it
    joins the thread that writes to the pipe: [written] is how that thread ends ([None]:
    it waits for a command for ever; [Some false]: an error of the pipe). *)
Fixpoint run_tracer (n : nat) (written : option bool) (channel_pid : Z) (t : T) (s : Tracer)
    : T * outcome (result unit unit) :=
  match n with
  | O => (t, OutOfFuel)
  | S n => match round channel_pid t s with
           | (t, Continue s) => run_tracer n written channel_pid t s
           | (t, Break) => (t, match written with
                               | Some true => Ret (Ok tt)
                               | Some false => Panic
                               | None => OutOfFuel
                               end)
           | (t, Failed) => (t, Ret (Err tt))
           end
  end.

(** Rounds that go on. *)
Inductive tracer_step (channel_pid : Z) : relation (T * Tracer) :=
| step_round t s t' s' :
    round channel_pid t s = (t', Continue s') -> tracer_step channel_pid (t, s) (t', s').

End tracer.

(** * The output of strace *)

(** [strace_parse::raw]: a call as it is parsed; the calls that are left out are not told
    apart. *)
Inductive RawCall : Type :=
| Generic (call : bytes) (args : list bytes) (res : option bytes)
| Unfinished
| Resumed
| OtherCall.

Record Syscall : Type := mkSyscall { sc_pid : option Z; sc_call : RawCall; sc_start : option Z }.

(** The line that is stored for a call, if any. *)
Definition line_of (x : Syscall) : option StraceLine :=
  match sc_call x with
  | Generic call args res => Some (mkStraceLine call (default (2 ^ 32 - 1) (sc_pid x)) args res (default 0 (sc_start x)))
  | Unfinished | Resumed | OtherCall => None
  end.

Section strace.
Context `{Radiation} `{!RadiationDerive} {R : Type} `{!Rocks R}.

(** The loop of [process]: each item of the iterator comes with what [rx.try_recv()] finds
    then; an error of the parser or of the database is only logged. *)
Fixpoint process_lines (items : list (bool * option Syscall)) (db : DbStrace (R := R)) : DbStrace (R := R) :=
  match items with
  | [] => db
  | (true, _) :: _ => db
  | (false, x) :: items =>
      process_lines items
        (match x ≫= line_of with
         | Some line => (add_strace_line line db).1
         | None => db
         end)
  end.

(** [process]: without the pipe of the child's standard error, or when the child cannot be
    killed, it panics. *)
Definition process (has_stderr can_kill : bool) (items : list (bool * option Syscall)) (db : DbStrace (R := R))
    : outcome (DbStrace (R := R)) :=
  if has_stderr then (let db := process_lines items db in if can_kill then Ret db else Panic) else Panic.

End strace.

(** * Properties of the task *)

(** What a list of commands leaves the tracer in. *)
Definition last_running (acts : list Act) (b : bool) : bool :=
  foldl (fun b a => match a with Suspend => false | Resume => true | _ => b end) b acts.

Definition attached (acts : list Act) : list Z :=
  omap (fun a => match a with Attach pid => Some pid | _ => None end) acts.

Inductive TaskOp : Type := OpAttach (pid : Z) | OpSetRunning (running : bool).

Definition task_op (t : Task) (o : TaskOp) : Task :=
  match o with OpAttach pid => task_attach pid t | OpSetRunning b => set_running b t end.

(** The process ids that are not read as another command. *)
Definition plain_op (o : TaskOp) : Prop :=
  match o with OpAttach pid => 1 < pid < 2 ^ 32 - 1 | OpSetRunning _ => True end.

Definition plain_act (a : Act) : Prop :=
  match a with
  | Attach pid => - 2 ^ 31 <= pid < 2 ^ 31 /\ pid <> -1 /\ pid <> 0 /\ pid <> 1
  | Terminate => False
  | _ => True
  end.

(** What the queue of a task holds. *)
Definition task_inv (q : list Act) (t : Task) : Prop :=
  sender t = Some q /\ Forall plain_act q /\ last_running q true = running_state t /\
  NoDup (attached q) /\ tracees t = list_to_set (attached q).

Lemma last_running_snoc q a b :
  last_running (q ++ [a]) b = match a with Suspend => false | Resume => true | _ => last_running q b end.
Proof. unfold last_running. rewrite foldl_app. by destruct a. Qed.

Lemma attached_snoc q a :
  attached (q ++ [a]) = attached q ++ match a with Attach pid => [pid] | _ => [] end.
Proof. unfold attached. rewrite omap_app. f_equal. by destruct a. Qed.

Lemma to_signed_plain pid : 1 < pid < 2 ^ 32 - 1 -> plain_act (Attach (to_signed 32 pid)).
Proof.
  intros Hp. unfold plain_act, to_signed. change (2 ^ (32 - 1)) with (2 ^ 31).
  destruct (Z.ltb_spec pid (2 ^ 31)); lia.
Qed.

Lemma task_op_inv q t o : plain_op o -> task_inv q t -> exists q', task_inv q' (task_op t o).
Proof.
  intros Ho (Hs & Hf & Hr & Hn & Ht). destruct o as [pid|b]; cbn [task_op].
  - unfold task_attach. set (p := to_signed 32 pid). case_decide as Hin; [by exists q|].
    exists (q ++ [Attach p]). unfold task_inv, send_act. cbn.
    rewrite Hs, Ht, last_running_snoc, attached_snoc. cbn. split; [done|]. split.
    { rewrite Forall_app. split; [done|]. constructor; [|done]. by apply to_signed_plain. }
    split; [done|]. rewrite Ht, elem_of_list_to_set in Hin. split.
    { apply NoDup_app. split; [done|]. split; [set_solver|]. by apply NoDup_singleton. }
    rewrite list_to_set_app_L. set_solver.
  - unfold set_running. destruct (Bool.eqb _ b) eqn:E; [by exists q|].
    exists (q ++ [if b then Resume else Suspend]). unfold task_inv, send_act. cbn.
    rewrite Hs, last_running_snoc, attached_snoc. cbn.
    split; [done|]. split; [rewrite Forall_app; split; [done|]; constructor; [by destruct b|done]|].
    split; [by destruct b|]. destruct b; rewrite app_nil_r; done.
Qed.

Lemma task_ops_inv ops : forall q t,
  Forall plain_op ops -> task_inv q t -> exists q', task_inv q' (foldl task_op t ops).
Proof.
  induction ops as [|o ops IH]; intros q t Ho Ht; [by exists q|].
  apply Forall_cons in Ho as [Ho1 Ho2]. destruct (task_op_inv q t o Ho1 Ht) as [q' Hq']. by apply (IH q').
Qed.

Lemma act_roundtrip a : plain_act a ->
  act_from_i32 (i32_from_ne_bytes (i32_to_ne_bytes (act_into_i32 a))) = a.
Proof.
  intros Ha. unfold i32_from_ne_bytes, i32_to_ne_bytes.
  rewrite le_decode_encode by (unfold wrap; apply Z.mod_pos_bound; lia).
  rewrite to_signed_wrap by (destruct a; cbn in *; lia).
  destruct a as [| | |pid]; [done..|]. unfold act_from_i32, act_into_i32. destruct Ha as (_ & H1 & H2 & H3).
  apply Z.eqb_neq in H1, H2, H3. by rewrite H1, H2, H3.
Qed.

Lemma length_chunk4 v : exists a b c d, i32_to_ne_bytes v = [a; b; c; d].
Proof.
  pose proof (length_le_encode 4 (wrap 32 v)) as HL. unfold i32_to_ne_bytes.
  destruct (le_encode 4 _) as [|a [|b [|c [|d [|? ?]]]]]; try done. by exists a, b, c, d.
Qed.

Lemma read_acts_cons a l : plain_act a ->
  read_acts (i32_to_ne_bytes (act_into_i32 a) ++ l) = a :: read_acts l.
Proof.
  intros Ha. pose proof (act_roundtrip a Ha) as HR.
  destruct (length_chunk4 (act_into_i32 a)) as (x & y & z & w & E). rewrite E in *.
  unfold read_acts. cbn [app chunks4]. cbn [List.filter].
  change (blen [x; y; z; w] =? 4) with true. cbn iota. rewrite fmap_cons. by rewrite HR.
Qed.

Lemma read_acts_thread q : Forall plain_act q -> read_acts (channel_thread q) = q.
Proof.
  induction 1 as [|a q Ha _ IH]; [done|]. cbn [channel_thread].
  rewrite read_acts_cons by done. f_equal. case_decide as E; [by subst|done].
Qed.

(** Reads of whole commands add up. *)
Lemma chunks4_app l1 : forall l2, (exists n, length l1 = 4 * n)%nat ->
  chunks4 (l1 ++ l2) = chunks4 l1 ++ chunks4 l2.
Proof.
  induction l1 as [l1 IH] using (induction_ltof1 _ (@length Z)). intros l2 [n Hn].
  destruct l1 as [|a [|b [|c [|d l1]]]]; cbn in Hn; [done|lia..|].
  cbn. f_equal. apply IH; [unfold ltof; cbn; lia|]. exists (n - 1)%nat. lia.
Qed.

Lemma read_acts_reads reads : Forall (fun l => exists n, length l = 4 * n)%nat reads ->
  reads ≫= read_acts = read_acts (mjoin reads).
Proof.
  induction 1 as [|l reads Hl _ IH]; [done|]. cbn [mbind list_bind]. rewrite IH.
  unfold read_acts. cbn [mjoin list_join]. rewrite chunks4_app by done.
  by rewrite List.filter_app, fmap_app.
Qed.

(** The commands of a task reach the tracer: whatever calls are made, and however the
    reads of the command process cut the pipe between two commands, the tracer reads
    every command once and in order; it attaches to every process once and ends
    suspended or running as the task was told last. *)
Theorem task_commands_arrive (ops : list TaskOp) (reads : list bytes) :
  let t := foldl task_op task_new ops in
  Forall plain_op ops -> Forall (fun l => exists n, length l = 4 * n)%nat reads ->
  mjoin reads = channel_thread (default [] (sender t)) ->
  let acts := reads ≫= read_acts in
  sender t = Some acts /\ last_running acts true = running_state t /\
  NoDup (attached acts) /\ list_to_set (attached acts) = tracees t.
Proof.
  cbv zeta. intros Ho Hr Hj.
  destruct (task_ops_inv ops [] task_new Ho) as [q (Hs & Hf & Hl & Hn & Ht)].
  { split; [done|]. split; [constructor|]. split; [done|]. split; [constructor|done]. }
  rewrite read_acts_reads, Hj, Hs by done. cbn [default]. unfold id.
  by rewrite read_acts_thread.
Qed.

(** The process with id 1 is not attached: its command is read as another one, and so is
    a command that a read cuts. *)
Example attach_init_resumes : read_acts (channel_thread [Suspend; Attach 1]) = [Suspend; Resume].
Proof. reflexivity. Qed.

Example cut_command_is_lost :
  [[42; 0]; [0; 0]] ≫= read_acts = [] /\ [42; 0; 0; 0] = channel_thread [Attach 42].
Proof. by split. Qed.

(** * Properties of the tracer *)

Section tracer_spec.
Context {T : Type} `{!Pete T, !PeteLaws T}.

Definition suspended_pids (s : Tracer) : gset Z := list_to_set (suspended s).*1.

(** Besides [extra], exactly the suspended processes are stopped, and none when running. *)
Definition holds_stopped (extra : gset Z) (t : T) (s : Tracer) : Prop :=
  stopped t = extra ∪ suspended_pids s /\ extra ## suspended_pids s /\
  Forall (fun kv => tr_pid kv.2 = kv.1) (suspended s) /\
  (running s = true -> suspended s = []).

Lemma restart_all_stopped l : forall (t t' : T),
  restart_all l t = (t', true) -> stopped t' = stopped t ∖ list_to_set (tr_pid <$> l).
Proof.
  induction l as [|tr l IH]; intros t t' E; cbn in E; [simplify_eq; set_solver|].
  destruct (restart tr t) as [t1 [|]] eqn:E1; [|done].
  apply restart_runs in E1. apply IH in E. rewrite E, E1. cbn. set_solver.
Qed.

Lemma on_act_stopped extra a (t t' : T) s s' :
  holds_stopped extra t s -> on_act a t s = (t', Continue s') -> holds_stopped extra t' s'.
Proof.
  intros (Hs & Hd & Hf & Hr) E. destruct a as [| | |pid]; cbn in E; [done| | |].
  - simplify_eq. by repeat split.
  - destruct (restart_all _ t) as [t1 [|]] eqn:E1; simplify_eq. apply restart_all_stopped in E1.
    assert (tr_pid <$> (suspended s).*2 = (suspended s).*1) as EP.
    { rewrite <- list_fmap_compose. apply list_fmap_ext. intros i kv Hi. cbn.
      exact (Forall_lookup_1 _ _ _ _ Hf Hi). }
    rewrite EP, Hs in E1. unfold holds_stopped, suspended_pids in *. cbn.
    split; [set_solver|]. split; [set_solver|]. split; [constructor|done].
  - destruct (attach pid t) as [t1 [|]] eqn:E1; simplify_eq.
    split; [by rewrite (attach_keeps _ _ _ E1)|done].
Qed.

Lemma on_acts_stopped extra l : forall (t t' : T) s s',
  holds_stopped extra t s -> on_acts l t s = (t', Continue s') -> holds_stopped extra t' s'.
Proof.
  induction l as [|a l IH]; intros t t' s s' Hs E; cbn in E; [by simplify_eq|].
  destruct (on_act a t s) as [t1 [s1| |]] eqn:E1; [|done..].
  eapply IH; [|exact E]. by eapply on_act_stopped.
Qed.

Lemma on_channel_stopped extra tr (t t' : T) s s' :
  holds_stopped extra t s -> on_channel tr t s = (t', Continue s') -> holds_stopped extra t' s'.
Proof.
  intros Hs E. unfold on_channel in E. destruct (registers tr t) as [regs|]; [|done].
  destruct (_ && _)%bool; [|by simplify_eq].
  destruct (read_memory _ _ _ t); [|done]. by eapply on_acts_stopped.
Qed.

Lemma restart_tracee_stopped tr (t t' : T) s s' :
  holds_stopped {[tr_pid tr]} t s -> restart_tracee tr t s = (t', Continue s') -> holds_stopped ∅ t' s'.
Proof.
  intros (Hs & Hd & Hf & Hr) E. unfold restart_tracee in E.
  destruct (restart tr t) as [t1 [|]] eqn:E1; simplify_eq. apply restart_runs in E1.
  split; [rewrite E1, Hs; set_solver|]. split; [set_solver|done].
Qed.

Lemma round_stopped channel_pid (t t' : T) s s' :
  holds_stopped ∅ t s -> round channel_pid t s = (t', Continue s') -> holds_stopped ∅ t' s'.
Proof.
  intros (Hs & Hd & Hf & Hr) E. unfold round in E.
  destruct (wait t) as [t1 [[tr|]|]] eqn:E1; [|done..]. apply wait_stops in E1 as [Hn E1].
  assert (holds_stopped {[tr_pid tr]} t1 s) as H1.
  { split; [rewrite E1, Hs; set_solver|]. split; [set_solver|done]. }
  unfold on_stop in E. destruct (_ && is_syscall_exit _)%bool.
  { destruct (on_channel tr t1 s) as [t2 [s2| |]] eqn:E2; [|done..].
    eapply restart_tracee_stopped; [|exact E]. by eapply on_channel_stopped. }
  destruct (negb _ && negb (running s))%bool eqn:Er; [|by eapply restart_tracee_stopped].
  destruct (stop_suspends _); [|by eapply restart_tracee_stopped].
  destruct (registers tr t1) as [regs|]; [|done].
  destruct (is_epoll _); [|by eapply restart_tracee_stopped]. simplify_eq.
  apply andb_true_iff in Er as [_ Er%negb_true_iff]. destruct H1 as (H1 & H2 & _).
  assert (suspended_pids (mkTracer (running s) (bt_insert (tr_pid tr) tr (suspended s)))
          = {[tr_pid tr]} ∪ suspended_pids s) as EK.
  { unfold suspended_pids. apply set_eq. intros x. cbn [suspended].
    rewrite elem_of_union, !elem_of_list_to_set, bt_insert_keys. set_solver. }
  split; [rewrite EK, H1; set_solver|]. split; [set_solver|]. cbn. rewrite Er. split; [|done].
  clear -Hf. induction Hf as [|[k v] l Hk HF IH]; cbn; [by repeat constructor|].
  destruct (ord_cmp _ k); by repeat first [apply Forall_cons_2|assumption].
Qed.

(** No process stays stopped by accident: in every round of the main loop the stopped
    processes are exactly those it keeps in its map, and none is stopped unless the
    tracer was told to suspend and not to resume since. *)
Theorem tracer_stops_only_suspended (channel_pid : Z) (t0 t : T) (s : Tracer) :
  stopped t0 = ∅ -> rtc (tracer_step channel_pid) (t0, tracer_start) (t, s) ->
  stopped t = suspended_pids s /\ (running s = true -> stopped t = ∅).
Proof.
  intros H0 HR.
  assert (holds_stopped ∅ t s) as (Hs & _ & _ & Hr).
  { refine (rtc_preserves _ (fun x => holds_stopped ∅ x.1 x.2) _ _ _ HR _).
    - intros a b [? ? ? ? E] Ha. by eapply round_stopped.
    - cbn. split; [rewrite H0; set_solver|]. split; [set_solver|]. split; [constructor|done]. }
  split; [set_solver|]. intros Hrun. rewrite Hs. unfold suspended_pids. rewrite Hr by done. set_solver.
Qed.

End tracer_spec.

(** ** A tracer for the examples *)

(** The stops to come, each with its registers and what the memory holds. *)
Record Script : Type := mkScript {
  to_come : list (Tracee * Registers * bytes);
  now : Registers * bytes;
  halted : gset Z;
}.

#[export] Instance script_pete : Pete Script := {|
  wait t := match to_come t with
            | (tr, regs, mem) :: l =>
                if decide (tr_pid tr ∈ halted t) then (t, Some None)
                else (mkScript l (regs, mem) ({[tr_pid tr]} ∪ halted t), Some (Some tr))
            | [] => (t, Some None)
            end;
  registers _ t := Some (now t).1;
  read_memory _ _ n t := Some (take (Z.to_nat n) (now t).2);
  restart tr t := (mkScript (to_come t) (now t) (halted t ∖ {[tr_pid tr]}), true);
  attach _ t := (t, true);
  stopped := halted;
|}.

#[export] Instance script_pete_laws : PeteLaws Script.
Proof.
  split; cbn.
  - intros t t' tr E. destruct (to_come t) as [|[[tr' regs] mem] l]; [done|].
    case_decide; simplify_eq; by split.
  - intros t t' tr E. by simplify_eq.
  - intros t t' pid E. by simplify_eq.
Qed.

(** The command process is 7; process 42 waits for events while the tracer is suspended. *)
Definition demo_stops : list (Tracee * Registers * bytes) :=
  [(mkTracee 7 SyscallExit, mkRegisters 0 4 0 0, channel_thread [Suspend]);
   (mkTracee 42 SyscallExit, mkRegisters 1 4 0 0, []);
   (mkTracee 42 SyscallExit, mkRegisters 232 0 0 0, []);
   (mkTracee 7 SyscallExit, mkRegisters 0 4 0 0, channel_thread [Resume])].

Definition demo_script (n : nat) : Script := mkScript (take n demo_stops) (mkRegisters 0 0 0 0, []) ∅.

Lemma tracer_stops_only_suspended_witness :
  (exists t s, rtc (tracer_step 7) (demo_script 3, tracer_start) (t, s) /\
     running s = false /\ stopped t = suspended_pids s /\ suspended_pids s = {[42]}) /\
  (exists t s, rtc (tracer_step 7) (demo_script 4, tracer_start) (t, s) /\ running s = true /\ stopped t = ∅).
Proof.
  assert (forall n t s, rtc (tracer_step 7) (demo_script n, tracer_start) (t, s) ->
            stopped t = suspended_pids s /\ (running s = true -> stopped t = ∅)) as H.
  { intros n t s HR. exact (tracer_stops_only_suspended 7 (demo_script n) t s eq_refl HR). }
  split.
  - eassert (rtc (tracer_step 7) (demo_script 3, tracer_start) (_, _)) as HR.
    { do 3 (eapply rtc_l; [constructor; reflexivity|]). apply rtc_refl. }
    do 2 eexists. split; [exact HR|]. split; [reflexivity|]. split; [apply (H _ _ _ HR)|reflexivity].
  - eassert (rtc (tracer_step 7) (demo_script 4, tracer_start) (_, _)) as HR.
    { do 4 (eapply rtc_l; [constructor; reflexivity|]). apply rtc_refl. }
    do 2 eexists. split; [exact HR|]. split; [reflexivity|]. by apply (H _ _ _ HR).
Defined.

(** With the commands of a task as they are sent, the run ends with [Terminate] and leaves
    process 42 stopped if it was suspended then. *)
Example terminate_while_suspended :
  let stops := take 3 demo_stops ++
    [(mkTracee 7 SyscallExit, mkRegisters 0 4 0 0, channel_thread [Terminate])] in
  let '(t, r) := run_tracer 5 (Some true) 7 (mkScript stops (mkRegisters 0 0 0 0, []) ∅) tracer_start in
  r = Ret (Ok tt) /\ 42 ∈ stopped t.
Proof. vm_compute. by split; [|apply (bool_decide_unpack _); vm_compute]. Qed.

Lemma task_commands_arrive_witness :
  let t := foldl task_op task_new [OpAttach 42; OpSetRunning false; OpAttach 42; OpSetRunning false; OpAttach 43] in
  let acts := [channel_thread [Attach 42]; channel_thread [Suspend; Attach 43]] ≫= read_acts in
  sender t = Some acts /\ last_running acts true = running_state t /\
  NoDup (attached acts) /\ list_to_set (attached acts) = tracees t.
Proof.
  apply (task_commands_arrive _ [channel_thread [Attach 42]; channel_thread [Suspend; Attach 43]]).
  - repeat constructor; cbn; lia.
  - apply Forall_cons_2; [by exists 1%nat|]. apply Forall_cons_2; [by exists 2%nat|constructor].
  - reflexivity.
Defined.

(** * Properties of the recorder of strace *)

(** The calls that are taken off the iterator. *)
Fixpoint taken (items : list (bool * option Syscall)) : list StraceLine :=
  match items with
  | [] => []
  | (true, _) :: _ => []
  | (false, x) :: items => option_list (x ≫= line_of) ++ taken items
  end.

Section strace_spec.
Context `{RadiationLaws, !RadiationDerive, !RadiationDeriveLaws} {R : Type} `{!Rocks R, !RocksLaws R}.

(** Lines under consecutive ids. *)
Fixpoint numbered (i : Z) (lines : list StraceLine) : list (Z * StraceLine) :=
  match lines with [] => [] | l :: lines => (i, l) :: numbered (i + 1) lines end.

Definition rows_written (l : list (Z * StraceLine)) : list (bytes * bytes) :=
  (fun il => (be_encode 8 il.1, emit il.2)) <$> l.

Lemma rows_written_elem l k v :
  (k, v) ∈ rows_written l <-> exists j x, (j, x) ∈ l /\ k = be_encode 8 j /\ v = emit x.
Proof.
  unfold rows_written. rewrite list_elem_of_fmap. split.
  - intros ([j x] & E & Hin). exists j, x. split; [done|]. cbn [fst snd] in E. split; congruence.
  - intros (j & x & Hin & -> & ->). by exists (j, x).
Qed.

(** The family holds exactly these lines. *)
Definition holds_lines (l : list (Z * StraceLine)) (r : R) : Prop :=
  healthy r /\ forall k v, contents r STRACE !! k = Some v <-> (k, v) ∈ rows_written l.

Lemma numbered_app a b i : numbered i (a ++ b) = numbered i a ++ numbered (i + blen a) b.
Proof.
  revert i. induction a as [|x a IH]; intros i; cbn [numbered app].
  { unfold blen. cbn. by rewrite Z.add_0_r. }
  rewrite IH. unfold blen. cbn [length]. do 3 f_equal. lia.
Qed.

Lemma numbered_elem i lines j x :
  (j, x) ∈ numbered i lines <-> i <= j /\ lines !! Z.to_nat (j - i) = Some x.
Proof.
  revert i. induction lines as [|l lines IH]; intros i; cbn [numbered].
  { rewrite lookup_nil. split; [by intros ?%elem_of_nil|by intros []]. }
  rewrite elem_of_cons, IH. destruct (Z.eq_dec j i) as [->|Hne].
  - rewrite Z.sub_diag. cbn. split; [intros [E|[? _]]; [by simplify_eq|lia]|intros [_ [= ->]]; by left].
  - split.
    + intros [E|[Hj E]]; [by simplify_eq|]. split; [lia|].
      by replace (Z.to_nat (j - i)) with (S (Z.to_nat (j - (i + 1)))) by lia.
    + intros [Hj E]. right. split; [lia|].
      by replace (Z.to_nat (j - i)) with (S (Z.to_nat (j - (i + 1)))) in E by lia.
Qed.

Lemma numbered_range i lines j x : (j, x) ∈ numbered i lines -> i <= j < i + blen lines.
Proof.
  rewrite numbered_elem. intros [Hj E%lookup_lt_Some]. unfold blen. lia.
Qed.

Lemma add_line_writes (line : StraceLine) db :
  healthy (db_inner (strace_inner db)) ->
  exists r, (add_strace_line line db).1
            = mkDbStrace (wrap 64 (strace_cnt db + 1)) (mkCore (cache (strace_inner db)) r) /\
    healthy r /\ contents r STRACE
                 = <[be_encode 8 (strace_cnt db) := emit line]> (contents (db_inner (strace_inner db)) STRACE).
Proof.
  intros Hh. unfold add_strace_line. cbv zeta. generalize (emit line). intros data.
  destruct (put_ok (db_inner (strace_inner db)) STRACE (be_encode 8 (strace_cnt db)) data Hh)
    as (r1 & E1 & Hh1 & C1).
  destruct (put_ok r1 DEFAULT_CF [STRACE_CNT] (emit_uint 8 (strace_cnt db)) Hh1) as (r2 & E2 & Hh2 & C2).
  exists r2. unfold put_strace, set_total, put, mbind, db_bind. rewrite E1. cbn [db_inner]. rewrite E2.
  split; [done|]. split; [done|]. by rewrite C2, decide_False, C1, decide_True.
Qed.

Lemma add_line_holds (lines : list StraceLine) (line : StraceLine) db :
  blen lines + 1 < 2 ^ 64 -> strace_cnt db = blen lines ->
  holds_lines (numbered 0 lines) (db_inner (strace_inner db)) ->
  let db' := (add_strace_line line db).1 in
  strace_cnt db' = blen (lines ++ [line]) /\
  holds_lines (numbered 0 (lines ++ [line])) (db_inner (strace_inner db')).
Proof.
  intros HB Hc [Hh Hm]. destruct (add_line_writes line db Hh) as (r & -> & Hh' & C).
  cbn [strace_cnt strace_inner db_inner]. rewrite Hc in *. rewrite blen_app. change (blen [line]) with 1.
  pose proof (blen_nonneg lines) as Hp. split; [unfold wrap; by rewrite Z.mod_small by lia|].
  split; [done|]. intros k v. rewrite C.
  rewrite numbered_app, Z.add_0_l. cbn [numbered]. unfold rows_written. rewrite fmap_app, elem_of_app. cbn [fmap list_fmap fst snd].
  rewrite list_elem_of_singleton, <- (Hm k v).
  destruct (decide (k = be_encode 8 (blen lines))) as [->|Hne].
  - rewrite lookup_insert, decide_True by done. split; [intros E; right; congruence|].
    intros [Hin|E]; [|congruence]. apply Hm, rows_written_elem in Hin as (j & x & Hin & E & _).
    apply numbered_range in Hin. apply be_encode_inj in E; unfold uint_ok; lia.
  - rewrite lookup_insert_ne by done. split; [by left|]. intros [?|E]; [done|congruence].
Qed.

Lemma process_lines_holds items : forall (lines : list StraceLine) db,
  blen lines + blen (taken items) < 2 ^ 64 -> strace_cnt db = blen lines ->
  holds_lines (numbered 0 lines) (db_inner (strace_inner db)) ->
  holds_lines (numbered 0 (lines ++ taken items)) (db_inner (strace_inner (process_lines items db))).
Proof.
  induction items as [|[[|] x] items IH]; intros lines db HB Hc Hm; cbn [taken process_lines] in *;
    [by rewrite app_nil_r..|].
  destruct (x ≫= line_of) as [line|]; cbn [option_list app] in *; [|by apply IH].
  assert (blen lines + 1 < 2 ^ 64 /\ blen (lines ++ [line]) + blen (taken items) < 2 ^ 64) as [B1 B2].
  { rewrite blen_app. unfold blen in *. cbn in *. lia. }
  destruct (add_line_holds lines line db B1 Hc Hm) as [Hc' Hm'].
  rewrite (app_assoc lines [line]). by apply IH.
Qed.

(** What iterating gives is determined by what is stored. *)
Lemma scan_pairs d P m l : scan_spec d P m l ->
  StronglySorted (fun a b => key_before d a.1 b.1) l /\ NoDup l.
Proof.
  intros [HS _]. induction l as [|x l IH]; [split; constructor|].
  apply StronglySorted_inv in HS as [HS HF]. destruct (IH HS) as [I1 I2].
  assert (Forall (fun y => key_before d x.1 y.1) l) as HF' by exact (proj1 (Forall_fmap _ _ _) HF).
  split; constructor; try done. intros Hin. rewrite Forall_forall in HF'.
  by apply (key_before_irrefl d x.1), HF'.
Qed.

Lemma scan_spec_unique d P m l1 l2 : scan_spec d P m l1 -> scan_spec d P m l2 -> l1 = l2.
Proof.
  intros G1 G2. destruct (scan_pairs _ _ _ _ G1) as [S1 N1], (scan_pairs _ _ _ _ G2) as [S2 N2].
  eapply StronglySorted_unique_strong; [|exact S1|exact S2|].
  - intros x y _ _ Hxy Hyx. exfalso. apply (key_before_irrefl d x.1).
    exact (key_before_trans d _ _ _ Hxy Hyx).
  - apply NoDup_Permutation; [done..|]. intros [k v]. by rewrite (proj2 G1), (proj2 G2).
Qed.

(** The lines from an id on, as they are stored. *)
Lemma numbered_sorted lines : forall i, 0 <= i -> i + blen lines <= 2 ^ 64 ->
  StronglySorted (key_before RForward) (rows_written (numbered i lines)).*1.
Proof.
  induction lines as [|l lines IH]; intros i Hi HB; [constructor|]. unfold blen in *. cbn [length] in HB.
  unfold rows_written in *. cbn [numbered]. rewrite !fmap_cons. cbn [fst].
  constructor; [apply IH; unfold blen; lia|]. apply Forall_fmap, Forall_forall. intros [k v] Hin.
  apply rows_written_elem in Hin as (j & x & Hin & -> & _). apply numbered_range in Hin. unfold blen in *.
  change (key_cmp (be_encode 8 i) (be_encode 8 j) = Lt). rewrite key_cmp_be by lia. apply Z.compare_lt_iff. lia.
Qed.

Lemma numbered_scan lines id (r : R) : uint_ok 8 id -> blen lines < 2 ^ 64 ->
  holds_lines (numbered 0 lines) r ->
  scan_spec RForward (fun k => ~ key_before RForward k (be_encode 8 id)) (contents r STRACE)
    (rows_written (numbered id (drop (Z.to_nat id) lines))).
Proof.
  intros Hid HB [_ Hm]. unfold uint_ok in Hid. split.
  { destruct (Z.le_gt_cases id (blen lines)).
    - apply numbered_sorted; [lia|]. unfold blen in *. rewrite length_drop. lia.
    - rewrite drop_ge by (unfold blen in *; lia). constructor. }
  intros k v. rewrite Hm, !rows_written_elem.
  assert (forall j x, (j, x) ∈ numbered id (drop (Z.to_nat id) lines) <-> (j, x) ∈ numbered 0 lines /\ id <= j) as HE.
  { intros j x. rewrite !numbered_elem, lookup_drop, Z.sub_0_r. split.
    - intros [Hj E]. replace (Z.to_nat id + Z.to_nat (j - id))%nat with (Z.to_nat j) in E by lia. split; [split|]; done || lia.
    - intros [[_ E] Hj]. replace (Z.to_nat id + Z.to_nat (j - id))%nat with (Z.to_nat j) by lia. by split. }
  split.
  - intros (j & x & Hin & -> & ->). apply HE in Hin as [Hin Hj]. pose proof (numbered_range _ _ _ _ Hin).
    split; [by exists j, x|]. cbn [key_before]. rewrite key_cmp_be, Z.compare_lt_iff by lia. lia.
  - intros [(j & x & Hin & -> & ->) Hk]. exists j, x. split; [|done]. apply HE. split; [done|].
    pose proof (numbered_range _ _ _ _ Hin). cbn [key_before] in Hk.
    rewrite key_cmp_be, Z.compare_lt_iff in Hk by lia. lia.
Qed.

(** What [strace] wrote is shown: the generic calls that were taken before the signal to
    stop, in their order and under consecutive ids, from the requested one on. *)
Theorem strace_is_shown (items : list (bool * option Syscall)) (db : DbStrace) (id : Z) :
  healthy (db_inner (strace_inner db)) -> contents (db_inner (strace_inner db)) STRACE = ∅ ->
  strace_cnt db = 0 -> blen (taken items) < 2 ^ 64 -> Forall strace_ok (taken items) -> uint_ok 8 id ->
  exists db', process true true items db = Ret db' /\
    fetch_strace id 0 (strace_inner db') = Ok (numbered id (drop (Z.to_nat id) (taken items))).
Proof.
  intros Hh He Hc HB Hok Hid. exists (process_lines items db). split; [done|].
  assert (holds_lines (numbered 0 (taken items)) (db_inner (strace_inner (process_lines items db)))) as HL.
  { apply (process_lines_holds items []); [done..|]. split; [done|]. intros k v. rewrite He, lookup_empty.
    split; [done|by intros ?%elem_of_nil]. }
  unfold fetch_strace. rewrite Z.eqb_refl.
  destruct (iter_from_ok (db_inner (strace_inner (process_lines items db))) STRACE (be_encode 8 id) RForward
              (proj1 HL) eq_refl) as (l & -> & Hl).
  rewrite (scan_spec_unique _ _ _ _ _ Hl (numbered_scan _ id _ Hid HB HL)). f_equal.
  unfold rows_written. rewrite <- list_fmap_compose.
  rewrite (omap_fmap_Forall _ _ (fun x => x)); [by rewrite list_fmap_id|].
  apply Forall_forall. intros [j x] Hin. pose proof Hin as [Hj E]%numbered_elem.
  rewrite lookup_drop in E. pose proof (lookup_lt_Some _ _ _ E) as HLt.
  unfold compose. cbn [decode fst snd]. rewrite u64_rt by (unfold uint_ok in *; unfold blen in *; lia).
  rewrite (absorb_ext_rt _ x x); [done|]. intros r. apply strace_rt. by eapply Forall_lookup_1.
Qed.

End strace_spec.
