(* ===== verification/Lifecycle.v ===== *)
(** The life of the recorder process: what it reads of [/proc]
    ([bpf-recorder/src/proc.rs]), its settings, its threads from the start to the end of
    [main] and the posting of the reports ([bpf-recorder/src/main.rs]), with the start and
    the graceful end of the HTTP server ([server::spawn]).

    The threads are a machine of labelled steps: the thread that reads the ring buffer,
    the consumer, which runs the loop of [EventLoop], the HTTP server, the application
    server on the main thread, the threads that watch processes and the handler of
    Ctrl-C. The kernel, the clients and the user are the other labels. *)

From stdpp Require Import base list gmap strings relations.
From Stdlib Require Import ZArith Lia.
From S2P Require Import Prelude Types Handle Text RingBuffer BpfEvent Checksum Meshsub Capnp BTree Recorder EventLoop.

(** * Process information *)

(** [cmd_prefix_matches]: [reads] is what the attempts to read [/proc/{pid}/cmdline] find,
    [None] for an error of [File::open] or [read_to_string]. *)
Fixpoint cmd_prefix_loop (tries : nat) (pattern : bytes) (reads : list (option bytes)) : result bool unit :=
  match tries, reads with
  | S tries, Some s :: reads =>
      if starts_with pattern s then Ok true else cmd_prefix_loop tries pattern reads
  | S _, _ => Err tt
  | O, _ => Ok false
  end.

Definition cmd_prefix_matches (pattern : bytes) (reads : list (option bytes)) : result bool unit :=
  cmd_prefix_loop 5 pattern reads.

Definition NANOS : Z := 1000000000.

(** [SystemTime::UNIX_EPOCH.checked_add(Duration::from_secs(secs))] in nanoseconds: a
    [SystemTime] holds its seconds as an [i64]. *)
Definition boot_time (secs : Z) : option Z := if secs <? 2 ^ 63 then Some (secs * NANOS) else None.

(** [S::read]: [None] is an error of a line; the last line that starts with [btime]
    counts. *)
Fixpoint proc_stat (lines : list (option bytes)) (b_time : option Z) : result (option Z) unit :=
  match lines with
  | [] => Ok b_time
  | None :: _ => Err tt
  | Some line :: lines =>
      proc_stat lines
        (match split_on 32 line with
         | word :: rest =>
             if decide (word = str "btime")
             then match rest with s :: _ => parse_u64 s ≫= boot_time | [] => None end
             else b_time
         | [] => b_time
         end)
  end.

(** [S::read().ok().and_then(|s| s.b_time)]; [None] when [/proc/stat] cannot be opened. *)
Definition origin_of (stat : option (list (option bytes))) : option Z :=
  lines ← stat; match proc_stat lines None with Ok b => b | Err _ => None end.

(** One turn of the thread of [watch_pid]: whether it asks to terminate. *)
Definition watch_turn (reads : list (option bytes)) : bool :=
  negb (match cmd_prefix_matches (str "coda-libp2p_helper") reads with Ok b => b | Err _ => false end).

(** * Settings *)

Record Settings : Type := mkSettings {
  st_port : Z;
  st_db_path : bytes;
  st_dry : bool;
  st_key_path : option bytes;
  st_cert_path : option bytes;
  st_interface : bytes;
  st_test : bool;
  st_terminate : bool;
  st_registry : option bytes;
  st_build_number : Z;
  st_wait_forever : bool;
}.

(** The environment variables that are read by [main]; the interface is followed by a
    zero byte. *)
Definition settings (env : bytes -> option bytes) : Settings :=
  mkSettings
    (default 8000 (parse_unsigned (2 ^ 16) (default (str "8000") (env (str "SERVER_PORT")))))
    (default (str "target/db") (env (str "DB_PATH")))
    (bool_decide (is_Some (env (str "DRY"))))
    (env (str "HTTPS_KEY_PATH"))
    (env (str "HTTPS_CERT_PATH"))
    (default (str "eth0") (env (str "FIREWALL_INTERFACE")) ++ [0])
    (bool_decide (is_Some (env (str "TEST"))))
    (bool_decide (is_Some (env (str "TERMINATE"))))
    (env (str "REGISTRY"))
    (default 0 (env (str "BUILD_NUMBER") ≫= parse_u32))
    (bool_decide (is_Some (env (str "DEBUGGER_WAIT_FOREVER")))).

Definition report_url (host : bytes) (build_number : Z) : bytes :=
  str "http://" ++ host ++ str ":80/report/debugger?build_number=" ++ show_u32 build_number.

(** [spawn] serves over TLS when both paths are given. *)
Definition server_tls (s : Settings) : bool :=
  match st_key_path s, st_cert_path s with Some _, Some _ => true | _, _ => false end.

Definition TRIES_NUMBER : nat := 60.

(** * Threads *)

(** The consumer thread: before the handler of Ctrl-C is set, in the loop, posting the
    reports of the processes in the list, and joining the other threads. [Hung] is a call
    that does not return. *)
Inductive Consumer : Type :=
| Starting
| Looping
| Posting (todo : list Z) (tries : nat)
| WaitingForever
| JoiningServer
| JoiningReader
| Ended
| Panicked
| Hung.

(** The channel that ends the HTTP server: its sender is the callback. *)
Inductive Shutdown : Type := NotSent | Sent | SenderGone.

Record Life (W G Cn : Type) : Type := mkLife {
  terminating : bool;
  handler : bool;
  callback : bool;
  shutdown : Shutdown;
  ring : list (option SnifferEvent * Z);
  reader : bool;
  queue : list (option SnifferEvent * Z);
  consumer : Consumer;
  loop : Loop G Cn;
  world : W;
  watchers : list Z;
  posted : list (Z * bool);
  clients : nat;
  server : bool;
  app_terminate : bool;
  app : bool;
  finished : bool;
}.
Arguments mkLife {W G Cn}. Arguments terminating {W G Cn}. Arguments handler {W G Cn}.
Arguments callback {W G Cn}. Arguments shutdown {W G Cn}. Arguments ring {W G Cn}. Arguments reader {W G Cn}.
Arguments queue {W G Cn}. Arguments consumer {W G Cn}. Arguments loop {W G Cn}. Arguments world {W G Cn}.
Arguments watchers {W G Cn}. Arguments posted {W G Cn}. Arguments clients {W G Cn}. Arguments server {W G Cn}.
Arguments app_terminate {W G Cn}. Arguments app {W G Cn}. Arguments finished {W G Cn}.

(** What can happen next. *)
Inductive Label : Type :=
(** the kernel, the user, the clients of the HTTP server, a watched process *)
| KernelEvent (e : option SnifferEvent * Z)
| CtrlC
| RequestComes
| RequestDone
| WatcherFires (pid : Z)
(** the threads of the process *)
| ReaderTakes
| ReaderOverflow
| ReaderEnds
| ConsumerStarts (handler_set : bool)
| ConsumerTakes (clock : Clock)
| ConsumerLeaves (client_built : bool)
| ConsumerPosts (ok : bool)
| ConsumerJoinsServer
| ConsumerJoinsReader
| ServerEnds
| AppEnds
| MainEnds.

Section life.
Context {W G Cn : Type} `{!Connections W G Cn, !CapnpLib, !Blake2, !CapnpDb W, !Crc64}.
Context (cfg : Settings).

Abbreviation Life := (Life W G Cn).

Definition life_new (boot : option Z) (w : W) : Life :=
  mkLife (st_dry cfg) false true NotSent [] true [] Starting (loop_new boot (st_test cfg)) w [] [] 0
    true false true false.

(** ** Updates *)

Definition set_reader ring_ reader_ queue_ (s : Life) : Life :=
  mkLife (terminating s) (handler s) (callback s) (shutdown s) ring_ reader_ queue_ (consumer s) (loop s)
    (world s) (watchers s) (posted s) (clients s) (server s) (app_terminate s) (app s) (finished s).
Definition set_consumer queue_ consumer_ loop_ world_ watchers_ (s : Life) : Life :=
  mkLife (terminating s) (handler s) (callback s) (shutdown s) (ring s) (reader s) queue_ consumer_ loop_
    world_ watchers_ (posted s) (clients s) (server s) (app_terminate s) (app s) (finished s).
Definition set_phase consumer_ (s : Life) : Life :=
  set_consumer (queue s) consumer_ (loop s) (world s) (watchers s) s.
Definition set_posted posted_ (s : Life) : Life :=
  mkLife (terminating s) (handler s) (callback s) (shutdown s) (ring s) (reader s) (queue s) (consumer s)
    (loop s) (world s) (watchers s) posted_ (clients s) (server s) (app_terminate s) (app s) (finished s).
Definition set_signal terminating_ handler_ callback_ shutdown_ (s : Life) : Life :=
  mkLife terminating_ handler_ callback_ shutdown_ (ring s) (reader s) (queue s) (consumer s) (loop s)
    (world s) (watchers s) (posted s) (clients s) (server s) (app_terminate s) (app s) (finished s).
Definition set_servers clients_ server_ app_terminate_ app_ finished_ (s : Life) : Life :=
  mkLife (terminating s) (handler s) (callback s) (shutdown s) (ring s) (reader s) (queue s) (consumer s)
    (loop s) (world s) (watchers s) (posted s) clients_ server_ app_terminate_ app_ finished_.

(** ** The steps *)

(** The handler of Ctrl-C: the callback runs once, and panics when the server is gone. *)
Definition on_ctrl_c (s : Life) : Life :=
  if callback s then
    if server s then set_signal true true false Sent s
    else set_signal (terminating s) false false (shutdown s) s
  else set_signal true true false (shutdown s) s.

(** The process a [NewApp] event makes the loop watch. *)
Definition new_watch (e : SnifferEvent) (l : Loop G Cn) : list Z :=
  match sn_variant e with
  | NewApp _ => match watching l !! sn_pid e with
                | None => if st_terminate cfg then [sn_pid e] else []
                | Some _ => []
                end
  | _ => []
  end.

(** One event of the loop. *)
Definition take_event (clock : Clock) (e : option SnifferEvent) (buffered : Z) (q : list (option SnifferEvent * Z))
    (s : Life) : Life :=
  match e with
  | None => set_consumer q Looping (loop s) (world s) (watchers s) s
  | Some e =>
      match handle_event clock e buffered (loop s) (world s) with
      | Ret (l, w) => set_consumer q Looping l w (watchers s ++ new_watch e (loop s)) s
      | Panic => set_phase Panicked s
      | OutOfFuel => set_phase Hung s
      end
  end.

(** After the reports. *)
Definition after_posts : Consumer := if st_wait_forever cfg then WaitingForever else JoiningServer.

Definition reported (l : Loop G Cn) : list Z := sort_by Z.leb (elements (dom (watching l))).

(** The loop was left: the reports are posted if there is a registry and a client. *)
Definition leave_loop (client_built : bool) (s : Life) : Life :=
  set_phase
    (match st_registry cfg with
     | Some _ => if client_built
                 then match reported (loop s) with
                      | [] => after_posts
                      | l => Posting l TRIES_NUMBER
                      end
                 else JoiningServer
     | None => JoiningServer
     end) s.

(** One request to the registry; any answer counts. A report always has a JSON text. *)
Definition post_once (ok : bool) (pid : Z) (todo : list Z) (tries : nat) (s : Life) : Life :=
  let s := set_posted (posted s ++ [(pid, ok)]) s in
  if ok || (tries - 1 =? 0)%nat
  then set_phase (match todo with [] => after_posts | _ => Posting todo TRIES_NUMBER end) s
  else set_phase (Posting (pid :: todo) (tries - 1)) s.

(** Whether the consumer and the HTTP server hold the sender of the application. *)
Definition consumer_holds (c : Consumer) : bool := match c with Ended | Panicked => false | _ => true end.

Definition life_step (l : Label) (s : Life) : option Life :=
  if finished s then None else
  match l with
  | KernelEvent e => Some (set_reader (ring s ++ [e]) (reader s) (queue s) s)
  | CtrlC => if handler s then Some (on_ctrl_c s) else None
  | RequestComes => if server s then Some (set_servers (S (clients s)) (server s) (app_terminate s) (app s) false s) else None
  | RequestDone => match clients s with
                   | S n => Some (set_servers n (server s) (app_terminate s) (app s) false s)
                   | O => None
                   end
  | WatcherFires pid =>
      if decide (pid ∈ watchers s)
      then Some (set_consumer (queue s) (consumer s) (loop s) (world s) (filter (fun p => p <> pid) (watchers s))
                   (set_signal true (handler s) (callback s) (shutdown s) s))
      else None
  | ReaderTakes => match ring s with
                   | e :: r => if reader s then Some (set_reader r true (queue s ++ [e]) s) else None
                   | [] => None
                   end
  | ReaderOverflow => if reader s then Some (set_reader (ring s) false (queue s) s) else None
  | ReaderEnds => match ring s with
                  | [] => if reader s && terminating s then Some (set_reader [] false (queue s) s) else None
                  | _ => None
                  end
  | ConsumerStarts handler_set =>
      match consumer s with
      | Starting => Some (if handler_set then set_phase Looping (set_signal (terminating s) true (callback s) (shutdown s) s)
                          else set_phase Ended (set_signal (terminating s) false false SenderGone s))
      | _ => None
      end
  | ConsumerTakes clock =>
      match consumer s, queue s with
      | Looping, (e, buffered) :: q => Some (take_event clock e buffered q s)
      | _, _ => None
      end
  | ConsumerLeaves client_built =>
      match consumer s, queue s with
      | Looping, [] => if reader s then None else Some (leave_loop client_built s)
      | _, _ => None
      end
  | ConsumerPosts ok =>
      match consumer s with
      | Posting (pid :: todo) tries => Some (post_once ok pid todo tries s)
      | _ => None
      end
  | ConsumerJoinsServer =>
      match consumer s with
      | JoiningServer => if server s then None else Some (set_phase JoiningReader s)
      | _ => None
      end
  | ConsumerJoinsReader =>
      match consumer s with
      | JoiningReader =>
          if reader s then None
          else Some (set_phase Ended (set_servers (clients s) (server s) true (app s) false s))
      | _ => None
      end
  | ServerEnds =>
      match shutdown s with
      | Sent => if server s && (clients s =? 0)%nat then Some (set_servers 0 false (app_terminate s) (app s) false s) else None
      | SenderGone => if server s then Some (set_servers 0 false (app_terminate s) (app s) false s) else None
      | NotSent => None
      end
  | AppEnds =>
      if app s && (app_terminate s || negb (consumer_holds (consumer s) || server s))
      then Some (set_servers (clients s) (server s) (app_terminate s) false false s) else None
  | MainEnds =>
      if app s then None
      else if consumer_holds (consumer s) then None
      else Some (set_servers (clients s) (server s) (app_terminate s) false true s)
  end.

(** The steps of the process itself. *)
Definition program (l : Label) : bool :=
  match l with
  | KernelEvent _ | CtrlC | RequestComes | RequestDone | WatcherFires _ => false
  | _ => true
  end.

(** Steps in a row. *)
Fixpoint life_steps (ls : list Label) (s : Life) : option Life :=
  match ls with
  | [] => Some s
  | l :: ls => s ← life_step l s; life_steps ls s
  end.

Lemma life_steps_app ls1 ls2 s : life_steps (ls1 ++ ls2) s = life_steps ls1 s ≫= life_steps ls2.
Proof. revert s. induction ls1 as [|l ls1 IH]; intros s; [done|]. cbn. by destruct (life_step l s); cbn. Qed.

(** * Reports *)

Lemma connection_watching inc a md b (l l' : Loop G Cn) (w w' : W) :
  connection inc a md b l w = (l', w') -> dom (watching l') = dom (watching l).
Proof.
  unfold connection, close_old. intros E. destruct (p2p_cns _ !! _); cbn in E.
  - destruct (on_disconnect _ _ _ w) as [r w1]. destruct (on_connect _ _ _ _ _ _ w1) as [[r2 w2] ?].
    simplify_eq/=. by rewrite dom_alter_L.
  - destruct (on_connect _ _ _ _ _ _ w) as [[r2 w2] ?]. simplify_eq/=. by rewrite dom_alter_L.
Qed.

Lemma data_event_watching p f inc data t bt d b (l l' : Loop G Cn) (w w' : W) :
  data_event p f inc data t bt d b l w = Ret (l', w') -> dom (watching l') = dom (watching l).
Proof.
  unfold data_event, pipe_data. intros E. case_decide; [by simplify_eq|].
  destruct (_ || _).
  - case_decide; [simplify_eq/=; by rewrite dom_alter_L|].
    destruct (Capnp.process _ _ _ _ _ _ _ w) as [[[[[x1 x2] x3] x4] [|]]| |]; simplify_eq/=; by rewrite dom_alter_L.
  - destruct (f =? 2); [by simplify_eq|]. destruct (p2p_cns l !! _) as [a|]; [|by simplify_eq].
    destruct (on_data _ _ _ _ _ w) as [[r w1]| |]; simplify_eq/=. by rewrite dom_alter_L.
Qed.

(** The loop begins to watch at most the process of the event. *)
Lemma handle_event_watching clock e b (l l' : Loop G Cn) (w w' : W) :
  handle_event clock e b l w = Ret (l', w') -> dom (watching l') ⊆ {[sn_pid e]} ∪ dom (watching l).
Proof.
  unfold handle_event. destruct (event_time _ _ _) as [t l1] eqn:E1. destruct (better_time _ _ l1) as [bt l2] eqn:E2.
  assert (watching l2 = watching l) as EW.
  { unfold event_time in E1. unfold better_time in E2. cbn in *.
    destruct (origin l); by simplify_eq. }
  assert (forall l3 : Loop G Cn, dom (watching l3) = dom (watching l2) ->
            dom (watching l3) ⊆ {[sn_pid e]} ∪ dom (watching l)) as HK by (intros l3 ->; rewrite EW; set_solver).
  destruct (sn_variant e); intros E;
    repeat match type of E with
    | context [if ?c then _ else _] => destruct c
    | context [match ?x with Some _ => _ | None => _ end] => destruct x eqn:?
    | (let '(_, _) := ?f in _) = _ => destruct f eqn:?
    end; simplify_eq/=; try (apply HK; done).
  { rewrite dom_insert_L, EW. set_solver. }
  all: apply HK; first [by eapply data_event_watching|etrans; [by eapply connection_watching|done]].
Qed.

Lemma reported_length (l : Loop G Cn) : length (reported l) = size (dom (watching l)).
Proof. unfold reported. by rewrite sort_by_perm. Qed.

(** * The process ends *)

(** A bound on the steps that are left without anything from outside. *)
Definition phase_cost (n : nat) (c : Consumer) : nat :=
  match c with
  | Starting => 62 * n + 8
  | Looping => 62 * n + 7
  | Posting [] _ => 5
  | Posting (_ :: todo) tries => 61 * length todo + tries + 4
  | JoiningServer => 3
  | JoiningReader => 2
  | WaitingForever | Ended | Panicked | Hung => 0
  end.

Definition life_cost (s : Life) : nat :=
  130 * length (ring s) + 128 * length (queue s) + phase_cost (size (dom (watching (loop s)))) (consumer s) +
  Nat.b2n (reader s) + Nat.b2n (server s) + Nat.b2n (app s) + Nat.b2n (negb (finished s)).

Lemma take_event_cost clock e b q (s : Life) :
  consumer s = Looping -> queue s = (e, b) :: q -> (life_cost (take_event clock e b q s) < life_cost s)%nat.
Proof.
  intros Ec Eq. unfold take_event, life_cost. rewrite Ec, Eq. cbn [length].
  destruct e as [e|]; [|cbn; lia].
  destruct (handle_event clock e b (loop s) (world s)) as [[l w]| |] eqn:E; [|cbn; rewrite Eq; cbn; lia..].
  apply handle_event_watching, subseteq_size in E. rewrite size_union_alt, size_singleton in E. cbn.
  pose proof (subseteq_size (dom (watching (loop s)) ∖ {[sn_pid e]}) (dom (watching (loop s))) ltac:(set_solver)).
  lia.
Qed.

Lemma after_posts_cost n : (phase_cost n (after_posts) <= 3)%nat.
Proof. unfold after_posts. destruct (st_wait_forever cfg); cbn; lia. Qed.

Lemma leave_loop_cost b (s : Life) :
  consumer s = Looping -> (life_cost (leave_loop b s) < life_cost s)%nat.
Proof.
  intros Ec. unfold leave_loop, life_cost. cbn. rewrite Ec. cbn [phase_cost].
  pose proof (after_posts_cost (size (dom (watching (loop s))))) as HA.
  pose proof (reported_length (loop s)) as HL.
  destruct (st_registry cfg); [|cbn; lia]. destruct b; [|cbn; lia].
  destruct (reported (loop s)) as [|x r]; [lia|]. cbn [phase_cost TRIES_NUMBER] in *. unfold TRIES_NUMBER.
  cbn [length] in HL. lia.
Qed.

Lemma post_once_cost ok pid todo tries (s : Life) :
  consumer s = Posting (pid :: todo) tries -> (life_cost (post_once ok pid todo tries s) < life_cost s)%nat.
Proof.
  intros Ec. pose proof (after_posts_cost (size (dom (watching (loop s))))) as HA.
  unfold post_once, life_cost. rewrite Ec. destruct (ok || _) eqn:E; cbn.
  - destruct todo as [|x todo]; cbn; [lia|]. unfold TRIES_NUMBER. lia.
  - apply orb_false_iff in E as [_ E%Nat.eqb_neq]. lia.
Qed.

Lemma program_step_cost l (s s' : Life) :
  program l = true -> life_step l s = Some s' -> (life_cost s' < life_cost s)%nat.
Proof.
  intros Hp E. unfold life_step in E. destruct (finished s) eqn:Ef; [done|].
  destruct l; try done; clear Hp.
  - destruct (ring s) as [|e r] eqn:Er; [done|]. destruct (reader s) eqn:Ed; [|done]. injection E as <-.
    unfold life_cost. cbn. rewrite Er, Ed, length_app. cbn. lia.
  - destruct (reader s) eqn:Ed; [|done]. injection E as <-. unfold life_cost. cbn. rewrite Ed. cbn. lia.
  - destruct (ring s) eqn:Er; [|done]. destruct (reader s) eqn:Ed; [|done]. destruct (terminating s); [|done].
    injection E as <-. unfold life_cost. cbn. rewrite Er, Ed. cbn. lia.
  - destruct (consumer s) eqn:Ec; try done. injection E as <-. unfold life_cost. destruct handler_set; cbn; rewrite Ec; cbn; lia.
  - destruct (consumer s) eqn:Ec; try done. destruct (queue s) as [|[e b] q] eqn:Eq; [done|]. injection E as <-.
    by apply take_event_cost.
  - destruct (consumer s) eqn:Ec; try done. destruct (queue s) eqn:Eq; [|done]. destruct (reader s); [done|].
    injection E as <-. by apply leave_loop_cost.
  - destruct (consumer s) as [| |[|pid todo] tries| | | | | |] eqn:Ec; try done. injection E as <-. by apply post_once_cost.
  - destruct (consumer s) eqn:Ec; try done. destruct (server s); [done|]. injection E as <-.
    unfold life_cost. cbn. rewrite Ec. cbn. lia.
  - destruct (consumer s) eqn:Ec; try done. destruct (reader s) eqn:Ed; [done|]. injection E as <-.
    unfold life_cost. cbn. rewrite Ec, Ed, Ef. cbn. lia.
  - destruct (shutdown s); [done|..]; (destruct (server s) eqn:Es; [|done]).
    + destruct (clients s =? 0)%nat; [|done]. injection E as <-. unfold life_cost. cbn. rewrite Es, Ef. cbn. lia.
    + injection E as <-. unfold life_cost. cbn. rewrite Es, Ef. cbn. lia.
  - destruct (app s) eqn:Ea; [|done]. cbn in E. destruct (_ || _) in E; [|done]. injection E as <-.
    unfold life_cost. cbn. rewrite Ea, Ef. cbn. lia.
  - destruct (app s) eqn:Ea; [done|]. destruct (consumer_holds _); [done|]. injection E as <-.
    unfold life_cost. cbn. rewrite Ea, Ef. cbn. lia.
Qed.

(** A thread can always go on unless the process waits for something from outside. *)
Definition signalled (s : Life) : Prop := terminating s = true /\ shutdown s <> NotSent.

Definition posting_ok (s : Life) : Prop := forall tries, consumer s <> Posting [] tries.

Definition stuck (s : Life) : Prop := forall l, program l = true -> life_step l s = None.

Lemma stuck_finished (s : Life) :
  signalled s -> posting_ok s -> clients s = O -> consumer s <> WaitingForever -> consumer s <> Hung ->
  stuck s -> finished s = true.
Proof.
  intros [Ht Hs] Hp Hc Hw Hh HS. destruct (finished s) eqn:Ef; [done|]. exfalso.
  assert (server s = false) as Es.
  { pose proof (HS ServerEnds eq_refl) as E. unfold life_step in E. rewrite Ef, Hc in E.
    destruct (shutdown s); [done|..]; by destruct (server s). }
  assert (reader s = false) as Ed.
  { pose proof (HS ReaderEnds eq_refl) as E. pose proof (HS ReaderTakes eq_refl) as E2.
    unfold life_step in E, E2. rewrite Ef, Ht in *. destruct (ring s); by destruct (reader s). }
  assert (consumer_holds (consumer s) = false) as Ec.
  { destruct (consumer s) as [| |[|pid todo] tries| | | | | |] eqn:Ec; try done; exfalso.
    - specialize (HS (ConsumerStarts true) eq_refl). unfold life_step in HS. by rewrite Ef, Ec in HS.
    - destruct (queue s) as [|[e b] q] eqn:Eq.
      + specialize (HS (ConsumerLeaves true) eq_refl). unfold life_step in HS. by rewrite Ef, Ec, Eq, Ed in HS.
      + specialize (HS (ConsumerTakes (mkClock 0 0 0)) eq_refl). unfold life_step in HS. by rewrite Ef, Ec, Eq in HS.
    - by apply (Hp tries).
    - specialize (HS (ConsumerPosts true) eq_refl). unfold life_step in HS. by rewrite Ef, Ec in HS.
    - specialize (HS ConsumerJoinsServer eq_refl). unfold life_step in HS. by rewrite Ef, Ec, Es in HS.
    - specialize (HS ConsumerJoinsReader eq_refl). unfold life_step in HS. by rewrite Ef, Ec, Ed in HS. }
  assert (app s = false) as Ea.
  { pose proof (HS AppEnds eq_refl) as E. unfold life_step in E. rewrite Ef, Ec, Es, orb_true_r in E.
    by destruct (app s). }
  specialize (HS MainEnds eq_refl). unfold life_step in HS. by rewrite Ef, Ea, Ec in HS.
Qed.


(** ** Along a run *)

(** What the signals say of each other. *)
Record life_inv (s : Life) : Prop := {
  li_posting : posting_ok s;
  li_callback : callback s = true -> shutdown s = NotSent;
  li_server : shutdown s = NotSent -> server s = true;
  li_handler : handler s = true -> callback s = false -> shutdown s <> NotSent;
  li_start : consumer s = Starting -> handler s = false /\ callback s = true;
}.

Lemma life_new_inv boot w : life_inv (life_new boot w).
Proof. split; cbn; done || (intros ? ?; done). Qed.

Lemma after_posts_phase tries : after_posts <> Posting [] tries /\ after_posts <> Starting.
Proof. unfold after_posts. by destruct (st_wait_forever cfg). Qed.

Lemma leave_loop_phase b (s : Life) tries :
  consumer (leave_loop b s) <> Posting [] tries /\ consumer (leave_loop b s) <> Starting.
Proof.
  unfold leave_loop. cbn. destruct (st_registry cfg); [|done]. destruct b; [|done].
  destruct (reported (loop s)); [apply after_posts_phase|done].
Qed.

Lemma post_once_phase ok pid todo n (s : Life) tries :
  consumer (post_once ok pid todo n s) <> Posting [] tries /\ consumer (post_once ok pid todo n s) <> Starting.
Proof.
  unfold post_once. destruct (_ || _); [|done]. cbn. destruct todo; [apply after_posts_phase|done].
Qed.

Lemma take_event_phase clock e b q (s : Life) tries :
  consumer (take_event clock e b q s) <> Posting [] tries /\ consumer (take_event clock e b q s) <> Starting.
Proof. unfold take_event. destruct e; [|done]. by destruct (handle_event _ _ _ _ _) as [[? ?]| |]. Qed.

(** Steps of the consumer that only change its phase. *)
Lemma phase_inv (s s' : Life) :
  life_inv s -> callback s' = callback s -> shutdown s' = shutdown s -> server s' = server s ->
  handler s' = handler s -> (forall tries, consumer s' <> Posting [] tries /\ consumer s' <> Starting) ->
  life_inv s'.
Proof.
  intros [P1 P2 P3 P4 P5] E1 E2 E3 E4 Hp. split; rewrite ?E1, ?E2, ?E3, ?E4; try done.
  - intros tries. apply Hp.
  - intros E. by destruct (Hp O).
Qed.

Lemma take_event_signals clock e b q (s : Life) :
  let s' := take_event clock e b q s in
  callback s' = callback s /\ shutdown s' = shutdown s /\ server s' = server s /\ handler s' = handler s /\
  terminating s' = terminating s.
Proof. cbn. unfold take_event. destruct e; [|done]. by destruct (handle_event _ _ _ _ _) as [[? ?]| |]. Qed.

Lemma post_once_signals ok pid todo n (s : Life) :
  let s' := post_once ok pid todo n s in
  callback s' = callback s /\ shutdown s' = shutdown s /\ server s' = server s /\ handler s' = handler s /\
  terminating s' = terminating s.
Proof. cbn. unfold post_once. by destruct (_ || _). Qed.

Lemma life_step_inv l (s s' : Life) : life_inv s -> life_step l s = Some s' -> life_inv s'.
Proof.
  intros HI E. unfold life_step in E. destruct (finished s); [done|].
  pose proof HI as [P1 P2 P3 P4 P5]. destruct l.
  - injection E as <-. by split.
  - destruct (handler s) eqn:Eh; [|done]. injection E as <-. unfold on_ctrl_c.
    assert (consumer s <> Starting) as Hn by (intros E; by destruct (P5 E)).
    destruct (callback s); [|split; cbn; by auto]. rewrite P3 by auto. by split.
  - destruct (server s) eqn:Es; [|done]. injection E as <-. by split.
  - destruct (clients s); [done|]. injection E as <-. by split.
  - case_decide; [|done]. injection E as <-. by split.
  - destruct (ring s); [done|]. destruct (reader s); [|done]. injection E as <-. by split.
  - destruct (reader s); [|done]. injection E as <-. by split.
  - destruct (ring s); [|done]. destruct (reader s && _); [|done]. injection E as <-. by split.
  - destruct (consumer s) eqn:Ec; try done. injection E as <-. destruct (P5 eq_refl) as [Eh Eb].
    destruct handler_set; split; cbn; try done. by rewrite Eb.
  - destruct (consumer s) eqn:Ec; try done. destruct (queue s) as [|[e b] q]; [done|]. injection E as <-.
    destruct (take_event_signals clock e b q s) as (E1 & E2 & E3 & E4 & _).
    apply (phase_inv s); auto. intros. apply take_event_phase.
  - destruct (consumer s) eqn:Ec; try done. destruct (queue s); [|done]. destruct (reader s); [done|].
    injection E as <-. apply (phase_inv s); auto. intros. apply leave_loop_phase.
  - destruct (consumer s) as [| |[|pid todo] n| | | | | |] eqn:Ec; try done. injection E as <-.
    destruct (post_once_signals ok pid todo n s) as (E1 & E2 & E3 & E4 & _).
    apply (phase_inv s); auto. intros. apply post_once_phase.
  - destruct (consumer s) eqn:Ec; try done. destruct (server s) eqn:Es; [done|]. injection E as <-.
    by apply (phase_inv s).
  - destruct (consumer s) eqn:Ec; try done. destruct (reader s); [done|]. injection E as <-.
    by apply (phase_inv s).
  - destruct (shutdown s) eqn:Eh; [done|..]; (destruct (server s) eqn:Es; [|done]).
    + destruct (clients s =? 0)%nat; [|done]. injection E as <-. split; cbn; rewrite ?Eh; done.
    + injection E as <-. split; cbn; rewrite ?Eh; done.
  - destruct (_ && _); [|done]. injection E as <-. by split.
  - destruct (app s); [done|]. destruct (consumer_holds _); [done|]. injection E as <-. by split.
Qed.

Lemma life_steps_ind (P : Life -> Prop) (Q : Label -> Prop) ls : forall s s',
  (forall l a b, Q l -> life_step l a = Some b -> P a -> P b) -> Forall Q ls ->
  life_steps ls s = Some s' -> P s -> P s'.
Proof.
  induction ls as [|l ls IH]; intros s s' Hs HQ E Hp; [by injection E as <-|].
  apply Forall_cons in HQ as [HQ1 HQ2]. cbn in E. destruct (life_step l s) as [s1|] eqn:E1; [|done].
  eapply (IH s1); eauto.
Qed.

Lemma signalled_step l (s s' : Life) :
  program l = true -> life_step l s = Some s' -> signalled s -> signalled s'.
Proof.
  intros Hp E [Ht Hs]. unfold life_step in E. destruct (finished s); [done|]. unfold signalled.
  destruct l as [| | | | | | | |[|]|clock| |ok| | | | |]; try done; clear Hp;
    repeat case_match; simplify_eq; try by split.
  - match goal with |- context [take_event ?c ?e ?b ?q s] => destruct (take_event_signals c e b q s) as (_ & -> & _ & _ & ->) end.
    by split.
  - match goal with |- context [post_once ?a ?b ?c ?d s] => destruct (post_once_signals a b c d s) as (_ & -> & _ & _ & ->) end.
    by split.
  - split; cbn; congruence.
  - split; cbn; congruence.
Qed.

Lemma program_steps_bound ls : forall s s',
  Forall (fun l => program l = true) ls -> life_steps ls s = Some s' -> (length ls <= life_cost s)%nat.
Proof.
  induction ls as [|l ls IH]; intros s s' HQ E; [cbn; lia|].
  apply Forall_cons in HQ as [HQ1 HQ2]. cbn in E. destruct (life_step l s) as [s1|] eqn:E1; [|done].
  pose proof (program_step_cost _ _ _ HQ1 E1). pose proof (IH s1 s' HQ2 E). cbn [length]. lia.
Qed.

(** After Ctrl-C the process ends. *)
Lemma ctrl_c_ends boot w ls0 (s s1 : Life) ls s2 :
  life_steps ls0 (life_new boot w) = Some s -> life_step CtrlC s = Some s1 ->
  Forall (fun l => program l = true) ls -> life_steps ls s1 = Some s2 ->
  (length ls <= life_cost s1)%nat /\
  (stuck s2 -> clients s2 = O ->
     finished s2 = true \/ consumer s2 = WaitingForever \/ consumer s2 = Hung).
Proof.
  intros E0 E1 HP E2. split; [by eapply program_steps_bound|]. intros HS Hc.
  assert (life_inv s1 /\ signalled s1) as [I1 S1].
  { assert (life_inv s) as HI.
    { eapply (life_steps_ind life_inv (fun _ => True)); [|by apply Forall_true|exact E0|apply life_new_inv].
      intros l a b _ E HI. by eapply life_step_inv. }
    split; [by eapply life_step_inv|]. unfold life_step in E1. destruct (finished s); [done|].
    destruct (handler s) eqn:Eh; [|done]. injection E1 as <-. unfold on_ctrl_c. destruct HI as [_ P2 P3 P4 _].
    destruct (callback s); [rewrite P3 by auto; by split|]. split; cbn; [done|]. by apply P4. }
  assert (life_inv s2 /\ signalled s2) as [I2 S2].
  { eapply (life_steps_ind (fun a => life_inv a /\ signalled a) (fun l => program l = true)); [|exact HP|exact E2|done].
    intros l a b Hl E [? ?]. split; [by eapply life_step_inv|by eapply signalled_step]. }
  destruct (consumer s2) eqn:Ec; auto; left; apply stuck_finished; try done; try (by rewrite Ec); apply I2.
Qed.

(** Nothing else ends it: without Ctrl-C the HTTP server stays and [main] does not return,
    also when all watched processes are gone and the reader has stopped. *)
Definition serving (s : Life) : Prop :=
  shutdown s = NotSent /\ server s = true /\ app_terminate s = false /\ app s = true /\ finished s = false /\
  consumer s <> JoiningReader /\ consumer s <> Ended.

Lemma take_event_serving clock e b q (s : Life) : serving s -> serving (take_event clock e b q s).
Proof. unfold take_event. destruct e; [destruct (handle_event _ _ _ _ _) as [[? ?]| |]|]; unfold serving; cbn; naive_solver. Qed.

Lemma leave_loop_serving b (s : Life) : serving s -> serving (leave_loop b s).
Proof.
  unfold leave_loop, after_posts, serving. cbn.
  destruct (st_registry cfg), b, (reported (loop s)), (st_wait_forever cfg); naive_solver.
Qed.

Lemma post_once_serving ok pid todo n (s : Life) : serving s -> serving (post_once ok pid todo n s).
Proof.
  unfold post_once, after_posts, serving. destruct (ok || _), todo, (st_wait_forever cfg); cbn; naive_solver.
Qed.

Lemma serving_step l (s s' : Life) :
  l <> CtrlC /\ l <> ConsumerStarts false -> life_step l s = Some s' -> serving s -> serving s'.
Proof.
  intros [Hl1 Hl2] E HS. pose proof HS as (S1 & S2 & S3 & S4 & S5 & S6 & S7). unfold life_step in E.
  rewrite S1, S2, S3, S4, S5 in E. destruct l as [| | | | | | | |[|]|clock| |ok| | | | |]; try done;
    try solve [repeat case_match; simplify_eq; unfold serving; cbn; naive_solver].
  - repeat case_match; simplify_eq. by apply take_event_serving.
  - repeat case_match; simplify_eq. by apply leave_loop_serving.
  - repeat case_match; simplify_eq. by apply post_once_serving.
  - by rewrite orb_true_r in E.
Qed.

Lemma only_ctrl_c_ends boot w ls (s : Life) :
  Forall (fun l => l <> CtrlC /\ l <> ConsumerStarts false) ls ->
  life_steps ls (life_new boot w) = Some s -> finished s = false /\ server s = true.
Proof.
  intros HF E. assert (serving s) as HS; [|split; apply HS].
  eapply (life_steps_ind serving); [exact serving_step|exact HF|exact E|].
  unfold serving. cbn. repeat split; done.
Qed.


(** * Posting the reports *)

(** A report is posted until it is answered, at most [TRIES_NUMBER] times: after [k]
    failures it is still posted, and the last failure or an answer ends it. *)
Lemma post_failures pid todo (s : Life) (k tries : nat) :
  consumer s = Posting (pid :: todo) tries -> finished s = false -> (k < tries)%nat ->
  exists s', life_steps (replicate k (ConsumerPosts false)) s = Some s' /\
    consumer s' = Posting (pid :: todo) (tries - k) /\ posted s' = posted s ++ replicate k (pid, false) /\
    finished s' = false.
Proof.
  revert s tries. induction k as [|k IH]; intros s tries Hc Hf Hk.
  { exists s. by rewrite app_nil_r, Nat.sub_0_r. }
  cbn [replicate life_steps]. unfold life_step at 1. rewrite Hf, Hc. cbn [mbind option_bind].
  set (s1 := post_once false pid todo tries s).
  assert (consumer s1 = Posting (pid :: todo) (tries - 1) /\ posted s1 = posted s ++ [(pid, false)] /\ finished s1 = false)
    as (C1 & P1 & F1).
  { unfold s1, post_once. replace (tries - 1 =? 0)%nat with false by (symmetry; apply Nat.eqb_neq; lia). by cbn. }
  destruct (IH s1 (tries - 1)%nat C1 F1 ltac:(lia)) as (s2 & E & C2 & P2 & F2).
  exists s2. split; [done|]. split; [rewrite C2; f_equal; lia|]. split; [|done].
  by rewrite P2, P1, <- app_assoc.
Qed.

Lemma report_posts pid todo (s : Life) (k : nat) (ok : bool) :
  consumer s = Posting (pid :: todo) TRIES_NUMBER -> finished s = false ->
  (k < TRIES_NUMBER)%nat -> ok = true \/ S k = TRIES_NUMBER ->
  exists s', life_steps (replicate k (ConsumerPosts false) ++ [ConsumerPosts ok]) s = Some s' /\
    posted s' = posted s ++ replicate k (pid, false) ++ [(pid, ok)] /\
    consumer s' = match todo with [] => after_posts | _ => Posting todo TRIES_NUMBER end.
Proof.
  intros Hc Hf Hk Hok. destruct (post_failures pid todo s k _ Hc Hf Hk) as (s1 & E & C1 & P1 & F1).
  exists (post_once ok pid todo (TRIES_NUMBER - k) s1). split.
  { rewrite life_steps_app, E. cbn. unfold life_step. by rewrite F1, C1. }
  unfold post_once. replace (ok || _) with true; [cbn; by rewrite P1, <- app_assoc|].
  destruct Hok as [->|Hk']; [done|]. by replace (TRIES_NUMBER - k - 1)%nat with O by lia; rewrite orb_true_r.
Qed.

End life.

(** * Examples *)

(** The helper must be watched as long as its command line starts with its name. *)
Example watch_examples :
  watch_turn (replicate 5 (Some (str "coda-libp2p_helper -x"))) = false /\
  watch_turn [Some []; Some []; Some (str "coda-libp2p_helper")] = false /\
  watch_turn (replicate 5 (Some (str "bash"))) = true /\ watch_turn [None] = true.
Proof. vm_compute. by repeat split. Qed.

Example origin_examples :
  origin_of (Some [Some (str "cpu  1 2"); Some (str "btime 1700000000"); Some (str "processes 7")])
    = Some (1700000000 * NANOS) /\
  origin_of (Some [Some (str "btime x")]) = None /\ origin_of (Some [Some (str "btime 5"); None]) = None /\
  origin_of None = None.
Proof. vm_compute. by repeat split. Qed.

Example settings_examples :
  st_port (settings (fun _ => None)) = 8000 /\
  st_port (settings (fun k => if decide (k = str "SERVER_PORT") then Some (str "80000") else None)) = 8000 /\
  st_port (settings (fun k => if decide (k = str "SERVER_PORT") then Some (str "80") else None)) = 80.
Proof. vm_compute. by repeat split. Qed.

Section run.
#[local] Instance demo_crc64 : Crc64 := fun c data => foldl Z.add c data.
#[local] Instance demo_capnp_db : CapnpDb (list bytes) := fun _ _ _ _ _ w => (w, Ok tt).

Definition demo_env (k : bytes) : option bytes :=
  if decide (k ∈ [str "TERMINATE"; str "REGISTRY"]) then Some (str "host") else None.

(** A helper starts and ends; the reader and the loop stop, and its report is posted. *)
Definition demo_labels : list Label :=
  [ConsumerStarts true;
   KernelEvent (Some (mkSnifferEvent 7 7 0 1 1 (NewApp (str "berkeley-10.0.0.9"))), 0);
   ReaderTakes; ConsumerTakes (mkClock 1 1 1); WatcherFires 7; ReaderEnds; ConsumerLeaves true;
   ConsumerPosts false; ConsumerPosts true].

Definition demo_life : Life (list bytes) unit Sink := life_new (settings demo_env) None [].

Definition demo_after (ls : list Label) : Life (list bytes) unit Sink :=
  default demo_life (life_steps (settings demo_env) ls demo_life).

Definition demo_end : list Label :=
  [ServerEnds; ConsumerJoinsServer; ConsumerJoinsReader; AppEnds; MainEnds].

(** It then waits for the HTTP server, which nobody ends. *)
Example watched_process_gone :
  let s := demo_after demo_labels in
  posted s = [(7, false); (7, true)] /\ consumer s = JoiningServer /\ stuck (settings demo_env) s /\ finished s = false.
Proof.
  vm_compute. split; [done|]. split; [done|]. split; [|done]. intros l Hl. by destruct l.
Qed.


End run.
